(* ===== verification/_CoqProject ===== *)
-Q . S2P
Prelude.v
Double.v
Shared.v
Ipc.v
Belt.v
SessionManager.v
Truck.v
Dispatcher.v
Express.v
Manager.v
Worker.v
Terminal.v
Config.v
Args.v
Master.v
Processes.v
Logic.v
Rules.v
Invariants.v
BeltProof.v
DockProof.v
ProcessProof.v
Safety.v
Fairness.v
Liveness.v
Shutdown.v
Signals.v
DockSection.v
Halt.v
Departure.v
Orchestra.v
Deployment.v
Contracts.v
ExpressContract.v
Console.v
Delivery.v
StaleSignals.v
Findings.v
Tests.v
