(* ===== verification/Prelude.v ===== *)
(** * Warehouse of a forwarding company: a verification development

    ** The program

    The sources under [src/] simulate the warehouse of a forwarding company
    with several processes: workers ([src/src/main_worker.cpp],
    [src/include/Worker.h]) put packages on a conveyor belt, a dispatcher
    ([main_dispatcher.cpp], [Dispatcher.h]) takes them off and loads them on
    the truck at the dock, trucks ([main_truck.cpp], [Truck.h]) take turns at
    the dock, an express worker ([main_express.cpp], [Express.h]) loads
    priority batches directly, a monitor ([main_belt.cpp]) reports the state
    of the belt, and an operator console ([main_terminal.cpp],
    [src/include/terminal/]) sends signals and stops the system.  A master
    process ([main.cpp]) creates the resources, starts the others, watches
    them, and signals them and removes the resources at the end.  They share
    one System V memory segment ([Shared.h]), a set of four semaphores (belt
    mutex, dock mutex, empty slots, full slots) and a message queue, all
    behind [Manager.h]; sessions and quotas are kept in the segment by
    [SessionManager.h].

    ** How it is modelled

    - [Prelude]: tactics, hint database, machine integers, list lemmas.
      [Double]: binary64 arithmetic as specification floats.
    - [Shared]: constants, enums with their bit operations, the structs as
      records, [Package::pushAction].
    - [Ipc]: the kernel state ([world]: segment, semaphores, queue, log), the
      type [prog] of process programs, one step of a program ([estep]), the
      uninterrupted run ([exec], [runs]) and the interleaving of processes
      ([sys_step], [steps], [calm_steps]).  Every load and every store of the
      sources is a step of its own, so any two processes interleave between
      any two accesses.  Random numbers, input and signals are answers of the
      environment; undefined behaviour of C++ is an explicit outcome
      ([Undef]), and so is [exit()].
    - [Belt], [SessionManager], [Truck], [Dispatcher], [Express], [Manager],
      [Worker], [Terminal], [Config]: one file per header, one definition per
      method, the injected callbacks as record fields.  [Args]: the numbers
      in [argv].  [Master]: the program of [main.cpp].  [Processes]: the seven
      [main] functions as programs, their signal handlers as functions on the
      flags they write, the images of the build, and [boot], the system right
      after the owner created the resources.
    - [Logic]: a small concurrent separation logic for these programs, [wp],
      with its soundness proof: a mutex owns a part of the segment and of the
      log, counting semaphores hand out permits, the global invariant [inv]
      is preserved by every calm step.  It also records what progress needs: a
      loop comes back to its test with no mutex, permit or package of its own,
      a critical section never waits for a permit or a message, and a process
      waits only for messages to itself.  The class [Protocol] is the interface
      by which an application supplies the invariants of its mutexes.
    - [Rules]: derived rules, execution tactics, and the classes ([BeltLock],
      [DockLock], [EmptyPermits], [FullPermits], [SignalSender],
      [SignalReceiver]) that state what a component expects of its callbacks.
    - [Invariants]: the invariants of the two mutexes, and two executable
      specifications of the log: a bounded FIFO queue and a dock.
    - [BeltProof], [DockProof]: the components verified against the classes.
      [ProcessProof]: the manager's wrappers as instances, every [main], and
      the initial state.
    - [Fairness]: infinite runs as functions of time ([execution], [is_run]),
      weak and strong fairness of the scheduler, and rules that combine what
      leads to what; from them, that mutexes are released and operations end.
      [Liveness], [Departure]: the eventual behaviour of the warehouse in fair
      runs of the booted system, with concrete fair runs ([day], [trip]) for
      which all assumptions are checked.
    - [Signals], [DockSection], [Halt]: structural conditions on programs in the
      manner of [settles], without the locking discipline where it is not
      needed: who is sent which signal, where the section of the dock is and who
      owns it, what a dispatcher does after the stop.  [StaleSignals]: the
      signals a dispatcher repeats, followed to their effect.
    - [Shutdown]: [settles], a structural condition on programs, and strong
      normalisation of any system of such programs once [running] is false and
      the semaphore set and the queue are removed; every process meets it.
    - [Orchestra]: the system under the master ([msys]): the table of
      processes, the signals on their way and the handlers that have run.
      [own_step]: [fork] with the image the child loads or fails to load,
      [waitpid], [kill], the delivery of a signal (it ends a process without
      handler, or runs the handler, which may interrupt a wait with EINTR), the
      destructor of the master's [Manager]; [user_step]: somebody sends a
      signal or starts a process by hand.  [plan] follows the master's program
      through the table.  [Deployment]: the invariant of this system.
    - [Contracts], [ExpressContract], [Console], [Delivery]: single operations
      and their composition, run undisturbed.
    - [Tests]: the unit tests of [src/test/] as programs of the model, all
      evaluated, so that the model is checked against what the authors expect.

    ** What is proved

    - [Safety] (C1 to C10, C12 to C14): for any number of processes of any kind, any
      interleaving and any inputs, as long as no blocked [semop] is
      interrupted and the semaphore set exists ([calm_steps]): the belt is a
      FIFO queue without loss, duplication or rejection; each package is
      loaded at most once; mutual exclusion; the ring buffer, the session
      table, the worker counter and the dock keep their invariants; no
      undefined behaviour except the overflow of a counter at [INT_MAX]; the
      holder of a mutex can always go on, and the states in which nobody can
      are known; all is released at the end.
    - [Liveness] (C11, C23, C33) and [Departure] (C15): in every fair infinite
      run of such a system mutexes are free again and again and every operation
      comes to its end; every package pushed is loaded on a truck, every worker
      that waits for a slot gets one, every truck with a signal leaves the dock.
      The assumptions are those of the environment: the scheduler is fair (a
      wait for a semaphore that can be served again and again is served in the
      end), no counter reaches [INT_MAX] ([no_overflow]), the message queue has
      room again and again where a signal is sent ([room_recurs]), and, for
      C23 and C33, the dispatcher comes back to the belt ([comes_back]), which
      needs a truck with room at the dock and so depends on what is drawn and
      typed.
    - [Deployment] (C17 to C20): a run under the master, with children lost or
      killed at any point and processes started by hand, is a run of the booted
      system until the resources are removed or a [semop] of a signalled
      process is interrupted, so [Safety] holds of it; after the end of the
      master every run terminates with no process left; an orderly end has
      started and signalled exactly the fleet; a failed [fork], or a signal
      that ends the master, leaves children and resources behind.  C18 to C20
      hold for all runs, with interrupted waits and in any state of the shared
      data.
    - [Signals] (C16): for all interleavings, with interrupted calls and removed
      resources included: every signal in the queue is addressed to a process
      that is meant to get it, and the end of work is announced only after the
      stop.
    - [Belt] (C21), [Contracts] (C22, C24 to C26, C28, C29, C31, C32) and
      [ExpressContract] (C30): what each operation does on every branch when it
      runs undisturbed, against abstract specifications where there are some;
      [exec] is one of the interleavings ([exec_is_a_schedule]).
    - [Console] (C34): what any line typed at the console can do, by role.
    - [Delivery] (C27, C35, C36): a turn of the dispatcher; packages reach the
      trucks in the order of the belt, in any interleaving; the way of one
      package from [push] to the departure of its truck.
    - [Findings] (C37, C39, C40) and [StaleSignals] (C38): where the code departs
      from its documentation or intention: a SIGTERM of the shutdown breaks
      mutual exclusion, because [semOperation] treats an interrupted wait as a
      success, so the condition of [Safety] is needed; repeated departure
      signals send the truck away empty; a package in the hand is lost at the
      stop; a process killed anywhere in the dock's section keeps the dock.

    ** Bounds and fuel

    [exec] is structural in the program; its fuel bounds only the rounds of
    unbounded loops, and [runs] quantifies over it, so contracts hold for any
    fuel; a turn of the dispatcher needs one round of its loop, and runs out of
    any fuel exactly while it waits for a truck (C27).  The
    theorems of [Safety] use the step relation, those of [Liveness] and
    [Departure] infinite runs; they need no fuel.
    Bounded loops of the sources (210 session slots, a batch of 3 to 5 items,
    ten naps) are structural recursions with exactly that many rounds.

    ** What is not modelled

    The log directory and the inside of the logging library (what [setupLogger]
    asks of it is in [Config]); the moment at which the [main] functions install
    their signal handlers (a process that has not made its first modelled step
    may be ended by a signal it handles later, and the handler of a worker may
    miss the worker object at any time, as it does before the object exists);
    what a handler does besides its flag, in particular logging; signals other
    than SIGINT and SIGTERM; the attachment of a child to the resources, which
    exist when it is forked; clock values; the reuse of process ids.  The kernel
    may refuse any call of the [Manager] constructor (C31); [semop], [msgsnd] and
    [msgrcv] fail by interruption, removal, range and an invalid type only.  When
    the handler of a worker finds the [Worker] object destroyed, its process
    makes no modelled step any more; the model does not follow the life of that
    object and allows this at any time.
    Uninitialised memory of the worker's local package is a parameter
    ([junk]).  Stores and loads of one scalar are taken as atomic and
    sequentially consistent.

    ** Plan

    Done: all components of the sources, safety of all interleavings, life
    cycle under the master, eventual behaviour in fair runs.  Open: which
    schedules of trucks and which draws make a dispatcher come back to the
    belt, so that [comes_back] is derived and not assumed. *)

From Stdlib Require Export ZArith Lia Ascii.
From stdpp Require Export base list list_numbers strings relations numbers option.

Global Open Scope Z_scope.
Global Open Scope list_scope.

(** ** Tactics *)

(** Split every boolean comparison on [Z] of the goal and the context
    into the proposition it decides. *)
Ltac zbool :=
  repeat match goal with
  | H : (_ && _)%bool = true |- _ => apply andb_true_iff in H; destruct H
  | H : (_ && _)%bool = false |- _ => apply andb_false_iff in H
  | H : (_ || _)%bool = true |- _ => apply orb_true_iff in H
  | H : (_ || _)%bool = false |- _ => apply orb_false_iff in H; destruct H
  | H : negb _ = true |- _ => apply negb_true_iff in H
  | H : negb _ = false |- _ => apply negb_false_iff in H
  | H : (_ <? _) = true |- _ => apply Z.ltb_lt in H
  | H : (_ <? _) = false |- _ => apply Z.ltb_ge in H
  | H : (_ <=? _) = true |- _ => apply Z.leb_le in H
  | H : (_ <=? _) = false |- _ => apply Z.leb_gt in H
  | H : (_ =? _) = true |- _ => apply Z.eqb_eq in H
  | H : (_ =? _) = false |- _ => apply Z.eqb_neq in H
  end.

(** Case analysis on the next [if] of the goal, with the test turned into
    a proposition. *)
Ltac case_if :=
  match goal with
  | |- context [if ?b then _ else _] =>
      let E := fresh "E" in destruct b eqn:E; zbool
  end.

(** The same on the next [if] of a hypothesis. *)
Ltac case_if_in H :=
  match type of H with
  | context [if ?b then _ else _] =>
      let E := fresh "E" in destruct b eqn:E; zbool
  end.

Create HintDb warehouse discriminated.

(** ** Machine integers

    A C [int] is a [Z]; the operations of the sources that can leave the
    range are guarded where they are modelled. *)

Definition INT_MAX : Z := 2147483647.
Definition INT_MIN : Z := -2147483648.
Definition in_int (z : Z) : bool := (INT_MIN <=? z) && (z <=? INT_MAX).

(** [0] or [1], for counting. *)
Definition b2z (b : bool) : Z := if b then 1 else 0.

(** ** Sums over lists of integers *)

Definition sumZ {A} (f : A -> Z) (l : list A) : Z := foldr (fun x a => f x + a) 0 l.

Lemma sumZ_app {A} (f : A -> Z) l1 l2 : sumZ f (l1 ++ l2) = sumZ f l1 + sumZ f l2.
Proof. induction l1 as [|x l1 IH]; cbn; [done|]. unfold sumZ in *. lia. Qed.

Lemma sumZ_insert {A} (f : A -> Z) (l : list A) i x y :
  l !! i = Some x -> sumZ f (<[i:=y]> l) = sumZ f l - f x + f y.
Proof.
  revert i; induction l as [|z l IH]; intros [|i] Hi; simplify_eq/=.
  - lia.
  - specialize (IH i Hi). unfold sumZ in *. lia.
Qed.

Lemma sumZ_nonneg {A} (f : A -> Z) (l : list A) :
  (forall x, x ∈ l -> 0 <= f x) -> 0 <= sumZ f l.
Proof.
  induction l as [|x l IH]; intros H; cbn; [lia|].
  assert (0 <= f x) by (apply H; set_solver).
  assert (0 <= sumZ f l) by (apply IH; set_solver). unfold sumZ in *. lia.
Qed.

(** A summand is at most the sum when every summand is non-negative. *)
Lemma sumZ_elem {A} (f : A -> Z) (l : list A) i x :
  (forall x, x ∈ l -> 0 <= f x) -> l !! i = Some x -> f x <= sumZ f l.
Proof.
  revert i; induction l as [|z l IH]; intros [|i] Hp Hi; simplify_eq/=.
  - assert (0 <= sumZ f l) by (apply sumZ_nonneg; set_solver). unfold sumZ in *. lia.
  - assert (0 <= f z) by (apply Hp; set_solver).
    assert (f x <= sumZ f l) by (eapply IH; [set_solver|done]). unfold sumZ in *. lia.
Qed.

(** Two distinct positions contribute separately. *)
Lemma sumZ_elem2 {A} (f : A -> Z) (l : list A) i j x y :
  (forall x, x ∈ l -> 0 <= f x) ->
  i <> j -> l !! i = Some x -> l !! j = Some y -> f x + f y <= sumZ f l.
Proof.
  revert i j; induction l as [|z l IH]; intros [|i] [|j] Hp Hij Hi Hj; simplify_eq/=.
  - assert (f y <= sumZ f l) by (eapply sumZ_elem; [set_solver|done]). unfold sumZ in *. lia.
  - assert (f x <= sumZ f l) by (eapply sumZ_elem; [set_solver|done]). unfold sumZ in *. lia.
  - assert (0 <= f z) by (apply Hp; set_solver).
    assert (f x + f y <= sumZ f l) by (eapply (IH i j); [set_solver|congruence|done|done]).
    unfold sumZ in *. lia.
Qed.

Lemma sumZ_count {A} (f : A -> Z) (l : list A) :
  (forall x, 0 <= f x <= 1) -> 0 <= sumZ f l <= Z.of_nat (length l).
Proof.
  intros H. induction l as [|x l IH]; cbn; [lia|]. specialize (H x). unfold sumZ in *. lia.
Qed.

Lemma sumZ_zero {A} (f : A -> Z) (l : list A) :
  (forall x, x ∈ l -> f x = 0) -> sumZ f l = 0.
Proof.
  induction l as [|x l IH]; intros H; cbn; [done|].
  assert (f x = 0) by (apply H; set_solver).
  assert (sumZ f l = 0) by (apply IH; set_solver). unfold sumZ in *. lia.
Qed.

(** A positive sum has a positive summand. *)
Lemma sumZ_pos {A} (f : A -> Z) (l : list A) : 0 < sumZ f l -> exists x, x ∈ l /\ 0 < f x.
Proof.
  induction l as [|x l IH]; cbn; intros H; [lia|]. destruct (Z.lt_ge_cases 0 (f x)) as [Hx|Hx].
  - exists x. split; [by left|done].
  - destruct IH as (y & Hy & Hfy); [unfold sumZ in *; lia|]. exists y. split; [by right|done].
Qed.

(** ** Pointwise reasoning on updated lists *)

Lemma lookup_insert_cases {A} (l : list A) i j x y :
  <[i:=x]> l !! j = Some y -> (i = j /\ y = x) \/ (i <> j /\ l !! j = Some y).
Proof.
  destruct (decide (i = j)) as [->|Hne].
  - intros H. assert (j < length l)%nat by (apply lookup_lt_Some in H; by rewrite length_insert in H).
    rewrite list_lookup_insert_eq in H by done. left; split; congruence.
  - rewrite list_lookup_insert_ne by done. auto.
Qed.

Lemma lookup_map {A B} (f : A -> B) (l : list A) i : map f l !! i = option_map f (l !! i).
Proof. revert i; induction l as [|x l IH]; intros [|i]; cbn; auto. Qed.

(** ** Concatenations of updated lists *)

Lemma mjoin_insert_perm {A B} (f : A -> list B) (l : list A) i x y :
  l !! i = Some x -> mjoin (map f (<[i:=y]> l)) ++ f x ≡ₚ mjoin (map f l) ++ f y.
Proof.
  revert i; induction l as [|z l IH]; intros [|i] Hi; simplify_eq/=.
  - solve_Permutation.
  - specialize (IH i Hi). rewrite <- !app_assoc. by rewrite IH.
Qed.

Lemma mjoin_insert_same {A B} (f : A -> list B) (l : list A) i x y :
  l !! i = Some x -> f y = f x -> mjoin (map f (<[i:=y]> l)) = mjoin (map f l).
Proof.
  revert i; induction l as [|z l IH]; intros [|i] Hi Hf; simplify_eq/=.
  - by rewrite Hf.
  - f_equal. by apply IH.
Qed.
