(* ===== verification/Double.v ===== *)
(** * IEEE-754 binary64 arithmetic

    The sources compute weights and volumes in C++ [double].  A double is
    modelled by the executable specification floats of the Rocq core
    library at precision 53 and maximal exponent 1024 (round to nearest,
    ties to even), so every rounding, NaN and infinity of the code is kept.
    A decimal literal is the correctly rounded quotient of two integers
    that are themselves exact. *)

From S2P Require Import Prelude.
From Corelib Require Export SpecFloat.

Declare Scope double_scope.
Delimit Scope double_scope with double.

Definition double : Type := spec_float.
Bind Scope double_scope with double.

Definition d_add (x y : double) : double := SFadd 53 1024 x y.
Definition d_sub (x y : double) : double := SFsub 53 1024 x y.
Definition d_mul (x y : double) : double := SFmul 53 1024 x y.
Definition d_leb (x y : double) : bool := SFleb x y.
Definition d_ltb (x y : double) : bool := SFltb x y.

(** [+0.0], which is also what [memset] to zero bytes leaves. *)
Definition d_zero : double := S754_zero false.

(** An integer literal, rounded to the nearest double. *)
Definition d_ofZ (z : Z) : double := binary_normalize 53 1024 z 0 false.

(** The decimal literal [num / den], correctly rounded when [num] and [den] are
    exactly representable. *)
Definition d_lit (num den : Z) : double := SFdiv 53 1024 (d_ofZ num) (d_ofZ den).

Infix "+" := d_add : double_scope.
Infix "-" := d_sub : double_scope.
Infix "*" := d_mul : double_scope.
Infix "<=?" := d_leb : double_scope.
Infix "<?" := d_ltb : double_scope.

(** The comparison is transitive through a positive finite bound: what lies
    above a positive number lies above zero. *)
Lemma d_leb_zero_trans m e x : (S754_finite false m e <=? x)%double = true -> (d_zero <=? x)%double = true.
Proof. destruct x as [s|s| |s ??]; try done; destruct s; done. Qed.

(** [<=] never holds with a NaN on either side. *)
Lemma d_leb_not_nan x y : (x <=? y)%double = true -> x <> S754_nan /\ y <> S754_nan.
Proof. destruct x, y; cbn; done. Qed.

#[global] Instance double_eq_dec : EqDecision double.
Proof. intros x y. unfold double in *. solve_decision. Defined.
