(* ===== verification/Shared.v ===== *)
(** * The shared data of [src/include/Shared.h]

    Constants, flag enumerations, the records that make up the shared
    memory segment, and the audit trail of a package. *)

From S2P Require Import Prelude Double.

(** ** Capacity constraints and system limits *)

Definition MAX_WORKERS_PER_BELT : Z := 100.
Definition MAX_BELT_CAPACITY_K : Z := 10.
Definition MAX_BELT_WEIGHT_M : double := d_ofZ 1000.
Definition VOL_A : double := d_lit 19456 1000000.
Definition VOL_B : double := d_lit 46208 1000000.
Definition VOL_C : double := d_lit 99712 1000000.
Definition SHM_KEY_ID : Z := 1234.
Definition SEM_KEY_ID : Z := 5678.
Definition MSG_KEY_ID : Z := 9012.
Definition MAX_PACKAGE_HISTORY : Z := 6.
Definition MAX_USERS_SESSIONS : Z := 210.

(** [sizeof(username)]. *)
Definition USERNAME_SIZE : nat := 32.

(** ** Semaphore indices and signals *)

Inductive SemIndex := SEM_MUTEX_BELT | SEM_EMPTY_SLOTS | SEM_FULL_SLOTS | SEM_DOCK_MUTEX.

Inductive SignalType := SIGNAL_NONE | SIGNAL_DEPARTURE | SIGNAL_EXPRESS_LOAD | SIGNAL_END_WORK.

(** [static_cast<int>(type)]. *)
Definition signal_to_int (s : SignalType) : Z :=
  match s with
  | SIGNAL_NONE => 0 | SIGNAL_DEPARTURE => 1 | SIGNAL_EXPRESS_LOAD => 2 | SIGNAL_END_WORK => 3
  end.

(** [static_cast<SignalType>(command_id)]; the enumeration has no value
    outside [0..3], and converting one is undefined. *)
Definition signal_of_int (z : Z) : option SignalType :=
  if z =? 0 then Some SIGNAL_NONE
  else if z =? 1 then Some SIGNAL_DEPARTURE
  else if z =? 2 then Some SIGNAL_EXPRESS_LOAD
  else if z =? 3 then Some SIGNAL_END_WORK
  else None.

(** ** Flag enumerations

    The [enum class] masks are the integers of their underlying unsigned
    type; the operators cast to that type, work bitwise and cast back. *)

Definition cast_u (w z : Z) : Z := z mod 2 ^ w.
Definition mask_or (w lhs rhs : Z) : Z := cast_u w (Z.lor (cast_u w lhs) (cast_u w rhs)).
Definition mask_and (w lhs rhs : Z) : Z := cast_u w (Z.land (cast_u w lhs) (cast_u w rhs)).
Definition mask_hasFlag (w value flag : Z) : bool :=
  negb (Z.land (cast_u w value) (cast_u w flag) =? 0).

Module PackageType.
Definition t : Type := Z.
Definition None : t := 0.
Definition TypeA : t := 1.
Definition TypeB : t := 2.
Definition TypeC : t := 4.
Definition All : t := 7.
Definition or : t -> t -> t := mask_or 8.
Definition and : t -> t -> t := mask_and 8.
Definition hasFlag : t -> t -> bool := mask_hasFlag 8.
End PackageType.

Module UserRole.
Definition t : Type := Z.
Definition None : t := 0.
Definition Viewer : t := 1.
Definition Operator : t := 2.
Definition OrgAdmin : t := 4.
Definition SysAdmin : t := 8.
Definition All : t := 15.
Definition or : t -> t -> t := mask_or 16.
Definition and : t -> t -> t := mask_and 16.
Definition hasFlag : t -> t -> bool := mask_hasFlag 16.
End UserRole.

Module PackageStatus.
Definition t : Type := Z.
Definition Normal : t := 0.
Definition Express : t := 1.
Definition Loaded : t := 2.
Definition or : t -> t -> t := mask_or 8.
Definition and : t -> t -> t := mask_and 8.
Definition hasFlag : t -> t -> bool := mask_hasFlag 8.
End PackageStatus.

Module ActionType.
Definition t : Type := Z.
Definition None : t := 0.
Definition Created : t := 1.
Definition PlacedOnBelt : t := 2.
Definition PickedUp : t := 4.
Definition LoadedToTruck : t := 8.
Definition ByWorker : t := 16.
Definition ByExpress : t := 32.
Definition ByTruck : t := 64.
Definition Forced : t := 128.
Definition or : t -> t -> t := mask_or 8.
Definition and : t -> t -> t := mask_and 8.
Definition hasFlag : t -> t -> bool := mask_hasFlag 8.
End ActionType.

(** ** Records *)

Record ActionRecord := mkActionRecord {
  ar_type : ActionType.t;
  ar_actor_pid : Z;
  ar_timestamp : Z }.

Record Package := mkPackage {
  id : Z;
  creator_pid : Z;
  editor_pid : Z;
  type : PackageType.t;
  status : PackageStatus.t;
  weight : double;
  volume : double;
  created_at : Z;
  updated_at : Z;
  history : list ActionRecord;
  history_count : Z }.

Record UserSession := mkUserSession {
  active : bool;
  username : list ascii;
  session_pid : Z;
  role : UserRole.t;
  orgId : Z;
  max_processes : Z;
  current_processes : Z }.

(** A local helper that no other source uses. *)
Record UserContext := mkUserContext { uc_username : string; uc_role : UserRole.t; uc_orgId : Z }.

Definition UserContext_default : UserContext := mkUserContext "anonymous" UserRole.None 0.

Record TruckState := mkTruckState {
  is_present : bool;
  truck_id : Z;
  current_load : Z;
  max_load : Z;
  current_volume : double;
  current_weight : double;
  max_weight : double;
  max_volume : double }.

Record SharedState := mkSharedState {
  belt : list Package;
  head : Z;
  tail : Z;
  current_workers_count : Z;
  current_items_count : Z;
  current_belt_weight : double;
  running : bool;
  trucks_completed : Z;
  total_packages_created : Z;
  force_truck_departure : bool;
  p4_load_command : bool;
  users : list UserSession;
  dock_truck : TruckState }.

Record CommandMessage := mkCommandMessage {
  mtype : Z;
  command_id : Z }.

(** ** Zero-filled values, as left by [memset(..., 0, ...)] *)

Definition NUL : ascii := ascii_of_nat 0.
Definition zero_ActionRecord : ActionRecord := mkActionRecord 0 0 0.
Definition zero_Package : Package :=
  mkPackage 0 0 0 0 0 d_zero d_zero 0 0 (replicate (Z.to_nat MAX_PACKAGE_HISTORY) zero_ActionRecord) 0.
Definition zero_UserSession : UserSession :=
  mkUserSession false (replicate USERNAME_SIZE NUL) 0 0 0 0 0.
Definition zero_TruckState : TruckState :=
  mkTruckState false 0 0 0 d_zero d_zero d_zero d_zero.
Definition zero_SharedState : SharedState :=
  mkSharedState (replicate (Z.to_nat MAX_BELT_CAPACITY_K) zero_Package) 0 0 0 0 d_zero false 0 0 false false
    (replicate (Z.to_nat MAX_USERS_SESSIONS) zero_UserSession) zero_TruckState.

(** ** Field assignments *)

Definition set_id (v : Z) (p : Package) : Package :=
  mkPackage v (creator_pid p) (editor_pid p) (type p) (status p) (weight p) (volume p)
    (created_at p) (updated_at p) (history p) (history_count p).

Definition set_active (v : bool) (u : UserSession) : UserSession :=
  mkUserSession v (username u) (session_pid u) (role u) (orgId u) (max_processes u) (current_processes u).
Definition set_username (v : list ascii) (u : UserSession) : UserSession :=
  mkUserSession (active u) v (session_pid u) (role u) (orgId u) (max_processes u) (current_processes u).
Definition set_session_pid (v : Z) (u : UserSession) : UserSession :=
  mkUserSession (active u) (username u) v (role u) (orgId u) (max_processes u) (current_processes u).
Definition set_role (v : UserRole.t) (u : UserSession) : UserSession :=
  mkUserSession (active u) (username u) (session_pid u) v (orgId u) (max_processes u) (current_processes u).
Definition set_orgId (v : Z) (u : UserSession) : UserSession :=
  mkUserSession (active u) (username u) (session_pid u) (role u) v (max_processes u) (current_processes u).
Definition set_max_processes (v : Z) (u : UserSession) : UserSession :=
  mkUserSession (active u) (username u) (session_pid u) (role u) (orgId u) v (current_processes u).
Definition set_current_processes (v : Z) (u : UserSession) : UserSession :=
  mkUserSession (active u) (username u) (session_pid u) (role u) (orgId u) (max_processes u) v.

Definition set_is_present (v : bool) (t : TruckState) : TruckState :=
  mkTruckState v (truck_id t) (current_load t) (max_load t) (current_volume t) (current_weight t) (max_weight t) (max_volume t).
Definition set_truck_id (v : Z) (t : TruckState) : TruckState :=
  mkTruckState (is_present t) v (current_load t) (max_load t) (current_volume t) (current_weight t) (max_weight t) (max_volume t).
Definition set_current_load (v : Z) (t : TruckState) : TruckState :=
  mkTruckState (is_present t) (truck_id t) v (max_load t) (current_volume t) (current_weight t) (max_weight t) (max_volume t).
Definition set_max_load (v : Z) (t : TruckState) : TruckState :=
  mkTruckState (is_present t) (truck_id t) (current_load t) v (current_volume t) (current_weight t) (max_weight t) (max_volume t).
Definition set_current_volume (v : double) (t : TruckState) : TruckState :=
  mkTruckState (is_present t) (truck_id t) (current_load t) (max_load t) v (current_weight t) (max_weight t) (max_volume t).
Definition set_current_weight (v : double) (t : TruckState) : TruckState :=
  mkTruckState (is_present t) (truck_id t) (current_load t) (max_load t) (current_volume t) v (max_weight t) (max_volume t).
Definition set_max_weight (v : double) (t : TruckState) : TruckState :=
  mkTruckState (is_present t) (truck_id t) (current_load t) (max_load t) (current_volume t) (current_weight t) v (max_volume t).
Definition set_max_volume (v : double) (t : TruckState) : TruckState :=
  mkTruckState (is_present t) (truck_id t) (current_load t) (max_load t) (current_volume t) (current_weight t) (max_weight t) v.

Definition set_belt (v : list Package) (s : SharedState) : SharedState :=
  mkSharedState v (head s) (tail s) (current_workers_count s) (current_items_count s) (current_belt_weight s)
    (running s) (trucks_completed s) (total_packages_created s) (force_truck_departure s) (p4_load_command s) (users s) (dock_truck s).
Definition set_head (v : Z) (s : SharedState) : SharedState :=
  mkSharedState (belt s) v (tail s) (current_workers_count s) (current_items_count s) (current_belt_weight s)
    (running s) (trucks_completed s) (total_packages_created s) (force_truck_departure s) (p4_load_command s) (users s) (dock_truck s).
Definition set_tail (v : Z) (s : SharedState) : SharedState :=
  mkSharedState (belt s) (head s) v (current_workers_count s) (current_items_count s) (current_belt_weight s)
    (running s) (trucks_completed s) (total_packages_created s) (force_truck_departure s) (p4_load_command s) (users s) (dock_truck s).
Definition set_current_workers_count (v : Z) (s : SharedState) : SharedState :=
  mkSharedState (belt s) (head s) (tail s) v (current_items_count s) (current_belt_weight s)
    (running s) (trucks_completed s) (total_packages_created s) (force_truck_departure s) (p4_load_command s) (users s) (dock_truck s).
Definition set_current_items_count (v : Z) (s : SharedState) : SharedState :=
  mkSharedState (belt s) (head s) (tail s) (current_workers_count s) v (current_belt_weight s)
    (running s) (trucks_completed s) (total_packages_created s) (force_truck_departure s) (p4_load_command s) (users s) (dock_truck s).
Definition set_current_belt_weight (v : double) (s : SharedState) : SharedState :=
  mkSharedState (belt s) (head s) (tail s) (current_workers_count s) (current_items_count s) v
    (running s) (trucks_completed s) (total_packages_created s) (force_truck_departure s) (p4_load_command s) (users s) (dock_truck s).
Definition set_running (v : bool) (s : SharedState) : SharedState :=
  mkSharedState (belt s) (head s) (tail s) (current_workers_count s) (current_items_count s) (current_belt_weight s)
    v (trucks_completed s) (total_packages_created s) (force_truck_departure s) (p4_load_command s) (users s) (dock_truck s).
Definition set_trucks_completed (v : Z) (s : SharedState) : SharedState :=
  mkSharedState (belt s) (head s) (tail s) (current_workers_count s) (current_items_count s) (current_belt_weight s)
    (running s) v (total_packages_created s) (force_truck_departure s) (p4_load_command s) (users s) (dock_truck s).
Definition set_total_packages_created (v : Z) (s : SharedState) : SharedState :=
  mkSharedState (belt s) (head s) (tail s) (current_workers_count s) (current_items_count s) (current_belt_weight s)
    (running s) (trucks_completed s) v (force_truck_departure s) (p4_load_command s) (users s) (dock_truck s).
Definition set_users (v : list UserSession) (s : SharedState) : SharedState :=
  mkSharedState (belt s) (head s) (tail s) (current_workers_count s) (current_items_count s) (current_belt_weight s)
    (running s) (trucks_completed s) (total_packages_created s) (force_truck_departure s) (p4_load_command s) v (dock_truck s).
Definition set_dock_truck (v : TruckState) (s : SharedState) : SharedState :=
  mkSharedState (belt s) (head s) (tail s) (current_workers_count s) (current_items_count s) (current_belt_weight s)
    (running s) (trucks_completed s) (total_packages_created s) (force_truck_departure s) (p4_load_command s) (users s) v.

(** ** [Package::pushAction]

    [t1] and [t2] are the values of the two calls to [std::time].  [None]
    is the undefined write below the array that a negative counter would
    cause. *)
Definition pushAction (action : ActionType.t) (pid t1 t2 : Z) (p : Package) : option Package :=
  if history_count p <? MAX_PACKAGE_HISTORY then
    if history_count p <? 0 then None
    else Some (mkPackage (id p) (creator_pid p) pid (type p) (status p) (weight p) (volume p)
                 (created_at p) t2
                 (<[Z.to_nat (history_count p) := mkActionRecord action pid t1]> (history p))
                 (history_count p + 1))
  else Some p.

(** A sequence of [pushAction] calls: action, pid and the two clock readings. *)
Fixpoint pushActions (calls : list (ActionType.t * Z * Z * Z)) (p : Package) : option Package :=
  match calls with
  | [] => Some p
  | (a, pid, t1, t2) :: rest =>
      match pushAction a pid t1 t2 p with
      | Some q => pushActions rest q
      | None => None
      end
  end.

(** * Lemmas *)

(** The package's audit trail is well formed: the array keeps its size and
    the counter indexes it. *)
Definition history_wf (p : Package) : Prop :=
  length (history p) = Z.to_nat MAX_PACKAGE_HISTORY /\ 0 <= history_count p <= MAX_PACKAGE_HISTORY.

(** The record a call writes. *)
Definition action_record (c : ActionType.t * Z * Z * Z) : ActionRecord :=
  let '(a, pid, t1, _) := c in mkActionRecord a pid t1.

Lemma mask_or_testbit w a b i :
  0 <= w -> 0 <= i -> Z.testbit (mask_or w a b) i = ((i <? w) && (Z.testbit a i || Z.testbit b i))%bool.
Proof.
  intros Hw Hi. unfold mask_or, cast_u.
  destruct (Z.ltb_spec i w) as [Hlt|Hge]; cbn.
  - rewrite Z.mod_pow2_bits_low by done. rewrite Z.lor_spec, !Z.mod_pow2_bits_low by done. done.
  - by rewrite Z.mod_pow2_bits_high by lia.
Qed.

Lemma mask_or_range w a b : 0 <= w -> 0 <= mask_or w a b < 2 ^ w.
Proof. intros Hw. apply Z.mod_pos_bound. lia. Qed.

Lemma mask_hasFlag_true w v f :
  0 <= w ->
  mask_hasFlag w v f = true <-> exists i, 0 <= i < w /\ Z.testbit v i = true /\ Z.testbit f i = true.
Proof.
  intros Hw. unfold mask_hasFlag, cast_u. rewrite negb_true_iff, Z.eqb_neq. split.
  - intros Hne. destruct (decide (Forall (fun i => Z.testbit v i && Z.testbit f i = false)%bool (seqZ 0 w))) as [Hall|Hex].
    + exfalso. apply Hne. apply Z.bits_inj'. intros i Hi. rewrite Z.land_spec, Z.bits_0.
      destruct (Z.ltb_spec i w).
      * rewrite !Z.mod_pow2_bits_low by done. rewrite list.Forall_forall in Hall. apply Hall.
        apply elem_of_seqZ. lia.
      * by rewrite !Z.mod_pow2_bits_high by lia.
    + apply not_Forall_Exists in Hex; [|intros ?; solve_decision].
      apply list.Exists_exists in Hex as (i & Hin%elem_of_seqZ & Hb). exists i. split; [lia|].
      apply not_false_is_true, andb_true_iff in Hb. done.
  - intros (i & Hi & Hv & Hf) H0. assert (Z.testbit 0 i = true) as Hb; [|by rewrite Z.bits_0 in Hb].
    rewrite <- H0, Z.land_spec, !Z.mod_pow2_bits_low by lia. by rewrite Hv, Hf.
Qed.

Lemma mask_hasFlag_or w a b f :
  0 <= w -> mask_hasFlag w (mask_or w a b) f = (mask_hasFlag w a f || mask_hasFlag w b f)%bool.
Proof.
  intros Hw. apply eq_true_iff_eq. rewrite orb_true_iff, !mask_hasFlag_true by done. split.
  - intros (i & Hi & Hor & Hf). rewrite mask_or_testbit in Hor by lia.
    apply andb_true_iff in Hor as [_ [Ha|Hb]%orb_true_iff]; [left|right]; eauto.
  - intros [(i & Hi & Ha & Hf)|(i & Hi & Hb & Hf)]; exists i; repeat split; try lia; try done;
      rewrite mask_or_testbit by lia; rewrite (proj2 (Z.ltb_lt _ _)) by lia;
      rewrite ?Ha, ?Hb, ?orb_true_r; done.
Qed.

Lemma pushAction_wf a pid t1 t2 p q :
  history_wf p -> pushAction a pid t1 t2 p = Some q -> history_wf q.
Proof.
  unfold history_wf, pushAction. intros [Hl Hc]. repeat case_if; intros Hq; simplify_eq/=.
  - rewrite length_insert. split; [done|]. lia.
  - done.
Qed.

(** One call within the limit writes the next free entry and nothing else. *)
Lemma pushAction_write a pid t1 t2 p :
  history_wf p -> history_count p < MAX_PACKAGE_HISTORY ->
  exists q, pushAction a pid t1 t2 p = Some q /\
    history_count q = history_count p + 1 /\
    take (Z.to_nat (history_count q)) (history q) =
      take (Z.to_nat (history_count p)) (history p) ++ [mkActionRecord a pid t1] /\
    drop (Z.to_nat (history_count q)) (history q) = drop (Z.to_nat (history_count q)) (history p) /\
    editor_pid q = pid /\ updated_at q = t2.
Proof.
  intros [Hl Hc] Hlt. unfold pushAction.
  rewrite (proj2 (Z.ltb_lt _ _)) by done. rewrite (proj2 (Z.ltb_ge _ _)) by lia.
  eexists; split; [reflexivity|]; cbn [history_count history editor_pid updated_at].
  replace (Z.to_nat (history_count p + 1)) with (S (Z.to_nat (history_count p))) by lia.
  set (n := Z.to_nat (history_count p)).
  assert (n < length (history p))%nat by (rewrite Hl; subst n; unfold MAX_PACKAGE_HISTORY in *; lia).
  repeat split.
  - erewrite take_S_r by (by apply list_lookup_insert_eq). by rewrite take_insert_ge.
  - apply drop_insert_lt. lia.
Qed.

(** At the limit a call changes nothing. *)
Lemma pushAction_full a pid t1 t2 p :
  history_count p = MAX_PACKAGE_HISTORY -> pushAction a pid t1 t2 p = Some p.
Proof. intros H. unfold pushAction. rewrite H. done. Qed.

Lemma pushActions_spec calls p :
  history_wf p ->
  exists q, pushActions calls p = Some q /\ history_wf q /\
    history_count q = Z.min MAX_PACKAGE_HISTORY (history_count p + Z.of_nat (length calls)) /\
    take (Z.to_nat (history_count q)) (history q) =
      take (Z.to_nat MAX_PACKAGE_HISTORY) (take (Z.to_nat (history_count p)) (history p) ++ map action_record calls).
Proof.
  revert p; induction calls as [|[[[a pid] t1] t2] calls IH]; intros p Hwf; cbn [pushActions].
  - exists p. split; [done|]. split; [done|]. destruct Hwf as [Hl Hc]. split; cbn; [lia|].
    rewrite app_nil_r, take_take. f_equal. lia.
  - destruct (decide (history_count p < MAX_PACKAGE_HISTORY)) as [Hlt|Hge].
    + destruct (pushAction_write a pid t1 t2 p Hwf Hlt) as (q & Hq & Hcq & Htq & _).
      rewrite Hq. destruct (IH q) as (r & Hr & Hwr & Hcr & Htr); [by eapply pushAction_wf|].
      exists r. split; [done|]. split; [done|]. split; [cbn [length]; lia|].
      by rewrite Htr, Htq, <- app_assoc.
    + destruct Hwf as [Hl Hc]. rewrite pushAction_full by lia.
      destruct (IH p) as (r & Hr & Hwr & Hcr & Htr); [done|].
      exists r. split; [done|]. split; [done|]. split; [cbn [length]; lia|].
      rewrite Htr. rewrite !take_app_le by (rewrite length_take; lia). done.
Qed.

Lemma zero_Package_history_wf : history_wf zero_Package.
Proof. split; cbn; [done|]. unfold MAX_PACKAGE_HISTORY; lia. Qed.

#[export] Hint Resolve zero_Package_history_wf pushAction_wf : warehouse.
