(* ===== verification/Ipc.v ===== *)
(** * Processes over shared memory and System V IPC

    The processes of the system are C++ programs that read and write one
    shared memory segment, and call [semop], [msgsnd], [msgrcv] and a few
    other services.  This file gives

    - the kernel state ([world]): the segment, the semaphore set, the
      message queue, and the log the processes write;
    - the type [prog] of process programs: finite trees of shared-memory
      accesses and system calls, with unbounded loops as a constructor;
    - [estep], the effect of one access or call, given what the
      environment answers (random numbers, input, interruptions);
    - [exec], the uninterrupted run of one program, and
    - the interleaving of many programs ([sys_step], [steps]).

    Every load and every store of the sources is one step, so that two
    processes interleave between any two accesses. *)

From S2P Require Import Prelude Double Shared.

(** ** Error codes of the calls the sources use *)

Inductive errno := EINTR | EINVAL | EIDRM | ENOMSG | ERANGE | EOTHER (code : Z).

(** The Linux value, which [exit(errno)] passes on. *)
Definition errno_code (e : errno) : Z :=
  match e with
  | EINTR => 4 | EINVAL => 22 | EIDRM => 43 | ENOMSG => 42 | ERANGE => 34 | EOTHER c => c
  end.

Definition is_EINTR (e : errno) : bool := match e with EINTR => true | _ => false end.
Definition is_EIDRM (e : errno) : bool := match e with EIDRM => true | _ => false end.
Definition is_EINVAL (e : errno) : bool := match e with EINVAL => true | _ => false end.

(** ** What the processes print: one constructor per [spdlog] or [cout] line *)

Inductive log_msg :=
(* Manager.h *)
| IpcFailed (call : string) (code : Z)
| IpcInitialized
| IpcCleaning
| SemopFailed (e : errno)
| MsgsndFailed (target : Z) (e : errno)
| SignalSent (sig : Z) (target : Z)
(* Belt.h *)
| WorkerJoined (total : Z)
| WorkerLeft (total : Z)
| BeltRejected (count : Z)
| BeltPushed (pkg_id index count workers : Z)
| BeltPopped (pkg_id index count workers : Z)
(* SessionManager.h *)
| AlreadyLoggedIn (name : string)
| SessionLimit (name : string)
| LoggedIn (name : string) (org role_mask slot : Z)
| LoggingOut (name : list ascii)
(* Truck.h *)
| EngineStarted (pid : Z)
| Docked (pid : Z) (w v : double)
| ShutdownWithCargo (pid : Z) (w : double)
| FinalDelivery (pid : Z)
| EmptyShutdown (pid : Z)
| Departing (pid : Z) (w v : double) (total : Z)
| IdentityTheft (pid : Z)
| OnRoute (pid ms : Z)
| TruckShiftEnded (pid : Z)
(* Dispatcher.h *)
| DispatcherStarted
| DispatcherStopped
| PkgLoaded (pkg_id : Z) (w v : double) (truck : Z)
| TruckFull (truck : Z)
| DoesNotFit (pkg_id truck : Z) (fits_weight fits_volume : bool)
(* Express.h *)
| ExpressNoTruck
| ExpressDelivering
| ExpressLoaded (item batch : Z) (ty : PackageType.t) (w : double)
| ExpressTruckFull
(* Worker.h *)
| WorkerRegisterFailed (wid : Z)
| WorkerStarted (wid : Z)
| WorkerShiftEnded (wid : Z)
(* TerminalAction.h and TerminalManager.h *)
| AccessDenied (required : string)
| VipSent (target : Z)
| VipOffline
| DepartSent (target : Z)
| NoTruckInDock
| EmergencyStop
| HaltCommanded
| UnauthorizedStop (role_mask : Z)
| Header (user : string) (org role_mask : Z) (with_stop : bool)
| Prompt (admin : bool)
| UnknownCommand
(* process entry points *)
| ProcNote (what : string)
| BeltStatus (count workers : Z)
(* main.cpp *)
| ForkFailed (name : string)
| Spawned (name arg : string) (pid : Z)
| ChildDied (pid : Z).

(** ** Undefined behaviour of C++ that the sources could run into *)

Inductive ub := SignedOverflow | OutOfBounds | DivByZero | BadEnum | NullDeref | DestroyedObject.

(** ** Programs *)

Inductive prog (A : Type) : Type :=
| Ret (a : A)
| Load {T : Type} (f : SharedState -> T) (k : T -> prog A)
| Store (g : SharedState -> SharedState) (k : prog A)
| Semop (i : SemIndex) (op : Z) (k : option errno -> prog A)
| Msgsnd (m : CommandMessage) (k : option errno -> prog A)
| Msgrcv (typ : Z) (nowait : bool) (k : errno + CommandMessage -> prog A)
| Getpid (k : Z -> prog A)
| RandInt (lo hi : Z) (k : Z -> prog A)
| RandReal (lo hi : double) (k : double -> prog A)
| Sleep (ms : Z) (k : prog A)
| Log (m : log_msg) (k : prog A)
| SigFlag (k : bool -> prog A)
| PollStdin (k : bool -> prog A)
| Getline (k : option string -> prog A)
| Fork (path : string) (argv : list string) (k : Z -> prog A)
| Waitpid (k : Z -> prog A)
| Kill (pid sig : Z) (k : prog A)
| Loop {St R : Type} (body : St -> prog (St + R)) (s : St) (k : R -> prog A)
| Exit (code : Z)
| Undef (u : ub).

Arguments Ret {A}.
Arguments Load {A T}.
Arguments Store {A}.
Arguments Semop {A}.
Arguments Msgsnd {A}.
Arguments Msgrcv {A}.
Arguments Getpid {A}.
Arguments RandInt {A}.
Arguments RandReal {A}.
Arguments Sleep {A}.
Arguments Log {A}.
Arguments SigFlag {A}.
Arguments PollStdin {A}.
Arguments Getline {A}.
Arguments Fork {A}.
Arguments Waitpid {A}.
Arguments Kill {A}.
Arguments Loop {A St R}.
Arguments Exit {A}.
Arguments Undef {A}.

Fixpoint bind {A B} (t : prog A) (c : A -> prog B) : prog B :=
  match t with
  | Ret a => c a
  | Load f k => Load f (fun x => bind (k x) c)
  | Store g k => Store g (bind k c)
  | Semop i op k => Semop i op (fun x => bind (k x) c)
  | Msgsnd m k => Msgsnd m (fun x => bind (k x) c)
  | Msgrcv typ nw k => Msgrcv typ nw (fun x => bind (k x) c)
  | Getpid k => Getpid (fun x => bind (k x) c)
  | RandInt lo hi k => RandInt lo hi (fun x => bind (k x) c)
  | RandReal lo hi k => RandReal lo hi (fun x => bind (k x) c)
  | Sleep ms k => Sleep ms (bind k c)
  | Log m k => Log m (bind k c)
  | SigFlag k => SigFlag (fun x => bind (k x) c)
  | PollStdin k => PollStdin (fun x => bind (k x) c)
  | Getline k => Getline (fun x => bind (k x) c)
  | Fork path argv k => Fork path argv (fun x => bind (k x) c)
  | Waitpid k => Waitpid (fun x => bind (k x) c)
  | Kill pid sig k => Kill pid sig (bind k c)
  | Loop body s k => Loop body s (fun x => bind (k x) c)
  | Exit code => Exit code
  | Undef u => Undef u
  end.

Declare Scope prog_scope.
Delimit Scope prog_scope with prog.
Bind Scope prog_scope with prog.

Notation "'let*' x ':=' c 'in' k" := (bind c (fun x => k))
  (at level 10, x name, c at level 100, k at level 200) : prog_scope.
Notation "c1 ;; c2" := (bind c1 (fun _ => c2))
  (at level 100, c2 at level 200, right associativity) : prog_scope.

Global Open Scope prog_scope.

(** ** Statements *)

Definition load {T} (f : SharedState -> T) : prog T := Load f Ret.
Definition store (g : SharedState -> SharedState) : prog unit := Store g (Ret tt).
Definition log (m : log_msg) : prog unit := Log m (Ret tt).
Definition sleep_ms (ms : Z) : prog unit := Sleep ms (Ret tt).
Definition skip : prog unit := Ret tt.

(** The value of an [int] expression; leaving the range is undefined. *)
Definition int_result (z : Z) : prog Z := if in_int z then Ret z else Undef SignedOverflow.

(** Reading the [i]-th element of an array in shared memory. *)
Definition load_at {T} (arr : SharedState -> list T) (i : Z) : prog T :=
  Load (fun s => if 0 <=? i then arr s !! Z.to_nat i else None)
    (fun o => match o with Some x => Ret x | None => Undef OutOfBounds end).

(** Writing the [i]-th element of an array of [n] elements. *)
Definition store_at (n i : Z) (g : SharedState -> SharedState) : prog unit :=
  if (0 <=? i) && (i <? n) then store g else Undef OutOfBounds.

(** The loop [while (c) body], for a body that either goes round again with
    [inl] or leaves with [inr]. *)
Definition loop {St R} (s : St) (body : St -> prog (St + R)) : prog R := Loop body s Ret.

(** ** Kernel state *)

Record semset := mkSemset { v_belt : Z; v_empty : Z; v_full : Z; v_dock : Z }.

Definition sem_get (s : semset) (i : SemIndex) : Z :=
  match i with
  | SEM_MUTEX_BELT => v_belt s | SEM_EMPTY_SLOTS => v_empty s
  | SEM_FULL_SLOTS => v_full s | SEM_DOCK_MUTEX => v_dock s
  end.

Definition sem_set (s : semset) (i : SemIndex) (v : Z) : semset :=
  match i with
  | SEM_MUTEX_BELT => mkSemset v (v_empty s) (v_full s) (v_dock s)
  | SEM_EMPTY_SLOTS => mkSemset (v_belt s) v (v_full s) (v_dock s)
  | SEM_FULL_SLOTS => mkSemset (v_belt s) (v_empty s) v (v_dock s)
  | SEM_DOCK_MUTEX => mkSemset (v_belt s) (v_empty s) (v_full s) v
  end.

(** [SEMVMX], the largest semaphore value. *)
Definition SEMVMX : Z := 32767.

Record world := mkWorld {
  w_shm : SharedState;
  w_sem : semset;
  w_sem_alive : bool;
  w_msgs : list CommandMessage;
  w_qbytes : Z;
  w_msg_alive : bool;
  w_log : list log_msg }.

Definition with_shm (s : SharedState) (w : world) : world :=
  mkWorld s (w_sem w) (w_sem_alive w) (w_msgs w) (w_qbytes w) (w_msg_alive w) (w_log w).
Definition with_sem (s : semset) (w : world) : world :=
  mkWorld (w_shm w) s (w_sem_alive w) (w_msgs w) (w_qbytes w) (w_msg_alive w) (w_log w).
Definition with_msgs (q : list CommandMessage) (w : world) : world :=
  mkWorld (w_shm w) (w_sem w) (w_sem_alive w) q (w_qbytes w) (w_msg_alive w) (w_log w).
Definition with_log (l : list log_msg) (w : world) : world :=
  mkWorld (w_shm w) (w_sem w) (w_sem_alive w) (w_msgs w) (w_qbytes w) (w_msg_alive w) l.

(** [sizeof(int)], the payload of a [CommandMessage]. *)
Definition MSG_SIZE : Z := 4.

(** Room for one more message in the queue. *)
Definition msg_room (w : world) : bool :=
  Z.of_nat (length (w_msgs w)) * MSG_SIZE + MSG_SIZE <=? w_qbytes w.

(** Whether [msgrcv] with type argument [typ] takes message [m]. *)
Definition msg_match (typ : Z) (m : CommandMessage) : bool :=
  if typ =? 0 then true else mtype m =? typ.

(** The first message of the type, and the queue without it. *)
Fixpoint msg_take (typ : Z) (q : list CommandMessage) : option (CommandMessage * list CommandMessage) :=
  match q with
  | [] => None
  | m :: q' =>
      if msg_match typ m then Some (m, q')
      else match msg_take typ q' with
           | Some (m', q'') => Some (m', m :: q'')
           | None => None
           end
  end.

(** ** One step of a program

    An [answer] is what the environment contributes to a step: nothing, the
    failure of a system call, or the value of an input. *)

Inductive answer :=
| ANone
| AErr (e : errno)
| AInt (z : Z)
| AReal (d : double)
| ABool (b : bool)
| ALine (l : option string).

(** [semop] on one semaphore: it succeeds when the result is not negative, it
    fails with [ERANGE] above [SEMVMX], it is interrupted only while it is
    blocked, and it reports a removed set. *)
Definition k_semop (i : SemIndex) (op : Z) (a : answer) (w : world) : option (option errno * world) :=
  let v := sem_get (w_sem w) i + op in
  match a with
  | ANone =>
      if w_sem_alive w then
        if v <? 0 then None
        else if SEMVMX <? v then Some (Some ERANGE, w)
        else Some (None, with_sem (sem_set (w_sem w) i v) w)
      else None
  | AErr EINTR => if w_sem_alive w && (v <? 0) then Some (Some EINTR, w) else None
  | AErr EIDRM => if w_sem_alive w then None else Some (Some EIDRM, w)
  | AErr EINVAL => if w_sem_alive w then None else Some (Some EINVAL, w)
  | _ => None
  end.

(** [msgsnd] without flags: the type must be positive; a full queue blocks. *)
Definition k_msgsnd (m : CommandMessage) (a : answer) (w : world) : option (option errno * world) :=
  match a with
  | ANone =>
      if w_msg_alive w then
        if mtype m <? 1 then Some (Some EINVAL, w)
        else if msg_room w then Some (None, with_msgs (w_msgs w ++ [m]) w) else None
      else None
  | AErr EINTR => if w_msg_alive w && (1 <=? mtype m) && negb (msg_room w) then Some (Some EINTR, w) else None
  | AErr EIDRM => if w_msg_alive w then None else Some (Some EIDRM, w)
  | AErr EINVAL => if w_msg_alive w then None else Some (Some EINVAL, w)
  | _ => None
  end.

(** [msgrcv]: the first message of the type; [IPC_NOWAIT] fails instead of blocking. *)
Definition k_msgrcv (typ : Z) (nowait : bool) (a : answer) (w : world)
  : option ((errno + CommandMessage) * world) :=
  match a with
  | ANone =>
      if w_msg_alive w then
        match msg_take typ (w_msgs w) with
        | Some (m, q) => Some (inr m, with_msgs q w)
        | None => if nowait then Some (inl ENOMSG, w) else None
        end
      else None
  | AErr EINTR =>
      if w_msg_alive w && negb nowait then
        match msg_take typ (w_msgs w) with Some _ => None | None => Some (inl EINTR, w) end
      else None
  | AErr EIDRM => if w_msg_alive w then None else Some (inl EIDRM, w)
  | AErr EINVAL => if w_msg_alive w then None else Some (inl EINVAL, w)
  | _ => None
  end.

(** What [fork] and [waitpid(-1, ..., WNOHANG)] may return to the parent: an
    error, a process id, and for [waitpid] also zero.  What they do to the
    table of processes is given in [Master]. *)
Definition fork_result (z : Z) : bool := (z =? -1) || ((0 <? z) && (z <=? INT_MAX)).
Definition wait_result (z : Z) : bool := (z =? -1) || ((0 <=? z) && (z <=? INT_MAX)).

(** What a loop does with the result of one round. *)
Definition again {A St R} (body : St -> prog (St + R)) (k : R -> prog A) (r : St + R) : prog A :=
  match r with
  | inl s' => Loop body s' k
  | inr x => k x
  end.

Definition estep {A} (pid : Z) (a : answer) (t : prog A) (w : world) : option (prog A * world) :=
  match t with
  | Ret _ | Exit _ | Undef _ => None
  | Load f k => match a with ANone => Some (k (f (w_shm w)), w) | _ => None end
  | Store g k => match a with ANone => Some (k, with_shm (g (w_shm w)) w) | _ => None end
  | Semop i op k => match k_semop i op a w with Some (r, w') => Some (k r, w') | None => None end
  | Msgsnd m k => match k_msgsnd m a w with Some (r, w') => Some (k r, w') | None => None end
  | Msgrcv typ nw k => match k_msgrcv typ nw a w with Some (r, w') => Some (k r, w') | None => None end
  | Getpid k => match a with ANone => Some (k pid, w) | _ => None end
  | RandInt lo hi k =>
      match a with AInt z => if (lo <=? z) && (z <=? hi) then Some (k z, w) else None | _ => None end
  | RandReal lo hi k =>
      match a with
      | AReal d => if ((lo <=? d)%double && (d <? hi)%double)%bool then Some (k d, w) else None
      | _ => None
      end
  | Sleep _ k => match a with ANone => Some (k, w) | _ => None end
  | Log m k => match a with ANone => Some (k, with_log (w_log w ++ [m]) w) | _ => None end
  | SigFlag k => match a with ABool b => Some (k b, w) | _ => None end
  | PollStdin k => match a with ABool b => Some (k b, w) | _ => None end
  | Getline k => match a with ALine l => Some (k l, w) | _ => None end
  | Fork _ _ k => match a with AInt z => if fork_result z then Some (k z, w) else None | _ => None end
  | Waitpid k => match a with AInt z => if wait_result z then Some (k z, w) else None | _ => None end
  | Kill _ _ k => match a with ANone => Some (k, w) | _ => None end
  | Loop body s k => match a with ANone => Some (bind (body s) (again body k), w) | _ => None end
  end.

(** ** The uninterrupted run of one program

    Calls that can proceed do; the answers of the environment are taken in
    order from a list.  The fuel bounds the number of steps. *)

Inductive outcome (A : Type) :=
| Done (a : A) (w : world) (rest : list answer)
| Exited (code : Z) (w : world)
| Undefined (u : ub) (w : world)
| Blocked (w : world)
| NoAnswer
| OutOfFuel.

Arguments Done {A}.
Arguments Exited {A}.
Arguments Undefined {A}.
Arguments Blocked {A}.
Arguments NoAnswer {A}.
Arguments OutOfFuel {A}.

(** Continue a run that is done; any other outcome is final. *)
Definition o_bind {A B} (o : outcome A) (c : A -> world -> list answer -> outcome B) : outcome B :=
  match o with
  | Done a w rest => c a w rest
  | Exited code w => Exited code w
  | Undefined u w => Undefined u w
  | Blocked w => Blocked w
  | NoAnswer => NoAnswer
  | OutOfFuel => OutOfFuel
  end.

(** Iterate one round of a loop, at most [n] times. *)
Fixpoint rounds {St R A} (round : St -> world -> list answer -> outcome (St + R))
    (done : R -> world -> list answer -> outcome A) (n : nat) (s : St) (w : world) (inputs : list answer) : outcome A :=
  match n with
  | O => OutOfFuel
  | S m => o_bind (round s w inputs) (fun r w' rest =>
      match r with
      | inl s' => rounds round done m s' w' rest
      | inr x => done x w' rest
      end)
  end.

Fixpoint exec {A} (fuel : nat) (pid : Z) (t : prog A) (w : world) (inputs : list answer) {struct t} : outcome A :=
  match t with
  | Ret a => Done a w inputs
  | Exit c => Exited c w
  | Undef u => Undefined u w
  | Load f k => exec fuel pid (k (f (w_shm w))) w inputs
  | Store g k => exec fuel pid k (with_shm (g (w_shm w)) w) inputs
  | Semop i op k =>
      match k_semop i op ANone w with
      | Some (r, w') => exec fuel pid (k r) w' inputs
      | None => Blocked w
      end
  | Msgsnd m k =>
      match k_msgsnd m ANone w with
      | Some (r, w') => exec fuel pid (k r) w' inputs
      | None => Blocked w
      end
  | Msgrcv typ nw k =>
      match k_msgrcv typ nw ANone w with
      | Some (r, w') => exec fuel pid (k r) w' inputs
      | None => Blocked w
      end
  | Getpid k => exec fuel pid (k pid) w inputs
  | RandInt lo hi k =>
      match inputs with
      | AInt z :: rest => if (lo <=? z) && (z <=? hi) then exec fuel pid (k z) w rest else NoAnswer
      | _ => NoAnswer
      end
  | RandReal lo hi k =>
      match inputs with
      | AReal d :: rest =>
          if ((lo <=? d)%double && (d <? hi)%double)%bool then exec fuel pid (k d) w rest else NoAnswer
      | _ => NoAnswer
      end
  | Sleep _ k => exec fuel pid k w inputs
  | Log m k => exec fuel pid k (with_log (w_log w ++ [m]) w) inputs
  | SigFlag k => match inputs with ABool b :: rest => exec fuel pid (k b) w rest | _ => NoAnswer end
  | PollStdin k => match inputs with ABool b :: rest => exec fuel pid (k b) w rest | _ => NoAnswer end
  | Getline k => match inputs with ALine l :: rest => exec fuel pid (k l) w rest | _ => NoAnswer end
  | Fork _ _ k =>
      match inputs with
      | AInt z :: rest => if fork_result z then exec fuel pid (k z) w rest else NoAnswer
      | _ => NoAnswer
      end
  | Waitpid k =>
      match inputs with
      | AInt z :: rest => if wait_result z then exec fuel pid (k z) w rest else NoAnswer
      | _ => NoAnswer
      end
  | Kill _ _ k => exec fuel pid k w inputs
  | Loop body s k =>
      rounds (fun s' w' rest => exec fuel pid (body s') w' rest)
             (fun x w' rest => exec fuel pid (k x) w' rest) fuel s w inputs
  end.

(** ** Interleaving *)

Record thread := mkThread { th_pid : Z; th_prog : prog unit }.

Record sys := mkSys { threads : list thread; s_world : world }.

(** Thread [i] makes one step with answer [a]. *)
Definition sys_step (i : nat) (a : answer) (s : sys) : option sys :=
  match threads s !! i with
  | Some th =>
      match estep (th_pid th) a (th_prog th) (s_world s) with
      | Some (t', w') => Some (mkSys (<[i := mkThread (th_pid th) t']> (threads s)) w')
      | None => None
      end
  | None => None
  end.

(** A schedule: which thread moves, with which answer. *)
Fixpoint sys_run (sched : list (nat * answer)) (s : sys) : option sys :=
  match sched with
  | [] => Some s
  | (i, a) :: rest =>
      match sys_step i a s with
      | Some s' => sys_run rest s'
      | None => None
      end
  end.

(** The program of thread [i] is inside a [semop]. *)
Definition in_semop {A} (t : prog A) : bool := match t with Semop _ _ _ => true | _ => false end.

(** A step is calm unless it makes a [semop] fail: no blocked [semop] is
    interrupted by a signal handler and the semaphore set is not removed. *)
Definition calm_answer {A} (t : prog A) (a : answer) : bool :=
  match a with AErr _ => negb (in_semop t) | _ => true end.

(** One step of the whole system, and one in which no [semop] fails from outside. *)
Inductive step : sys -> sys -> Prop :=
| step_thread i a s s' : sys_step i a s = Some s' -> step s s'.

Inductive calm_step : sys -> sys -> Prop :=
| calm_step_thread i a th s s' :
    threads s !! i = Some th ->
    calm_answer (th_prog th) a = true ->
    sys_step i a s = Some s' ->
    calm_step s s'.

Definition steps : relation sys := rtc step.
Definition calm_steps : relation sys := rtc calm_step.

(** * Lemmas *)

Lemma sem_get_set s i v : sem_get (sem_set s i v) i = v.
Proof. by destruct i. Qed.

Lemma sem_get_set_ne s i j v : i <> j -> sem_get (sem_set s i v) j = sem_get s j.
Proof. by destruct i, j. Qed.

#[global] Instance SemIndex_eq_dec : EqDecision SemIndex.
Proof. solve_decision. Defined.

Lemma rounds_bind {St R A B} round (done : R -> world -> list answer -> outcome A)
    (c : A -> world -> list answer -> outcome B) n (s : St) w inputs :
  o_bind (rounds round done n s w inputs) c =
  rounds round (fun x w' rest => o_bind (done x w' rest) c) n s w inputs.
Proof.
  revert s w inputs; induction n as [|n IH]; intros s w inputs; cbn; [done|].
  destruct (round s w inputs) as [[s'|x] w' rest| | | | |]; cbn; auto.
Qed.

Lemma rounds_ext {St R A} round (done done' : R -> world -> list answer -> outcome A) n (s : St) w inputs :
  (forall x w' rest, done x w' rest = done' x w' rest) ->
  rounds round done n s w inputs = rounds round done' n s w inputs.
Proof.
  intros Heq. revert s w inputs; induction n as [|n IH]; intros s w inputs; cbn; [done|].
  destruct (round s w inputs) as [[s'|x] w' rest| | | | |]; cbn; auto.
Qed.

(** The run of a sequence is the run of its parts. *)
Lemma exec_bind {A B} fuel pid (t : prog A) (c : A -> prog B) w inputs :
  exec fuel pid (bind t c) w inputs =
  o_bind (exec fuel pid t w inputs) (fun a w' rest => exec fuel pid (c a) w' rest).
Proof.
  revert B c w inputs; induction t; intros B' c w inputs; cbn; auto;
    try (repeat case_match; cbn; by auto).
  rewrite rounds_bind. apply rounds_ext. auto.
Qed.

(** One step of a thread inside a sequence. *)
Inductive tsteps (pid : Z) {A} : prog A * world -> prog A * world -> Prop :=
| tsteps_refl c : tsteps pid c c
| tsteps_step a t w c c' : estep pid a t w = Some c -> tsteps pid c c' -> tsteps pid (t, w) c'.

Lemma tsteps_trans pid {A} (c1 c2 c3 : prog A * world) :
  tsteps pid c1 c2 -> tsteps pid c2 c3 -> tsteps pid c1 c3.
Proof. induction 1; eauto using tsteps. Qed.

(** Closes a branch with whichever hypothesis is the induction hypothesis. *)
Ltac exec_finish := match goal with H : _ |- _ => eapply H; eassumption end.

(** A completed run is a sequence of steps of the thread, in any context. *)
Lemma exec_tsteps {A B} fuel pid (t : prog A) (c : A -> prog B) w inputs a w' rest :
  exec fuel pid t w inputs = Done a w' rest -> tsteps pid (bind t c, w) (c a, w').
Proof.
  revert B c w inputs a w' rest; induction t; intros B' c w inputs x w' rest Hex; cbn in *; simplify_eq;
    try (by constructor);
    try (eapply (tsteps_step _ ANone); [reflexivity|exec_finish]);
    try (match goal with
         | H : match ?e with Some _ => _ | None => _ end = Done _ _ _ |- _ => destruct e as [p|] eqn:E; [destruct p|done]
         end; eapply (tsteps_step _ ANone); [cbn; rewrite E; reflexivity|exec_finish]);
    try (destruct inputs as [|[] ?]; try done;
         try (match goal with H : (if ?b then _ else _) = _ |- _ => destruct b eqn:E; [|done] end);
         match type of Hex with
         | exec _ _ (_ ?v) _ _ = _ =>
             first [eapply (tsteps_step _ (AInt v))|eapply (tsteps_step _ (AReal v))
                   |eapply (tsteps_step _ (ABool v))|eapply (tsteps_step _ (ALine v))]
         end; [cbn; rewrite ?E; reflexivity|exec_finish]).
  (* Loop *)
  match type of Hex with rounds ?rd ?dn _ _ _ _ = _ =>
    assert (Hn : forall n s w inputs, rounds rd dn n s w inputs = Done x w' rest ->
                 tsteps pid (Loop body s (fun y => bind (k y) c), w) (c x, w')); [|by eauto]
  end.
  clear s w inputs Hex. intros n; induction n as [|n IHn]; intros s w inputs Hex; cbn in Hex; [done|].
  destruct (exec fuel pid (body s) w inputs) as [[s'|r] w1 rest1| | | | |] eqn:Eb; cbn in Hex; try done;
    (eapply (tsteps_step _ ANone); [reflexivity|]); (eapply tsteps_trans; [eapply H; exact Eb|]); cbn; eauto.
Qed.

(** Steps of one thread are steps of the system. *)
Lemma tsteps_steps pid i ths (t t' : prog unit) w w' :
  ths !! i = Some (mkThread pid t) -> tsteps pid (t, w) (t', w') ->
  steps (mkSys ths w) (mkSys (<[i := mkThread pid t']> ths) w').
Proof.
  intros Hi Hs. remember (t, w) as c eqn:Ec. remember (t', w') as c' eqn:Ec'.
  revert ths t w Hi Ec. induction Hs as [c|a t0 w0 [t1 w1] c'' Hst _ IH]; intros ths t w Hi Ec; simplify_eq.
  - rewrite list_insert_id by done. constructor.
  - eapply rtc_l.
    + apply (step_thread i a). unfold sys_step. cbn. rewrite Hi. cbn. rewrite Hst. reflexivity.
    + specialize (IH eq_refl (<[i:=mkThread pid t1]> ths) t1 w1).
      rewrite list_insert_insert_eq in IH. apply IH; [|done].
      apply list_lookup_insert_eq. by eapply lookup_lt_Some.
Qed.

(** A step adds at most one line to the log. *)
Lemma estep_log {A} pid a (t t' : prog A) w w' :
  estep pid a t w = Some (t', w') -> w_log w' = w_log w \/ exists m, w_log w' = w_log w ++ [m].
Proof.
  intros Hst. destruct t; cbn in Hst; unfold k_semop, k_msgsnd, k_msgrcv in Hst; repeat case_match; simplify_eq; eauto.
Qed.

Lemma calm_step_step s s' : calm_step s s' -> step s s'.
Proof. intros [i a th ????]. by apply (step_thread i a). Qed.

Lemma calm_steps_steps s s' : calm_steps s s' -> steps s s'.
Proof. apply rtc_subrel. apply calm_step_step. Qed.

(** A schedule that the system accepts leads to a reachable state. *)
Lemma sys_run_steps sched s s' : sys_run sched s = Some s' -> steps s s'.
Proof.
  revert s; induction sched as [|[i a] sched IH]; intros s Hr; cbn in Hr; simplify_eq; [constructor|].
  destruct (sys_step i a s) as [s1|] eqn:E; [|done]. eapply rtc_l; [by apply (step_thread i a)|by apply IH].
Qed.

(** The scheduler as a function, refusing the answers that disturb a [semop]. *)
Fixpoint calm_run (sched : list (nat * answer)) (s : sys) : option sys :=
  match sched with
  | [] => Some s
  | (i, a) :: rest =>
      match threads s !! i with
      | Some th =>
          if calm_answer (th_prog th) a then
            match sys_step i a s with Some s' => calm_run rest s' | None => None end
          else None
      | None => None
      end
  end.

Lemma calm_run_steps sched s s' : calm_run sched s = Some s' -> calm_steps s s'.
Proof.
  revert s; induction sched as [|[i a] sched IH]; intros s Hr; cbn in Hr; simplify_eq; [constructor|].
  destruct (threads s !! i) as [th|] eqn:Ei; [|done].
  destruct (calm_answer (th_prog th) a) eqn:Ec; [|done].
  destruct (sys_step i a s) as [s1|] eqn:E; [|done].
  eapply rtc_l; [by apply (calm_step_thread i a th)|by apply IH].
Qed.

(** ** Runs that need no input

    [runs pid t w a w']: alone in world [w], the program [t] of process
    [pid] completes with result [a] in world [w']. *)

Definition runs {A} (pid : Z) (t : prog A) (w : world) (a : A) (w' : world) : Prop :=
  forall fuel inputs, exec fuel pid t w inputs = Done a w' inputs.

Section Runs.
Context (pid : Z).

Lemma runs_ret {A} (a : A) w : runs pid (Ret a) w a w.
Proof. done. Qed.

(** The same run with result and world written differently. *)
Lemma runs_eq {A} (t : prog A) w a a' w1 w1' :
  runs pid t w a w1 -> a = a' -> w1 = w1' -> runs pid t w a' w1'.
Proof. by intros H <- <-. Qed.

Lemma runs_bind {A B} (t : prog A) (c : A -> prog B) w a w1 b w2 :
  runs pid t w a w1 -> runs pid (c a) w1 b w2 -> runs pid (bind t c) w b w2.
Proof. intros H1 H2 fuel inputs. rewrite exec_bind, H1. cbn. apply H2. Qed.

Lemma runs_load {T} (f : SharedState -> T) w : runs pid (load f) w (f (w_shm w)) w.
Proof. done. Qed.

Lemma runs_store g w : runs pid (store g) w tt (with_shm (g (w_shm w)) w).
Proof. done. Qed.

Lemma runs_log m w : runs pid (log m) w tt (with_log (w_log w ++ [m]) w).
Proof. done. Qed.

Lemma runs_sleep ms w : runs pid (sleep_ms ms) w tt w.
Proof. done. Qed.

Lemma runs_int_result z w : in_int z = true -> runs pid (int_result z) w z w.
Proof. intros H fuel inputs. unfold int_result. by rewrite H. Qed.

Lemma runs_load_at {T} (arr : SharedState -> list T) i w x :
  0 <= i -> arr (w_shm w) !! Z.to_nat i = Some x -> runs pid (load_at arr i) w x w.
Proof. intros Hi Hx fuel inputs. cbn. by rewrite (proj2 (Z.leb_le _ _) Hi), Hx. Qed.

Lemma runs_store_at n i g w : 0 <= i < n -> runs pid (store_at n i g) w tt (with_shm (g (w_shm w)) w).
Proof.
  intros Hi fuel inputs. unfold store_at.
  by rewrite (proj2 (Z.leb_le 0 i)), (proj2 (Z.ltb_lt i n)) by lia.
Qed.

Lemma runs_semop_ok i op w k b w' :
  w_sem_alive w = true -> 0 <= sem_get (w_sem w) i + op <= SEMVMX ->
  runs pid (k None) (with_sem (sem_set (w_sem w) i (sem_get (w_sem w) i + op)) w) b w' ->
  runs (A := unit) pid (Semop i op k) w b w'.
Proof.
  intros Ha Hv Hk fuel inputs. cbn. rewrite Ha.
  rewrite (proj2 (Z.ltb_ge _ 0)), (proj2 (Z.ltb_ge _ _)) by lia. apply Hk.
Qed.

End Runs.

(** Run the statement in front of a sequence. *)
Ltac run_one :=
  lazymatch goal with
  | |- runs _ (bind _ _) _ _ _ => eapply runs_bind; [run_one|cbv beta]
  | |- runs _ (Ret _) _ _ _ => apply runs_ret
  | |- runs _ skip _ _ _ => apply runs_ret
  | |- runs _ (load _) _ _ _ => apply runs_load
  | |- runs _ (store _) _ _ _ => apply runs_store
  | |- runs _ (log _) _ _ _ => apply runs_log
  | |- runs _ (sleep_ms _) _ _ _ => apply runs_sleep
  | |- _ => idtac
  end.

#[export] Hint Resolve runs_ret runs_load runs_store runs_log runs_sleep : warehouse.
