(* ===== verification/Belt.v ===== *)
(** * The conveyor belt ([src/include/Belt.h])

    The class [Belt] is a record of its pointer and its six injected
    callbacks; its methods are programs.  The second half of the file states
    what the belt promises, a bounded first-in first-out queue that numbers
    its packages, and proves that the circular buffer implements it. *)

From S2P Require Import Prelude Double Shared Ipc.

Record Belt := mkBelt {
  b_shm : bool;  (* the pointer is not null *)
  wait_empty_fn : prog unit;
  signal_empty_fn : prog unit;
  wait_full_fn : prog unit;
  signal_full_fn : prog unit;
  lock_fn : prog unit;
  unlock_fn : prog unit }.

(** [void simulateWorkLoad()]: the counter is read twice without the lock. *)
Definition simulateWorkLoad (b : Belt) : prog unit :=
  if negb (b_shm b) then skip else
  let* n := load current_workers_count in
  if n <=? 0 then sleep_ms 100
  else
    let* m := load current_workers_count in
    if m =? 0 then Undef DivByZero else sleep_ms (Z.quot 500 m).

(** [bool registerWorker()]. *)
Definition registerWorker (b : Belt) : prog bool :=
  if negb (b_shm b) then Ret false else
  lock_fn b ;;
  let* n := load current_workers_count in
  let* success :=
    (if n <? MAX_WORKERS_PER_BELT then
       let* m := load current_workers_count in
       let* m' := int_result (m + 1) in
       store (set_current_workers_count m') ;;
       let* t := load current_workers_count in
       log (WorkerJoined t) ;;
       Ret true
     else Ret false) in
  unlock_fn b ;;
  Ret success.

(** [void unregisterWorker()]. *)
Definition unregisterWorker (b : Belt) : prog unit :=
  if negb (b_shm b) then skip else
  lock_fn b ;;
  let* n := load current_workers_count in
  (if 0 <? n then
     let* m := load current_workers_count in
     let* m' := int_result (m - 1) in
     store (set_current_workers_count m') ;;
     let* t := load current_workers_count in
     log (WorkerLeft t)
   else skip) ;;
  unlock_fn b.

(** [void push(Package &pkg)]; the result is the package as the caller sees
    it afterwards. *)
Definition push (b : Belt) (pkg : Package) : prog Package :=
  if negb (b_shm b) then Ret pkg else
  simulateWorkLoad b ;;
  wait_empty_fn b ;;
  lock_fn b ;;
  let* n := load current_items_count in
  if MAX_BELT_CAPACITY_K <=? n then
    let* c := load current_items_count in
    log (BeltRejected c) ;;
    unlock_fn b ;;
    signal_empty_fn b ;;
    Ret pkg
  else
    let* t := load total_packages_created in
    let* t' := int_result (t + 1) in
    store (set_total_packages_created t') ;;
    let* new_id := load total_packages_created in
    let pkg := set_id new_id pkg in
    let* current_tail := load tail in
    store_at MAX_BELT_CAPACITY_K current_tail
      (fun s => set_belt (<[Z.to_nat current_tail := pkg]> (belt s)) s) ;;
    let* next := int_result (current_tail + 1) in
    store (set_tail (Z.rem next MAX_BELT_CAPACITY_K)) ;;
    let* c := load current_items_count in
    let* c' := int_result (c + 1) in
    store (set_current_items_count c') ;;
    let* bw := load current_belt_weight in
    store (set_current_belt_weight (bw + weight pkg)%double) ;;
    let* cnt := load current_items_count in
    let* wrk := load current_workers_count in
    log (BeltPushed (id pkg) current_tail cnt wrk) ;;
    unlock_fn b ;;
    signal_full_fn b ;;
    Ret pkg.

(** [Package pop()]. *)
Definition pop (b : Belt) : prog Package :=
  if negb (b_shm b) then Ret zero_Package else
  wait_full_fn b ;;
  lock_fn b ;;
  let* n := load current_items_count in
  if n <=? 0 then
    unlock_fn b ;;
    signal_full_fn b ;;
    Ret zero_Package
  else
    let* current_head := load head in
    let* pkg := load_at belt current_head in
    store_at MAX_BELT_CAPACITY_K current_head
      (fun s => set_belt (<[Z.to_nat current_head := zero_Package]> (belt s)) s) ;;
    let* next := int_result (current_head + 1) in
    store (set_head (Z.rem next MAX_BELT_CAPACITY_K)) ;;
    let* c := load current_items_count in
    let* c' := int_result (c - 1) in
    store (set_current_items_count c') ;;
    let* bw := load current_belt_weight in
    store (set_current_belt_weight (bw - weight pkg)%double) ;;
    let* cnt := load current_items_count in
    let* wrk := load current_workers_count in
    log (BeltPopped (id pkg) current_head cnt wrk) ;;
    unlock_fn b ;;
    signal_empty_fn b ;;
    Ret pkg.

(** [int getCount() const] and [int getWorkerCount() const]. *)
Definition getCount (b : Belt) : prog Z := if b_shm b then load current_items_count else Ret 0.
Definition getWorkerCount (b : Belt) : prog Z := if b_shm b then load current_workers_count else Ret 0.

(** ** The circular buffer as a queue *)

(** The [j]-th package from the head. *)
Definition slot (s : SharedState) (j : Z) : Package :=
  default zero_Package (belt s !! Z.to_nat ((head s + j) mod MAX_BELT_CAPACITY_K)).

(** The packages on the belt, oldest first. *)
Definition contents (s : SharedState) : list Package :=
  map (slot s) (seqZ 0 (current_items_count s)).

(** Representation invariant of the buffer: indices and counter are in
    range, the tail is where the head and the counter say, and every slot
    outside the contents is zero-filled. *)
Record belt_wf (s : SharedState) : Prop := {
  wf_length : length (belt s) = Z.to_nat MAX_BELT_CAPACITY_K;
  wf_head : 0 <= head s < MAX_BELT_CAPACITY_K;
  wf_count : 0 <= current_items_count s <= MAX_BELT_CAPACITY_K;
  wf_tail : tail s = (head s + current_items_count s) mod MAX_BELT_CAPACITY_K;
  wf_zero : forall j, current_items_count s <= j < MAX_BELT_CAPACITY_K -> slot s j = zero_Package }.

(** What the critical section of [push] does to the segment. *)
Definition push_effect (pkg : Package) (s : SharedState) : SharedState :=
  let p := set_id (total_packages_created s + 1) pkg in
  set_current_belt_weight (current_belt_weight s + weight pkg)%double
    (set_current_items_count (current_items_count s + 1)
      (set_tail (Z.rem (tail s + 1) MAX_BELT_CAPACITY_K)
        (set_belt (<[Z.to_nat (tail s) := p]> (belt s))
          (set_total_packages_created (total_packages_created s + 1) s)))).

(** What the critical section of [pop] does to the segment. *)
Definition pop_effect (s : SharedState) : SharedState :=
  set_current_belt_weight (current_belt_weight s - weight (slot s 0))%double
    (set_current_items_count (current_items_count s - 1)
      (set_head (Z.rem (head s + 1) MAX_BELT_CAPACITY_K)
        (set_belt (<[Z.to_nat (head s) := zero_Package]> (belt s)) s))).

(** ** The abstract queue *)

Module BoundedQueue.
Record state := mkState { items : list Package; next_id : Z }.

(** Append with the next number; a full queue refuses. *)
Definition enqueue (p : Package) (q : state) : option (Package * state) :=
  if Z.of_nat (length (items q)) <? MAX_BELT_CAPACITY_K then
    let p' := set_id (next_id q) p in
    Some (p', mkState (items q ++ [p']) (next_id q + 1))
  else None.

Definition dequeue (q : state) : option (Package * state) :=
  match items q with
  | [] => None
  | p :: rest => Some (p, mkState rest (next_id q))
  end.

Inductive op := Push (p : Package) | Pop.

(** A refused push hands the package back; a pop of the empty queue yields the
    zero package. *)
Definition do_op (o : op) (q : state) : Package * state :=
  match o with
  | Push p => match enqueue p q with Some r => r | None => (p, q) end
  | Pop => match dequeue q with Some r => r | None => (zero_Package, q) end
  end.

Fixpoint do_ops (os : list op) (q : state) : list Package * state :=
  match os with
  | [] => ([], q)
  | o :: rest =>
      let (r, q') := do_op o q in
      let (rs, q'') := do_ops rest q' in (r :: rs, q'')
  end.
End BoundedQueue.

(** The abstraction function. *)
Definition belt_abs (s : SharedState) : BoundedQueue.state :=
  BoundedQueue.mkState (contents s) (total_packages_created s + 1).

(** The belt of the unit tests: every callback does nothing. *)
Definition noop_belt : Belt := mkBelt true skip skip skip skip skip skip.

(** A sequence of operations on a belt. *)
Definition belt_op (b : Belt) (o : BoundedQueue.op) : prog Package :=
  match o with
  | BoundedQueue.Push p => push b p
  | BoundedQueue.Pop => pop b
  end.

Fixpoint belt_ops (b : Belt) (os : list BoundedQueue.op) : prog (list Package) :=
  match os with
  | [] => Ret []
  | o :: rest =>
      let* r := belt_op b o in
      let* rs := belt_ops b rest in
      Ret (r :: rs)
  end.

(** * Lemmas *)

(** ** Index arithmetic of the ring *)

Ltac ring_arith := unfold MAX_BELT_CAPACITY_K in *; Z.to_euclidean_division_equations; lia.

Lemma ring_rem i : 0 <= i -> Z.rem i MAX_BELT_CAPACITY_K = i mod MAX_BELT_CAPACITY_K.
Proof. intros H. apply Z.rem_mod_nonneg; unfold MAX_BELT_CAPACITY_K; lia. Qed.

Lemma ring_inj h i j :
  0 <= i < MAX_BELT_CAPACITY_K -> 0 <= j < MAX_BELT_CAPACITY_K ->
  (h + i) mod MAX_BELT_CAPACITY_K = (h + j) mod MAX_BELT_CAPACITY_K -> i = j.
Proof. intros Hi Hj He. ring_arith. Qed.

Lemma ring_range i : 0 <= i mod MAX_BELT_CAPACITY_K < MAX_BELT_CAPACITY_K.
Proof. apply Z.mod_pos_bound. unfold MAX_BELT_CAPACITY_K. lia. Qed.

Lemma ring_shift h j : ((h + 1) mod MAX_BELT_CAPACITY_K + j) mod MAX_BELT_CAPACITY_K = (h + (j + 1)) mod MAX_BELT_CAPACITY_K.
Proof. ring_arith. Qed.

Lemma slot_lookup s j :
  belt_wf s -> belt s !! Z.to_nat ((head s + j) mod MAX_BELT_CAPACITY_K) = Some (slot s j).
Proof.
  intros Hwf. unfold slot.
  destruct (lookup_lt_is_Some_2 (belt s) (Z.to_nat ((head s + j) mod MAX_BELT_CAPACITY_K))) as [x Hx].
  - rewrite (wf_length _ Hwf). pose proof (ring_range (head s + j)). lia.
  - by rewrite Hx.
Qed.

Lemma slot_insert s s' i j p :
  belt_wf s -> head s' = head s ->
  belt s' = <[Z.to_nat ((head s + i) mod MAX_BELT_CAPACITY_K) := p]> (belt s) ->
  0 <= i < MAX_BELT_CAPACITY_K -> 0 <= j < MAX_BELT_CAPACITY_K ->
  slot s' j = if decide (i = j) then p else slot s j.
Proof.
  intros Hwf Hh Hb Hi Hj. unfold slot at 1. rewrite Hh, Hb.
  pose proof (ring_range (head s + i)). pose proof (ring_range (head s + j)).
  case_decide as Hij.
  - subst j. rewrite list_lookup_insert_eq; [done|]. rewrite (wf_length _ Hwf). lia.
  - rewrite list_lookup_insert_ne; [done|]. intros He. apply Hij. eapply (ring_inj (head s)); lia.
Qed.

Lemma seqZ_snoc m n : 0 <= n -> seqZ m (n + 1) = seqZ m n ++ [m + n].
Proof. intros Hn. rewrite seqZ_app by lia. f_equal. Qed.

(** ** The effect of [push] *)

Section PushEffect.
Context (s : SharedState) (pkg : Package).
Context (Hwf : belt_wf s) (Hroom : current_items_count s < MAX_BELT_CAPACITY_K).

Let s' := push_effect pkg s.
Let p' := set_id (total_packages_created s + 1) pkg.

Lemma push_slot j :
  0 <= j < MAX_BELT_CAPACITY_K ->
  slot s' j = if decide (current_items_count s = j) then p' else slot s j.
Proof.
  intros Hj. pose proof (wf_count _ Hwf).
  apply slot_insert; [done|done| |lia|done]. cbn. by rewrite (wf_tail _ Hwf).
Qed.

Lemma push_wf : belt_wf s'.
Proof.
  pose proof (wf_count _ Hwf) as Hc. pose proof (wf_head _ Hwf) as Hh.
  split; cbn.
  - rewrite length_insert. apply (wf_length _ Hwf).
  - done.
  - lia.
  - rewrite (wf_tail _ Hwf). pose proof (ring_range (head s + current_items_count s)).
    rewrite ring_rem by lia. rewrite <- ring_shift. ring_arith.
  - intros j Hj. rewrite push_slot by lia. rewrite decide_False by lia. apply (wf_zero _ Hwf). lia.
Qed.

Lemma push_contents : contents s' = contents s ++ [p'].
Proof.
  pose proof (wf_count _ Hwf) as Hc. unfold contents. cbn [current_items_count s' push_effect].
  change (current_items_count s') with (current_items_count s + 1).
  rewrite seqZ_snoc, map_app by lia. f_equal.
  - apply map_ext_in. intros j Hj%list_elem_of_In%elem_of_seqZ.
    rewrite push_slot by lia. by rewrite decide_False by lia.
  - cbn. rewrite push_slot by lia. by rewrite decide_True by lia.
Qed.

End PushEffect.

(** ** The effect of [pop] *)

Section PopEffect.
Context (s : SharedState).
Context (Hwf : belt_wf s) (Hitem : 0 < current_items_count s).

Let s' := pop_effect s.

Lemma pop_slot j :
  0 <= j < MAX_BELT_CAPACITY_K ->
  slot s' j = if decide (j = MAX_BELT_CAPACITY_K - 1) then zero_Package else slot s (j + 1).
Proof.
  intros Hj. pose proof (wf_head _ Hwf).
  set (mid := set_belt (<[Z.to_nat (head s) := zero_Package]> (belt s)) s).
  assert (Hs : slot s' j = slot mid (j + 1)).
  { unfold slot. cbn. rewrite ring_rem by lia. by rewrite ring_shift. }
  rewrite Hs. case_decide as Hd.
  - subst j. unfold slot. cbn.
    replace ((head s + (MAX_BELT_CAPACITY_K - 1 + 1)) mod MAX_BELT_CAPACITY_K) with (head s) by ring_arith.
    rewrite list_lookup_insert_eq; [done|]. rewrite (wf_length _ Hwf). lia.
  - rewrite (slot_insert s mid 0 (j + 1) zero_Package); [|done|done| |unfold MAX_BELT_CAPACITY_K; lia|lia].
    + by rewrite decide_False by lia.
    + cbn. do 2 f_equal. ring_arith.
Qed.

Lemma pop_wf : belt_wf s'.
Proof.
  pose proof (wf_count _ Hwf) as Hc. pose proof (wf_head _ Hwf) as Hh.
  split; cbn.
  - rewrite length_insert. apply (wf_length _ Hwf).
  - rewrite ring_rem by lia. apply ring_range.
  - lia.
  - rewrite ring_rem, ring_shift, (wf_tail _ Hwf) by lia. f_equal. lia.
  - intros j Hj. rewrite pop_slot by lia. case_decide; [done|]. apply (wf_zero _ Hwf). lia.
Qed.

Lemma pop_contents : contents s = slot s 0 :: contents s'.
Proof.
  pose proof (wf_count _ Hwf) as Hc. unfold contents.
  change (current_items_count s') with (current_items_count s - 1).
  rewrite seqZ_cons by lia. rewrite map_cons. f_equal.
  replace (Z.pred (current_items_count s)) with (current_items_count s - 1) by lia.
  replace (Z.succ 0) with (1 + 0) by lia. rewrite <- fmap_add_seqZ.
  change (Z.add 1 <$> seqZ 0 (current_items_count s - 1)) with (map (Z.add 1) (seqZ 0 (current_items_count s - 1))).
  rewrite map_map. apply map_ext_in. intros j Hj%list_elem_of_In%elem_of_seqZ.
  rewrite pop_slot by lia. rewrite decide_False by lia. f_equal. lia.
Qed.

End PopEffect.

Lemma contents_length s : 0 <= current_items_count s -> Z.of_nat (length (contents s)) = current_items_count s.
Proof. intros H. unfold contents. rewrite length_map, length_seqZ. lia. Qed.

Lemma zero_belt_wf : belt_wf zero_SharedState.
Proof.
  split; try done. intros j Hj. unfold slot. cbn -[Z.modulo replicate].
  destruct (_ !! _) eqn:E; [|done]. by apply lookup_replicate in E as [-> _].
Qed.

#[export] Hint Resolve push_wf pop_wf zero_belt_wf : warehouse.

(** ** Runs of the methods

    The lemmas below are stated for any belt whose callbacks complete; they
    follow the worlds the callbacks pass through. *)

Lemma simulateWorkLoad_runs pid b w : runs pid (simulateWorkLoad b) w tt w.
Proof.
  unfold simulateWorkLoad. destruct (negb (b_shm b)); [apply runs_ret|].
  run_one. case_if; [apply runs_sleep|]. run_one. case_if; [lia|]. apply runs_sleep.
Qed.

Section BeltRuns.
Context (pid : Z) (b : Belt) (Hshm : b_shm b = true).

(** The world after the stores and the log line of a successful [push]. *)
Definition pushed (pkg : Package) (w : world) : world :=
  let s := w_shm w in
  with_log (w_log w ++ [BeltPushed (total_packages_created s + 1) (tail s) (current_items_count s + 1)
                          (current_workers_count s)])
    (with_shm (push_effect pkg s) w).

(** The world after the stores and the log line of a successful [pop]. *)
Definition popped (w : world) : world :=
  let s := w_shm w in
  with_log (w_log w ++ [BeltPopped (id (slot s 0)) (head s) (current_items_count s - 1) (current_workers_count s)])
    (with_shm (pop_effect s) w).

Lemma push_runs pkg w w1 w2 w3 w4 :
  runs pid (wait_empty_fn b) w tt w1 ->
  runs pid (lock_fn b) w1 tt w2 ->
  belt_wf (w_shm w2) -> current_items_count (w_shm w2) < MAX_BELT_CAPACITY_K ->
  in_int (total_packages_created (w_shm w2) + 1) = true ->
  runs pid (unlock_fn b) (pushed pkg w2) tt w3 ->
  runs pid (signal_full_fn b) w3 tt w4 ->
  runs pid (push b pkg) w (set_id (total_packages_created (w_shm w2) + 1) pkg) w4.
Proof.
  intros Hwe Hlk Hwf Hroom Htot Hul Hsf. unfold push. rewrite Hshm. cbn [negb].
  eapply runs_bind; [apply simulateWorkLoad_runs|].
  eapply runs_bind; [exact Hwe|]. eapply runs_bind; [exact Hlk|]. run_one.
  rewrite (proj2 (Z.leb_gt _ _) Hroom).
  pose proof (wf_count _ Hwf). pose proof (ring_range (head (w_shm w2) + current_items_count (w_shm w2))).
  assert (0 <= tail (w_shm w2) < MAX_BELT_CAPACITY_K) by (rewrite (wf_tail _ Hwf); lia).
  run_one. eapply runs_bind; [by apply runs_int_result|]. run_one. run_one. run_one.
  eapply runs_bind; [apply runs_store_at; cbn; lia|].
  eapply runs_bind; [apply runs_int_result; unfold in_int, INT_MIN, INT_MAX, MAX_BELT_CAPACITY_K in *; cbn; lia|].
  run_one. run_one.
  eapply runs_bind; [apply runs_int_result; unfold in_int, INT_MIN, INT_MAX, MAX_BELT_CAPACITY_K in *; cbn; lia|].
  run_one. run_one. run_one. run_one. run_one. run_one.
  eapply runs_bind; [exact Hul|]. eapply runs_bind; [exact Hsf|]. apply runs_ret.
Qed.

(** A full belt refuses the package and leaves the segment as it is. *)
Lemma push_rejects pkg w w1 w2 w3 w4 :
  runs pid (wait_empty_fn b) w tt w1 ->
  runs pid (lock_fn b) w1 tt w2 ->
  MAX_BELT_CAPACITY_K <= current_items_count (w_shm w2) ->
  runs pid (unlock_fn b) (with_log (w_log w2 ++ [BeltRejected (current_items_count (w_shm w2))]) w2) tt w3 ->
  runs pid (signal_empty_fn b) w3 tt w4 ->
  runs pid (push b pkg) w pkg w4.
Proof.
  intros Hwe Hlk Hfull Hul Hse. unfold push. rewrite Hshm. cbn [negb].
  eapply runs_bind; [apply simulateWorkLoad_runs|].
  eapply runs_bind; [exact Hwe|]. eapply runs_bind; [exact Hlk|]. run_one.
  rewrite (proj2 (Z.leb_le _ _) Hfull). run_one. run_one.
  eapply runs_bind; [exact Hul|]. eapply runs_bind; [exact Hse|]. apply runs_ret.
Qed.

Lemma pop_runs w w1 w2 w3 w4 :
  runs pid (wait_full_fn b) w tt w1 ->
  runs pid (lock_fn b) w1 tt w2 ->
  belt_wf (w_shm w2) -> 0 < current_items_count (w_shm w2) ->
  runs pid (unlock_fn b) (popped w2) tt w3 ->
  runs pid (signal_empty_fn b) w3 tt w4 ->
  runs pid (pop b) w (slot (w_shm w2) 0) w4.
Proof.
  intros Hwe Hlk Hwf Hitem Hul Hse. unfold pop. rewrite Hshm. cbn [negb].
  eapply runs_bind; [exact Hwe|]. eapply runs_bind; [exact Hlk|]. run_one.
  rewrite (proj2 (Z.leb_gt _ _) Hitem).
  pose proof (wf_count _ Hwf). pose proof (wf_head _ Hwf).
  assert (Hh0 : belt (w_shm w2) !! Z.to_nat (head (w_shm w2)) = Some (slot (w_shm w2) 0)).
  { rewrite <- (slot_lookup _ 0 Hwf). f_equal. f_equal. ring_arith. }
  run_one. eapply runs_bind; [apply runs_load_at; [lia|exact Hh0]|].
  eapply runs_bind; [apply runs_store_at; cbn; lia|].
  eapply runs_bind; [apply runs_int_result; unfold in_int, INT_MIN, INT_MAX, MAX_BELT_CAPACITY_K in *; cbn; lia|].
  run_one. run_one.
  eapply runs_bind; [apply runs_int_result; unfold in_int, INT_MIN, INT_MAX, MAX_BELT_CAPACITY_K in *; cbn; lia|].
  run_one. run_one. run_one. run_one. run_one. run_one.
  eapply runs_bind; [exact Hul|]. eapply runs_bind; [exact Hse|]. apply runs_ret.
Qed.

Lemma pop_empty_runs w w1 w2 w3 w4 :
  runs pid (wait_full_fn b) w tt w1 ->
  runs pid (lock_fn b) w1 tt w2 ->
  current_items_count (w_shm w2) <= 0 ->
  runs pid (unlock_fn b) w2 tt w3 ->
  runs pid (signal_full_fn b) w3 tt w4 ->
  runs pid (pop b) w zero_Package w4.
Proof.
  intros Hwe Hlk Hempty Hul Hse. unfold pop. rewrite Hshm. cbn [negb].
  eapply runs_bind; [exact Hwe|]. eapply runs_bind; [exact Hlk|]. run_one.
  rewrite (proj2 (Z.leb_le _ _) Hempty).
  eapply runs_bind; [exact Hul|]. eapply runs_bind; [exact Hse|]. apply runs_ret.
Qed.

End BeltRuns.

(** ** The buffer implements the queue *)

Lemma noop_runs pid w : runs pid skip w tt w.
Proof. apply runs_ret. Qed.

Lemma noop_op_refines pid o w :
  belt_wf (w_shm w) -> 0 <= total_packages_created (w_shm w) < INT_MAX ->
  exists w', runs pid (belt_op noop_belt o) w (BoundedQueue.do_op o (belt_abs (w_shm w))).1 w' /\
    belt_wf (w_shm w') /\
    belt_abs (w_shm w') = (BoundedQueue.do_op o (belt_abs (w_shm w))).2 /\
    total_packages_created (w_shm w) <= total_packages_created (w_shm w') <= total_packages_created (w_shm w) + 1.
Proof.
  intros Hwf Htot. pose proof (wf_count _ Hwf) as Hc.
  pose proof (contents_length (w_shm w) ltac:(lia)) as Hlen.
  destruct o as [p|]; cbn [belt_op BoundedQueue.do_op].
  - unfold BoundedQueue.enqueue. cbn [BoundedQueue.items BoundedQueue.next_id belt_abs]. rewrite Hlen.
    destruct (Z.ltb_spec (current_items_count (w_shm w)) MAX_BELT_CAPACITY_K) as [Hlt|Hge]; cbn [fst snd].
    + eexists. split; [|split; [|split]].
      * eapply (push_runs pid noop_belt eq_refl p w w w); eauto using noop_runs.
        unfold in_int, INT_MIN, INT_MAX in *. lia.
      * cbn. by apply push_wf.
      * unfold belt_abs. cbn [w_shm pushed with_log with_shm]. rewrite push_contents by done. done.
      * cbn. lia.
    + eexists. split; [|split; [|split]].
      * eapply (push_rejects pid noop_belt eq_refl p w w w); eauto using noop_runs.
      * done.
      * done.
      * cbn. lia.
  - unfold BoundedQueue.dequeue. cbn [BoundedQueue.items BoundedQueue.next_id belt_abs].
    destruct (Z.ltb_spec 0 (current_items_count (w_shm w))) as [Hlt|Hge].
    + rewrite (pop_contents _ Hwf Hlt). cbn [fst snd].
      eexists. split; [|split; [|split]].
      * eapply (pop_runs pid noop_belt eq_refl w w w); eauto using noop_runs.
      * cbn. by apply pop_wf.
      * done.
      * cbn. lia.
    + assert (contents (w_shm w) = []) as He by (apply nil_length_inv; lia).
      rewrite He. cbn [fst snd]. exists w. split; [|split; [done|split; [|lia]]].
      * eapply (pop_empty_runs pid noop_belt eq_refl w w w); eauto using noop_runs.
      * unfold belt_abs. by rewrite He.
Qed.

Lemma noop_ops_refine pid os w :
  belt_wf (w_shm w) -> 0 <= total_packages_created (w_shm w) ->
  total_packages_created (w_shm w) + Z.of_nat (length os) <= INT_MAX ->
  exists w', runs pid (belt_ops noop_belt os) w (BoundedQueue.do_ops os (belt_abs (w_shm w))).1 w' /\
    belt_wf (w_shm w') /\ belt_abs (w_shm w') = (BoundedQueue.do_ops os (belt_abs (w_shm w))).2.
Proof.
  revert w; induction os as [|o os IH]; intros w Hwf Htot Hmax; cbn [belt_ops BoundedQueue.do_ops].
  - exists w. split; [apply runs_ret|]. done.
  - cbn [length] in Hmax.
    destruct (noop_op_refines pid o w Hwf) as (w1 & Hr1 & Hwf1 & Habs1 & Ht1); [lia|].
    destruct (IH w1 Hwf1) as (w2 & Hr2 & Hwf2 & Habs2); [lia|lia|].
    rewrite Habs1 in Hr2, Habs2.
    destruct (BoundedQueue.do_op o (belt_abs (w_shm w))) as [r q1]. cbn [fst snd] in *.
    destruct (BoundedQueue.do_ops os q1) as [rs q2]. cbn [fst snd] in *.
    exists w2. split; [|done].
    eapply runs_bind; [exact Hr1|]. eapply runs_bind; [exact Hr2|]. apply runs_ret.
Qed.

(** * The contract *)

(** C21. Any sequence of [push] and [pop] calls on a well-formed belt completes
    and behaves as the bounded queue: the results are those of the queue,
    including the refused push on a full belt and the zero package of an empty
    one, and the buffer it leaves represents the queue's final state.  The
    callbacks are those of the unit tests; the bound keeps the package counter
    within [int]. *)
Theorem belt_refines_queue pid os w :
  belt_wf (w_shm w) -> 0 <= total_packages_created (w_shm w) ->
  total_packages_created (w_shm w) + Z.of_nat (length os) <= INT_MAX ->
  exists w', runs pid (belt_ops noop_belt os) w (BoundedQueue.do_ops os (belt_abs (w_shm w))).1 w' /\
    belt_wf (w_shm w') /\ belt_abs (w_shm w') = (BoundedQueue.do_ops os (belt_abs (w_shm w))).2.
Proof. apply noop_ops_refine. Qed.

Lemma belt_refines_queue_witness :
  let w := mkWorld zero_SharedState (mkSemset 1 10 0 1) true [] 0 true [] in
  let os := [BoundedQueue.Pop; BoundedQueue.Push zero_Package; BoundedQueue.Push zero_Package; BoundedQueue.Pop] in
  exists w', runs 7 (belt_ops noop_belt os) w (BoundedQueue.do_ops os (belt_abs (w_shm w))).1 w' /\
    belt_wf (w_shm w') /\ belt_abs (w_shm w') = (BoundedQueue.do_ops os (belt_abs (w_shm w))).2.
Proof.
  apply (belt_refines_queue 7); [apply zero_belt_wf|cbn; lia|cbn; unfold INT_MAX; lia].
Defined.
