(* ===== verification/SessionManager.v ===== *)
(** * Sessions, quotas and roles ([src/include/SessionManager.h])

    A [SessionManager] object is a record of its pointer, its callbacks and
    the index [current_session] of the slot it occupies; a method that
    changes the member returns the new object.  The user table lives in
    shared memory; user names are byte arrays handled with the C string
    functions the source calls. *)

From S2P Require Import Prelude Double Shared Ipc.

(** ** C strings *)

(** The bytes [name.c_str()] points to; reading past the end finds the
    terminator. *)
Definition c_str (name : string) : list ascii := String.list_ascii_of_string name.

(** [strncmp(a, b, n)]. *)
Fixpoint strncmp (n : nat) (a b : list ascii) : Z :=
  match n with
  | O => 0
  | S m =>
      let x := hd NUL a in
      let y := hd NUL b in
      if Ascii.eqb x y then
        if Ascii.eqb x NUL then 0 else strncmp m (tl a) (tl b)
      else Z.of_nat (nat_of_ascii x) - Z.of_nat (nat_of_ascii y)
  end.

(** The [n] bytes that [strncpy(dst, src, n)] writes. *)
Fixpoint strncpy_bytes (n : nat) (src : list ascii) : list ascii :=
  match n with
  | O => []
  | S m =>
      match src with
      | [] => NUL :: strncpy_bytes m []
      | c :: rest => if Ascii.eqb c NUL then NUL :: strncpy_bytes m [] else c :: strncpy_bytes m rest
      end
  end.

Definition strncpy (dst src : list ascii) (n : nat) : list ascii := strncpy_bytes n src ++ drop n dst.

(** [std::string(buf)] of a character array. *)
Fixpoint std_string (buf : list ascii) : string :=
  match buf with
  | [] => ""
  | c :: rest => if Ascii.eqb c NUL then "" else String c (std_string rest)
  end.

(** ** The class *)

Record SessionManager := mkSessionManager {
  sm_shm : bool;  (* the pointer is not null *)
  current_session : Z;
  sm_lock_fn : prog unit;
  sm_unlock_fn : prog unit }.

Definition new_SessionManager (shm : bool) (lock unlock : prog unit) : SessionManager :=
  mkSessionManager shm (-1) lock unlock.

Definition set_current_session (i : Z) (sm : SessionManager) : SessionManager :=
  mkSessionManager (sm_shm sm) i (sm_lock_fn sm) (sm_unlock_fn sm).

(** Assign a field of [shm->users[i]]. *)
Definition store_user (i : Z) (f : UserSession -> UserSession) : prog unit :=
  store_at MAX_USERS_SESSIONS i (fun s => set_users (alter f (Z.to_nat i) (users s)) s).

(** The first loop of [login]: is the name taken?  [n] slots are left, from
    index [i] on. *)
Fixpoint find_duplicate (n : nat) (i : Z) (name : string) : prog bool :=
  match n with
  | O => Ret false
  | S m =>
      let* u := load_at users i in
      if active u then
        let* v := load_at users i in
        if strncmp 31 (username v) (c_str name) =? 0 then Ret true
        else find_duplicate m (i + 1) name
      else find_duplicate m (i + 1) name
  end.

(** The second loop of [login]: the first inactive slot, or [-1]. *)
Fixpoint find_free_slot (n : nat) (i : Z) : prog Z :=
  match n with
  | O => Ret (-1)
  | S m =>
      let* u := load_at users i in
      if negb (active u) then Ret i else find_free_slot m (i + 1)
  end.

(** [bool login(name, role, orgId, max_procs)]. *)
Definition login (sm : SessionManager) (name : string) (r : UserRole.t) (org max_procs : Z)
  : prog (bool * SessionManager) :=
  if negb (sm_shm sm) then Ret (false, sm) else
  sm_lock_fn sm ;;
  let* dup := find_duplicate (Z.to_nat MAX_USERS_SESSIONS) 0 name in
  if dup then
    log (AlreadyLoggedIn name) ;;
    sm_unlock_fn sm ;;
    Ret (false, sm)
  else
    let* free_slot := find_free_slot (Z.to_nat MAX_USERS_SESSIONS) 0 in
    if free_slot =? -1 then
      log (SessionLimit name) ;;
      sm_unlock_fn sm ;;
      Ret (false, sm)
    else
      store_user free_slot (fun _ => zero_UserSession) ;;
      store_user free_slot (set_active true) ;;
      store_user free_slot (fun u => set_username (strncpy (username u) (c_str name) 31) u) ;;
      store_user free_slot (set_role r) ;;
      store_user free_slot (set_orgId org) ;;
      store_user free_slot (set_max_processes max_procs) ;;
      store_user free_slot (set_current_processes 0) ;;
      let* pid := Getpid Ret in
      store_user free_slot (set_session_pid pid) ;;
      log (LoggedIn name org r free_slot) ;;
      sm_unlock_fn sm ;;
      Ret (true, set_current_session free_slot sm).

(** [void logout()]. *)
Definition logout (sm : SessionManager) : prog SessionManager :=
  let i := current_session sm in
  if (i =? -1) || negb (sm_shm sm) then Ret sm else
  sm_lock_fn sm ;;
  let* u := load_at users i in
  log (LoggingOut (username u)) ;;
  store_user i (set_active false) ;;
  store_user i (set_role UserRole.None) ;;
  store_user i (set_orgId 0) ;;
  store_user i (set_current_processes 0) ;;
  sm_unlock_fn sm ;;
  Ret (set_current_session (-1) sm).

(** [bool trySpawnProcess()]. *)
Definition trySpawnProcess (sm : SessionManager) : prog bool :=
  let i := current_session sm in
  if (i =? -1) || negb (sm_shm sm) then Ret false else
  sm_lock_fn sm ;;
  let* u := load_at users i in
  let* v := load_at users i in
  let* success :=
    (if current_processes u <? max_processes v then
       let* x := load_at users i in
       let* n := int_result (current_processes x + 1) in
       store_user i (set_current_processes n) ;;
       Ret true
     else Ret false) in
  sm_unlock_fn sm ;;
  Ret success.

(** [void reportProcessFinished()]. *)
Definition reportProcessFinished (sm : SessionManager) : prog unit :=
  let i := current_session sm in
  if (i =? -1) || negb (sm_shm sm) then skip else
  sm_lock_fn sm ;;
  let* u := load_at users i in
  (if 0 <? current_processes u then
     let* x := load_at users i in
     let* n := int_result (current_processes x - 1) in
     store_user i (set_current_processes n)
   else skip) ;;
  sm_unlock_fn sm.

(** [UserRole getCurrentRole()]. *)
Definition getCurrentRole (sm : SessionManager) : prog UserRole.t :=
  let i := current_session sm in
  if (i =? -1) || negb (sm_shm sm) then Ret UserRole.None else
  let* u := load_at users i in
  Ret (role u).

(** [int getSessionIndex() const]. *)
Definition getSessionIndex (sm : SessionManager) : Z := current_session sm.

(** ** What the table promises *)

(** The part of a buffer that [strncmp] with bound [n] looks at. *)
Fixpoint ckey (n : nat) (buf : list ascii) : list ascii :=
  match n with
  | O => []
  | S m =>
      match buf with
      | [] => []
      | c :: rest => if Ascii.eqb c NUL then [] else c :: ckey m rest
      end
  end.

(** The session table: fixed size, full-size name buffers, quotas respected,
    and no two active sessions with the same name. *)
Record users_wf (us : list UserSession) : Prop := {
  uw_length : length us = Z.to_nat MAX_USERS_SESSIONS;
  uw_buffer : forall i u, us !! i = Some u -> length (username u) = USERNAME_SIZE;
  uw_quota : forall i u, us !! i = Some u -> 0 <= current_processes u <= Z.max 0 (max_processes u);
  uw_max : forall i u, us !! i = Some u -> max_processes u <= INT_MAX;
  uw_unique : forall i j u v, us !! i = Some u -> us !! j = Some v ->
      active u = true -> active v = true -> ckey 31 (username u) = ckey 31 (username v) -> i = j }.

(** The slot [login] writes. *)
Definition fresh_session (name : string) (r : UserRole.t) (org max_procs pid : Z) : UserSession :=
  mkUserSession true (strncpy (replicate USERNAME_SIZE NUL) (c_str name) 31) pid r org max_procs 0.

(** The table after [logout] of slot [i]. *)
Definition closed_session (u : UserSession) : UserSession :=
  mkUserSession false (username u) (session_pid u) UserRole.None 0 (max_processes u) 0.

(** An active session of that name exists. *)
Definition name_taken (us : list UserSession) (name : string) : Prop :=
  exists i u, us !! i = Some u /\ active u = true /\ ckey 31 (username u) = ckey 31 (c_str name).

(** [i] is the first inactive slot. *)
Definition first_free (us : list UserSession) (i : nat) : Prop :=
  (exists u, us !! i = Some u /\ active u = false) /\
  forall j u, (j < i)%nat -> us !! j = Some u -> active u = true.

(** * Lemmas *)

(** ** C strings *)

Lemma hd_tl_ckey n (a : list ascii) :
  ckey (S n) a = if Ascii.eqb (hd NUL a) NUL then [] else hd NUL a :: ckey n (tl a).
Proof. by destruct a. Qed.

(** [strncmp] compares the keys. *)
Lemma strncmp_zero n a b : strncmp n a b = 0 <-> ckey n a = ckey n b.
Proof.
  revert a b; induction n as [|n IH]; intros a b; [done|].
  rewrite !hd_tl_ckey. cbn [strncmp].
  destruct (Ascii.eqb_spec (hd NUL a) (hd NUL b)) as [He|Hne].
  - rewrite <- He. destruct (Ascii.eqb_spec (hd NUL a) NUL); [done|]. rewrite IH. split; [by intros ->|intros H; congruence].
  - split.
    + intros Hz. exfalso. apply Hne. rewrite <- (ascii_nat_embedding (hd NUL a)), <- (ascii_nat_embedding (hd NUL b)).
      f_equal. lia.
    + destruct (Ascii.eqb_spec (hd NUL a) NUL), (Ascii.eqb_spec (hd NUL b) NUL); intros Hk; congruence.
Qed.

Lemma ckey_nil n : ckey n [] = [].
Proof. by destruct n. Qed.

Lemma ckey_strncpy_bytes n src rest : ckey n (strncpy_bytes n src ++ rest) = ckey n src.
Proof.
  revert src; induction n as [|n IH]; intros src; [done|].
  destruct src as [|c src]; cbn [strncpy_bytes app ckey].
  - by rewrite (proj2 (Ascii.eqb_eq NUL NUL)).
  - destruct (Ascii.eqb_spec c NUL) as [->|Hc]; cbn [app ckey].
    + by rewrite (proj2 (Ascii.eqb_eq NUL NUL)).
    + rewrite (proj2 (Ascii.eqb_neq c NUL)) by done. by rewrite IH.
Qed.

Lemma length_strncpy_bytes n src : length (strncpy_bytes n src) = n.
Proof.
  revert src; induction n as [|n IH]; intros src; [done|].
  destruct src as [|c src]; cbn; [by rewrite IH|]. case_match; cbn; by rewrite IH.
Qed.

(** Copying a name and comparing it sees the first 31 characters. *)
Lemma ckey_strncpy dst src n : ckey n (strncpy dst src n) = ckey n src.
Proof. apply ckey_strncpy_bytes. Qed.

Lemma length_strncpy dst src n : (n <= length dst)%nat -> length (strncpy dst src n) = length dst.
Proof. intros H. unfold strncpy. rewrite length_app, length_strncpy_bytes, length_drop. lia. Qed.

(** ** The loops of [login] *)

Section Loops.
Context (pid : Z) (w : world) (us : list UserSession) (Hus : users (w_shm w) = us).

Lemma find_duplicate_runs n i name :
  length us = (i + n)%nat ->
  exists d, runs pid (find_duplicate n (Z.of_nat i) name) w d w /\
    (d = true <-> exists j u, (i <= j)%nat /\ us !! j = Some u /\ active u = true /\
                              ckey 31 (username u) = ckey 31 (c_str name)).
Proof.
  revert i; induction n as [|n IH]; intros i Hlen.
  - exists false. split; [apply runs_ret|]. split; [done|].
    intros (j & u & Hj & Hu & _). apply lookup_lt_Some in Hu. lia.
  - destruct (lookup_lt_is_Some_2 us i) as [u Hu]; [lia|].
    destruct (IH (S i)) as (d & Hd & Hspec); [lia|].
    replace (Z.of_nat (S i)) with (Z.of_nat i + 1) in Hd by lia.
    assert (Hld : runs pid (load_at users (Z.of_nat i)) w u w).
    { apply runs_load_at; [lia|]. by rewrite Nat2Z.id, Hus. }
    assert (Hrest : ~ (active u = true /\ ckey 31 (username u) = ckey 31 (c_str name)) ->
       (d = true <-> exists j v, (i <= j)%nat /\ us !! j = Some v /\ active v = true /\
                              ckey 31 (username v) = ckey 31 (c_str name))).
    { intros Hno. rewrite Hspec. split; intros (j & v & Hj & Hv & Ha & Hk).
      - exists j, v. repeat split; auto; lia.
      - exists j, v. repeat split; auto. destruct (decide (i = j)) as [<-|]; [|lia]. simplify_eq. tauto. }
    cbn [find_duplicate]. destruct (active u) eqn:Ha.
    + destruct (Z.eqb_spec (strncmp 31 (username u) (c_str name)) 0) as [Hz|Hz].
      * exists true. split.
        -- eapply runs_bind; [exact Hld|]. cbv beta. rewrite Ha. eapply runs_bind; [exact Hld|]. cbv beta.
           rewrite (proj2 (Z.eqb_eq _ _) Hz). apply runs_ret.
        -- split; [|done]. intros _. exists i, u. repeat split; [lia|done|done|by apply strncmp_zero].
      * exists d. split.
        -- eapply runs_bind; [exact Hld|]. cbv beta. rewrite Ha. eapply runs_bind; [exact Hld|]. cbv beta.
           rewrite (proj2 (Z.eqb_neq _ _) Hz). exact Hd.
        -- apply Hrest. rewrite strncmp_zero in Hz. tauto.
    + exists d. split; [|apply Hrest; intros [? _]; congruence].
      eapply runs_bind; [exact Hld|]. cbv beta. rewrite Ha. exact Hd.
Qed.

Lemma find_free_slot_runs n i :
  length us = (i + n)%nat ->
  (exists j, runs pid (find_free_slot n (Z.of_nat i)) w (Z.of_nat j) w /\ (i <= j)%nat /\
     (exists u, us !! j = Some u /\ active u = false) /\
     (forall l u, (i <= l < j)%nat -> us !! l = Some u -> active u = true)) \/
  (runs pid (find_free_slot n (Z.of_nat i)) w (-1) w /\
     forall l u, (i <= l)%nat -> us !! l = Some u -> active u = true).
Proof.
  revert i; induction n as [|n IH]; intros i Hlen.
  - right. split; [apply runs_ret|]. intros l u Hl Hu. apply lookup_lt_Some in Hu. lia.
  - destruct (lookup_lt_is_Some_2 us i) as [u Hu]; [lia|].
    assert (Hld : runs pid (load_at users (Z.of_nat i)) w u w).
    { apply runs_load_at; [lia|]. by rewrite Nat2Z.id, Hus. }
    cbn [find_free_slot]. destruct (active u) eqn:Ha.
    + replace (Z.of_nat i + 1) with (Z.of_nat (S i)) by lia.
      destruct (IH (S i)) as [(j & Hr & Hj & Hf & Hb)|[Hr Hb]]; [lia| |].
      * left. exists j. split; [|split; [lia|split; [done|]]].
        -- eapply runs_bind; [exact Hld|]. cbv beta. rewrite Ha. exact Hr.
        -- intros l v Hl Hv. destruct (decide (l = i)) as [->|]; [congruence|]. eapply Hb; [|done]. lia.
      * right. split.
        -- eapply runs_bind; [exact Hld|]. cbv beta. rewrite Ha. exact Hr.
        -- intros l v Hl Hv. destruct (decide (l = i)) as [->|]; [congruence|]. eapply Hb; [|done]. lia.
    + left. exists i. split; [|split; [lia|split; [by exists u|intros; lia]]].
      eapply runs_bind; [exact Hld|]. cbv beta. rewrite Ha. apply runs_ret.
Qed.

End Loops.

(** ** The table invariant *)

Lemma zero_users_wf : users_wf (users zero_SharedState).
Proof.
  split.
  - done.
  - intros i u Hu. cbn -[replicate] in Hu. by apply lookup_replicate in Hu as [-> _].
  - intros i u Hu. cbn -[replicate] in Hu. by apply lookup_replicate in Hu as [-> _].
  - intros i u Hu. cbn -[replicate] in Hu. by apply lookup_replicate in Hu as [-> _].
  - intros i j u v Hu Hv Ha. cbn -[replicate] in Hu. by apply lookup_replicate in Hu as [-> _].
Qed.

Lemma login_users_wf us i name r org max_procs pid :
  users_wf us -> first_free us i -> ~ name_taken us name -> max_procs <= INT_MAX ->
  users_wf (<[i := fresh_session name r org max_procs pid]> us).
Proof.
  intros [Hl Hb Hq Hm Hu] [(u0 & Hi & Ha0) _] Hno Hmax.
  assert (Hkey : ckey 31 (username (fresh_session name r org max_procs pid)) = ckey 31 (c_str name))
    by apply ckey_strncpy.
  split.
  - by rewrite length_insert.
  - intros j v [[-> ->]|[_ Hv]]%lookup_insert_cases; [|eauto].
    unfold fresh_session. cbn [username]. rewrite length_strncpy; rewrite length_replicate; [done|].
    unfold USERNAME_SIZE. lia.
  - intros j v [[-> ->]|[_ Hv]]%lookup_insert_cases; [cbn; lia|eauto].
  - intros j v [[-> ->]|[_ Hv]]%lookup_insert_cases; [done|eauto].
  - intros j l v x [[<- ->]|[Hij Hv]]%lookup_insert_cases [[<- ->]|[Hil Hx]]%lookup_insert_cases Hav Hax Hk; try done.
    + rewrite Hkey in Hk. exfalso. apply Hno. exists l, x. auto.
    + rewrite Hkey in Hk. exfalso. apply Hno. exists j, v. auto.
    + eauto.
Qed.

(** Replacing an entry by one that keeps the name and is not newly active. *)
Lemma update_users_wf us i u u' :
  users_wf us -> us !! i = Some u -> username u' = username u ->
  (active u' = true -> active u = true) ->
  0 <= current_processes u' <= Z.max 0 (max_processes u') -> max_processes u' <= INT_MAX ->
  users_wf (<[i := u']> us).
Proof.
  intros [Hl Hb Hq Hm Hu] Hi Hn Ha Hc Hmx. split.
  - by rewrite length_insert.
  - intros j v [[-> ->]|[_ Hv]]%lookup_insert_cases; [rewrite Hn|]; eauto.
  - intros j v [[-> ->]|[_ Hv]]%lookup_insert_cases; eauto.
  - intros j v [[-> ->]|[_ Hv]]%lookup_insert_cases; eauto.
  - intros j l v x [[<- ->]|[Hij Hv]]%lookup_insert_cases [[<- ->]|[Hil Hx]]%lookup_insert_cases Hav Hax Hk;
      try done; rewrite ?Hn in Hk; eauto.
Qed.

Lemma closed_users_wf us i u :
  users_wf us -> us !! i = Some u -> users_wf (<[i := closed_session u]> us).
Proof. intros Hwf Hi. eapply update_users_wf; [done|done|done|done|cbn; lia|]. exact (uw_max _ Hwf _ _ Hi). Qed.

Lemma alter_insert {A} (f : A -> A) i (l : list A) x : l !! i = Some x -> alter f i l = <[i := f x]> l.
Proof.
  intros Hx. apply list_eq. intros j. destruct (decide (i = j)) as [<-|Hne].
  - rewrite list_lookup_alter_eq, Hx, list_lookup_insert_eq; [done|]. by eapply lookup_lt_Some.
  - by rewrite list_lookup_alter_ne, list_lookup_insert_ne.
Qed.

(** Two assignments to one slot are one. *)
Lemma alter_twice {A} (f g : A -> A) i (l : list A) : alter f i (alter g i l) = alter (fun x => f (g x)) i l.
Proof. revert i; induction l as [|x l IH]; intros [|i]; cbn; try done. f_equal. apply IH. Qed.

#[export] Hint Resolve zero_users_wf login_users_wf closed_users_wf : warehouse.
