(* ===== verification/Truck.v ===== *)
(** * The truck ([src/include/Truck.h])

    The life of a vehicle: queue for the dock, take it with fresh limits,
    wait for a signal, leave, travel, return. *)

From S2P Require Import Prelude Double Shared Ipc.

(** [RAND_MAX] of the C library. *)
Definition RAND_MAX : Z := 2147483647.

(** Assign fields of [shm->dock_truck]. *)
Definition store_dock (f : TruckState -> TruckState) : prog unit :=
  store (fun s => set_dock_truck (f (dock_truck s)) s).

(** Read a field of [shm->dock_truck]. *)
Definition load_dock {T} (f : TruckState -> T) : prog T := load (fun s => f (dock_truck s)).

Record Truck := mkTruck {
  t_shm : bool;  (* the pointer is not null *)
  my_pid : Z;
  t_lock_dock_fn : prog unit;
  t_unlock_dock_fn : prog unit;
  wait_for_signal_fn : Z -> prog SignalType }.

(** [void randomizeTruckSpecs(TruckState &truck)]. *)
Definition randomizeTruckSpecs (t : Truck) : prog unit :=
  store_dock (set_truck_id (my_pid t)) ;;
  store_dock (set_current_load 0) ;;
  store_dock (set_current_weight d_zero) ;;
  store_dock (set_current_volume d_zero) ;;
  store_dock (set_max_load 100) ;;
  let* mw := RandReal (d_ofZ 200) (d_ofZ 600) Ret in
  store_dock (set_max_weight mw) ;;
  let* mv := RandReal (d_ofZ 1) (d_ofZ 3) Ret in
  store_dock (set_max_volume mv) ;;
  store_dock (set_is_present true).

(** [shm->trucks_completed++]. *)
Definition count_departure : prog unit :=
  let* n := load trucks_completed in
  let* n' := int_result (n + 1) in
  store (set_trucks_completed n').

(** [SIGNAL_END_WORK] or the end of the run: deliver what is on board. *)
Definition truck_shutdown (t : Truck) : prog unit :=
  t_lock_dock_fn t ;;
  let* i := load_dock truck_id in
  let* cargo :=
    (if i =? my_pid t then
       let* cw := load_dock current_weight in
       Ret (d_lit 1 10 <? cw)%double
     else Ret false) in
  if (cargo : bool) then
    count_departure ;;
    store_dock (set_is_present false) ;;
    let* cw := load_dock current_weight in
    log (ShutdownWithCargo (my_pid t) cw) ;;
    t_unlock_dock_fn t ;;
    sleep_ms 3000 ;;
    log (FinalDelivery (my_pid t))
  else
    let* j := load_dock truck_id in
    (if j =? my_pid t then store_dock (set_is_present false) else skip) ;;
    t_unlock_dock_fn t ;;
    log (EmptyShutdown (my_pid t)).

(** Any other signal: leave the dock and travel. *)
Definition truck_depart (t : Truck) : prog unit :=
  t_lock_dock_fn t ;;
  let* i := load_dock truck_id in
  (if i =? my_pid t then
     count_departure ;;
     store_dock (set_is_present false) ;;
     let* cw := load_dock current_weight in
     let* cv := load_dock current_volume in
     let* total := load trucks_completed in
     log (Departing (my_pid t) cw cv total)
   else log (IdentityTheft (my_pid t))) ;;
  t_unlock_dock_fn t ;;
  let* r := RandInt 0 RAND_MAX Ret in
  let route_time := 3000 + Z.rem r 5000 in
  log (OnRoute (my_pid t) route_time) ;;
  sleep_ms route_time.

(** One round of the loop of [run]; [inr] leaves the loop. *)
Definition truck_round (t : Truck) : prog (unit + unit) :=
  let* r := load running in
  if negb r then Ret (inr tt) else
  t_lock_dock_fn t ;;
  let* present := load_dock is_present in
  if (present : bool) then
    t_unlock_dock_fn t ;;
    sleep_ms 1000 ;;
    Ret (inl tt)
  else
    randomizeTruckSpecs t ;;
    let* mw := load_dock max_weight in
    let* mv := load_dock max_volume in
    log (Docked (my_pid t) mw mv) ;;
    t_unlock_dock_fn t ;;
    let* sig := wait_for_signal_fn t (my_pid t) in
    let* stop :=
      (match sig with
       | SIGNAL_END_WORK => Ret true
       | _ => let* r' := load running in Ret (negb r')
       end) in
    if (stop : bool) then truck_shutdown t ;; Ret (inr tt)
    else truck_depart t ;; Ret (inl tt).

(** [void run()]. *)
Definition truck_run (t : Truck) : prog unit :=
  log (EngineStarted (my_pid t)) ;;
  (if t_shm t then loop tt (fun _ => truck_round t) else skip) ;;
  t_lock_dock_fn t ;;
  (if t_shm t then
     let* present := load_dock is_present in
     if (present : bool) then
       let* i := load_dock truck_id in
       if i =? my_pid t then store_dock (set_is_present false) else skip
     else skip
   else Undef NullDeref) ;;
  t_unlock_dock_fn t ;;
  log (TruckShiftEnded (my_pid t)).
