(* ===== verification/Dispatcher.v ===== *)
(** * The dispatcher ([src/include/Dispatcher.h])

    Takes packages from the belt one at a time and loads each on the truck at
    the dock, sending trucks away when they are full or the package does not
    fit. *)

From S2P Require Import Prelude Double Shared Ipc Belt Truck.

Record Dispatcher := mkDispatcher {
  d_belt : Belt;
  d_shm : bool;  (* the pointer is not null *)
  d_lock_dock_fn : prog unit;
  d_unlock_dock_fn : prog unit;
  d_send_signal_fn : Z -> SignalType -> prog unit }.

(** [if (truck.current_load >= truck.max_load || ...)], with the short-circuit
    evaluation of [||]. *)
Definition limit_reached : prog bool :=
  let* cl := load_dock current_load in
  let* ml := load_dock max_load in
  if ml <=? cl then Ret true else
  let* cw := load_dock current_weight in
  let* mw := load_dock max_weight in
  if (mw * d_lit 99 100 <=? cw)%double then Ret true else
  let* cv := load_dock current_volume in
  let* mv := load_dock max_volume in
  Ret (mv * d_lit 99 100 <=? cv)%double.

(** The body of [if (truck.is_present)]; the result is [loaded]. *)
Definition try_load (d : Dispatcher) (pkg : Package) : prog bool :=
  let* cw := load_dock current_weight in
  let* mw := load_dock max_weight in
  let fits_weight := (cw + weight pkg <=? mw)%double in
  let* cv := load_dock current_volume in
  let* mv := load_dock max_volume in
  let fits_volume := (cv + volume pkg <=? mv)%double in
  if fits_weight && fits_volume then
    let* cw' := load_dock current_weight in
    store_dock (set_current_weight (cw' + weight pkg)%double) ;;
    let* cv' := load_dock current_volume in
    store_dock (set_current_volume (cv' + volume pkg)%double) ;;
    let* cl := load_dock current_load in
    let* cl' := int_result (cl + 1) in
    store_dock (set_current_load cl') ;;
    let* tid := load_dock truck_id in
    log (PkgLoaded (id pkg) (weight pkg) (volume pkg) tid) ;;
    let* full := limit_reached in
    (if (full : bool) then
       let* tid' := load_dock truck_id in
       log (TruckFull tid') ;;
       let* target := load_dock truck_id in
       d_send_signal_fn d target SIGNAL_DEPARTURE
     else skip) ;;
    Ret true
  else
    let* tid := load_dock truck_id in
    log (DoesNotFit (id pkg) tid fits_weight fits_volume) ;;
    let* target := load_dock truck_id in
    d_send_signal_fn d target SIGNAL_DEPARTURE ;;
    Ret false.

(** One round of [while (!loaded && shm->running)]. *)
Definition load_round (d : Dispatcher) (pkg : Package) : prog (unit + unit) :=
  let* r := load running in
  if negb r then Ret (inr tt) else
  d_lock_dock_fn d ;;
  let* present := load_dock is_present in
  let* loaded := (if (present : bool) then try_load d pkg else Ret false) in
  d_unlock_dock_fn d ;;
  if (loaded : bool) then Ret (inr tt) else
  sleep_ms 200 ;;
  Ret (inl tt).

(** [void processNextPackage()]. *)
Definition processNextPackage (d : Dispatcher) : prog unit :=
  let* pkg := pop (d_belt d) in
  if negb (d_shm d) then Undef NullDeref else
  if id pkg =? 0 then
    let* r := load running in
    if (r : bool) then sleep_ms 100 else skip
  else
    loop tt (fun _ => load_round d pkg).

(** [void run()]. *)
Definition dispatcher_run (d : Dispatcher) : prog unit :=
  log DispatcherStarted ;;
  loop tt (fun _ =>
    if negb (d_shm d) then Ret (inr tt) else
    let* r := load running in
    if negb r then Ret (inr tt) else
    processNextPackage d ;;
    Ret (inl tt)) ;;
  log DispatcherStopped.
