(* ===== verification/Express.v ===== *)
(** * Express deliveries ([src/include/Express.h])

    The P4 worker loads a batch of three to five packages straight onto the
    truck at the dock. *)

From S2P Require Import Prelude Double Shared Ipc Truck.

Record Express := mkExpress {
  e_shm : bool;  (* the pointer is not null *)
  e_lock_dock_fn : prog unit;
  e_unlock_dock_fn : prog unit;
  e_send_signal_fn : Z -> SignalType -> prog unit }.

(** Volume and type for the roll [t]. *)
Definition express_kind (t : Z) : double * PackageType.t :=
  if t =? 2 then (VOL_C, PackageType.TypeC)
  else if t =? 1 then (VOL_B, PackageType.TypeB)
  else (VOL_A, PackageType.TypeA).

(** The loop [for (i = 0; i < batch_size; ++i)], with [n] rounds left. *)
Fixpoint express_items (e : Express) (n : nat) (i batch_size : Z) : prog unit :=
  match n with
  | O => skip
  | S m =>
      let* wgt := RandReal (d_ofZ 1) (d_ofZ 15) Ret in
      let* t := RandInt 0 2 Ret in
      let vol := (express_kind t).1 in
      let ty := (express_kind t).2 in
      let* cw := load_dock current_weight in
      let* mw := load_dock max_weight in
      let fits_W := (cw + wgt <=? mw)%double in
      let* cv := load_dock current_volume in
      let* mv := load_dock max_volume in
      let fits_V := (cv + vol <=? mv)%double in
      if fits_W && fits_V then
        let* cw' := load_dock current_weight in
        store_dock (set_current_weight (cw' + wgt)%double) ;;
        let* cv' := load_dock current_volume in
        store_dock (set_current_volume (cv' + vol)%double) ;;
        log (ExpressLoaded (i + 1) batch_size ty wgt) ;;
        express_items e m (i + 1) batch_size
      else
        log ExpressTruckFull ;;
        let* target := load_dock truck_id in
        e_send_signal_fn e target SIGNAL_DEPARTURE
  end.

(** [void deliverExpressBatch()]. *)
Definition deliverExpressBatch (e : Express) : prog unit :=
  if negb (e_shm e) then skip else
  e_lock_dock_fn e ;;
  let* present := load_dock is_present in
  if negb present then
    log ExpressNoTruck ;;
    e_unlock_dock_fn e
  else
    log ExpressDelivering ;;
    let* batch_size := RandInt 3 5 Ret in
    express_items e (Z.to_nat batch_size) 0 batch_size ;;
    e_unlock_dock_fn e.
