(* ===== verification/Manager.v ===== *)
(** * The IPC manager ([src/include/Manager.h])

    The wrappers around [semop], [msgsnd] and [msgrcv], the creation and
    removal of the IPC resources, and the components wired to the manager's
    own callbacks. *)

From S2P Require Import Prelude Double Shared Ipc Belt SessionManager Truck Dispatcher Express.

(** ** Semaphores *)

(** [void semOperation(SemIndex semIdx, int op)]. *)
Definition semOperation (semIdx : SemIndex) (op : Z) : prog unit :=
  Semop semIdx op (fun r =>
    match r with
    | None => skip
    | Some e =>
        let* early :=
          (if is_EIDRM e || is_EINVAL e then
             let* r := load running in Ret (negb r)
           else Ret false) in
        if (early : bool) then skip
        else if negb (is_EINTR e) then
          log (SemopFailed e) ;;
          Exit (errno_code e)
        else skip
    end).

Definition lockBelt : prog unit := semOperation SEM_MUTEX_BELT (-1).
Definition unlockBelt : prog unit := semOperation SEM_MUTEX_BELT 1.
Definition waitForEmptySlot : prog unit := semOperation SEM_EMPTY_SLOTS (-1).
Definition signalSlotFreed : prog unit := semOperation SEM_EMPTY_SLOTS 1.
Definition waitForPackage : prog unit := semOperation SEM_FULL_SLOTS (-1).
Definition signalPackageAdded : prog unit := semOperation SEM_FULL_SLOTS 1.
Definition lockDock : prog unit := semOperation SEM_DOCK_MUTEX (-1).
Definition unlockDock : prog unit := semOperation SEM_DOCK_MUTEX 1.

(** ** Messages *)

(** [void sendSignal(pid_t target_pid, SignalType type)]. *)
Definition sendSignal (target_pid : Z) (type : SignalType) : prog unit :=
  Msgsnd (mkCommandMessage target_pid (signal_to_int type)) (fun r =>
    match r with
    | Some e => log (MsgsndFailed target_pid e)
    | None => log (SignalSent (signal_to_int type) target_pid)
    end).

(** What a receiving method makes of the result of [msgrcv]. *)
Definition received (r : errno + CommandMessage) : prog SignalType :=
  match r with
  | inr m =>
      match signal_of_int (command_id m) with
      | Some s => Ret s
      | None => Undef BadEnum
      end
  | inl _ => Ret SIGNAL_NONE
  end.

(** [SignalType receiveSignalBlocking(pid_t my_pid)]. *)
Definition receiveSignalBlocking (my_pid : Z) : prog SignalType := Msgrcv my_pid false received.

(** [SignalType receiveSignalNonBlocking(pid_t my_pid)]. *)
Definition receiveSignalNonBlocking (my_pid : Z) : prog SignalType := Msgrcv my_pid true received.

(** ** Components *)

Record Manager := mkManager {
  session_store : SessionManager;
  m_belt : Belt;
  m_truck : Truck;
  m_express : Express;
  m_dispatcher : Dispatcher }.

(** The components, wired as the constructor wires them. *)
Definition manager_belt : Belt :=
  mkBelt true waitForEmptySlot signalSlotFreed waitForPackage signalPackageAdded lockBelt unlockBelt.

Definition manager_sessions : SessionManager := new_SessionManager true lockBelt unlockBelt.

Definition manager_truck (pid : Z) : Truck := mkTruck true pid lockDock unlockDock receiveSignalBlocking.

Definition manager_express : Express := mkExpress true lockDock unlockDock sendSignal.

Definition manager_dispatcher : Dispatcher := mkDispatcher manager_belt true lockDock unlockDock sendSignal.

Definition new_Manager (pid : Z) : Manager :=
  mkManager manager_sessions manager_belt (manager_truck pid) manager_express manager_dispatcher.

(** ** Creation and removal of the resources

    [ipc] is what the kernel holds under the three keys; [k_msgmnb] is its
    limit for new message queues.  The constructor and the destructor work on
    it and print; a failed call ends the process with an exit code. *)

Record ipc := mkIpc {
  k_shm : option SharedState;
  k_sem : option semset;
  k_msg : option (list CommandMessage * Z);
  k_msgmnb : Z }.

Definition set_k_shm (x : option SharedState) (k : ipc) : ipc := mkIpc x (k_sem k) (k_msg k) (k_msgmnb k).
Definition set_k_sem (x : option semset) (k : ipc) : ipc := mkIpc (k_shm k) x (k_msg k) (k_msgmnb k).
Definition set_k_msg (x : option (list CommandMessage * Z)) (k : ipc) : ipc := mkIpc (k_shm k) (k_sem k) x (k_msgmnb k).

Definition kernel : Type := ipc * list log_msg.

(** [inl] is the code given to [exit]. *)
Definition kprog (A : Type) : Type := kernel -> (Z + A) * kernel.

Definition k_ret {A} (a : A) : kprog A := fun k => (inr a, k).

Definition k_bind {A B} (m : kprog A) (f : A -> kprog B) : kprog B :=
  fun k => match m k with (inr a, k') => f a k' | (inl c, k') => (inl c, k') end.

Definition k_modify (f : ipc -> ipc) : kprog unit := fun '(k, l) => (inr tt, (f k, l)).
Definition k_log (m : log_msg) : kprog unit := fun '(k, l) => (inr tt, (k, l ++ [m])).

Notation "m '>>>' n" := (k_bind m (fun _ => n)) (at level 100, right associativity).

Definition ENOENT : Z := 2.

(** The calls of the constructor.  The kernel may refuse each of them for
    reasons of its own (permissions, limits, memory), with an error code. *)
Inductive ipc_call := ShmRemove | ShmGet | ShmAt | SemGet | MsgGet.

Definition call_name (c : ipc_call) : string :=
  match c with ShmRemove => "shmctl" | ShmGet => "shmget" | ShmAt => "shmat" | SemGet => "semget" | MsgGet => "msgget" end.

Section Constructor.
Context (refused : ipc_call -> option Z).

(** A call whose failure is reported and ends the process: the kernel refuses
    it, or [f] fails with its own code. *)
Definition checked (c : ipc_call) (f : ipc -> Z + ipc) : kprog unit :=
  fun '(k, l) =>
    match (match refused c with Some e => inl e | None => f k end) with
    | inl e => (inl e, (k, l ++ [IpcFailed (call_name c) e]))
    | inr k' => (inr tt, (k', l))
    end.

(** A resource is found under its key, or created by the owner ([IPC_CREAT]). *)
Definition get_resource {T} (owner : bool) (get : ipc -> option T) (set : option T -> ipc -> ipc) (fresh : ipc -> T) (k : ipc) : Z + ipc :=
  match get k with
  | Some _ => inr k
  | None => if owner then inr (set (Some (fresh k)) k) else inl ENOENT
  end.

(** The owner removes the segment of an earlier run; a failure is ignored. *)
Definition remove_old_shm : kprog unit :=
  k_modify (fun k => match refused ShmRemove with Some _ => k | None => set_k_shm None k end).

(** The state the owner writes: [memset], the four explicit fields. *)
Definition init_shm : SharedState :=
  set_current_workers_count 0 (set_trucks_completed 0 (set_total_packages_created 0
    (set_running true zero_SharedState))).

(** [semctl(..., SETVAL, ...)] on the four semaphores. *)
Definition init_sem (s : semset) : semset :=
  sem_set (sem_set (sem_set (sem_set s SEM_MUTEX_BELT 1) SEM_DOCK_MUTEX 1)
    SEM_EMPTY_SLOTS MAX_BELT_CAPACITY_K) SEM_FULL_SLOTS 0.

(** [Manager(bool owner)]. *)
Definition Manager_ctor (owner : bool) : kprog unit :=
  (if owner then remove_old_shm else k_ret tt) >>>
  checked ShmGet (get_resource owner k_shm set_k_shm (fun _ => zero_SharedState)) >>>
  checked ShmAt inr >>>
  checked SemGet (get_resource owner k_sem set_k_sem (fun _ => mkSemset 0 0 0 0)) >>>
  checked MsgGet (get_resource owner k_msg set_k_msg (fun k => ([], k_msgmnb k))) >>>
  if owner then
    k_modify (set_k_shm (Some init_shm)) >>>
    k_modify (fun k => set_k_sem (init_sem <$> k_sem k) k) >>>
    k_log IpcInitialized
  else k_ret tt.

End Constructor.

(** [virtual ~Manager()]; the detachment of the segment concerns the process
    only, and the removals are not checked. *)
Definition Manager_dtor (owner : bool) : kprog unit :=
  if owner then k_log IpcCleaning >>> k_modify (fun k => mkIpc None None None (k_msgmnb k)) else k_ret tt.

(** The world the processes work in, once the resources exist. *)
Definition ipc_world (k : ipc) : option world :=
  match k_shm k, k_sem k, k_msg k with
  | Some s, Some v, Some (q, b) => Some (mkWorld s v true q b true [])
  | _, _, _ => None
  end.

(** The world after the owner's constructor on a machine with no old resources. *)
Definition initial_world (qbytes : Z) : world :=
  mkWorld init_shm (mkSemset 1 MAX_BELT_CAPACITY_K 0 1) true [] qbytes true [].

(** * Lemmas *)

Section SemRuns.
Context (pid : Z).

Lemma semOperation_runs i op w :
  w_sem_alive w = true -> 0 <= sem_get (w_sem w) i + op <= SEMVMX ->
  runs pid (semOperation i op) w tt (with_sem (sem_set (w_sem w) i (sem_get (w_sem w) i + op)) w).
Proof. intros Ha Hv. eapply runs_semop_ok; [done|done|]. apply runs_ret. Qed.

(** A call that would block blocks. *)
Lemma semOperation_blocks i op w fuel inputs :
  w_sem_alive w = true -> sem_get (w_sem w) i + op < 0 ->
  exec fuel pid (semOperation i op) w inputs = Blocked w.
Proof. intros Ha Hv. cbn. rewrite Ha. by rewrite (proj2 (Z.ltb_lt _ _) Hv). Qed.

(** An interrupted call returns without having touched the semaphore. *)
Lemma semOperation_eintr i op w :
  w_sem_alive w = true -> sem_get (w_sem w) i + op < 0 ->
  exists t, estep pid (AErr EINTR) (semOperation i op) w = Some (t, w) /\ runs pid t w tt w.
Proof.
  intros Ha Hv. eexists. split.
  - cbn. rewrite Ha, (proj2 (Z.ltb_lt _ _) Hv). reflexivity.
  - intros fuel inputs. reflexivity.
Qed.

(** Once the system has stopped, the removal of the set is not an error. *)
Lemma semOperation_removed i op w e :
  w_sem_alive w = false -> running (w_shm w) = false -> e = EIDRM \/ e = EINVAL ->
  exists t, estep pid (AErr e) (semOperation i op) w = Some (t, w) /\ runs pid t w tt w.
Proof.
  intros Ha Hr [-> | ->]; eexists; (split; [cbn; rewrite Ha; reflexivity|]); intros fuel inputs; cbn;
    rewrite Hr; reflexivity.
Qed.

Lemma sendSignal_runs target ty w :
  w_msg_alive w = true -> 0 < target -> msg_room w = true ->
  runs pid (sendSignal target ty) w tt
    (with_log (w_log w ++ [SignalSent (signal_to_int ty) target])
      (with_msgs (w_msgs w ++ [mkCommandMessage target (signal_to_int ty)]) w)).
Proof.
  intros Ha Ht Hroom fuel inputs. cbn. rewrite Ha, Hroom.
  by rewrite (proj2 (Z.ltb_ge _ _)) by lia.
Qed.

End SemRuns.

Lemma signal_roundtrip s : signal_of_int (signal_to_int s) = Some s.
Proof. by destruct s. Qed.

Lemma msg_take_app typ q m :
  typ <> 0 -> mtype m = typ ->
  msg_take typ (q ++ [m]) =
    match msg_take typ q with Some (x, q') => Some (x, q' ++ [m]) | None => Some (m, q) end.
Proof.
  intros Hn Hm. induction q as [|x q IH]; cbn.
  - unfold msg_match. rewrite (proj2 (Z.eqb_neq _ _) Hn), (proj2 (Z.eqb_eq _ _) Hm). done.
  - destruct (msg_match typ x); [done|]. rewrite IH. by destruct (msg_take typ q) as [[y q']|].
Qed.

Lemma initial_world_ctor qbytes :
  exists k l, Manager_ctor (fun _ => None) true (mkIpc None None None qbytes, []) = (inr tt, (k, l)) /\
    ipc_world k = Some (initial_world qbytes).
Proof. do 2 eexists. split; reflexivity. Qed.

Lemma init_belt_wf : belt_wf init_shm.
Proof. destruct zero_belt_wf as [H1 H2 H3 H4 H5]. by split. Qed.
