(* ===== verification/Worker.v ===== *)
(** * The worker ([src/include/Worker.h])

    The producer: registers on the belt, then draws and pushes packages
    within the session's quota until it is told to stop. *)

From S2P Require Import Prelude Double Shared Ipc Belt SessionManager Manager.

(** The package a round builds: [junk] is what the uninitialised local
    variable holds, the roll chooses type, volume and weight range. *)
Definition worker_weight (type_roll : Z) : prog double :=
  if type_roll =? 0 then RandReal (d_lit 1 10) (d_ofZ 8) Ret
  else if type_roll =? 1 then RandReal (d_ofZ 8) (d_ofZ 16) Ret
  else RandReal (d_ofZ 16) (d_ofZ 25) Ret.

Definition worker_type (type_roll : Z) : PackageType.t :=
  if type_roll =? 0 then PackageType.TypeA else if type_roll =? 1 then PackageType.TypeB else PackageType.TypeC.

Definition worker_volume (type_roll : Z) : double :=
  if type_roll =? 0 then VOL_A else if type_roll =? 1 then VOL_B else VOL_C.

Definition make_package (junk : Package) : prog Package :=
  let* pid := Getpid Ret in
  let* type_roll := RandInt 0 2 Ret in
  let* wgt := worker_weight type_roll in
  Ret (mkPackage (id junk) pid (editor_pid junk) (worker_type type_roll) PackageStatus.Normal
         wgt (worker_volume type_roll) (created_at junk) (updated_at junk) (history junk) (history_count junk)).

(** One round of [while (active && manager->getState()->running)]; [stop()]
    is called from the signal handler, so the flag may change at any time. *)
Definition worker_round (m : Manager) (junk : nat -> Package) (n : nat) : prog (nat + unit) :=
  let* stopped := SigFlag Ret in
  if (stopped : bool) then Ret (inr tt) else
  let* r := load running in
  if negb r then Ret (inr tt) else
  let* ok := trySpawnProcess (session_store m) in
  if (ok : bool) then
    let* p := make_package (junk n) in
    push (m_belt m) p ;;
    reportProcessFinished (session_store m) ;;
    Ret (inl (S n))
  else
    sleep_ms 500 ;;
    Ret (inl (S n)).

(** [void run()]. *)
Definition worker_run (m : Manager) (worker_id : Z) (junk : nat -> Package) : prog unit :=
  let* ok := registerWorker (m_belt m) in
  if negb ok then log (WorkerRegisterFailed worker_id) else
  log (WorkerStarted worker_id) ;;
  loop O (worker_round m junk) ;;
  unregisterWorker (m_belt m) ;;
  log (WorkerShiftEnded worker_id).
