(* ===== verification/Terminal.v ===== *)
(** * The operator console ([src/include/terminal/])

    [CommandResolver.h], [TerminalAction.h] and [TerminalManager.h]: command
    names, the authorised actions, and one iteration of the console loop. *)

From S2P Require Import Prelude Double Shared Ipc Belt SessionManager Manager.

(** ** [CommandResolver.h] *)

Inductive CliCommand := Unknown | Vip | Depart | Stop | Help | ExitCmd.

(** The initialiser of [commandMap]. *)
Definition commandMap : list (string * CliCommand) :=
  [("vip", Vip); ("depart", Depart); ("stop", Stop); ("help", Help); ("exit", ExitCmd); ("quit", ExitCmd)].

Fixpoint map_find {V} (key : string) (m : list (string * V)) : option V :=
  match m with
  | [] => None
  | (k, v) :: rest => if String.eqb key k then Some v else map_find key rest
  end.

Definition resolve (cmd : string) : CliCommand :=
  match map_find cmd commandMap with
  | Some c => c
  | None => Unknown
  end.

(** [tolower] of the C locale on one byte, and on every byte of a string. *)
Definition tolower (c : ascii) : ascii :=
  let n := nat_of_ascii c in
  if ((65 <=? n) && (n <=? 90))%nat then ascii_of_nat (n + 32) else c.

Fixpoint str_tolower (s : string) : string :=
  match s with
  | EmptyString => EmptyString
  | String c rest => String (tolower c) (str_tolower rest)
  end.

(** ** [TerminalAction.h] *)

(** [pid_t findProcessByRole(Manager *manager, const std::string &name)]: the
    loop with [n] slots left from index [i]. *)
Fixpoint findProcessByRole (n : nat) (i : Z) (name : string) : prog Z :=
  match n with
  | O => Ret (-1)
  | S m =>
      let* u := load_at users i in
      if active u then
        let* v := load_at users i in
        if String.eqb (std_string (username v)) name then
          let* x := load_at users i in
          Ret (session_pid x)
        else findProcessByRole m (i + 1) name
      else findProcessByRole m (i + 1) name
  end.

Definition printAccessDenied (requiredRole : string) : prog unit := log (AccessDenied requiredRole).

(** [!hasFlag(role, Operator) && !hasFlag(role, SysAdmin)]. *)
Definition not_operator (r : UserRole.t) : bool :=
  negb (UserRole.hasFlag r UserRole.Operator) && negb (UserRole.hasFlag r UserRole.SysAdmin).

Definition handleVip (r : UserRole.t) : prog unit :=
  if not_operator r then printAccessDenied "Operator" else
  let* target := findProcessByRole (Z.to_nat MAX_USERS_SESSIONS) 0 "System-Express" in
  if 0 <? target then
    sendSignal target SIGNAL_EXPRESS_LOAD ;;
    log (VipSent target)
  else log VipOffline.

Definition handleDepart (r : UserRole.t) : prog unit :=
  if not_operator r then printAccessDenied "Operator" else
  let* present := load (fun s => is_present (dock_truck s)) in
  if (present : bool) then
    let* truck_pid := load (fun s => truck_id (dock_truck s)) in
    sendSignal truck_pid SIGNAL_DEPARTURE ;;
    log (DepartSent truck_pid)
  else log NoTruckInDock.

(** The loop of [handleStop] over the session table. *)
Fixpoint stop_all (n : nat) (i : Z) : prog unit :=
  match n with
  | O => skip
  | S m =>
      let* u := load_at users i in
      (if active u then
         let* v := load_at users i in
         sendSignal (session_pid v) SIGNAL_END_WORK
       else skip) ;;
      stop_all m (i + 1)
  end.

(** [void handleStop(Manager *, UserRole role, bool &activeRef)]; the result is
    the new value of [activeRef]. *)
Definition handleStop (r : UserRole.t) (activeRef : bool) : prog bool :=
  if UserRole.hasFlag r UserRole.SysAdmin then
    log EmergencyStop ;;
    store (set_running false) ;;
    stop_all (Z.to_nat MAX_USERS_SESSIONS) 0 ;;
    log HaltCommanded ;;
    Ret false
  else
    log (UnauthorizedStop r) ;;
    printAccessDenied "SysAdmin" ;;
    Ret activeRef.

(** ** [TerminalManager.h] *)

(** The members [active] and [header_printed], and the global
    [keep_running]. *)
Record TerminalManager := mkTerminalManager {
  tm_active : bool;
  header_printed : bool;
  keep_running : bool }.

Definition new_TerminalManager : TerminalManager := mkTerminalManager true false true.

(** [keep_running.load()]: the signal handler may have cleared the flag. *)
Definition keep_running_load (tm : TerminalManager) : prog bool :=
  let* interrupted := SigFlag Ret in
  Ret (keep_running tm && negb interrupted).

(** [UserSession *getCurrentSession()]: the index, when it is valid. *)
Definition getCurrentSession (sm : SessionManager) : option Z :=
  let idx := getSessionIndex sm in
  if (0 <=? idx) && (idx <? MAX_USERS_SESSIONS) then Some idx else None.

Definition printHeader (sm : SessionManager) : prog unit :=
  match getCurrentSession sm with
  | Some i =>
      let* u1 := load_at users i in
      let* u2 := load_at users i in
      let* u3 := load_at users i in
      log (Header (std_string (username u1)) (orgId u2) (role u3) (UserRole.hasFlag (role u3) UserRole.SysAdmin))
  | None => log (Header "Unknown" (-1) UserRole.None (UserRole.hasFlag UserRole.None UserRole.SysAdmin))
  end.

Definition printPrompt (sm : SessionManager) : prog unit :=
  match getCurrentSession sm with
  | Some i =>
      let* u := load_at users i in
      log (Prompt (UserRole.hasFlag (role u) UserRole.SysAdmin))
  | None => log (Prompt false)
  end.

(** The [switch] of [runOnce]; the result is the member [active] afterwards. *)
Definition run_command (sm : SessionManager) (cmd : CliCommand) (myRole : UserRole.t) (act : bool) : prog bool :=
  match cmd with
  | Vip => handleVip myRole ;; Ret act
  | Depart => handleDepart myRole ;; Ret act
  | Stop => handleStop myRole act
  | Help => printHeader sm ;; Ret act
  | ExitCmd => Ret false
  | Unknown => log UnknownCommand ;; Ret act
  end.

(** [void runOnce()]. *)
Definition runOnce (sm : SessionManager) (tm : TerminalManager) : prog TerminalManager :=
  (if negb (header_printed tm) then printHeader sm ;; printPrompt sm else skip) ;;
  let* avail := PollStdin Ret in
  let* input_ready := (if (avail : bool) then Ret true else PollStdin Ret) in
  if negb input_ready then Ret (mkTerminalManager (tm_active tm) true (keep_running tm)) else
  let* line := Getline Ret in
  match line with
  | None => Ret (mkTerminalManager false true false)
  | Some l =>
      if String.eqb l "exit" || String.eqb l "quit" then Ret (mkTerminalManager false true false) else
      if String.eqb l "" then
        printPrompt sm ;;
        Ret (mkTerminalManager (tm_active tm) true (keep_running tm))
      else
        let cmd := resolve (str_tolower l) in
        let* myRole := getCurrentRole sm in
        let* act := run_command sm cmd myRole (tm_active tm) in
        if negb act then Ret (mkTerminalManager act true false) else
        let* kr := keep_running_load tm in
        (if (kr : bool) then printPrompt sm else skip) ;;
        Ret (mkTerminalManager act true (keep_running tm))
  end.
