(* ===== verification/Config.v ===== *)
(** * Run-time configuration ([src/include/Config.h])

    Environment look-up with a default, the mapping of a level name to the
    logger's level, and the logger that a process installs.  The accessor of the
    single [Config] object has no state of its own. *)

From S2P Require Import Prelude Terminal.

(** The levels of [spdlog::level::level_enum] the source names. *)
Inductive level_enum := lvl_trace | lvl_debug | lvl_info | lvl_warn | lvl_err | lvl_critical | lvl_off.

(** The environment: [std::getenv] of a name. *)
Definition environ : Type := string -> option string.

(** [std::string getEnv(key, defaultVal)]. *)
Definition getEnv (env : environ) (key defaultVal : string) : string :=
  match env key with
  | Some raw => raw
  | None => defaultVal
  end.

(** The initialiser of [levels]. *)
Definition levels : list (string * level_enum) :=
  [("trace", lvl_trace); ("debug", lvl_debug); ("info", lvl_info); ("warn", lvl_warn);
   ("err", lvl_err); ("crit", lvl_critical); ("off", lvl_off)].

(** [level_enum dispatchLogLevel(const std::string &level)]. *)
Definition dispatchLogLevel (level : string) : level_enum :=
  match map_find (str_tolower level) levels with
  | Some l => l
  | None => lvl_info
  end.

(** The objects of the logging library that the source creates. *)
Inductive sink :=
| stdout_color_sink
| basic_file_sink (path : string) (truncate : bool).

Record logger := mkLogger {
  logger_name : string;
  logger_sinks : list sink;
  logger_pattern : string;
  logger_level : level_enum }.

(** The library's global settings: the default logger and the level from which
    it flushes. *)
Record spdlog := mkSpdlog { default_logger : logger; flush_level : level_enum }.

(** [void setupLogger(const std::string &proc_name)].  Opening the file is the
    library's; [opens] says whether it succeeds.  When it throws, the handler
    prints a line ([false]) and the settings are as before. *)
Definition setupLogger (opens : string -> bool) (env : environ) (proc_name : string) (g : spdlog) : spdlog * bool :=
  let to_console := String.eqb (getEnv env "LOG_TO_CONSOLE" "true") "true" in
  let to_file := String.eqb (getEnv env "LOG_TO_FILE" "true") "true" in
  let level_str := getEnv env "LOG_LEVEL" "info" in
  let sinks := if to_console then [stdout_color_sink] else [] in
  let log_path := "logs/simulation_report.txt" in
  if to_file && negb (opens log_path) then (g, false) else
  let sinks := if to_file then sinks ++ [basic_file_sink log_path false] else sinks in
  let logger := mkLogger proc_name sinks "[%H:%M:%S.%e] [%n] [%^%l%$] %v" (dispatchLogLevel level_str) in
  (mkSpdlog logger lvl_info, true).

(** * Lemmas *)

(** A file that cannot be opened changes nothing; every other call installs a
    logger of the process's name, which writes to the same file for every
    process, appending to it. *)
Lemma setupLogger_cases opens env name g :
  let '(g', ok) := setupLogger opens env name g in
  (ok = false -> g' = g /\ env "LOG_TO_FILE" <> Some "false") /\
  (ok = true -> logger_name (default_logger g') = name /\ flush_level g' = lvl_info /\
     forall p t, In (basic_file_sink p t) (logger_sinks (default_logger g')) -> p = "logs/simulation_report.txt" /\ t = false).
Proof.
  unfold setupLogger. destruct (String.eqb (getEnv env "LOG_TO_FILE" "true") "true") eqn:Hf; cbn [andb].
  - destruct (opens "logs/simulation_report.txt"); cbn [negb].
    + split; [done|]. intros _. split; [done|]. split; [done|]. cbn. intros p t [H|H]%in_app_or.
      * by destruct (String.eqb (getEnv env "LOG_TO_CONSOLE" "true") "true"); destruct H.
      * destruct H as [H|[]]. by simplify_eq.
    + split; [|done]. intros _. split; [done|]. intros He. unfold getEnv in Hf. by rewrite He in Hf.
  - split; [done|]. intros _. split; [done|]. split; [done|]. intros p t H. cbn in H.
    by destruct (String.eqb (getEnv env "LOG_TO_CONSOLE" "true") "true"); destruct H.
Qed.
