(* ===== verification/Args.v ===== *)
(** * Command-line arguments

    What the entry points make of [argv] ([src/src/main_truck.cpp],
    [src/src/main_worker.cpp]): [std::atoi], [std::stoi] and [std::to_string]
    of the C++ library on decimal numbers. *)

From stdpp Require Import pretty.
From S2P Require Import Prelude.

(** [isspace] of the C locale. *)
Definition isspace (c : ascii) : bool :=
  let n := nat_of_ascii c in ((n =? 32) || ((9 <=? n) && (n <=? 13)))%nat.

Definition digit_value (c : ascii) : option Z :=
  let n := nat_of_ascii c in
  if ((48 <=? n) && (n <=? 57))%nat then Some (Z.of_nat n - 48) else None.

Fixpoint skip_spaces (s : string) : string :=
  match s with
  | EmptyString => EmptyString
  | String c rest => if isspace c then skip_spaces rest else s
  end.

(** The digits up to the first other character. *)
Fixpoint digits (acc : Z) (s : string) : Z :=
  match s with
  | EmptyString => acc
  | String c rest => match digit_value c with Some d => digits (10 * acc + d) rest | None => acc end
  end.

(** An unsigned number needs at least one digit. *)
Definition unsigned_number (s : string) : option Z :=
  match s with
  | EmptyString => None
  | String c _ => match digit_value c with Some _ => Some (digits 0 s) | None => None end
  end.

(** [strtol(s, &end, 10)]: [None] when there is nothing to convert.  Values
    beyond [long] are left as they are: both callers treat everything beyond
    [int] alike. *)
Definition strtol (s : string) : option Z :=
  match skip_spaces s with
  | String c rest =>
      if Ascii.eqb c "-" then Z.opp <$> unsigned_number rest
      else if Ascii.eqb c "+" then unsigned_number rest
      else unsigned_number (String c rest)
  | EmptyString => None
  end.

(** [std::atoi]: zero when there is no number; [None] is a value beyond [int],
    which is undefined. *)
Definition atoi (s : string) : option Z :=
  let z := default 0 (strtol s) in if in_int z then Some z else None.

(** [std::stoi]: [None] stands for the exceptions [invalid_argument] and
    [out_of_range]. *)
Definition stoi (s : string) : option Z :=
  match strtol s with
  | Some z => if in_int z then Some z else None
  | None => None
  end.

(** [std::to_string] of an [int]. *)
Definition to_string (z : Z) : string := pretty z.

(** [int truck_id = (argc > 1) ? std::atoi(argv[1]) : 1]. *)
Definition truck_arg (argv : list string) : option Z :=
  match argv with
  | _ :: a :: _ => atoi a
  | _ => Some 1
  end.

(** [int worker_id = (argc > 1) ? std::stoi(argv[1]) : getpid() % 1000]. *)
Definition worker_arg (pid : Z) (argv : list string) : option Z :=
  match argv with
  | _ :: a :: _ => stoi a
  | _ => Some (Z.rem pid 1000)
  end.

(** * Lemmas *)

Lemma digit_value_char (d : N) : (d < 10)%N -> digit_value (pretty_N_char d) = Some (Z.of_N d).
Proof.
  intros Hd. assert (exists n : nat, (n < 10)%nat /\ d = N.of_nat n) as (n & Hn & ->) by (exists (N.to_nat d); lia).
  do 10 (destruct n as [|n]; [reflexivity|]). lia.
Qed.

(** The printer puts the digits of [x] in front of [s]; reading them back on
    top of [acc] shifts [acc] by as many digits. *)
Lemma digits_pretty_go (x : N) s :
  exists k, 0 <= k /\ forall acc, digits acc (pretty_N_go x s) = digits (acc * 10 ^ k + Z.of_N x) s.
Proof.
  revert s. induction (N.lt_wf_0 x) as [x _ IH]; intros s.
  destruct (decide (x = 0)%N) as [->|Hx].
  - exists 0. split; [done|]. intros acc. rewrite pretty_N_go_0, Z.pow_0_r. f_equal. lia.
  - rewrite pretty_N_go_step by lia.
    destruct (IH (x `div` 10)%N (N.div_lt x 10 ltac:(lia) ltac:(lia)) (String (pretty_N_char (x `mod` 10)) s))
      as (k & Hk & Hd).
    exists (k + 1). split; [lia|]. intros acc. rewrite Hd. cbn [digits].
    rewrite digit_value_char by (apply N.mod_lt; lia). f_equal.
    rewrite Z.pow_add_r by lia. pose proof (N.div_mod x 10 ltac:(lia)). lia.
Qed.

Lemma pretty_go_head (x : N) s :
  (0 < x)%N -> exists d rest, (d < 10)%N /\ pretty_N_go x s = String (pretty_N_char d) rest.
Proof.
  revert s. induction (N.lt_wf_0 x) as [x _ IH]; intros s Hx. rewrite pretty_N_go_step by done.
  destruct (decide (x `div` 10 = 0)%N) as [->|Hq].
  - rewrite pretty_N_go_0. exists (x `mod` 10)%N, s. split; [apply N.mod_lt; lia|done].
  - apply IH; [apply N.div_lt; lia|by apply N.neq_0_lt_0].
Qed.

Lemma unsigned_pretty (p : positive) : unsigned_number (pretty p) = Some (Z.pos p).
Proof.
  change (pretty p) with (pretty_N_go (N.pos p) "").
  destruct (pretty_go_head (N.pos p) "") as (d & rest & Hd & He); [lia|].
  destruct (digits_pretty_go (N.pos p) "") as (k & _ & Hk). specialize (Hk 0). rewrite He in Hk |- *.
  unfold unsigned_number. rewrite digit_value_char by done. rewrite Hk. done.
Qed.

(** A digit is neither a space nor a sign. *)
Lemma pretty_char_plain (d : N) :
  (d < 10)%N -> isspace (pretty_N_char d) = false /\ Ascii.eqb (pretty_N_char d) "-" = false /\
                Ascii.eqb (pretty_N_char d) "+" = false.
Proof.
  intros Hd. assert (exists n : nat, (n < 10)%nat /\ d = N.of_nat n) as (n & Hn & ->) by (exists (N.to_nat d); lia).
  do 10 (destruct n as [|n]; [by vm_compute|]). lia.
Qed.

(** Reading what was printed. *)
Lemma strtol_to_string z : strtol (to_string z) = Some z.
Proof.
  destruct z as [|p|p]; [done|..].
  - change (to_string (Z.pos p)) with (pretty p). pose proof (unsigned_pretty p) as Hu.
    change (pretty p) with (pretty_N_go (N.pos p) "") in *.
    destruct (pretty_go_head (N.pos p) "") as (d & rest & Hd & He); [lia|]. rewrite He in *.
    destruct (pretty_char_plain d Hd) as (H1 & H2 & H3). unfold strtol. cbn [skip_spaces].
    by rewrite H1, H2, H3.
  - change (to_string (Z.neg p)) with ("-" +:+ pretty p). unfold strtol. change (skip_spaces _) with (String "-" (pretty p)). cbn [Ascii.eqb]. by rewrite unsigned_pretty.
Qed.
