(* ===== verification/Master.v ===== *)
(** * The master process ([src/src/main.cpp])

    The orchestrator: it creates the IPC resources, forks the children, watches
    them until it is told to stop, signals them and removes the resources.  Its
    program is below; what [fork], [kill], [waitpid] and the destructor of
    [Manager] do to the system is in [Orchestra]. *)

From S2P Require Import Prelude Double Shared Ipc Args.

Definition SIGINT : Z := 2.
Definition SIGTERM : Z := 15.

(** [void handleSigint(int)]: the new value of [stop_requested]. *)
Definition handleSigint (stop_requested : Z) : Z := 1.

(** The argument vector the child passes to [execv]. *)
Definition child_argv (proc_name arg : string) : list string :=
  [proc_name] ++ (if String.eqb arg "" then [] else [arg]).

(** [void spawnChild(binary_path, proc_name, arg)]; the global vector
    [children_pids] is passed through. *)
Definition spawnChild (binary_path proc_name arg : string) (children_pids : list Z) : prog (list Z) :=
  let* pid := Fork binary_path (child_argv proc_name arg) Ret in
  if pid <? 0 then
    log (ForkFailed proc_name) ;;
    Exit 1
  else
    log (Spawned proc_name arg pid) ;;
    Ret (children_pids ++ [pid]).

(** [for (int i = 1; i <= num; ++i)] around a numbered [spawnChild], with [n]
    rounds left. *)
Fixpoint spawn_fleet (binary_path proc_name : string) (n : nat) (i : Z) (children_pids : list Z) : prog (list Z) :=
  match n with
  | O => Ret children_pids
  | S m =>
      let* pids := spawnChild binary_path proc_name (to_string i) children_pids in
      sleep_ms 200 ;;
      spawn_fleet binary_path proc_name m (i + 1) pids
  end.

(** One round of [while (!stop_requested && manager.getState()->running)]. *)
Definition monitor_round : prog (unit + unit) :=
  let* stop_requested := SigFlag Ret in
  if (stop_requested : bool) then Ret (inr tt) else
  let* r := load running in
  if negb r then Ret (inr tt) else
  let* dead_pid := Waitpid Ret in
  (if 0 <? dead_pid then log (ChildDied dead_pid) else skip) ;;
  sleep_ms 500 ;;
  Ret (inl tt).

(** [for (pid_t pid : children_pids) kill(pid, SIGTERM)]. *)
Fixpoint kill_all (children_pids : list Z) : prog unit :=
  match children_pids with
  | [] => skip
  | pid :: rest => Kill pid SIGTERM (kill_all rest)
  end.

Definition num_trucks : Z := 2.
Definition num_workers : Z := 3.

(** [int main()], from the constructed [Manager] to the [return]; the
    destructor of [Manager] runs after it, and does not run after [exit]. *)
Definition master_main : prog Z :=
  log (ProcNote "Starting Warehouse Orchestrator") ;;
  let* c1 := spawnChild "./build/dispatcher" "dispatcher" "" [] in
  let* c2 := spawnChild "./build/express" "express" "" c1 in
  let* c3 := spawnChild "./build/belt" "belt" "" c2 in
  sleep_ms 500 ;;
  let* c4 := spawn_fleet "./build/truck" "truck" (Z.to_nat num_trucks) 1 c3 in
  let* children_pids := spawn_fleet "./build/worker" "worker" (Z.to_nat num_workers) 1 c4 in
  log (ProcNote "Deployment complete") ;;
  loop tt (fun _ => monitor_round) ;;
  log (ProcNote "Terminating all processes") ;;
  store (set_running false) ;;
  kill_all children_pids ;;
  sleep_ms 1000 ;;
  log (ProcNote "System offline") ;;
  Ret 0.
