(* ===== verification/Processes.v ===== *)
(** * The process entry points ([src/src/main_*.cpp])

    Each [main] is the program of one process: open a session (the guard
    object's constructor), do the work, close the session (its destructor);
    a refused login ends the process with [EXIT_FAILURE].  The result is the
    exit status. *)

From S2P Require Import Prelude Double Shared Ipc Belt SessionManager Truck Dispatcher Express Manager Worker Terminal Args Master.

Definition EXIT_SUCCESS : Z := 0.
Definition EXIT_FAILURE : Z := 1.

(** The guard objects: log in, run the body with the session, log out; a
    refused login throws, and the handler in [main] reports it. *)
Definition with_session (name : string) (r : UserRole.t) (org max_procs : Z)
    (body : SessionManager -> prog unit) : prog Z :=
  let* res := login manager_sessions name r org max_procs in
  if negb (fst res) then
    log (ProcNote "Login failed") ;;
    Ret EXIT_FAILURE
  else
    log (ProcNote "Session authenticated") ;;
    body (snd res) ;;
    logout (snd res) ;;
    log (ProcNote "Session cleared") ;;
    Ret EXIT_SUCCESS.

(** The line some processes print after a clean end. *)
Definition clean_end (what : string) (status : Z) : prog Z :=
  if status =? EXIT_SUCCESS then log (ProcNote what) ;; Ret status else Ret status.

(** [main_dispatcher.cpp]. *)
Definition dispatcher_main : prog Z :=
  with_session "System-Dispatcher" UserRole.Operator 0 1 (fun _ =>
    log (ProcNote "Ready to route packages") ;;
    dispatcher_run manager_dispatcher).

(** [main_truck.cpp]: [pid] is the process id the [Truck] object stores. *)
Definition truck_main (pid truck_id : Z) : prog Z :=
  let* st :=
    with_session ("Truck_" +:+ to_string truck_id) UserRole.Operator 0 1 (fun _ =>
      log (ProcNote "Truck process online") ;;
      truck_run (manager_truck pid)) in
  clean_end "Process finished cleanly" st.

(** [main_worker.cpp]; the worker uses the manager whose session store is logged in. *)
Definition worker_main (pid worker_id : Z) (junk : nat -> Package) : prog Z :=
  let* st :=
    with_session ("Worker_" +:+ to_string worker_id) UserRole.Operator 0 10 (fun sm =>
      log (ProcNote "Worker starting shift") ;;
      worker_run (mkManager sm manager_belt (manager_truck pid) manager_express manager_dispatcher) worker_id junk) in
  clean_end "Clean exit" st.

(** One round of the loop of [main_express.cpp]. *)
Definition express_round (my_pid : Z) : prog (unit + unit) :=
  let* stop := SigFlag Ret in
  if (stop : bool) then Ret (inr tt) else
  let* r := load running in
  if negb r then Ret (inr tt) else
  let* sig := receiveSignalBlocking my_pid in
  match sig with
  | SIGNAL_EXPRESS_LOAD =>
      log (ProcNote "Signal 2 Received") ;;
      deliverExpressBatch manager_express ;;
      log (ProcNote "Batch delivery finished") ;;
      Ret (inl tt)
  | SIGNAL_END_WORK =>
      log (ProcNote "Signal 3 (End Work) received") ;;
      Ret (inr tt)
  | _ => Ret (inl tt)
  end.

(** [main_express.cpp]. *)
Definition express_main : prog Z :=
  with_session "System-Express" UserRole.Operator 0 1 (fun _ =>
    log (ProcNote "P4 Standing by") ;;
    let* my_pid := Getpid Ret in
    loop tt (fun _ => express_round my_pid)).

(** The pause of the belt monitor: up to ten naps, broken off by a stop. *)
Fixpoint belt_idle (n : nat) : prog unit :=
  match n with
  | O => skip
  | S m =>
      let* stop := SigFlag Ret in
      if (stop : bool) then skip else
      let* r := load running in
      if negb r then skip else
      sleep_ms 100 ;;
      belt_idle m
  end.

(** One round of the loop of [main_belt.cpp]; the loop variable is [log_counter]. *)
Definition belt_round (log_counter : Z) : prog (Z + unit) :=
  let* stop := SigFlag Ret in
  if (stop : bool) then Ret (inr tt) else
  let* r := load running in
  if negb r then Ret (inr tt) else
  let* c := int_result (log_counter + 1) in
  let* c' :=
    (if 5 <=? c then
       let* count := getCount manager_belt in
       let* workers := getWorkerCount manager_belt in
       log (BeltStatus count workers) ;;
       Ret 0
     else Ret c) in
  belt_idle 10 ;;
  Ret (inl c').

(** [main_belt.cpp]. *)
Definition belt_main : prog Z :=
  with_session "System-Belt" UserRole.Operator 0 1 (fun _ =>
    log (ProcNote "Connected to IPC") ;;
    loop 0 belt_round ;;
    log (ProcNote "Monitoring finished")).

(** One round of the loop of [main_terminal.cpp]. *)
Definition terminal_round (sm : SessionManager) (tm : TerminalManager) : prog (TerminalManager + unit) :=
  let* kr := keep_running_load tm in
  if negb kr then Ret (inr tt) else
  let* r := load running in
  if negb r then Ret (inr tt) else
  let* tm' := runOnce sm tm in
  let* kr' := keep_running_load tm' in
  if negb kr' then Ret (inr tt) else Ret (inl tm').

(** [main_terminal.cpp]. *)
Definition terminal_main : prog Z :=
  let* st :=
    with_session "AdminConsole" (UserRole.or UserRole.Operator UserRole.SysAdmin) 1 1 (fun sm =>
      log (ProcNote "Console ready") ;;
      loop new_TerminalManager (terminal_round sm)) in
  clean_end "Terminal process finished cleanly" st.

(** [main_worker.cpp] when [std::stoi] throws: the handler reports it. *)
Definition worker_refused : prog Z :=
  log (ProcNote "Worker fatal error") ;;
  Ret EXIT_FAILURE.

(** A process of the system, and its program as a thread. *)
Inductive process :=
| PDispatcher
| PExpress
| PBelt
| PTruck (truck_id : Z)
| PWorker (worker_id : Z) (junk : nat -> Package)
| PTerminal
| PWorkerRefused
| PMaster.

Definition process_main (pid : Z) (p : process) : prog Z :=
  match p with
  | PDispatcher => dispatcher_main
  | PExpress => express_main
  | PBelt => belt_main
  | PTruck n => truck_main pid n
  | PWorker n junk => worker_main pid n junk
  | PTerminal => terminal_main
  | PWorkerRefused => worker_refused
  | PMaster => master_main
  end.

Definition process_thread (pp : Z * process) : thread :=
  mkThread (fst pp) (bind (process_main (fst pp) (snd pp)) (fun _ => Ret tt)).

(** ** Signals

    The handlers of the entry points, as functions on the flags they write; the
    messages some of them log are left out. *)

(** [main_belt.cpp]: [stop_flag]. *)
Definition belt_signalHandler (signum : Z) (stop_flag : bool) : bool := true.

(** [main_express.cpp]: [stop_requested]. *)
Definition express_signalHandler (signum : Z) (stop_requested : bool) : bool := true.

(** [main_truck.cpp]: [truck_stop]. *)
Definition truck_signalHandler (signum : Z) (truck_stop : bool) : bool := true.

(** [main_terminal.cpp]: [keep_running]. *)
Definition terminal_signalHandler (signal : Z) (keep_running : bool) : bool :=
  if signal =? SIGINT then false else keep_running.

(** The message that handler writes, and its first 51 bytes, which it asks
    [write] for. *)
Definition farewell : string :=
  String (ascii_of_nat 10) ("[terminal] Shutdown signal received. Cleaning up..." +:+ String (ascii_of_nat 10) EmptyString).
Definition farewell_written : string := String.substring 0 51 farewell.

(** [main_worker.cpp]: [global_worker_ptr] is null until the [Worker] object
    exists, then points to it, with its [active] flag, and is left as it is when
    the object is destroyed at the end of the [try] block. *)
Inductive worker_ptr := NoWorker | LiveWorker (active : bool) | DestroyedWorker.

Record WorkerFlags := mkWorkerFlags { should_stop : bool; global_worker_ptr : worker_ptr }.

(** [void stop()] of [Worker]. *)
Definition worker_stop (active : bool) : bool := false.

(** [inl]: [stop()] is called on a destroyed object. *)
Definition worker_signalHandler (signum : Z) (fl : WorkerFlags) : ub + WorkerFlags :=
  match global_worker_ptr fl with
  | NoWorker => inr (mkWorkerFlags true NoWorker)
  | LiveWorker active => inr (mkWorkerFlags true (LiveWorker (worker_stop active)))
  | DestroyedWorker => inl DestroyedObject
  end.

(** The signals for which an entry point installs its handler. *)
Definition belt_handles (sig : Z) : bool := (sig =? SIGINT) || (sig =? SIGTERM).
Definition express_handles (sig : Z) : bool := (sig =? SIGINT) || (sig =? SIGTERM).
Definition truck_handles (sig : Z) : bool := (sig =? SIGINT) || (sig =? SIGTERM).
Definition worker_handles (sig : Z) : bool := (sig =? SIGINT) || (sig =? SIGTERM).
Definition terminal_handles (sig : Z) : bool := sig =? SIGINT.
Definition master_handles (sig : Z) : bool := sig =? SIGINT.

(** The dispatcher installs none, and a worker refused for its arguments has
    ended before it would; a signal without handler ends the process. *)
Definition handles (sig : Z) (p : process) : bool :=
  match p with
  | PExpress => express_handles sig
  | PBelt => belt_handles sig
  | PTruck _ => truck_handles sig
  | PWorker _ _ => worker_handles sig
  | PTerminal => terminal_handles sig
  | PMaster => master_handles sig
  | PDispatcher | PWorkerRefused => false
  end.

(** Whether the program finds the flag it tests set once the handler has run;
    [ptr] is what the handler of a worker finds in [global_worker_ptr].  The
    truck tests no flag, so its answer does not matter.  [inl]: the handler
    runs into undefined behaviour. *)
Definition stop_seen (sig : Z) (ptr : worker_ptr) (p : process) : ub + bool :=
  match p with
  | PBelt => inr (belt_signalHandler sig false)
  | PExpress => inr (express_signalHandler sig false)
  | PTruck _ => inr (truck_signalHandler sig false)
  | PTerminal => inr (negb (terminal_signalHandler sig true))
  | PWorker _ _ =>
      match worker_signalHandler sig (mkWorkerFlags false ptr) with
      | inr fl => inr (match global_worker_ptr fl with LiveWorker active => negb active | _ => false end)
      | inl u => inl u
      end
  | PMaster => inr (handleSigint 0 =? 1)
  | PDispatcher | PWorkerRefused => inr false
  end.

(** The image that [execv] loads from the path the build gives a binary, with
    its arguments; [None] where there is no such binary, or where the arguments
    of [std::atoi] make the run undefined. *)
Definition load_image (pid : Z) (junk : nat -> Package) (path : string) (argv : list string) : option process :=
  if String.eqb path "./build/dispatcher" then Some PDispatcher
  else if String.eqb path "./build/express" then Some PExpress
  else if String.eqb path "./build/belt" then Some PBelt
  else if String.eqb path "./build/truck" then PTruck <$> truck_arg argv
  else if String.eqb path "./build/worker" then
    Some (match worker_arg pid argv with Some n => PWorker n junk | None => PWorkerRefused end)
  else if String.eqb path "./build/terminal" then Some PTerminal
  else None.

(** The system right after the owner created the resources and the processes
    with these ids were started. *)
Definition boot (qbytes : Z) (ps : list (Z * process)) : sys :=
  mkSys (map process_thread ps) (initial_world qbytes).
