(* ===== verification/Logic.v ===== *)
(** * A program logic for the interleaved system

    [wp pid t Q o v] says that process [pid] may run the program [t] from a
    point where it owns [o] and sees the view [v] of the shared state: it
    keeps to the locking discipline, never runs into undefined behaviour
    other than the overflow of a counter, and ends in [Q].

    The discipline: the belt mutex protects the belt, the counters, the
    session table and the belt's log lines; the dock mutex protects the dock
    and its log lines; the two counting semaphores hand out permits.  What a
    process does not own may change between any two of its steps.  Each mutex
    comes with an invariant ([BInv], [DInv]) that holds whenever the mutex is
    free; the logic is parametric in the two. *)

From S2P Require Import Prelude Double Shared Ipc.

(** ** Views and their protected parts *)

Record view := mkView { v_shm : SharedState; v_log : list log_msg }.

Definition world_view (w : world) : view := mkView (w_shm w) (w_log w).

Definition upd_shm (g : SharedState -> SharedState) (v : view) : view := mkView (g (v_shm v)) (v_log v).
Definition upd_log (m : log_msg) (v : view) : view := mkView (v_shm v) (v_log v ++ [m]).

(** Which mutex protects a log line. *)
Definition is_belt_msg (m : log_msg) : bool :=
  match m with BeltRejected _ | BeltPushed _ _ _ _ | BeltPopped _ _ _ _ => true | _ => false end.

Definition is_dock_msg (m : log_msg) : bool :=
  match m with
  | Docked _ _ _ | ShutdownWithCargo _ _ | Departing _ _ _ _ | IdentityTheft _ | PkgLoaded _ _ _ _ => true
  | _ => false
  end.

Definition belt_log (l : list log_msg) : list log_msg := filter (fun m => is_belt_msg m = true) l.
Definition dock_log (l : list log_msg) : list log_msg := filter (fun m => is_dock_msg m = true) l.

Arguments belt_log : simpl never.
Arguments dock_log : simpl never.

Definition bpart (v : view) :=
  let s := v_shm v in
  (belt s, head s, tail s, current_workers_count s, current_items_count s, current_belt_weight s,
   total_packages_created s, users s, belt_log (v_log v)).

Definition dpart (v : view) := (dock_truck (v_shm v), trucks_completed (v_shm v), dock_log (v_log v)).

(** ** Ownership *)

Record own := mkOwn {
  o_belt : option Z;          (* holds the belt mutex, with the permit balance at that time *)
  o_dock : option (option Z); (* holds the dock mutex, with the occupant at that time *)
  o_ep : Z;                   (* permits for empty slots *)
  o_fp : Z;                   (* permits for full slots *)
  o_reg : bool;               (* counted as a worker *)
  o_docked : bool;            (* its truck occupies the dock *)
  o_pend : list Z;            (* packages taken from the belt and not loaded yet *)
  o_stop : bool;              (* has seen the system stopped *)
  o_carrier : bool }.         (* may carry a package; never changes *)

Definition idle_own (carrier : bool) : own := mkOwn None None 0 0 false false [] false carrier.

Definition set_o_belt x o :=
  mkOwn x (o_dock o) (o_ep o) (o_fp o) (o_reg o) (o_docked o) (o_pend o) (o_stop o) (o_carrier o).
Definition set_o_dock x o :=
  mkOwn (o_belt o) x (o_ep o) (o_fp o) (o_reg o) (o_docked o) (o_pend o) (o_stop o) (o_carrier o).
Definition set_o_ep x o :=
  mkOwn (o_belt o) (o_dock o) x (o_fp o) (o_reg o) (o_docked o) (o_pend o) (o_stop o) (o_carrier o).
Definition set_o_fp x o :=
  mkOwn (o_belt o) (o_dock o) (o_ep o) x (o_reg o) (o_docked o) (o_pend o) (o_stop o) (o_carrier o).
Definition set_o_reg x o :=
  mkOwn (o_belt o) (o_dock o) (o_ep o) (o_fp o) x (o_docked o) (o_pend o) (o_stop o) (o_carrier o).
Definition set_o_pend x o :=
  mkOwn (o_belt o) (o_dock o) (o_ep o) (o_fp o) (o_reg o) (o_docked o) x (o_stop o) (o_carrier o).
Definition set_o_stop x o :=
  mkOwn (o_belt o) (o_dock o) (o_ep o) (o_fp o) (o_reg o) (o_docked o) (o_pend o) x (o_carrier o).

(** Holding no mutex: where a process may wait for one. *)
Definition unlocked (o : own) : Prop := o_belt o = None /\ o_dock o = None.

(** Holding no mutex and no permit: where a process may wait for others. *)
Definition resting (o : own) : Prop := unlocked o /\ o_ep o = 0 /\ o_fp o = 0.

(** Holding neither the belt mutex nor a permit: where a process may send a
    signal, which can block on a full queue. *)
Definition may_send (o : own) : Prop := o_belt o = None /\ o_ep o = 0 /\ o_fp o = 0.

(** The permits: only carriers take packages, with an empty hand, and give
    slots back; only the others take slots and announce packages. *)
Definition takes_slot (o : own) : Prop := resting o /\ o_carrier o = false.
Definition gives_slot (o : own) : Prop := 1 <= o_ep o /\ o_carrier o = true.
Definition takes_package (o : own) : Prop := resting o /\ o_carrier o = true /\ o_pend o = [].
Definition gives_package (o : own) : Prop := 1 <= o_fp o /\ o_carrier o = false.

(** Carriers only take packages off the belt, the others only put them on it. *)
Definition flow_ok (o : own) (n n' : Z) : Prop := if o_carrier o then n' <= n else n <= n'.

(** Leaving the belt mutex with balance [n'] turns permits of one kind into the other. *)
Definition leave_belt (n n' : Z) (o : own) : own :=
  mkOwn None (o_dock o) (o_ep o + n - n') (o_fp o + n' - n) (o_reg o) (o_docked o) (o_pend o) (o_stop o) (o_carrier o).

(** Leaving the dock mutex with occupant [oc']. *)
Definition leave_dock (pid : Z) (oc' : option Z) (o : own) : own :=
  mkOwn (o_belt o) None (o_ep o) (o_fp o) (o_reg o) (bool_decide (oc' = Some pid)) (o_pend o) (o_stop o) (o_carrier o).

(** The view [v'] differs from [v] only in what [o] does not protect. *)
Definition agree (o : own) (v v' : view) : Prop :=
  (o_belt o <> None -> bpart v = bpart v') /\ (o_dock o <> None -> dpart v = dpart v').

(** A step from [v] to [v'] writes only what [o] protects. *)
Definition frame (o : own) (v v' : view) : Prop :=
  (o_belt o = None -> bpart v = bpart v') /\ (o_dock o = None -> dpart v = dpart v').

(** What a process knows without holding a lock: a registered worker is
    counted, a stopped system stays stopped, the session table has its size. *)
Record know (o : own) (v : view) : Prop := {
  k_reg : o_reg o = true -> 1 <= current_workers_count (v_shm v);
  k_stop : o_stop o = true -> running (v_shm v) = false;
  k_users : length (users (v_shm v)) = Z.to_nat MAX_USERS_SESSIONS }.

(** What every store respects; [r] is whether the process is a counted worker afterwards. *)
Record store_ok (o : own) (r : bool) (s s' : SharedState) : Prop := {
  so_workers : current_workers_count s' - current_workers_count s = b2z r - b2z (o_reg o);
  so_users : length (users s') = length (users s);
  so_running : running s = false -> running s' = false }.

(** A counter that has no room left. *)
Definition counter_at_max (s : SharedState) : Prop :=
  total_packages_created s = INT_MAX \/ trucks_completed s = INT_MAX \/ current_load (dock_truck s) = INT_MAX.

(** Who may enter or leave the dock. *)
Definition dock_move (pid : Z) (oc oc' : option Z) : Prop :=
  oc' = oc \/ (oc = None /\ oc' = Some pid) \/ (oc = Some pid /\ oc' = None).

Definition valid_msg (m : CommandMessage) : Prop := signal_of_int (command_id m) <> None.

(** Nothing left to give back: where a process may end. *)
Definition owns_nothing (o : own) : Prop :=
  o_belt o = None /\ o_dock o = None /\ o_ep o = 0 /\ o_fp o = 0 /\ o_reg o = false /\ o_docked o = false.

(** The bookkeeping of a log line: taking a package from the belt makes it
    pending, loading it settles it; only carriers take, one package at a time. *)
Definition log_pend (m : log_msg) (o : own) (l' : list Z) : Prop :=
  match m with
  | BeltPopped i _ _ _ => o_carrier o = true /\ o_pend o = [] /\ l' = [i]
  | PkgLoaded i _ _ _ => o_pend o = [i] /\ l' = []
  | _ => l' = o_pend o
  end.

(** ** The interface of an application to the logic

    The invariant of each mutex, which looks only at the part the mutex
    protects, and a property of the log that every line preserves. *)

Class Protocol := {
  BInv : view -> Z -> Prop;
  DInv : view -> option Z -> Prop;
  LInv : list log_msg -> Prop;
  LInv_other : forall l m, is_belt_msg m = false -> is_dock_msg m = false -> LInv l -> LInv (l ++ [m]);
  BInv_ext : forall v v' n, bpart v = bpart v' -> BInv v n -> BInv v' n;
  DInv_ext : forall v v' oc, dpart v = dpart v' -> DInv v oc -> DInv v' oc }.

(** Closes the case of a statement other than a loop, by the induction hypotheses. *)
Ltac wp_structural H :=
  lazymatch type of H with
  | exists I : _ -> own -> view -> Prop, _ => fail
  | _ => repeat match goal with |- match ?i with _ => _ end => destruct i end; naive_solver
  end.

Section Logic.
Context {P : Protocol}.

(** ** Permission to run *)

Fixpoint wp {A} (pid : Z) (t : prog A) (Q : A -> own -> view -> Prop) (o : own) (v : view) {struct t} : Prop :=
  forall v', agree o v v' -> know o v' ->
  match t with
  | Ret a => Q a o v'
  | Load f k =>
      exists st, (st = true -> o_stop o = true \/ running (v_shm v') = false) /\
        wp pid (k (f (v_shm v'))) Q (set_o_stop st o) v'
  | Store g k =>
      frame o v' (upd_shm g v') /\
      exists r, store_ok o r (v_shm v') (g (v_shm v')) /\ wp pid k Q (set_o_reg r o) (upd_shm g v')
  | Semop i op k =>
      match i with
      | SEM_MUTEX_BELT =>
          (op = -1 /\ unlocked o /\
           forall v2 n, agree o v' v2 -> BInv v2 n -> o_ep o <= MAX_BELT_CAPACITY_K - n -> o_fp o <= n ->
             wp pid (k None) Q (set_o_belt (Some n) o) v2) \/
          (op = 1 /\ exists n n', o_belt o = Some n /\ BInv v' n' /\ 0 <= o_ep o + n - n' /\ 0 <= o_fp o + n' - n /\
             flow_ok o n n' /\ wp pid (k None) Q (leave_belt n n' o) v')
      | SEM_DOCK_MUTEX =>
          (op = -1 /\ resting o /\
           forall v2 oc, agree o v' v2 -> DInv v2 oc -> (o_docked o = true <-> oc = Some pid) ->
             wp pid (k None) Q (set_o_dock (Some oc) o) v2) \/
          (op = 1 /\ exists oc oc', o_dock o = Some oc /\ DInv v' oc' /\ dock_move pid oc oc' /\
             wp pid (k None) Q (leave_dock pid oc' o) v')
      | SEM_EMPTY_SLOTS =>
          (op = -1 /\ takes_slot o /\ wp pid (k None) Q (set_o_ep (o_ep o + 1) o) v') \/
          (op = 1 /\ gives_slot o /\ wp pid (k None) Q (set_o_ep (o_ep o - 1) o) v')
      | SEM_FULL_SLOTS =>
          (op = -1 /\ takes_package o /\ wp pid (k None) Q (set_o_fp (o_fp o + 1) o) v') \/
          (op = 1 /\ gives_package o /\ wp pid (k None) Q (set_o_fp (o_fp o - 1) o) v')
      end
  | Msgsnd m k => may_send o /\ valid_msg m /\ forall r, wp pid (k r) Q o v'
  | Msgrcv typ nw k =>
      resting o /\ typ = pid /\
      forall r, match r with inr m => valid_msg m | inl _ => True end -> wp pid (k r) Q o v'
  | Getpid k => wp pid (k pid) Q o v'
  | RandInt lo hi k => lo <= hi /\ forall z, lo <= z <= hi -> wp pid (k z) Q o v'
  | RandReal lo hi k =>
      ((lo <=? lo)%double && (lo <? hi)%double)%bool = true /\
      forall d, (lo <=? d)%double = true -> (d <? hi)%double = true -> wp pid (k d) Q o v'
  | Sleep _ k => wp pid k Q o v'
  | Log m k =>
      frame o v' (upd_log m v') /\ (LInv (v_log v') -> LInv (v_log v' ++ [m])) /\
      exists l, log_pend m o l /\ wp pid k Q (set_o_pend l o) (upd_log m v')
  | SigFlag k => forall b, wp pid (k b) Q o v'
  | PollStdin k => forall b, wp pid (k b) Q o v'
  | Getline k => forall l, wp pid (k l) Q o v'
  | Fork _ _ k => forall z, fork_result z = true -> wp pid (k z) Q o v'
  | Waitpid k => forall z, wait_result z = true -> wp pid (k z) Q o v'
  | Kill _ _ k => wp pid k Q o v'
  | @Loop _ St R body s k =>
      exists I : St -> own -> view -> Prop, I s o v' /\
        (forall s' o' v1 v2, I s' o' v1 -> agree o' v1 v2 -> I s' o' v2) /\
        (forall s' o' v1, I s' o' v1 -> resting o') /\
        forall s' o' v2, I s' o' v2 ->
          wp pid (body s') (fun r o2 v3 => match r with inl s2 => I s2 o2 v3 | inr x => wp pid (k x) Q o2 v3 end) o' v2
  | Exit c => c = 1 /\ owns_nothing o
  | Undef u => u = SignedOverflow /\ counter_at_max (v_shm v')
  end.

(** ** Structural rules *)

Lemma agree_refl o v : agree o v v.
Proof. by split. Qed.

Lemma agree_trans o v1 v2 v3 : agree o v1 v2 -> agree o v2 v3 -> agree o v1 v3.
Proof. intros [H1 H2] [H3 H4]. split; intros H; [rewrite H1, H3|rewrite H2, H4]; done. Qed.

(** Permission to run survives what other processes do. *)
Lemma wp_stable {A} pid (t : prog A) Q o v v' : wp pid t Q o v -> agree o v v' -> wp pid t Q o v'.
Proof. intros H Ha. destruct t; intros v'' Hv'' Hk; first [done|exact (H v'' (agree_trans _ _ _ _ Ha Hv'') Hk)]. Qed.

Lemma wp_mono {A} pid (t : prog A) (Q Q' : A -> own -> view -> Prop) o v :
  (forall a o' v', Q a o' v' -> Q' a o' v') -> wp pid t Q o v -> wp pid t Q' o v.
Proof.
  revert Q Q' o v; induction t; intros Q Q' o v HQ Hwp v' Ha Hk; specialize (Hwp v' Ha Hk); cbn in *; eauto;
    try (wp_structural Hwp).
  destruct Hwp as (I & HI & Hst & Hre & Hb). exists I. do 3 (split; [done|]). intros s' o' v2 Hs.
  eapply H; [|by apply Hb]. intros [s2|x] o2 v3; [done|]. cbn. by eauto.
Qed.

(** What a process proves for every view it may see, it has. *)
Lemma wp_intro {A} pid (t : prog A) Q o v :
  (forall v', agree o v v' -> know o v' -> wp pid t Q o v') -> wp pid t Q o v.
Proof.
  intros H. destruct t; intros v' Ha Hk; first [done|exact (H v' Ha Hk v' (agree_refl _ _) Hk)].
Qed.

(** Sequencing. *)
Lemma wp_bind {A B} pid (t : prog A) (c : A -> prog B) Q o v :
  wp pid t (fun a o' v' => wp pid (c a) Q o' v') o v -> wp pid (bind t c) Q o v.
Proof.
  revert B c Q o v; induction t; intros B' c Q o v Hwp; [by apply wp_intro|..];
    intros v' Ha Hk; specialize (Hwp v' Ha Hk); cbn in *; eauto;
    try (wp_structural Hwp).
  destruct Hwp as (I & HI & Hst & Hre & Hb). exists I. do 3 (split; [done|]). intros s' o' v2 Hs.
  eapply wp_mono; [|by apply Hb]. intros [s2|x] o2 v3; [done|]. cbn. by eauto.
Qed.

(** ** Soundness

    The global invariant: every thread has permission to run, the semaphores
    account for what the threads own, and the invariant of a mutex holds while
    the mutex is free. *)

Definition holds_belt (o : own) : Z := match o_belt o with Some _ => 1 | None => 0 end.
Definition holds_dock (o : own) : Z := match o_dock o with Some _ => 1 | None => 0 end.
Definition reg_count (o : own) : Z := b2z (o_reg o).

(** A finished process owns nothing. *)
Definition ended {A} (_ : A) (o : own) (_ : view) : Prop := owns_nothing o.

(** Numbers of the packages taken from the belt, and of those loaded, in the log. *)
Definition popped_ids (l : list log_msg) : list Z :=
  omap (fun m => match m with BeltPopped i _ _ _ => Some i | _ => None end) l.
Definition loaded_ids (l : list log_msg) : list Z :=
  omap (fun m => match m with PkgLoaded i _ _ _ => Some i | _ => None end) l.

Record inv (cs : list bool) (ths : list thread) (w : world) (os : list own) (n : Z) (oc : option Z) : Prop := {
  i_length : length os = length ths;
  i_pids : NoDup (map th_pid ths);
  i_wp : forall i th o, ths !! i = Some th -> os !! i = Some o ->
           wp (th_pid th) (th_prog th) ended o (world_view w);
  i_nonneg : forall o, o ∈ os -> 0 <= o_ep o /\ 0 <= o_fp o;
  i_alive : w_sem_alive w = true;
  i_belt : v_belt (w_sem w) = 1 - sumZ holds_belt os /\ 0 <= v_belt (w_sem w);
  i_dock : v_dock (w_sem w) = 1 - sumZ holds_dock os /\ 0 <= v_dock (w_sem w);
  i_empty : v_empty (w_sem w) = MAX_BELT_CAPACITY_K - n - sumZ o_ep os /\ 0 <= v_empty (w_sem w);
  i_full : v_full (w_sem w) = n - sumZ o_fp os /\ 0 <= v_full (w_sem w);
  i_workers : current_workers_count (w_shm w) = sumZ reg_count os;
  i_balance : forall o m, o ∈ os -> o_belt o = Some m -> m = n;
  i_binv : (forall o, o ∈ os -> o_belt o = None) -> BInv (world_view w) n;
  i_occupant : forall o x, o ∈ os -> o_dock o = Some x -> x = oc;
  i_dinv : (forall o, o ∈ os -> o_dock o = None) -> DInv (world_view w) oc;
  i_docked : forall i th o, ths !! i = Some th -> os !! i = Some o ->
               (o_docked o = true <-> oc = Some (th_pid th));
  i_resident : forall p, oc = Some p -> p ∈ map th_pid ths;
  i_msgs : Forall valid_msg (w_msgs w);
  i_pend : popped_ids (w_log w) ≡ₚ loaded_ids (w_log w) ++ mjoin (map o_pend os);
  i_hand : forall o, o ∈ os -> Z.of_nat (length (o_pend o)) <= b2z (o_carrier o);
  i_carriers : map o_carrier os = cs;
  i_stop : forall o, o ∈ os -> o_stop o = true -> running (w_shm w) = false;
  i_users : length (users (w_shm w)) = Z.to_nat MAX_USERS_SESSIONS;
  i_log : LInv (w_log w) }.

Arguments i_length {_ _ _ _ _ _}.
Arguments i_pids {_ _ _ _ _ _}.
Arguments i_wp {_ _ _ _ _ _}.
Arguments i_nonneg {_ _ _ _ _ _}.
Arguments i_alive {_ _ _ _ _ _}.
Arguments i_belt {_ _ _ _ _ _}.
Arguments i_dock {_ _ _ _ _ _}.
Arguments i_empty {_ _ _ _ _ _}.
Arguments i_full {_ _ _ _ _ _}.
Arguments i_workers {_ _ _ _ _ _}.
Arguments i_balance {_ _ _ _ _ _}.
Arguments i_binv {_ _ _ _ _ _}.
Arguments i_occupant {_ _ _ _ _ _}.
Arguments i_dinv {_ _ _ _ _ _}.
Arguments i_docked {_ _ _ _ _ _}.
Arguments i_resident {_ _ _ _ _ _}.
Arguments i_msgs {_ _ _ _ _ _}.
Arguments i_pend {_ _ _ _ _ _}.
Arguments i_hand {_ _ _ _ _ _}.
Arguments i_carriers {_ _ _ _ _ _}.
Arguments i_stop {_ _ _ _ _ _}.
Arguments i_users {_ _ _ _ _ _}.
Arguments i_log {_ _ _ _ _ _}.

(** How the ownership of a thread changes when it takes a step of the program
    [t] into the world [w']; [n] and [n'] are the packages on the belt. *)
Definition own_moves {A} (t : prog A) (w' : world) (o o' : own) (n n' : Z) : Prop :=
  o_carrier o' = o_carrier o /\
  match t with
  | Log m _ => log_pend m o (o_pend o')
  | _ => o_pend o' = o_pend o
  end /\
  match t with
  | Semop SEM_MUTEX_BELT op _ =>
      BInv (world_view w') n' /\
      ((op = -1 /\ n' = n /\ o_belt o' = Some n /\ o_ep o' = o_ep o /\ o_fp o' = o_fp o) \/
       (op = 1 /\ o_belt o = Some n /\ flow_ok o n n' /\ o_belt o' = None /\ o_ep o' = o_ep o + n - n' /\ o_fp o' = o_fp o + n' - n))
  | Semop SEM_EMPTY_SLOTS op _ => n' = n /\ o_belt o' = o_belt o /\ o_ep o' = o_ep o - op /\ o_fp o' = o_fp o
  | Semop SEM_FULL_SLOTS op _ => n' = n /\ o_belt o' = o_belt o /\ o_ep o' = o_ep o /\ o_fp o' = o_fp o - op
  | _ => n' = n /\ o_belt o' = o_belt o /\ o_ep o' = o_ep o /\ o_fp o' = o_fp o
  end.

Section Preservation.
Context (cs : list bool) (ths : list thread) (w : world) (os : list own) (n : Z) (oc : option Z).
Context (Hinv : inv cs ths w os n oc).
Context (i : nat) (th : thread) (o : own) (Hth : ths !! i = Some th) (Ho : os !! i = Some o).

Lemma o_elem : o ∈ os.
Proof. by eapply list_elem_of_lookup_2. Qed.

Lemma holds_belt_nonneg x : x ∈ os -> 0 <= holds_belt x.
Proof. intros _. unfold holds_belt. case_match; lia. Qed.

Lemma holds_dock_nonneg x : x ∈ os -> 0 <= holds_dock x.
Proof. intros _. unfold holds_dock. case_match; lia. Qed.

Lemma know_own : know o (world_view w).
Proof.
  split; [|apply (i_stop Hinv), o_elem|apply (i_users Hinv)].
  intros Hr. cbn. rewrite (i_workers Hinv).
  assert (reg_count o <= sumZ reg_count os) as Hle.
  { eapply sumZ_elem; [|exact Ho]. intros x _. unfold reg_count, b2z. case_match; lia. }
  unfold reg_count in Hle at 1. rewrite Hr in Hle. cbn in Hle. lia.
Qed.

Lemma ep_bound : o_ep o <= MAX_BELT_CAPACITY_K - n.
Proof.
  pose proof (i_empty Hinv). pose proof (sumZ_elem o_ep os i o) as H1.
  specialize (H1 ltac:(intros x Hx; by apply (i_nonneg Hinv)) Ho). lia.
Qed.

Lemma fp_bound : o_fp o <= n.
Proof.
  pose proof (i_full Hinv). pose proof (sumZ_elem o_fp os i o) as H1.
  specialize (H1 ltac:(intros x Hx; by apply (i_nonneg Hinv)) Ho). lia.
Qed.

(** Mutual exclusion: another thread does not hold the mutex this one holds. *)
Lemma belt_exclusive j o2 : os !! j = Some o2 -> i <> j -> o_belt o <> None -> o_belt o2 = None.
Proof.
  intros Hj Hij Hb. destruct (o_belt o2) eqn:E; [|done]. exfalso.
  pose proof (i_belt Hinv) as [H1 H2].
  pose proof (sumZ_elem2 holds_belt os i j o o2 holds_belt_nonneg Hij Ho Hj) as H3.
  unfold holds_belt in H3 at 1 2. rewrite E in H3. destruct (o_belt o); [lia|done].
Qed.

Lemma dock_exclusive j o2 : os !! j = Some o2 -> i <> j -> o_dock o <> None -> o_dock o2 = None.
Proof.
  intros Hj Hij Hb. destruct (o_dock o2) eqn:E; [|done]. exfalso.
  pose proof (i_dock Hinv) as [H1 H2].
  pose proof (sumZ_elem2 holds_dock os i j o o2 holds_dock_nonneg Hij Ho Hj) as H3.
  unfold holds_dock in H3 at 1 2. rewrite E in H3. destruct (o_dock o); [lia|done].
Qed.

(** The semaphore of a mutex that is held is zero. *)
Lemma belt_held_zero : o_belt o <> None -> v_belt (w_sem w) = 0.
Proof.
  intros Hb. pose proof (i_belt Hinv) as [H1 H2]. pose proof (sumZ_elem holds_belt os i o holds_belt_nonneg Ho) as H3.
  unfold holds_belt in H3 at 1. destruct (o_belt o); [lia|done].
Qed.

Lemma dock_held_zero : o_dock o <> None -> v_dock (w_sem w) = 0.
Proof.
  intros Hb. pose proof (i_dock Hinv) as [H1 H2]. pose proof (sumZ_elem holds_dock os i o holds_dock_nonneg Ho) as H3.
  unfold holds_dock in H3 at 1. destruct (o_dock o); [lia|done].
Qed.

(** If the mutex can be taken, nobody holds it. *)
Lemma belt_free : 1 <= v_belt (w_sem w) -> forall x, x ∈ os -> o_belt x = None.
Proof.
  intros Hv x Hx. destruct (o_belt x) eqn:E; [|done]. exfalso.
  apply list_elem_of_lookup in Hx as [j Hj].
  pose proof (i_belt Hinv) as [H1 H2].
  pose proof (sumZ_elem holds_belt os j x holds_belt_nonneg Hj) as H3.
  unfold holds_belt in H3 at 1. rewrite E in H3. lia.
Qed.

Lemma dock_free : 1 <= v_dock (w_sem w) -> forall x, x ∈ os -> o_dock x = None.
Proof.
  intros Hv x Hx. destruct (o_dock x) eqn:E; [|done]. exfalso.
  apply list_elem_of_lookup in Hx as [j Hj].
  pose proof (i_dock Hinv) as [H1 H2].
  pose proof (sumZ_elem holds_dock os j x holds_dock_nonneg Hj) as H3.
  unfold holds_dock in H3 at 1. rewrite E in H3. lia.
Qed.

(** A step that respects the frame leaves the others their permission. *)
Lemma others_agree w' j o2 :
  frame o (world_view w) (world_view w') -> os !! j = Some o2 -> i <> j ->
  agree o2 (world_view w) (world_view w').
Proof.
  intros [Hb Hd] Hj Hij. split; intros Hne.
  - apply Hb. destruct (o_belt o) eqn:E; [|done]. exfalso. apply Hne.
    eapply belt_exclusive; [done|done|]. by rewrite E.
  - apply Hd. destruct (o_dock o) eqn:E; [|done]. exfalso. apply Hne.
    eapply dock_exclusive; [done|done|]. by rewrite E.
Qed.

Lemma elem_of_updated (o' x : own) : x ∈ <[i:=o']> os -> x = o' \/ exists j, i <> j /\ os !! j = Some x.
Proof.
  intros [j Hj]%list_elem_of_lookup. apply lookup_insert_cases in Hj as [[_ ->]|[Hij Hj]]; eauto.
Qed.

Lemma own_updated (o' : own) : o' ∈ <[i:=o']> os.
Proof.
  eapply list_elem_of_lookup_2. apply list_lookup_insert_eq. by eapply lookup_lt_Some.
Qed.

Lemma pids_updated t' : map th_pid (<[i:=mkThread (th_pid th) t']> ths) = map th_pid ths.
Proof.
  change (th_pid <$> <[i:=mkThread (th_pid th) t']> ths = th_pid <$> ths).
  rewrite list_fmap_insert. apply list_insert_id. by rewrite list_lookup_fmap, Hth.
Qed.

(** Another thread is another process. *)
Lemma other_pid j th2 : ths !! j = Some th2 -> i <> j -> th_pid th2 <> th_pid th.
Proof.
  intros Ht2 Hij He. apply Hij. eapply (NoDup_lookup (map th_pid ths)); [apply (i_pids Hinv)|..];
    change (map th_pid ths) with (th_pid <$> ths); rewrite list_lookup_fmap.
  - by rewrite Hth.
  - rewrite Ht2. cbn. by rewrite He.
Qed.

(** What nobody holds after a step of a thread that did not hold it, nobody
    held before. *)
Lemma none_before {T} (f : own -> option T) (o' : own) :
  (forall x, x ∈ <[i:=o']> os -> f x = None) -> f o = None -> forall x, x ∈ os -> f x = None.
Proof.
  intros Hall Hob x Hx. apply list_elem_of_lookup in Hx as [j Hj].
  destruct (decide (i = j)) as [<-|Hij]; [by simplify_eq|].
  apply Hall. eapply (list_elem_of_lookup_2 _ j). by rewrite list_lookup_insert_ne.
Qed.

(** What a step must establish to preserve the invariant. *)
Lemma inv_update t' w' o' n' oc' :
  wp (th_pid th) t' ended o' (world_view w') ->
  frame o (world_view w) (world_view w') ->
  0 <= o_ep o' -> 0 <= o_fp o' ->
  w_sem_alive w' = true ->
  v_belt (w_sem w') = v_belt (w_sem w) + holds_belt o - holds_belt o' -> 0 <= v_belt (w_sem w') ->
  v_dock (w_sem w') = v_dock (w_sem w) + holds_dock o - holds_dock o' -> 0 <= v_dock (w_sem w') ->
  v_empty (w_sem w') = v_empty (w_sem w) + o_ep o - o_ep o' + n - n' -> 0 <= v_empty (w_sem w') ->
  v_full (w_sem w') = v_full (w_sem w) + o_fp o - o_fp o' + n' - n -> 0 <= v_full (w_sem w') ->
  store_ok o (o_reg o') (w_shm w) (w_shm w') ->
  n' = n \/ o_belt o <> None ->
  (forall m, o_belt o' = Some m -> m = n') ->
  (o_belt o' = None -> (o_belt o = None /\ n' = n) \/ BInv (world_view w') n') ->
  oc' = oc \/ o_dock o <> None ->
  (forall x, o_dock o' = Some x -> x = oc') ->
  (o_dock o' = None -> (o_dock o = None /\ oc' = oc) \/ DInv (world_view w') oc') ->
  dock_move (th_pid th) oc oc' ->
  (o_docked o' = true <-> oc' = Some (th_pid th)) ->
  Forall valid_msg (w_msgs w') ->
  popped_ids (w_log w') ≡ₚ loaded_ids (w_log w') ++ mjoin (map o_pend (<[i:=o']> os)) ->
  Z.of_nat (length (o_pend o')) <= b2z (o_carrier o') ->
  o_carrier o' = o_carrier o ->
  (o_stop o' = true -> running (w_shm w') = false) ->
  LInv (w_log w') ->
  inv cs (<[i := mkThread (th_pid th) t']> ths) w' (<[i:=o']> os) n' oc'.
Proof.
  intros Hwp Hfr Hep Hfp Hal Hb1 Hb2 Hd1 Hd2 He1 He2 Hf1 Hf2 Hreg Hn Hm Hbi Hoc Hx Hdi Hmv Hdk Hmsg Hpend Hhand Hcar Hstop Hlog.
  pose proof (pids_updated t') as Hpids. split; try done.
  - rewrite !length_insert. apply (i_length Hinv).
  - rewrite Hpids. apply (i_pids Hinv).
  - intros j th2 o2 [[<- ->]|[Hij Ht2]]%lookup_insert_cases Ho2.
    + by rewrite list_lookup_insert_eq in Ho2 by (by eapply lookup_lt_Some); simplify_eq.
    + rewrite list_lookup_insert_ne in Ho2 by done. eapply wp_stable; [by eapply (i_wp Hinv)|].
      by eapply others_agree.
  - intros x [->|(j & _ & Hj)]%elem_of_updated; [done|]. apply (i_nonneg Hinv).
    by eapply list_elem_of_lookup_2.
  - rewrite (sumZ_insert _ _ _ _ _ Ho). pose proof (i_belt Hinv). lia.
  - rewrite (sumZ_insert _ _ _ _ _ Ho). pose proof (i_dock Hinv). lia.
  - rewrite (sumZ_insert _ _ _ _ _ Ho). pose proof (i_empty Hinv). lia.
  - rewrite (sumZ_insert _ _ _ _ _ Ho). pose proof (i_full Hinv). lia.
  - rewrite (sumZ_insert _ _ _ _ _ Ho). pose proof (i_workers Hinv).
    pose proof (so_workers _ _ _ _ Hreg). unfold reg_count at 2 3. lia.
  - intros x m [->|(j & Hij & Hj)]%elem_of_updated Hxm; [auto|].
    destruct Hn as [->|Hne]; [eapply (i_balance Hinv); [by eapply list_elem_of_lookup_2|done]|].
    exfalso. by rewrite (belt_exclusive j x) in Hxm.
  - intros Hall. destruct Hbi as [[Hob ->]|Hbi]; [apply Hall, own_updated| |done].
    eapply BInv_ext; [by apply (proj1 Hfr)|]. apply (i_binv Hinv). by eapply none_before.
  - intros x m [->|(j & Hij & Hj)]%elem_of_updated Hxm; [auto|].
    destruct Hoc as [->|Hne]; [eapply (i_occupant Hinv); [by eapply list_elem_of_lookup_2|done]|].
    exfalso. by rewrite (dock_exclusive j x) in Hxm.
  - intros Hall. destruct Hdi as [[Hob ->]|Hdi]; [apply Hall, own_updated| |done].
    eapply DInv_ext; [by apply (proj2 Hfr)|]. apply (i_dinv Hinv). by eapply none_before.
  - intros j th2 o2 [[<- ->]|[Hij Ht2]]%lookup_insert_cases Ho2.
    + by rewrite list_lookup_insert_eq in Ho2 by (by eapply lookup_lt_Some); simplify_eq.
    + rewrite list_lookup_insert_ne in Ho2 by done. rewrite (i_docked Hinv j th2 o2 Ht2 Ho2).
      pose proof (other_pid j th2 Ht2 Hij) as Hne. destruct Hmv as [->|[[-> ->]|[-> ->]]]; [done|split; congruence|split; congruence].
  - rewrite Hpids. intros p Hp. destruct Hmv as [->|[[_ ->]|[_ ->]]]; [by apply (i_resident Hinv)| |done].
    injection Hp as <-. apply list_elem_of_fmap. exists th. split; [done|]. by eapply list_elem_of_lookup_2.
  - intros x [->|(j & _ & Hj)]%elem_of_updated; [done|]. apply (i_hand Hinv).
    by eapply list_elem_of_lookup_2.
  - rewrite <- (i_carriers Hinv). change (o_carrier <$> <[i:=o']> os = o_carrier <$> os).
    rewrite list_fmap_insert. apply list_insert_id. by rewrite list_lookup_fmap, Ho, Hcar.
  - intros x [->|(j & _ & Hj)]%elem_of_updated Hx1; [auto|]. apply (so_running _ _ _ _ Hreg).
    apply (i_stop Hinv x); [by eapply list_elem_of_lookup_2|done].
  - rewrite (so_users _ _ _ _ Hreg). apply (i_users Hinv).
Qed.

Lemma docked_own : o_docked o = true <-> oc = Some (th_pid th).
Proof. by apply (i_docked Hinv i). Qed.

Lemma nonneg_own : 0 <= o_ep o /\ 0 <= o_fp o.
Proof. apply (i_nonneg Hinv), o_elem. Qed.

Lemma pend_same o' l :
  o_pend o' = o_pend o -> l = w_log w ->
  popped_ids l ≡ₚ loaded_ids l ++ mjoin (map o_pend (<[i:=o']> os)).
Proof. intros Hp ->. rewrite (mjoin_insert_same _ _ _ o) by done. apply (i_pend Hinv). Qed.

Lemma store_ok_refl s : store_ok o (o_reg o) s s.
Proof. split; [lia|done|done]. Qed.

(** A step that changes neither memory, semaphores nor log; the process may
    note that the system has stopped. *)
Lemma inv_neutral t' w' st :
  (st = true -> o_stop o = true \/ running (w_shm w) = false) ->
  wp (th_pid th) t' ended (set_o_stop st o) (world_view w) ->
  w_shm w' = w_shm w -> w_sem w' = w_sem w -> w_sem_alive w' = w_sem_alive w -> w_log w' = w_log w ->
  Forall valid_msg (w_msgs w') ->
  inv cs (<[i := mkThread (th_pid th) t']> ths) w' (<[i:=set_o_stop st o]> os) n oc.
Proof.
  intros Hst Hwp Hs Hv Ha Hl Hm. pose proof nonneg_own as [? ?]. pose proof docked_own.
  assert (world_view w' = world_view w) as Hview by (unfold world_view; by rewrite Hs, Hl).
  apply inv_update; rewrite ?Hview, ?Hv, ?Ha, ?Hs, ?Hl; try done; try (unfold holds_belt, holds_dock; cbn; lia);
    try (by auto); try apply (i_alive Hinv);
    try apply (i_belt Hinv); try apply (i_dock Hinv);
    try apply (i_empty Hinv); try apply (i_full Hinv).
  - apply store_ok_refl.
  - exact (fun m => i_balance Hinv o m o_elem).
  - exact (fun x => i_occupant Hinv o x o_elem).
  - by left.
  - by apply pend_same.
  - exact (i_hand Hinv o o_elem).
  - intros [Hs1|Hs1]%Hst; [|done]. exact (i_stop Hinv o o_elem Hs1).
  - apply (i_log Hinv).
Qed.

(** A store or a log line: memory or log changes within the frame. *)
Lemma inv_write t' w' o' :
  wp (th_pid th) t' ended o' (world_view w') ->
  frame o (world_view w) (world_view w') ->
  o_belt o' = o_belt o -> o_dock o' = o_dock o -> o_ep o' = o_ep o -> o_fp o' = o_fp o -> o_docked o' = o_docked o ->
  o_stop o' = o_stop o -> o_carrier o' = o_carrier o ->
  w_sem w' = w_sem w -> w_sem_alive w' = w_sem_alive w -> w_msgs w' = w_msgs w ->
  store_ok o (o_reg o') (w_shm w) (w_shm w') ->
  popped_ids (w_log w') ≡ₚ loaded_ids (w_log w') ++ mjoin (map o_pend (<[i:=o']> os)) ->
  Z.of_nat (length (o_pend o')) <= b2z (o_carrier o) ->
  LInv (w_log w') ->
  inv cs (<[i := mkThread (th_pid th) t']> ths) w' (<[i:=o']> os) n oc.
Proof.
  intros Hwp Hfr Eb Ed Ee Ef Ek Es Ec Hv Ha Hm Hw Hp Hh Hlog. pose proof nonneg_own as [? ?]. pose proof docked_own.
  assert (holds_belt o' = holds_belt o) as Hhb by (unfold holds_belt; by rewrite Eb).
  assert (holds_dock o' = holds_dock o) as Hhd by (unfold holds_dock; by rewrite Ed).
  apply inv_update; rewrite ?Hhb, ?Hhd, ?Ee, ?Ef, ?Ek, ?Es, ?Ec, ?Hv, ?Ha, ?Hm, ?Eb, ?Ed; try done; try lia;
    try (by auto); try apply (i_alive Hinv);
    try apply (i_belt Hinv); try apply (i_dock Hinv);
    try apply (i_empty Hinv); try apply (i_full Hinv).
  - exact (fun m => i_balance Hinv o m o_elem).
  - exact (fun x => i_occupant Hinv o x o_elem).
  - by left.
  - apply (i_msgs Hinv).
  - intros Hs1. apply (so_running _ _ _ _ Hw). by apply (i_stop Hinv o o_elem).
Qed.

(** A log line settles or creates pending packages. *)
Lemma pend_log m l :
  log_pend m o l ->
  popped_ids (w_log w ++ [m]) ≡ₚ loaded_ids (w_log w ++ [m]) ++ mjoin (map o_pend (<[i:=set_o_pend l o]> os)) /\
  Z.of_nat (length l) <= b2z (o_carrier o).
Proof.
  intros Hl. pose proof (i_pend Hinv) as Hp. pose proof (i_hand Hinv o o_elem) as Hh.
  pose proof (mjoin_insert_perm o_pend os i o (set_o_pend l o) Ho) as Hj. cbn [o_pend set_o_pend] in Hj.
  unfold popped_ids, loaded_ids in *. rewrite !omap_app.
  destruct m; cbn [omap list_omap log_pend] in *; rewrite ?app_nil_r; subst;
    try (apply Permutation_app_inv_r in Hj; rewrite Hj; split; [exact Hp|exact Hh]).
  - destruct Hl as (Hc & He & ->). rewrite Hc. rewrite He, app_nil_r in Hj. split; [|done]. rewrite Hj, Hp. solve_Permutation.
  - destruct Hl as (He & ->). rewrite He, app_nil_r in Hj. split; [|cbn; destruct (o_carrier o); cbn; lia].
    rewrite Hp, <- Hj. solve_Permutation.
Qed.

(** ** One step *)

(** The permit semaphores and the mutexes stay far below [SEMVMX]. *)
Lemma sem_bounds :
  v_belt (w_sem w) <= 1 /\ v_dock (w_sem w) <= 1 /\
  v_empty (w_sem w) <= MAX_BELT_CAPACITY_K /\ v_full (w_sem w) <= MAX_BELT_CAPACITY_K /\
  0 <= n <= MAX_BELT_CAPACITY_K.
Proof.
  pose proof (i_belt Hinv). pose proof (i_dock Hinv). pose proof (i_empty Hinv). pose proof (i_full Hinv).
  pose proof (sumZ_nonneg holds_belt os holds_belt_nonneg). pose proof (sumZ_nonneg holds_dock os holds_dock_nonneg).
  assert (forall x, x ∈ os -> 0 <= o_ep x) as He by (intros x Hx; by apply (i_nonneg Hinv)).
  assert (forall x, x ∈ os -> 0 <= o_fp x) as Hf by (intros x Hx; by apply (i_nonneg Hinv)).
  pose proof (sumZ_nonneg o_ep os He). pose proof (sumZ_nonneg o_fp os Hf).
  repeat split; lia.
Qed.

(** What a step of [semop] leads to, without outside failures. *)
Lemma k_semop_calm idx op a r w' :
  (forall e, a <> AErr e) -> sem_get (w_sem w) idx + op <= SEMVMX ->
  k_semop idx op a w = Some (r, w') ->
  r = None /\ w' = with_sem (sem_set (w_sem w) idx (sem_get (w_sem w) idx + op)) w /\ 0 <= sem_get (w_sem w) idx + op.
Proof.
  intros Ha Hmax. unfold k_semop. destruct a; try done; [|by destruct (Ha e)].
  rewrite (i_alive Hinv). destruct (Z.ltb_spec (sem_get (w_sem w) idx + op) 0); [done|].
  destruct (Z.ltb_spec SEMVMX (sem_get (w_sem w) idx + op)); [lia|]. intros; by simplify_eq.
Qed.

Lemma frame_refl v : frame o v v.
Proof. by split. Qed.

(** What moving a permit or a mutex leaves alone. *)
Ltac sem_update H :=
  pose proof nonneg_own as [? ?]; pose proof docked_own; pose proof H;
  pose proof (i_belt Hinv); pose proof (i_dock Hinv); pose proof (i_empty Hinv); pose proof (i_full Hinv);
  apply inv_update; cbn in *;
  first
    [ done | unfold holds_belt, holds_dock in *; cbn in *; lia | apply (i_alive Hinv) | apply store_ok_refl
    | exact (i_msgs Hinv) | exact (i_log Hinv) | exact (i_hand Hinv o o_elem) | exact (i_stop Hinv o o_elem)
    | exact (fun x => i_balance Hinv o x o_elem) | exact (fun x => i_occupant Hinv o x o_elem)
    | by left | by auto | by apply pend_same | idtac ].

Lemma semop_belt_step op (k : option errno -> prog unit) w' :
  th_prog th = Semop SEM_MUTEX_BELT op k ->
  w' = with_sem (sem_set (w_sem w) SEM_MUTEX_BELT (v_belt (w_sem w) + op)) w -> 0 <= v_belt (w_sem w) + op ->
  exists o' n', inv cs (<[i := mkThread (th_pid th) (k None)]> ths) w' (<[i:=o']> os) n' oc /\
    own_moves (Semop SEM_MUTEX_BELT op k) w' o o' n n'.
Proof.
  intros Ht -> Hpos. pose proof (i_wp Hinv i th o Hth Ho) as Hwp. rewrite Ht in Hwp.
  specialize (Hwp _ (agree_refl _ _) know_own). cbn in Hwp.
  destruct Hwp as [(-> & [Hb Hd] & Hwp)|(-> & m & n' & Hb & HB & He & Hf & Hfl & Hwp)].
  - assert (forall x, x ∈ os -> o_belt x = None) as Hfree by (apply belt_free; lia).
    exists (set_o_belt (Some n) o), n.
    assert (BInv (world_view w) n) as HB by (by apply (i_binv Hinv)). split; [|split; [done|split; [done|split; [done|by left]]]].
    sem_update Hfree.
    + apply Hwp; [apply agree_refl|by apply (i_binv Hinv)|apply ep_bound|apply fp_bound].
    + unfold holds_belt. cbn. rewrite Hb. lia.
    + intros m. by intros [= ->].
  - pose proof (i_balance Hinv o m o_elem Hb) as ->.
    exists (leave_belt n n' o), n'. split; [|split; [done|split; [done|split; [done|by right]]]].
    sem_update Hb.
    + unfold holds_belt. cbn. rewrite Hb. lia.
    + right. by rewrite Hb.
Qed.

Lemma semop_dock_step op (k : option errno -> prog unit) w' :
  th_prog th = Semop SEM_DOCK_MUTEX op k ->
  w' = with_sem (sem_set (w_sem w) SEM_DOCK_MUTEX (v_dock (w_sem w) + op)) w -> 0 <= v_dock (w_sem w) + op ->
  exists o' oc', inv cs (<[i := mkThread (th_pid th) (k None)]> ths) w' (<[i:=o']> os) n oc' /\
    own_moves (Semop SEM_DOCK_MUTEX op k) w' o o' n n.
Proof.
  intros Ht -> Hpos. pose proof (i_wp Hinv i th o Hth Ho) as Hwp. rewrite Ht in Hwp.
  specialize (Hwp _ (agree_refl _ _) know_own). cbn in Hwp.
  destruct Hwp as [(-> & [[Hb Hd] _] & Hwp)|(-> & x & oc' & Hd & HD & Hmv & Hwp)].
  - assert (forall x, x ∈ os -> o_dock x = None) as Hfree by (apply dock_free; lia).
    exists (set_o_dock (Some oc) o), oc. split; [|done].
    sem_update Hfree.
    + apply Hwp; [apply agree_refl|by apply (i_dinv Hinv)|apply docked_own].
    + unfold holds_dock. cbn. rewrite Hd. lia.
    + intros m. by intros [= ->].
  - pose proof (i_occupant Hinv o x o_elem Hd) as ->.
    exists (leave_dock (th_pid th) oc' o), oc'. split; [|done]. sem_update Hd.
    + unfold holds_dock. cbn. rewrite Hd. lia.
    + right. by rewrite Hd.
    + apply bool_decide_eq_true.
Qed.

Lemma semop_empty_step op (k : option errno -> prog unit) w' :
  th_prog th = Semop SEM_EMPTY_SLOTS op k ->
  w' = with_sem (sem_set (w_sem w) SEM_EMPTY_SLOTS (v_empty (w_sem w) + op)) w -> 0 <= v_empty (w_sem w) + op ->
  exists o', inv cs (<[i := mkThread (th_pid th) (k None)]> ths) w' (<[i:=o']> os) n oc /\
    own_moves (Semop SEM_EMPTY_SLOTS op k) w' o o' n n.
Proof.
  intros Ht -> Hpos. pose proof (i_wp Hinv i th o Hth Ho) as Hwp. rewrite Ht in Hwp.
  specialize (Hwp _ (agree_refl _ _) know_own). cbn in Hwp.
  destruct Hwp as [(-> & _ & Hwp)|(-> & [Hone _] & Hwp)]; (eexists; split; [sem_update Hwp|]); unfold own_moves; cbn; repeat split; lia.
Qed.

Lemma semop_full_step op (k : option errno -> prog unit) w' :
  th_prog th = Semop SEM_FULL_SLOTS op k ->
  w' = with_sem (sem_set (w_sem w) SEM_FULL_SLOTS (v_full (w_sem w) + op)) w -> 0 <= v_full (w_sem w) + op ->
  exists o', inv cs (<[i := mkThread (th_pid th) (k None)]> ths) w' (<[i:=o']> os) n oc /\
    own_moves (Semop SEM_FULL_SLOTS op k) w' o o' n n.
Proof.
  intros Ht -> Hpos. pose proof (i_wp Hinv i th o Hth Ho) as Hwp. rewrite Ht in Hwp.
  specialize (Hwp _ (agree_refl _ _) know_own). cbn in Hwp.
  destruct Hwp as [(-> & _ & Hwp)|(-> & [Hone _] & Hwp)]; (eexists; split; [sem_update Hwp|]); unfold own_moves; cbn; repeat split; lia.
Qed.

(** A calm [semop] has no error to report. *)
Lemma semop_none idx op (k : option errno -> prog unit) a r w' :
  th_prog th = Semop idx op k -> (forall e, a <> AErr e) -> k_semop idx op a w = Some (r, w') ->
  r = None /\ w' = with_sem (sem_set (w_sem w) idx (sem_get (w_sem w) idx + op)) w /\ 0 <= sem_get (w_sem w) idx + op.
Proof.
  intros Ht Ha Hk. pose proof (i_wp Hinv i th o Hth Ho) as Hwp. rewrite Ht in Hwp.
  specialize (Hwp _ (agree_refl _ _) know_own). cbn in Hwp. pose proof sem_bounds as Hb.
  assert (sem_get (w_sem w) idx + op <= SEMVMX) as Hmax.
  { unfold SEMVMX, MAX_BELT_CAPACITY_K in *. destruct idx; cbn; destruct Hwp as [[-> _]|[-> _]]; lia. }
  by apply k_semop_calm in Hk.
Qed.

Lemma semop_step idx op (k : option errno -> prog unit) a r w' :
  th_prog th = Semop idx op k -> (forall e, a <> AErr e) -> k_semop idx op a w = Some (r, w') ->
  exists o' n' oc', inv cs (<[i := mkThread (th_pid th) (k r)]> ths) w' (<[i:=o']> os) n' oc' /\
    own_moves (th_prog th) w' o o' n n'.
Proof.
  intros Ht Ha Hk. rewrite Ht. destruct (semop_none idx op k a r w' Ht Ha Hk) as (-> & Hw' & Hpos).
  destruct idx.
  - destruct (semop_belt_step op k w') as (o' & n' & H); eauto.
  - destruct (semop_empty_step op k w') as (o' & H); eauto.
  - destruct (semop_full_step op k w') as (o' & H); eauto.
  - destruct (semop_dock_step op k w') as (o' & oc' & H); eauto.
Qed.

Lemma set_o_stop_same : set_o_stop (o_stop o) o = o.
Proof. by destruct o. Qed.

Lemma inv_same {A} (t : prog A) t' w' :
  wp (th_pid th) t' ended o (world_view w) ->
  w_shm w' = w_shm w -> w_sem w' = w_sem w -> w_sem_alive w' = w_sem_alive w -> w_log w' = w_log w ->
  Forall valid_msg (w_msgs w') ->
  own_moves t w' o o n n ->
  exists o' n' oc', inv cs (<[i := mkThread (th_pid th) t']> ths) w' (<[i:=o']> os) n' oc' /\
    own_moves t w' o o' n n'.
Proof.
  intros Hwp Hs Hv Ha Hl Hm Hmv. exists (set_o_stop (o_stop o) o), n, oc.
  rewrite set_o_stop_same. split; [|done]. rewrite <- set_o_stop_same at 1.
  apply inv_neutral; try done; [by left|]. by rewrite set_o_stop_same.
Qed.

Lemma msg_take_valid typ m q q' :
  Forall valid_msg q -> msg_take typ q = Some (m, q') -> valid_msg m /\ Forall valid_msg q'.
Proof.
  revert m q'; induction q as [|x q IH]; intros m q' Hall; cbn; [done|].
  apply list.Forall_cons in Hall as [Hx Hq]. destruct (msg_match typ x); [intros; by simplify_eq|].
  destruct (msg_take typ q) as [[y q1]|]; [|done]. intros; simplify_eq.
  destruct (IH _ _ Hq eq_refl). split; [done|]. by constructor.
Qed.

Lemma msgrcv_step typ nw (k : errno + CommandMessage -> prog unit) a r w' :
  th_prog th = Msgrcv typ nw k -> k_msgrcv typ nw a w = Some (r, w') ->
  exists o' n' oc', inv cs (<[i := mkThread (th_pid th) (k r)]> ths) w' (<[i:=o']> os) n' oc' /\
    own_moves (th_prog th) w' o o' n n'.
Proof.
  intros Ht Hk. pose proof (i_wp Hinv i th o Hth Ho) as Hwp. rewrite Ht in Hwp.
  specialize (Hwp _ (agree_refl _ _) know_own). destruct Hwp as (_ & _ & Hwp). rewrite Ht.
  pose proof (i_msgs Hinv) as Hm. unfold k_msgrcv in Hk.
  destruct a as [|e| | | |]; try done.
  - destruct (w_msg_alive w); [|done]. destruct (msg_take typ (w_msgs w)) as [[m q]|] eqn:E.
    + destruct (msg_take_valid _ _ _ _ Hm E) as [Hv Hq]. injection Hk as <- <-. by apply inv_same; [apply Hwp|..].
    + destruct nw; [|done]. injection Hk as <- <-. by apply inv_same; [apply Hwp|..].
  - destruct e; repeat case_match; try done; injection Hk as <- <-; by apply inv_same; [apply Hwp|..].
Qed.

Lemma msgsnd_step m (k : option errno -> prog unit) a r w' :
  th_prog th = Msgsnd m k -> k_msgsnd m a w = Some (r, w') ->
  exists o' n' oc', inv cs (<[i := mkThread (th_pid th) (k r)]> ths) w' (<[i:=o']> os) n' oc' /\
    own_moves (th_prog th) w' o o' n n'.
Proof.
  intros Ht Hk. pose proof (i_wp Hinv i th o Hth Ho) as Hwp. rewrite Ht in Hwp.
  specialize (Hwp _ (agree_refl _ _) know_own). destruct Hwp as (_ & Hv & Hwp). rewrite Ht.
  pose proof (i_msgs Hinv) as Hm. unfold k_msgsnd in Hk.
  repeat case_match; try done; injection Hk as <- <-; apply inv_same; try done; try apply Hwp.
  cbn. apply Forall_app. split; [done|]. by constructor.
Qed.

(** One calm step of a thread preserves the invariant. *)
Lemma thread_step a t' w' :
  calm_answer (th_prog th) a = true -> estep (th_pid th) a (th_prog th) w = Some (t', w') ->
  exists o' n' oc', inv cs (<[i := mkThread (th_pid th) t']> ths) w' (<[i:=o']> os) n' oc' /\
    own_moves (th_prog th) w' o o' n n'.
Proof.
  intros Hcalm Hst. pose proof (i_wp Hinv i th o Hth Ho) as Hwp. pose proof (i_msgs Hinv) as Hm.
  destruct (th_prog th) as [| |g k|idx op k|m k|typ nw k| | | | |m k| | | |path argv k|k|kp sg k|St R body s k| |] eqn:Et;
    cbn in Hst; try done;
    try (match goal with H : wp _ _ _ _ _ |- _ => specialize (H _ (agree_refl _ _) know_own); cbn in H end);
    try (destruct a; try done; repeat case_match; try done; injection Hst as <- <-; zbool; apply inv_same; try done; by naive_solver).
  - destruct a; try done; injection Hst as <- <-. destruct Hwp as (st & Hs & Hwp).
    exists (set_o_stop st o), n, oc. split; [by apply inv_neutral|done].
  - destruct a; try done; injection Hst as <- <-. destruct Hwp as (Hfr & r & Hok & Hwp).
    exists (set_o_reg r o), n, oc. split; [|done]. apply inv_write; try done; [|exact (i_hand Hinv o o_elem)|exact (i_log Hinv)].
    by apply pend_same.
  - destruct (k_semop idx op a w) as [[r w1]|] eqn:Ek; [|done]. injection Hst as <- <-.
    rewrite <- Et. eapply semop_step; [exact Et| |exact Ek]. intros e ->. done.
  - destruct (k_msgsnd m a w) as [[r w1]|] eqn:Ek; [|done]. injection Hst as <- <-. rewrite <- Et. by eapply msgsnd_step.
  - destruct (k_msgrcv typ nw a w) as [[r w1]|] eqn:Ek; [|done]. injection Hst as <- <-. rewrite <- Et. by eapply msgrcv_step.
  - destruct a; try done; injection Hst as <- <-. destruct Hwp as (Hfr & Hl & l & Hp & Hwp).
    destruct (pend_log m l Hp) as [Hp1 Hp2].
    exists (set_o_pend l o), n, oc. split; [|done]. apply inv_write; try done; [apply store_ok_refl|]. apply Hl, (i_log Hinv).
  - destruct a; try done; injection Hst as <- <-. destruct Hwp as (I & HI & Hstable & Hre & Hb). apply inv_same; try done.
    apply wp_bind. eapply wp_mono; [|by apply Hb]. intros [s'|x] o' v'; [|done]. cbn. intros Hs v'' Ha Hk.
    exists I. split; [by eapply Hstable|done].
Qed.

(** ** The holder of a mutex

    A program can move when some answer lets it take a step; a failure that the
    environment would have to cause, like an interruption, does not count. *)

Definition unprompted (a : answer) : bool := match a with AErr _ => false | _ => true end.

Definition can_step (x : thread) (w0 : world) : Prop :=
  exists a t' w', unprompted a = true /\ estep (th_pid x) a (th_prog x) w0 = Some (t', w').

Definition is_undef {A} (t : prog A) : bool := match t with Undef _ => true | _ => false end.
Definition in_msgsnd {A} (t : prog A) : bool := match t with Msgsnd _ _ => true | _ => false end.

(** Releasing never blocks. *)
Lemma semop_release idx (k : option errno -> prog unit) :
  th_prog th = Semop idx 1 k -> 0 <= sem_get (w_sem w) idx -> can_step th w.
Proof.
  intros Ht Hpos. exists ANone. unfold can_step. rewrite Ht. cbn. rewrite (i_alive Hinv).
  destruct (Z.ltb_spec (sem_get (w_sem w) idx + 1) 0); [lia|].
  destruct (SEMVMX <? _); do 2 eexists; split; reflexivity.
Qed.

(** The holder of a mutex is not waiting for anything but room in the message queue. *)
Lemma holder_moves :
  ~ unlocked o -> can_step th w \/ is_undef (th_prog th) = true \/ (o_belt o = None /\ in_msgsnd (th_prog th) = true).
Proof.
  intros Hlk. pose proof (i_wp Hinv i th o Hth Ho) as Hwp.
  pose proof (i_belt Hinv). pose proof (i_dock Hinv). pose proof (i_empty Hinv). pose proof (i_full Hinv).
  destruct (th_prog th) as [| |g k|idx op k|m k|typ nw k| | | | |m k| | | |path argv k|k|kp sg k|St R body s k| |] eqn:Et;
    specialize (Hwp _ (agree_refl _ _) know_own); cbn in Hwp;
    try (by left; exists ANone; rewrite Et; cbn; do 2 eexists; split; reflexivity).
  - destruct Hwp as (Hb & Hd & _). by destruct Hlk.
  - left. assert (op = 1) as ->; [|apply (semop_release idx k Et); destruct idx; cbn; lia].
    destruct idx; destruct Hwp as [(_ & Hun & _)|[-> _]]; try done; by unfold takes_slot, takes_package, resting in Hun; destruct_and?.
  - right. right. split; [apply Hwp|done].
  - by destruct Hwp as [[? _] _].
  - left. exists (AInt lo). rewrite Et. cbn. destruct Hwp as [Hle _].
    rewrite Z.leb_refl, (proj2 (Z.leb_le _ _) Hle). cbn. do 2 eexists; split; reflexivity.
  - left. exists (AReal lo). rewrite Et. cbn. destruct Hwp as [-> _]. do 2 eexists; split; reflexivity.
  - left. exists (ABool true). rewrite Et. cbn. do 2 eexists; split; reflexivity.
  - left. exists (ABool true). rewrite Et. cbn. do 2 eexists; split; reflexivity.
  - left. exists (ALine None). rewrite Et. cbn. do 2 eexists; split; reflexivity.
  - left. exists (AInt (-1)). rewrite Et. cbn. do 2 eexists; split; reflexivity.
  - left. exists (AInt (-1)). rewrite Et. cbn. do 2 eexists; split; reflexivity.
  - destruct Hwp as (_ & Hb & Hd & _). by destruct Hlk.
  - by right; left.
Qed.

(** ** A thread that cannot move

    Where a program waits: for a free slot, for a package, for a message. *)

Definition waits_slot {A} (t : prog A) : bool := match t with Semop SEM_EMPTY_SLOTS op _ => op <? 0 | _ => false end.
Definition waits_package {A} (t : prog A) : bool := match t with Semop SEM_FULL_SLOTS op _ => op <? 0 | _ => false end.
Definition waits_message {A} (t : prog A) : bool := match t with Msgrcv _ _ _ => true | _ => false end.
Definition has_ended {A} (t : prog A) : bool := match t with Ret _ | Exit _ => true | _ => false end.

Lemma semop_blocked idx op (k : option errno -> prog unit) :
  th_prog th = Semop idx op k -> ~ can_step th w -> sem_get (w_sem w) idx + op < 0.
Proof.
  intros Ht Hno. destruct (Z.lt_ge_cases (sem_get (w_sem w) idx + op) 0) as [|Hge]; [done|]. exfalso. apply Hno.
  exists ANone. rewrite Ht. cbn. rewrite (i_alive Hinv), (proj2 (Z.ltb_ge _ _) Hge).
  destruct (SEMVMX <? _); do 2 eexists; split; reflexivity.
Qed.

(** While both mutexes are free it holds nothing, and it has ended or waits
    for a slot, a package or a message. *)
Lemma stuck_cases :
  ~ can_step th w -> is_undef (th_prog th) = false -> in_msgsnd (th_prog th) = false ->
  1 <= v_belt (w_sem w) -> 1 <= v_dock (w_sem w) ->
  resting o /\
  (has_ended (th_prog th) = true \/ waits_message (th_prog th) = true \/
   (waits_slot (th_prog th) = true /\ v_empty (w_sem w) = 0) \/
   (waits_package (th_prog th) = true /\ v_full (w_sem w) = 0)).
Proof.
  intros Hno Hu Hm Hb Hd. pose proof (i_wp Hinv i th o Hth Ho) as Hwp.
  pose proof (i_empty Hinv). pose proof (i_full Hinv).
  destruct (th_prog th) as [| |g k|idx op k|m k|typ nw k| | | | |m k| | | |path argv k|k|kp sg k|St R body s k| |] eqn:Et;
    specialize (Hwp _ (agree_refl _ _) know_own); cbn in Hwp;
    try (by exfalso; apply Hno; exists ANone; rewrite Et; cbn; do 2 eexists; split; reflexivity);
    try (by exfalso; apply Hno; exists (ABool true); rewrite Et; cbn; do 2 eexists; split; reflexivity);
    try (by exfalso; apply Hno; exists (AInt (-1)); rewrite Et; cbn; do 2 eexists; split; reflexivity); try done.
  - destruct Hwp as (? & ? & ? & ? & _). split; [done|]. by left.
  - pose proof (semop_blocked idx op k Et Hno) as Hblk.
    destruct idx; cbn in Hblk; destruct Hwp as [(-> & Hr & _)|(-> & _)]; try lia.
    + split; [apply Hr|]. right. right. left. split; [done|lia].
    + split; [apply Hr|]. right. right. right. split; [done|lia].
  - destruct Hwp as [Hr _]. split; [done|]. by right; left.
  - exfalso. apply Hno. exists (AInt lo). rewrite Et. cbn. destruct Hwp as [Hle _].
    rewrite Z.leb_refl, (proj2 (Z.leb_le _ _) Hle). cbn. do 2 eexists; split; reflexivity.
  - exfalso. apply Hno. exists (AReal lo). rewrite Et. cbn. destruct Hwp as [-> _]. do 2 eexists; split; reflexivity.
  - exfalso. apply Hno. exists (ALine None). rewrite Et. cbn. do 2 eexists; split; reflexivity.
  - destruct Hwp as (_ & ? & ? & ? & ? & _). split; [done|]. by left.
Qed.

End Preservation.

Lemma thread_owner cs ths w os n oc (Hinv : inv cs ths w os n oc) i th :
  ths !! i = Some th -> exists o, os !! i = Some o.
Proof. intros Hth. apply lookup_lt_is_Some_2. rewrite (i_length Hinv). by eapply lookup_lt_Some. Qed.

Lemma owner_thread cs ths w os n oc (Hinv : inv cs ths w os n oc) i o :
  os !! i = Some o -> exists th, ths !! i = Some th.
Proof. intros Ho. apply lookup_lt_is_Some_2. rewrite <- (i_length Hinv). by eapply lookup_lt_Some. Qed.

(** Somebody holds the mutex when its semaphore is zero. *)
Lemma belt_holder cs ths w os n oc (Hinv : inv cs ths w os n oc) :
  v_belt (w_sem w) = 0 -> exists i th o, ths !! i = Some th /\ os !! i = Some o /\ o_belt o <> None.
Proof.
  intros Hz. destruct (decide (Exists (fun o => o_belt o <> None) os)) as [Hex|Hno].
  - apply list.Exists_exists in Hex as (o & Ho & Hb). apply list_elem_of_lookup in Ho as [i Ho].
    destruct (owner_thread _ _ _ _ _ _ Hinv i o Ho) as [th Hth]. by exists i, th, o.
  - exfalso. pose proof (i_belt Hinv) as [He _]. rewrite (sumZ_zero holds_belt) in He; [lia|].
    intros o Ho. unfold holds_belt. destruct (o_belt o) eqn:E; [|done]. exfalso. apply Hno, list.Exists_exists.
    exists o. split; [done|]. by rewrite E.
Qed.

Lemma dock_holder cs ths w os n oc (Hinv : inv cs ths w os n oc) :
  v_dock (w_sem w) = 0 -> exists i th o, ths !! i = Some th /\ os !! i = Some o /\ o_dock o <> None.
Proof.
  intros Hz. destruct (decide (Exists (fun o => o_dock o <> None) os)) as [Hex|Hno].
  - apply list.Exists_exists in Hex as (o & Ho & Hb). apply list_elem_of_lookup in Ho as [i Ho].
    destruct (owner_thread _ _ _ _ _ _ Hinv i o Ho) as [th Hth]. by exists i, th, o.
  - exfalso. pose proof (i_dock Hinv) as [He _]. rewrite (sumZ_zero holds_dock) in He; [lia|].
    intros o Ho. unfold holds_dock. destruct (o_dock o) eqn:E; [|done]. exfalso. apply Hno, list.Exists_exists.
    exists o. split; [done|]. by rewrite E.
Qed.

(** The packages in hand, counted. *)
Lemma length_pending os :
  (forall o, o ∈ os -> Z.of_nat (length (o_pend o)) <= b2z (o_carrier o)) ->
  Z.of_nat (length (mjoin (map o_pend os))) <= sumZ b2z (map o_carrier os).
Proof.
  induction os as [|o os IH]; intros H; [done|].
  change (mjoin (map o_pend (o :: os))) with (o_pend o ++ mjoin (map o_pend os)).
  change (sumZ b2z (map o_carrier (o :: os))) with (b2z (o_carrier o) + sumZ b2z (map o_carrier os)). rewrite length_app.
  assert (Z.of_nat (length (o_pend o)) <= b2z (o_carrier o)) by (apply H; set_solver).
  assert (Z.of_nat (length (mjoin (map o_pend os))) <= sumZ b2z (map o_carrier os)) by (apply IH; set_solver).
  lia.
Qed.

(** The system keeps the invariant. *)
Definition sys_inv (cs : list bool) (s : sys) : Prop :=
  exists os n oc, inv cs (threads s) (s_world s) os n oc.

Lemma calm_step_inv cs s s' : calm_step s s' -> sys_inv cs s -> sys_inv cs s'.
Proof.
  intros [i a th s0 s1 Hth Hcalm Hst] (os & n & oc & Hinv).
  unfold sys_step in Hst. rewrite Hth in Hst.
  destruct (estep (th_pid th) a (th_prog th) (s_world s0)) as [[t' w']|] eqn:E; [|done]. injection Hst as <-.
  destruct (thread_owner _ _ _ _ _ _ Hinv i th Hth) as [o Ho].
  destruct (thread_step _ _ _ _ _ _ Hinv i th o Hth Ho a t' w' Hcalm E) as (o' & n' & oc' & H & _).
  exists (<[i:=o']> os), n', oc'. done.
Qed.

(** [running] is never set again. *)
Lemma calm_step_running cs s s' :
  calm_step s s' -> sys_inv cs s -> running (w_shm (s_world s)) = false -> running (w_shm (s_world s')) = false.
Proof.
  intros [i a th s0 s1 Hth Hcalm Hst] (os & n & oc & Hinv) Hrun.
  unfold sys_step in Hst. rewrite Hth in Hst.
  destruct (estep (th_pid th) a (th_prog th) (s_world s0)) as [[t' w']|] eqn:E; [|done]. injection Hst as <-.
  destruct (thread_owner _ _ _ _ _ _ Hinv i th Hth) as [o Ho]. cbn.
  pose proof (i_wp Hinv i th o Hth Ho) as Hwp. pose proof (know_own _ _ _ _ _ _ Hinv i o Ho) as Hk.
  destruct (th_prog th); cbn in E; unfold k_semop, k_msgsnd, k_msgrcv in E; repeat case_match; simplify_eq; try done.
  destruct (Hwp _ (agree_refl _ _) Hk) as (_ & r & Hok & _). by apply (so_running _ _ _ _ Hok).
Qed.

Lemma calm_steps_inv cs s s' : calm_steps s s' -> sys_inv cs s -> sys_inv cs s'.
Proof. induction 1; eauto using calm_step_inv. Qed.

End Logic.

Arguments i_length {_ _ _ _ _ _ _}.
Arguments i_pids {_ _ _ _ _ _ _}.
Arguments i_wp {_ _ _ _ _ _ _}.
Arguments i_nonneg {_ _ _ _ _ _ _}.
Arguments i_alive {_ _ _ _ _ _ _}.
Arguments i_belt {_ _ _ _ _ _ _}.
Arguments i_dock {_ _ _ _ _ _ _}.
Arguments i_empty {_ _ _ _ _ _ _}.
Arguments i_full {_ _ _ _ _ _ _}.
Arguments i_workers {_ _ _ _ _ _ _}.
Arguments i_balance {_ _ _ _ _ _ _}.
Arguments i_binv {_ _ _ _ _ _ _}.
Arguments i_occupant {_ _ _ _ _ _ _}.
Arguments i_dinv {_ _ _ _ _ _ _}.
Arguments i_docked {_ _ _ _ _ _ _}.
Arguments i_resident {_ _ _ _ _ _ _}.
Arguments i_msgs {_ _ _ _ _ _ _}.
Arguments i_pend {_ _ _ _ _ _ _}.
Arguments i_hand {_ _ _ _ _ _ _}.
Arguments i_carriers {_ _ _ _ _ _ _}.
Arguments i_stop {_ _ _ _ _ _ _}.
Arguments i_users {_ _ _ _ _ _ _}.
Arguments i_log {_ _ _ _ _ _ _}.
