(* ===== verification/Rules.v ===== *)
(** * Rules of the program logic and the interfaces between components

    The rules of this file execute a statement in front of a continuation.
    The classes at the end say what a component expects of the callbacks it is
    given: a lock with its invariant, a supply of permits, a way to send or
    receive signals.  The components are verified against the classes; the
    manager's wrappers are instances of them. *)

From S2P Require Import Prelude Double Shared Ipc Logic.

Section Rules.
Context {P : Protocol}.

(** ** Statements

    While a process holds a mutex, the protected part of the view is its own:
    the rules below execute programs on one view, as if no other process ran. *)

Lemma own_ext o o' :
  o_belt o = o_belt o' -> o_dock o = o_dock o' -> o_ep o = o_ep o' -> o_fp o = o_fp o' -> o_reg o = o_reg o' ->
  o_docked o = o_docked o' -> o_pend o = o_pend o' -> o_stop o = o_stop o' -> o_carrier o = o_carrier o' -> o = o'.
Proof. destruct o, o'. cbn. by intros -> -> -> -> -> -> -> -> ->. Qed.

Lemma set_o_reg_same o : set_o_reg (o_reg o) o = o.
Proof. by destruct o. Qed.

Lemma set_o_pend_same o : set_o_pend (o_pend o) o = o.
Proof. by destruct o. Qed.

(** A store within the belt's part, and one within the dock's part. *)
Record belt_store (g : SharedState -> SharedState) : Prop := {
  bs_dock : forall s, dock_truck (g s) = dock_truck s;
  bs_trucks : forall s, trucks_completed (g s) = trucks_completed s;
  bs_running : forall s, running (g s) = running s;
  bs_users : forall s, length (users (g s)) = length (users s);
  bs_own : forall v v', bpart v = bpart v' -> bpart (upd_shm g v) = bpart (upd_shm g v') }.

Record dock_store (g : SharedState -> SharedState) : Prop := {
  ds_belt : forall v, bpart (upd_shm g v) = bpart v;
  ds_running : forall s, running (g s) = running s;
  ds_own : forall v v', dpart v = dpart v' -> dpart (upd_shm g v) = dpart (upd_shm g v') }.

Section Statements.
Context {A : Type} (pid : Z) (Q : A -> own -> view -> Prop) (o : own) (v : view).

(** The program computes on what it reads; any value may come back. *)
Lemma wp_load_any {T} (f : SharedState -> T) (c : T -> prog A) :
  (forall v', agree o v v' -> know o v' -> wp pid (c (f (v_shm v'))) Q o v') ->
  wp pid (bind (load f) c) Q o v.
Proof.
  intros H v' Ha Hk. exists (o_stop o). split; [by left|].
  assert (set_o_stop (o_stop o) o = o) as -> by (by destruct o). by apply H.
Qed.

(** Reading [running]: seeing it false is remembered. *)
Lemma wp_load_running (c : bool -> prog A) :
  (o_stop o = false -> wp pid (c true) Q o v) ->
  wp pid (c false) Q (set_o_stop true o) v ->
  wp pid (bind (load running) c) Q o v.
Proof.
  intros Ht Hf v' Ha Hk. destruct (running (v_shm v')) eqn:E; cbn; rewrite ?E.
  - exists (o_stop o). split; [by left|].
    assert (set_o_stop (o_stop o) o = o) as -> by (by destruct o). eapply wp_stable; [|exact Ha]. apply Ht.
    destruct (o_stop o) eqn:Es; [|done]. by rewrite (k_stop _ _ Hk Es) in E.
  - exists true. split; [by right|]. by eapply wp_stable.
Qed.

(** Reading what the process protects. *)
Lemma wp_load_own {T} (f : SharedState -> T) (c : T -> prog A) :
  (forall v', agree o v v' -> f (v_shm v') = f (v_shm v)) ->
  wp pid (c (f (v_shm v))) Q o v ->
  wp pid (bind (load f) c) Q o v.
Proof.
  intros Hf H. apply wp_load_any. intros v' Ha Hk. rewrite (Hf v' Ha). by eapply wp_stable.
Qed.

Lemma wp_store_belt g (c : unit -> prog A) r :
  o_belt o <> None -> belt_store g ->
  (forall v', agree o v v' ->
     current_workers_count (g (v_shm v')) - current_workers_count (v_shm v') = b2z r - b2z (o_reg o)) ->
  wp pid (c tt) Q (set_o_reg r o) (upd_shm g v) ->
  wp pid (bind (store g) c) Q o v.
Proof.
  intros Hb Hg Hw H v' Ha Hk. split; [|exists r; split].
  - split; [done|]. intros _. unfold dpart. cbn. by rewrite (bs_dock _ Hg), (bs_trucks _ Hg).
  - split; [by apply Hw|apply (bs_users _ Hg)|by rewrite (bs_running _ Hg)].
  - eapply wp_stable; [exact H|]. split; cbn; intros Hne.
    + apply (bs_own _ Hg). by apply Ha.
    + unfold dpart. cbn. rewrite !(bs_dock _ Hg), !(bs_trucks _ Hg). by apply Ha.
Qed.

(** The common case: the worker counter is not touched. *)
Lemma wp_store_belt_same g (c : unit -> prog A) :
  o_belt o <> None -> belt_store g -> (forall s, current_workers_count (g s) = current_workers_count s) ->
  wp pid (c tt) Q o (upd_shm g v) ->
  wp pid (bind (store g) c) Q o v.
Proof.
  intros Hb Hg Hw H. apply (wp_store_belt g c (o_reg o)); [done|done|intros v' _; rewrite Hw; lia|].
  by rewrite set_o_reg_same.
Qed.

Lemma wp_store_dock g (c : unit -> prog A) :
  o_dock o <> None -> dock_store g ->
  wp pid (c tt) Q o (upd_shm g v) ->
  wp pid (bind (store g) c) Q o v.
Proof.
  intros Hd Hg H v' Ha Hk. pose proof (ds_belt _ Hg v') as He. unfold bpart in He. cbn in He. injection He as E1 E2 E3 E4 E5 E6 E7 E8.
  split; [|exists (o_reg o); split].
  - split; [|done]. intros _. by rewrite (ds_belt _ Hg).
  - split; [lia|by rewrite E8|by rewrite (ds_running _ Hg)].
  - rewrite set_o_reg_same. eapply wp_stable; [exact H|]. split; cbn; intros Hne.
    + rewrite !(ds_belt _ Hg). by apply Ha.
    + apply (ds_own _ Hg). by apply Ha.
Qed.

(** Clearing [running] needs no lock. *)
Lemma wp_store_running (c : unit -> prog A) :
  wp pid (c tt) Q o (upd_shm (set_running false) v) -> wp pid (bind (store (set_running false)) c) Q o v.
Proof.
  intros H v' Ha Hk. split; [done|]. exists (o_reg o). split; [split; cbn; [lia|done|done]|].
  rewrite set_o_reg_same. eapply wp_stable; [exact H|]. exact Ha.
Qed.

(** Log lines outside both protected parts. *)
Lemma wp_log_free m (c : unit -> prog A) :
  is_belt_msg m = false -> is_dock_msg m = false ->
  wp pid (c tt) Q o v -> wp pid (bind (log m) c) Q o v.
Proof.
  intros Hb Hd H v' Ha Hk.
  assert (bpart (upd_log m v') = bpart v' /\ dpart (upd_log m v') = dpart v') as [E1 E2].
  { unfold bpart, dpart, belt_log, dock_log. cbn. rewrite !list.filter_app. cbn. rewrite Hb, Hd. cbn. by rewrite !app_nil_r. }
  split; [by unfold frame; rewrite E1, E2|]. split; [by apply LInv_other|].
  exists (o_pend o). split; [by destruct m|]. rewrite set_o_pend_same. eapply wp_stable; [exact H|].
  unfold agree. rewrite E1, E2. exact Ha.
Qed.

(** A log line of the belt, and one of the dock, under the mutex. *)
Lemma wp_log_belt m l (c : unit -> prog A) :
  o_belt o <> None -> is_belt_msg m = true -> is_dock_msg m = false -> log_pend m o l ->
  (forall l', belt_log l' = belt_log (v_log v) -> LInv l' -> LInv (l' ++ [m])) ->
  wp pid (c tt) Q (set_o_pend l o) (upd_log m v) -> wp pid (bind (log m) c) Q o v.
Proof.
  intros Hb Hbm Hdm Hl HL H v' Ha Hk.
  assert (dpart (upd_log m v') = dpart v' /\ dpart (upd_log m v) = dpart v) as [E1 E2].
  { unfold dpart, dock_log. cbn. rewrite !list.filter_app. cbn. rewrite Hdm. cbn. by rewrite !app_nil_r. }
  assert (bpart v = bpart v') as Eb by (by apply Ha).
  split; [by unfold frame; rewrite E1|]. split.
  { apply HL. unfold bpart in Eb. congruence. }
  exists l. split; [done|]. eapply wp_stable; [exact H|]. split; cbn; intros Hne.
  - unfold bpart, belt_log in *. cbn. rewrite !list.filter_app. injection Eb as -> -> -> -> -> -> -> -> ->. done.
  - rewrite E1, E2. by apply Ha.
Qed.

Lemma wp_log_dock m l (c : unit -> prog A) :
  o_dock o <> None -> is_dock_msg m = true -> is_belt_msg m = false -> log_pend m o l ->
  (forall l', dock_log l' = dock_log (v_log v) -> LInv l' -> LInv (l' ++ [m])) ->
  wp pid (c tt) Q (set_o_pend l o) (upd_log m v) -> wp pid (bind (log m) c) Q o v.
Proof.
  intros Hd Hdm Hbm Hl HL H v' Ha Hk.
  assert (bpart (upd_log m v') = bpart v' /\ bpart (upd_log m v) = bpart v) as [E1 E2].
  { unfold bpart, belt_log. cbn. rewrite !list.filter_app. cbn. rewrite Hbm. cbn. by rewrite !app_nil_r. }
  assert (dpart v = dpart v') as Ed by (by apply Ha).
  split; [by unfold frame; rewrite E1|]. split.
  { apply HL. unfold dpart in Ed. congruence. }
  exists l. split; [done|]. eapply wp_stable; [exact H|]. split; cbn; intros Hne.
  - rewrite E1, E2. by apply Ha.
  - unfold dpart, dock_log in *. cbn. rewrite !list.filter_app. injection Ed as -> -> ->. done.
Qed.

(** Calls that only return a value. *)
Lemma wp_getpid (c : Z -> prog A) : wp pid (c pid) Q o v -> wp pid (bind (Getpid Ret) c) Q o v.
Proof. intros H v' Ha Hk. by eapply wp_stable. Qed.

Lemma wp_randint lo hi (c : Z -> prog A) :
  lo <= hi -> (forall z, lo <= z <= hi -> wp pid (c z) Q o v) -> wp pid (bind (RandInt lo hi Ret) c) Q o v.
Proof. intros Hle H v' Ha Hk. split; [done|]. intros z Hz. eapply wp_stable; [by apply H|done]. Qed.

Lemma wp_randreal lo hi (c : double -> prog A) :
  ((lo <=? lo)%double && (lo <? hi)%double)%bool = true ->
  (forall d, (lo <=? d)%double = true -> (d <? hi)%double = true -> wp pid (c d) Q o v) ->
  wp pid (bind (RandReal lo hi Ret) c) Q o v.
Proof. intros Hle H v' Ha Hk. split; [done|]. intros z H1 H2. eapply wp_stable; [by apply H|done]. Qed.

Lemma wp_sleep ms (c : unit -> prog A) : wp pid (c tt) Q o v -> wp pid (bind (sleep_ms ms) c) Q o v.
Proof. intros H v' Ha Hk. by eapply wp_stable. Qed.

Lemma wp_sigflag (c : bool -> prog A) : (forall b, wp pid (c b) Q o v) -> wp pid (bind (SigFlag Ret) c) Q o v.
Proof. intros H v' Ha Hk b. eapply wp_stable; [apply H|done]. Qed.

Lemma wp_pollstdin (c : bool -> prog A) : (forall b, wp pid (c b) Q o v) -> wp pid (bind (PollStdin Ret) c) Q o v.
Proof. intros H v' Ha Hk b. eapply wp_stable; [apply H|done]. Qed.

Lemma wp_getline (c : option string -> prog A) : (forall l, wp pid (c l) Q o v) -> wp pid (bind (Getline Ret) c) Q o v.
Proof. intros H v' Ha Hk b. eapply wp_stable; [apply H|done]. Qed.

Lemma wp_fork path argv (c : Z -> prog A) :
  (forall z, fork_result z = true -> wp pid (c z) Q o v) -> wp pid (bind (Fork path argv Ret) c) Q o v.
Proof. intros H v' Ha Hk z Hz. eapply wp_stable; [by apply H|done]. Qed.

Lemma wp_waitpid (c : Z -> prog A) : (forall z, wp pid (c z) Q o v) -> wp pid (bind (Waitpid Ret) c) Q o v.
Proof. intros H v' Ha Hk z Hz. eapply wp_stable; [by apply H|done]. Qed.

Lemma wp_exit code : code = 1 -> owns_nothing o -> wp pid (Exit code) Q o v.
Proof. by intros Hc Ho v' Ha Hk. Qed.

Lemma wp_ret (a : A) : (forall v', agree o v v' -> know o v' -> Q a o v') -> wp pid (Ret a) Q o v.
Proof. done. Qed.

Lemma wp_ret_bind {T} (x : T) (c : T -> prog A) : wp pid (c x) Q o v -> wp pid (bind (Ret x) c) Q o v.
Proof. done. Qed.

(** Integer results: in range, or the overflow of a counter the process owns. *)
Lemma wp_int_result z (c : Z -> prog A) :
  (in_int z = true -> wp pid (c z) Q o v) ->
  (in_int z = false -> forall v', agree o v v' -> counter_at_max (v_shm v')) ->
  wp pid (bind (int_result z) c) Q o v.
Proof. intros H1 H2. unfold int_result. destruct (in_int z); cbn; [by apply H1|]. intros v' Ha Hk. split; auto. Qed.

(** Array accesses. *)
Lemma wp_store_at n i g (c : unit -> prog A) :
  0 <= i < n -> wp pid (bind (store g) c) Q o v -> wp pid (bind (store_at n i g) c) Q o v.
Proof.
  intros Hi H. unfold store_at. by rewrite (proj2 (Z.leb_le 0 i)), (proj2 (Z.ltb_lt i n)) by lia.
Qed.

Lemma wp_load_at_own {T} (arr : SharedState -> list T) i x (c : T -> prog A) :
  (forall v', agree o v v' -> arr (v_shm v') = arr (v_shm v)) ->
  0 <= i -> arr (v_shm v) !! Z.to_nat i = Some x ->
  wp pid (c x) Q o v -> wp pid (bind (load_at arr i) c) Q o v.
Proof.
  intros Harr Hi Hx H v' Ha Hk. exists (o_stop o). split; [by left|].
  assert (set_o_stop (o_stop o) o = o) as -> by (by destruct o).
  rewrite (Harr v' Ha), (proj2 (Z.leb_le 0 i) Hi), Hx. cbn. by eapply wp_stable.
Qed.

(** The session table may be read without a lock: the slot exists. *)
Lemma wp_load_user i (c : UserSession -> prog A) :
  0 <= i < MAX_USERS_SESSIONS -> (forall u, wp pid (c u) Q o v) -> wp pid (bind (load_at users i) c) Q o v.
Proof.
  intros Hi H v' Ha Hk. exists (o_stop o). split; [by left|].
  assert (set_o_stop (o_stop o) o = o) as -> by (by destruct o).
  rewrite (proj2 (Z.leb_le 0 i)) by lia.
  destruct (lookup_lt_is_Some_2 (users (v_shm v')) (Z.to_nat i)) as [u Hu].
  { rewrite (k_users _ _ Hk). lia. }
  rewrite Hu. cbn. eapply wp_stable; [apply H|done].
Qed.

(** Loops, by an invariant on the loop variable and the ownership. *)
Lemma wp_loop {St R} (I : St -> own -> Prop) s (body : St -> prog (St + R)) (c : R -> prog A) :
  I s o ->
  (forall s' o', I s' o' -> resting o') ->
  (forall s' o' v', I s' o' ->
     wp pid (body s') (fun r o2 v3 => match r with inl s2 => I s2 o2 | inr x => wp pid (c x) Q o2 v3 end) o' v') ->
  wp pid (bind (loop s body) c) Q o v.
Proof.
  intros HI Hre Hb v' Ha Hk. exists (fun s' o' _ => I s' o'). do 2 (split; [done|]). split; [by intros; eapply Hre|].
  intros. by apply Hb.
Qed.

End Statements.

(** Sequences inside sequences, and statements in tail position. *)
Lemma wp_unbind {A B} pid (t : prog A) (c : A -> prog B) Q o v :
  wp pid (bind t c) Q o v -> wp pid t (fun a o' v' => wp pid (c a) Q o' v') o v.
Proof.
  revert B c Q o v; induction t; intros B' c Q o v Hwp.
  { intros v' Ha Hk. by eapply wp_stable. }
  all: intros v' Ha Hk; specialize (Hwp v' Ha Hk); cbn in *; eauto;
    try (wp_structural Hwp).
  destruct Hwp as (I & HI & Hst & Hre & Hb). exists I. do 3 (split; [done|]). intros s' o' v2 Hs.
  eapply wp_mono; [|by apply Hb]. intros [s2|x] o2 v3; [done|]. cbn. by eauto.
Qed.

Lemma wp_assoc {A B C} pid (t : prog A) (f : A -> prog B) (c : B -> prog C) Q o v :
  wp pid (bind t (fun x => bind (f x) c)) Q o v -> wp pid (bind (bind t f) c) Q o v.
Proof.
  intros H. apply wp_unbind in H. apply wp_bind, wp_bind. eapply wp_mono; [|exact H]. intros a o' v'. apply wp_unbind.
Qed.

Lemma wp_tail {A} pid (t : prog A) Q o v : wp pid (bind t Ret) Q o v -> wp pid t Q o v.
Proof.
  revert Q o v; induction t; intros Q o v Hwp; [done|..];
    intros v' Ha Hk; specialize (Hwp v' Ha Hk); cbn in *; eauto;
    try (wp_structural Hwp).
  destruct Hwp as (I & HI & Hst & Hre & Hb). exists I. do 3 (split; [done|]). intros s' o' v2 Hs.
  eapply wp_mono; [|by apply Hb]. intros [s2|x] o2 v3; [done|]. cbn. by eauto.
Qed.

(** ** Programs that only read what the process protects *)

Fixpoint owned_reads {A} (o : own) (v : view) (t : prog A) : Prop :=
  match t with
  | Ret _ => True
  | Load f k => (forall v', agree o v v' -> f (v_shm v') = f (v_shm v)) /\ owned_reads o v (k (f (v_shm v)))
  | _ => False
  end.

(** A world that looks like the view. *)
Definition view_world (v : view) : world := mkWorld (v_shm v) (mkSemset 0 0 0 0) true [] 0 true (v_log v).

(** Such a program has the result it has when it runs alone. *)
Lemma wp_owned_reads {A B} pid (t : prog A) (c : A -> prog B) Q o v w a w' :
  owned_reads o v t -> w_shm w = v_shm v -> runs pid t w a w' ->
  wp pid (c a) Q o v -> wp pid (bind t c) Q o v.
Proof.
  intros Hr Hw Hrun H. specialize (Hrun O []). revert c H Hrun. induction t; intros c' Hc Hrun; cbn in Hr; try done.
  - cbn in Hrun |- *. by simplify_eq.
  - destruct Hr as [Hf Hr]. apply (wp_load_own pid Q o v f (fun x => bind (k x) c')); [done|].
    eapply H; [done|exact Hc|]. cbn in Hrun. by rewrite Hw in Hrun.
Qed.

(** ** What components expect of their callbacks *)

(** A lock and unlock of the belt mutex. *)
Class BeltLock (lock unlock : prog unit) : Prop := {
  belt_lock : forall A pid (c : unit -> prog A) Q o v,
    unlocked o ->
    (forall v2 n, BInv v2 n -> o_ep o <= MAX_BELT_CAPACITY_K - n -> o_fp o <= n ->
       wp pid (c tt) Q (set_o_belt (Some n) o) v2) ->
    wp pid (bind lock c) Q o v;
  belt_unlock : forall A pid (c : unit -> prog A) Q o v n n',
    o_belt o = Some n -> BInv v n' -> 0 <= o_ep o + n - n' -> 0 <= o_fp o + n' - n -> flow_ok o n n' ->
    wp pid (c tt) Q (leave_belt n n' o) v ->
    wp pid (bind unlock c) Q o v }.

(** A lock and unlock of the dock mutex. *)
Class DockLock (lock unlock : prog unit) : Prop := {
  dock_lock : forall A pid (c : unit -> prog A) Q o v,
    resting o ->
    (forall v2 oc, DInv v2 oc -> (o_docked o = true <-> oc = Some pid) ->
       wp pid (c tt) Q (set_o_dock (Some oc) o) v2) ->
    wp pid (bind lock c) Q o v;
  dock_unlock : forall A pid (c : unit -> prog A) Q o v oc oc',
    o_dock o = Some oc -> DInv v oc' -> dock_move pid oc oc' ->
    wp pid (c tt) Q (leave_dock pid oc' o) v ->
    wp pid (bind unlock c) Q o v }.

(** Permits for empty slots, which workers take and dispatchers return, and
    permits for full slots, which dispatchers take with an empty hand and
    workers return. *)
Class EmptyPermits (wait signal : prog unit) : Prop := {
  empty_wait : forall A pid (c : unit -> prog A) Q o v,
    takes_slot o -> wp pid (c tt) Q (set_o_ep (o_ep o + 1) o) v -> wp pid (bind wait c) Q o v;
  empty_signal : forall A pid (c : unit -> prog A) Q o v,
    gives_slot o -> wp pid (c tt) Q (set_o_ep (o_ep o - 1) o) v -> wp pid (bind signal c) Q o v }.

Class FullPermits (wait signal : prog unit) : Prop := {
  full_wait : forall A pid (c : unit -> prog A) Q o v,
    takes_package o -> wp pid (c tt) Q (set_o_fp (o_fp o + 1) o) v -> wp pid (bind wait c) Q o v;
  full_signal : forall A pid (c : unit -> prog A) Q o v,
    gives_package o -> wp pid (c tt) Q (set_o_fp (o_fp o - 1) o) v -> wp pid (bind signal c) Q o v }.

(** Sending a signal, which may happen under the dock mutex, and waiting for one. *)
Class SignalSender (send : Z -> SignalType -> prog unit) : Prop :=
  signal_send : forall A pid target ty (c : unit -> prog A) Q o v,
    may_send o -> wp pid (c tt) Q o v -> wp pid (bind (send target ty) c) Q o v.

Class SignalReceiver (receive : Z -> prog SignalType) : Prop :=
  signal_receive : forall A pid me (c : SignalType -> prog A) Q o v,
    resting o -> me = pid -> (forall s, wp pid (c s) Q o v) -> wp pid (bind (receive me) c) Q o v.

Lemma flow_same o n : flow_ok o n n.
Proof. unfold flow_ok. by case_match. Qed.

(** Leaving the belt mutex without having changed the balance. *)
Lemma belt_unlock_same `{!BeltLock lock unlock} A pid (c : unit -> prog A) Q o v n :
  o_belt o = Some n -> BInv v n -> 0 <= o_ep o -> 0 <= o_fp o ->
  wp pid (c tt) Q (set_o_belt None o) v -> wp pid (bind unlock c) Q o v.
Proof.
  intros Hb HB He Hf H. apply (belt_unlock A pid c Q o v n n); [done|done|lia|lia|apply flow_same|].
  replace (leave_belt n n o) with (set_o_belt None o); [done|]. apply own_ext; cbn; try done; lia.
Qed.

End Rules.

Arguments wp : simpl never.

(** ** Execution tactics *)

(** The value read is protected by a mutex the process holds. *)
Ltac own_read :=
  let v' := fresh "v'" in let Hb := fresh "Hb" in let Hd := fresh "Hd" in
  intros v' [Hb Hd];
  first
    [ specialize (Hb ltac:(done)); unfold bpart in Hb; cbn in Hb; cbn; congruence
    | specialize (Hd ltac:(done)); unfold dpart in Hd; cbn in Hd; cbn; congruence ].

(** Which part a store writes. *)
Ltac belt_store_solve :=
  split; [done|done|done|intros; cbn; rewrite ?length_alter; done|intros ? ?; unfold bpart; cbn; intros; congruence].

Ltac dock_store_solve :=
  split; [done|done|intros ? ?; unfold dpart; cbn; intros; congruence].

(** Two descriptions of the same ownership. *)
Ltac own_eq := apply own_ext; cbn; first [done|lia|congruence].

Ltac wp_beta := cbv beta zeta.

(** Execute one statement whose rule needs no choice. *)
Ltac wp_step :=
  lazymatch goal with
  | |- wp _ (bind (bind _ _) _) _ _ _ => apply wp_assoc; wp_beta
  | |- wp _ (bind (Ret _) _) _ _ _ => apply wp_ret_bind; wp_beta
  | |- wp _ (bind skip _) _ _ _ => apply wp_ret_bind; wp_beta
  | |- wp _ (bind (load running) _) _ _ _ => apply wp_load_running; wp_beta
  | |- wp _ (bind (load _) _) _ _ _ => apply wp_load_own; [solve [own_read]|wp_beta]
  | |- wp _ (bind (log _) _) _ _ _ => apply wp_log_free; [reflexivity|reflexivity|wp_beta]
  | |- wp _ (bind (store _) _) _ _ _ =>
      first [ apply wp_store_belt_same; [done|belt_store_solve|done|wp_beta]
            | apply wp_store_dock; [done|dock_store_solve|wp_beta] ]
  | |- wp _ (bind (sleep_ms _) _) _ _ _ => apply wp_sleep; wp_beta
  | |- wp _ (bind (Getpid Ret) _) _ _ _ => apply wp_getpid; wp_beta
  | |- wp _ (bind (RandInt _ _ Ret) _) _ _ _ => apply wp_randint; [lia|intros; wp_beta]
  | |- wp _ (bind (RandReal _ _ Ret) _) _ _ _ => apply wp_randreal; [reflexivity|intros; wp_beta]
  | |- wp _ (bind (SigFlag Ret) _) _ _ _ => apply wp_sigflag; intros; wp_beta
  | |- wp _ (bind (PollStdin Ret) _) _ _ _ => apply wp_pollstdin; intros; wp_beta
  | |- wp _ (bind (Getline Ret) _) _ _ _ => apply wp_getline; intros; wp_beta
  end.
