(* ===== verification/Invariants.v ===== *)
(** * What the mutexes protect

    The invariants of the belt mutex and of the dock mutex, and the two
    specifications of the log: the belt's lines are a run of a bounded
    first-in first-out queue, the dock's lines are a run of a dock that holds
    one truck at a time.  Both specifications are executable. *)

From S2P Require Import Prelude Double Shared Ipc Belt SessionManager Logic.

(** ** The belt's log as a queue

    The state is the number of packages pushed and popped so far.  A push
    must carry the next number, the next slot of the ring and the new
    count, and find room; a pop must carry the number after the last popped. *)

Definition queue_step (st : option (Z * Z)) (m : log_msg) : option (Z * Z) :=
  match st with
  | None => None
  | Some (p, q) =>
      match m with
      | BeltPushed i idx cnt _ =>
          if (i =? p + 1) && (p - q <? MAX_BELT_CAPACITY_K) && (idx =? p mod MAX_BELT_CAPACITY_K) && (cnt =? p + 1 - q)
          then Some (p + 1, q) else None
      | BeltPopped i idx cnt _ =>
          if (i =? q + 1) && (q <? p) && (idx =? q mod MAX_BELT_CAPACITY_K) && (cnt =? p - q - 1)
          then Some (p, q + 1) else None
      | BeltRejected _ => None
      | _ => st
      end
  end.

Definition queue_run (l : list log_msg) : option (Z * Z) := foldl queue_step (Some (0, 0)) l.

(** ** The dock's log

    The state is the truck at the dock with the number of packages the
    dispatcher loaded on it, and the number of departures. *)

Definition dock_step (st : option (option (Z * Z) * Z)) (m : log_msg) : option (option (Z * Z) * Z) :=
  match st with
  | None => None
  | Some (cur, d) =>
      match m with
      | Docked p _ _ => Some (Some (p, 0), d)
      | PkgLoaded _ _ _ t =>
          match cur with
          | Some (p, c) => if t =? p then Some (Some (p, c + 1), d) else None
          | None => None
          end
      | Departing p _ _ total =>
          match cur with
          | Some (p', _) => if (p =? p') && (total =? d + 1) then Some (None, d + 1) else None
          | None => None
          end
      | ShutdownWithCargo p _ =>
          match cur with
          | Some (p', _) => if p =? p' then Some (None, d + 1) else None
          | None => None
          end
      | IdentityTheft _ => None
      | _ => st
      end
  end.

Definition dock_run (l : list log_msg) : option (option (Z * Z) * Z) := foldl dock_step (Some (None, 0)) l.

(** ** The invariants *)

Record belt_inv (v : view) (n : Z) : Prop := {
  bi_wf : belt_wf (v_shm v);
  bi_count : current_items_count (v_shm v) = n;
  bi_users : users_wf (users (v_shm v));
  bi_workers : 0 <= current_workers_count (v_shm v) <= MAX_WORKERS_PER_BELT;
  bi_total : n <= total_packages_created (v_shm v) <= INT_MAX;
  bi_head : head (v_shm v) = (total_packages_created (v_shm v) - n) mod MAX_BELT_CAPACITY_K;
  bi_ids : map id (contents (v_shm v)) = seqZ (total_packages_created (v_shm v) - n + 1) n;
  bi_log : queue_run (belt_log (v_log v)) =
           Some (total_packages_created (v_shm v), total_packages_created (v_shm v) - n) }.

(** The load of the truck is within its limits. *)
Definition within_limits (t : TruckState) : Prop :=
  (current_weight t <=? max_weight t)%double = true /\ (current_volume t <=? max_volume t)%double = true.

Record dock_inv (v : view) (oc : option Z) : Prop := {
  di_present : is_present (dock_truck (v_shm v)) = bool_decide (oc <> None);
  di_truck : forall p, oc = Some p -> truck_id (dock_truck (v_shm v)) = p;
  di_limits : within_limits (dock_truck (v_shm v));
  di_load : 0 <= current_load (dock_truck (v_shm v)) <= INT_MAX;
  di_trucks : 0 <= trucks_completed (v_shm v) <= INT_MAX;
  di_log : exists cur, dock_run (dock_log (v_log v)) = Some (cur, trucks_completed (v_shm v)) /\
             forall p, oc = Some p -> cur = Some (p, current_load (dock_truck (v_shm v))) }.

Definition log_inv (l : list log_msg) : Prop :=
  queue_run (belt_log l) <> None /\ dock_run (dock_log l) <> None.

(** ** Lemmas *)

Lemma queue_run_app l m : queue_run (l ++ [m]) = queue_step (queue_run l) m.
Proof. unfold queue_run. by rewrite foldl_app. Qed.

Lemma dock_run_app l m : dock_run (l ++ [m]) = dock_step (dock_run l) m.
Proof. unfold dock_run. by rewrite foldl_app. Qed.

Lemma belt_log_app l m : belt_log (l ++ [m]) = belt_log l ++ (if is_belt_msg m then [m] else []).
Proof. unfold belt_log. rewrite list.filter_app. cbn. by destruct (is_belt_msg m). Qed.

Lemma dock_log_app l m : dock_log (l ++ [m]) = dock_log l ++ (if is_dock_msg m then [m] else []).
Proof. unfold dock_log. rewrite list.filter_app. cbn. by destruct (is_dock_msg m). Qed.

(** Lines the specifications do not speak about may be interspersed. *)
Lemma queue_run_belt_log l : queue_run (belt_log l) = queue_run l.
Proof.
  induction l as [|m l IH] using rev_ind; [done|].
  rewrite belt_log_app, queue_run_app, <- IH. destruct m; cbn [is_belt_msg]; rewrite ?app_nil_r, ?queue_run_app;
    try done; cbn; by destruct (queue_run (belt_log l)) as [[]|].
Qed.

Lemma dock_run_dock_log l : dock_run (dock_log l) = dock_run l.
Proof.
  induction l as [|m l IH] using rev_ind; [done|].
  rewrite dock_log_app, dock_run_app, <- IH. destruct m; cbn [is_dock_msg]; rewrite ?app_nil_r, ?dock_run_app;
    try done; cbn; by destruct (dock_run (dock_log l)) as [[]|].
Qed.

(** What the queue specification says of the numbers in the log. *)
Definition pushed_ids (l : list log_msg) : list Z :=
  omap (fun m => match m with BeltPushed i _ _ _ => Some i | _ => None end) l.

Lemma queue_run_ids l p q :
  queue_run l = Some (p, q) ->
  pushed_ids l = seqZ 1 p /\ popped_ids l = seqZ 1 q /\ 0 <= q <= p /\ p - q <= MAX_BELT_CAPACITY_K.
Proof.
  revert p q; induction l as [|m l IH] using rev_ind; intros p q Hr.
  - cbn in Hr. simplify_eq. unfold MAX_BELT_CAPACITY_K. repeat split; try lia; done.
  - rewrite queue_run_app in Hr. destruct (queue_run l) as [[p0 q0]|]; [|done].
    destruct (IH p0 q0 eq_refl) as (Hp & Hq & Hle & Hcap).
    unfold pushed_ids, popped_ids in *. rewrite !omap_app.
    destruct m; cbn in Hr; simplify_eq; cbn [omap list_omap]; rewrite ?app_nil_r; try done.
    + case_if_in Hr; [|done]. simplify_eq. rewrite Hp, (seqZ_snoc 1 p0) by lia.
      repeat split; try done; try lia. f_equal. f_equal. lia.
    + case_if_in Hr; [|done]. simplify_eq. rewrite Hq, (seqZ_snoc 1 q0) by lia.
      repeat split; try done; try lia. f_equal. f_equal. lia.
Qed.

Lemma queue_run_no_reject l p q c : queue_run l = Some (p, q) -> BeltRejected c ∉ l.
Proof.
  revert p q; induction l as [|m l IH] using rev_ind; intros p q Hr; [set_solver|].
  rewrite queue_run_app in Hr. destruct (queue_run l) as [[p0 q0]|]; [|done]. specialize (IH p0 q0 eq_refl).
  intros [Hin|Hin]%elem_of_app; [done|]. apply list_elem_of_singleton in Hin as <-. done.
Qed.

Lemma dock_run_no_theft l cur d pid : dock_run l = Some (cur, d) -> IdentityTheft pid ∉ l.
Proof.
  revert cur d; induction l as [|m l IH] using rev_ind; intros cur d Hr; [set_solver|].
  rewrite dock_run_app in Hr. destruct (dock_run l) as [[cur0 d0]|]; [|done]. specialize (IH cur0 d0 eq_refl).
  intros [Hin|Hin]%elem_of_app; [done|]. apply list_elem_of_singleton in Hin as <-. done.
Qed.

#[global] Instance warehouse_protocol : Protocol.
Proof.
  refine {| BInv := belt_inv; DInv := dock_inv; LInv := log_inv |}.
  - intros l m Hb Hd [H1 H2]. split; rewrite ?belt_log_app, ?dock_log_app, ?Hb, ?Hd, app_nil_r; done.
  - intros v v' n He. unfold bpart in He. injection He as E1 E2 E3 E4 E5 E6 E7 E8 E9.
    intros [H1 H2 H3 H4 H5 H6 H7 H8].
    assert (forall j, slot (v_shm v') j = slot (v_shm v) j) as Hslot by (intros j; unfold slot; by rewrite E1, E2).
    assert (contents (v_shm v') = contents (v_shm v)) as Hc.
    { unfold contents. rewrite E5. apply map_ext. auto. }
    split; rewrite ?Hc, <- ?E2, <- ?E3, <- ?E4, <- ?E5, <- ?E7, <- ?E8, <- ?E9; try done.
    destruct H1. split; rewrite <- ?E1, <- ?E2, <- ?E3, <- ?E5; try done. intros j Hj. rewrite Hslot. auto.
  - intros v v' oc He. unfold dpart in He. injection He as E1 E2 E3.
    intros [H1 H2 H3 H4 H5 H6]. split; rewrite <- ?E1, <- ?E2, <- ?E3; done.
Defined.
