(* ===== verification/BeltProof.v ===== *)
(** * The belt and the session table under interleaving

    The methods of [Belt] and [SessionManager], verified against the
    interfaces of their callbacks: each one takes the belt mutex where it
    must, leaves the belt invariant behind, and returns the permits it took. *)

From S2P Require Import Prelude Double Shared Ipc Belt SessionManager Logic Rules Invariants.

(** What a [Belt] object needs of its six callbacks. *)
Class BeltPorts (b : Belt) : Prop := {
  bp_shm : b_shm b = true;
  bp_lock :: BeltLock (lock_fn b) (unlock_fn b);
  bp_empty :: EmptyPermits (wait_empty_fn b) (signal_empty_fn b);
  bp_full :: FullPermits (wait_full_fn b) (signal_full_fn b) }.

(** A process outside the critical sections. *)
Record quiet (o : own) : Prop := {
  q_belt : o_belt o = None;
  q_dock : o_dock o = None;
  q_ep : o_ep o = 0;
  q_fp : o_fp o = 0 }.

Lemma quiet_unlocked o : quiet o -> unlocked o.
Proof. by intros []. Qed.

Lemma quiet_resting o : quiet o -> resting o.
Proof. by intros []. Qed.

#[export] Hint Resolve quiet_unlocked quiet_resting : warehouse.

Lemma quiet_may_send o : quiet o -> may_send o.
Proof. by intros []. Qed.

#[export] Hint Resolve quiet_may_send : warehouse.

(** ** The invariant across the critical sections *)

Section Effects.
Context (v : view) (n : Z) (HB : belt_inv v n).

Lemma inv_slot0_id : 0 < n -> id (slot (v_shm v) 0) = total_packages_created (v_shm v) - n + 1.
Proof.
  intros Hn. pose proof (bi_ids _ _ HB) as Hids. pose proof (bi_count _ _ HB) as Hc.
  rewrite (pop_contents _ (bi_wf _ _ HB)) in Hids by lia.
  rewrite seqZ_cons in Hids by lia. cbn in Hids. congruence.
Qed.

Lemma push_inv pkg w :
  n < MAX_BELT_CAPACITY_K -> total_packages_created (v_shm v) < INT_MAX ->
  belt_inv (upd_log (BeltPushed (total_packages_created (v_shm v) + 1) (tail (v_shm v)) (n + 1) w)
             (upd_shm (push_effect pkg) v)) (n + 1).
Proof.
  intros Hn Hmax. destruct HB as [Hwf Hc Hu Hw Ht Hh Hids Hl]. pose proof (wf_count _ Hwf).
  split; cbn [v_shm v_log upd_shm upd_log]; try done; try (cbn; lia).
  - apply push_wf; [done|lia].
  - cbn. rewrite Hh. f_equal. lia.
  - rewrite push_contents by (done || lia). rewrite map_app, Hids. cbn.
    rewrite (seqZ_snoc _ n) by lia. f_equal; [f_equal; lia|]. f_equal. lia.
  - rewrite belt_log_app. cbn [is_belt_msg]. rewrite queue_run_app, Hl. cbn [queue_step].
    rewrite (wf_tail _ Hwf), Hh, Hc. cbn.
    rewrite Z.add_mod_idemp_l by (unfold MAX_BELT_CAPACITY_K; lia).
    replace (total_packages_created (v_shm v) - n + n) with (total_packages_created (v_shm v)) by lia.
    rewrite !Z.eqb_refl. rewrite (proj2 (Z.ltb_lt _ _)) by lia.
    rewrite (proj2 (Z.eqb_eq _ _)) by lia. cbn. do 2 f_equal. lia.
Qed.

Lemma pop_inv w :
  0 < n ->
  belt_inv (upd_log (BeltPopped (id (slot (v_shm v) 0)) (head (v_shm v)) (n - 1) w) (upd_shm pop_effect v)) (n - 1).
Proof.
  intros Hn. pose proof (inv_slot0_id Hn) as Hid0. destruct HB as [Hwf Hc Hu Hw Ht Hh Hids Hl].
  split; cbn [v_shm v_log upd_shm upd_log]; try done; try (cbn; lia).
  - apply pop_wf; [done|lia].
  - cbn. pose proof (wf_head _ Hwf). rewrite ring_rem by lia. rewrite Hh.
    rewrite Z.add_mod_idemp_l by (unfold MAX_BELT_CAPACITY_K; lia). f_equal. lia.
  - rewrite (pop_contents _ Hwf) in Hids by lia. rewrite seqZ_cons in Hids by lia. cbn in Hids.
    injection Hids as _ Hids. rewrite Hids. cbn. f_equal; lia.
  - rewrite belt_log_app. cbn [is_belt_msg]. rewrite queue_run_app, Hl. cbn [queue_step].
    rewrite Hid0, Hh. cbn. rewrite !Z.eqb_refl. rewrite (proj2 (Z.ltb_lt _ _)) by lia.
    rewrite (proj2 (Z.eqb_eq _ _)) by lia. cbn. do 2 f_equal. lia.
Qed.

(** Another session table, the rest of the belt's part unchanged. *)
Lemma users_inv us : users_wf us -> belt_inv (upd_shm (set_users us) v) n.
Proof. intros Hus. destruct HB as [[]]. by split. Qed.

Lemma workers_inv k : 0 <= k <= MAX_WORKERS_PER_BELT -> belt_inv (upd_shm (set_current_workers_count k) v) n.
Proof. intros Hk. destruct HB as [[]]. by split. Qed.

End Effects.

(** A line that keeps the belt invariant keeps the log specification. *)
Lemma belt_line_log v n m l :
  belt_inv (upd_log m v) n -> is_belt_msg m = true -> is_dock_msg m = false ->
  belt_log l = belt_log (v_log v) -> log_inv l -> log_inv (l ++ [m]).
Proof.
  intros HB Hbm Hdm Hl [_ Hd]. split; [|by rewrite dock_log_app, Hdm, app_nil_r].
  pose proof (bi_log _ _ HB) as Hrun. cbn [v_log upd_log] in Hrun.
  rewrite belt_log_app in *. rewrite Hl, Hrun. done.
Qed.

(** Overflow of a counter the process protects. *)
Ltac overflow :=
  unfold in_int, INT_MIN in *; cbn; intros ? v' [Hb' Hd'];
  first
    [ specialize (Hb' ltac:(done)); unfold bpart in Hb'; cbn in Hb'; injection Hb'; intros
    | specialize (Hd' ltac:(done)); unfold dpart in Hd'; cbn in Hd'; injection Hd'; intros ];
  unfold counter_at_max; unfold INT_MAX in *;
  try match goal with E : _ = dock_truck _ |- _ => rewrite <- E; cbn end; lia.

(** An [int] that is in range. *)
Ltac in_range := intros; exfalso; unfold in_int, INT_MIN, INT_MAX, MAX_BELT_CAPACITY_K in *; cbn in *; lia.

(** ** The belt *)

Section BeltMethods.
Context {A : Type} (b : Belt) `{!BeltPorts b}.
Context (pid : Z) (Q : A -> own -> view -> Prop) (o : own) (v : view).

(** A registered worker never divides by zero. *)
Lemma wp_simulateWorkLoad (c : unit -> prog A) :
  o_reg o = true -> wp pid (c tt) Q o v -> wp pid (bind (simulateWorkLoad b) c) Q o v.
Proof.
  intros Hreg H. unfold simulateWorkLoad. rewrite bp_shm. cbn [negb].
  wp_step. apply wp_load_any. intros v1 Ha1 Hk1. wp_beta. case_if; [pose proof (k_reg _ _ Hk1 Hreg); lia|].
  wp_step. apply wp_load_any. intros v2 Ha2 Hk2. wp_beta. case_if; [pose proof (k_reg _ _ Hk2 Hreg); lia|].
  wp_step. eapply wp_stable; [exact H|]. by eapply agree_trans.
Qed.

Lemma wp_push pkg (c : Package -> prog A) :
  quiet o -> o_reg o = true -> o_carrier o = false ->
  (forall p v', wp pid (c p) Q o v') -> wp pid (bind (push b pkg) c) Q o v.
Proof.
  intros Hq Hreg Hcar H. destruct (Hq) as [Hb Hd He Hf]. unfold push. rewrite bp_shm. cbn [negb].
  wp_step. apply wp_simulateWorkLoad; [done|]. wp_beta.
  wp_step. apply empty_wait; [by split; auto with warehouse|]. wp_beta.
  wp_step. apply belt_lock; [done|]. intros v2 n HB Hep Hfp. cbn in Hep. wp_beta.
  pose proof (bi_wf _ _ HB) as Hwf. pose proof (wf_count _ Hwf). pose proof (bi_count _ _ HB) as Hc.
  pose proof (bi_total _ _ HB).
  wp_step. wp_step. rewrite Hc. rewrite (proj2 (Z.leb_gt _ _)) by lia.
  wp_step. wp_step. wp_step. apply wp_int_result; [|overflow].
  intros Hint. wp_beta. assert (total_packages_created (v_shm v2) < INT_MAX) by (unfold in_int in Hint; lia).
  assert (0 <= tail (v_shm v2) < MAX_BELT_CAPACITY_K) by (rewrite (wf_tail _ Hwf); apply ring_range).
  wp_step. wp_step. wp_step. wp_step. wp_step. wp_step.
  wp_step. apply wp_store_at; [done|]. wp_step.
  wp_step. apply wp_int_result; [intros _|in_range]. wp_beta. wp_step. wp_step.
  wp_step. wp_step. wp_step. apply wp_int_result; [intros _|in_range]. wp_beta.
  wp_step. wp_step. wp_step. wp_step. wp_step. wp_step. wp_step. wp_step. wp_step. wp_step.
  pose proof (push_inv v2 n HB pkg (current_workers_count (v_shm v2)) ltac:(lia) ltac:(lia)) as HB'.
  rewrite <- Hc in HB'.
  wp_step. eapply wp_log_belt; [done|done|done|reflexivity| |].
  { intros l' Hl' HL. eapply (belt_line_log _ _ _ _ HB'); [done|done|exact Hl'|exact HL]. }
  wp_beta. wp_step. eapply belt_unlock; [reflexivity|exact HB'|cbn; lia|cbn; lia|by unfold flow_ok; cbn; rewrite Hcar; lia|]. wp_beta.
  wp_step. apply full_signal; [split; cbn; [lia|done]|]. wp_beta. wp_step.
  match goal with |- wp _ _ _ ?o' _ => assert (o' = o) as -> by own_eq end. apply H.
Qed.

Lemma wp_pop (c : Package -> prog A) :
  quiet o -> o_carrier o = true -> o_pend o = [] ->
  (forall p v', id p <> 0 -> wp pid (c p) Q (set_o_pend [id p] o) v') -> wp pid (bind (pop b) c) Q o v.
Proof.
  intros Hq Hcar Hpend H. destruct (Hq) as [Hb Hd He Hf]. unfold pop. rewrite bp_shm. cbn [negb].
  wp_step. apply full_wait; [by repeat split; auto with warehouse|]. wp_beta.
  wp_step. apply belt_lock; [done|]. intros v2 n HB Hep Hfp. cbn in Hfp. wp_beta.
  pose proof (bi_wf _ _ HB) as Hwf. pose proof (wf_count _ Hwf). pose proof (wf_head _ Hwf) as Hh.
  pose proof (bi_count _ _ HB) as Hc. pose proof (bi_total _ _ HB).
  pose proof (inv_slot0_id v2 n HB ltac:(lia)) as Hid0.
  assert (belt (v_shm v2) !! Z.to_nat (head (v_shm v2)) = Some (slot (v_shm v2) 0)) as Hx.
  { rewrite <- (slot_lookup _ 0 Hwf). do 2 f_equal. ring_arith. }
  wp_step. wp_step. rewrite Hc. rewrite (proj2 (Z.leb_gt _ _)) by lia.
  wp_step. wp_step. wp_step. eapply wp_load_at_own; [own_read|lia|exact Hx|]. wp_beta.
  wp_step. apply wp_store_at; [done|]. wp_step.
  wp_step. apply wp_int_result; [intros _|in_range]. wp_beta. wp_step. wp_step.
  wp_step. wp_step. wp_step. apply wp_int_result; [intros _|in_range]. wp_beta.
  wp_step. wp_step. wp_step. wp_step. wp_step. wp_step. wp_step. wp_step. wp_step. wp_step.
  pose proof (pop_inv v2 n HB (current_workers_count (v_shm v2)) ltac:(lia)) as HB'.
  rewrite <- Hc in HB'.
  wp_step. eapply wp_log_belt; [done|done|done|by split| |].
  { intros l' Hl' HL. eapply (belt_line_log _ _ _ _ HB'); [done|done|exact Hl'|exact HL]. }
  wp_beta. wp_step. eapply belt_unlock; [reflexivity|exact HB'|cbn; lia|cbn; lia|by unfold flow_ok; cbn; rewrite Hcar; lia|]. wp_beta.
  wp_step. apply empty_signal; [split; cbn; [lia|done]|]. wp_beta. wp_step.
  match goal with |- wp _ _ _ ?o' _ => assert (o' = set_o_pend [id (slot (v_shm v2) 0)] o) as -> by own_eq end.
  apply H. lia.
Qed.

Lemma wp_registerWorker (c : bool -> prog A) :
  quiet o -> o_reg o = false ->
  (forall r v', wp pid (c r) Q (set_o_reg r o) v') -> wp pid (bind (registerWorker b) c) Q o v.
Proof.
  intros Hq Hreg H. destruct (Hq) as [Hb Hd He Hf]. unfold registerWorker. rewrite bp_shm. cbn [negb].
  wp_step. apply belt_lock; [done|]. intros v2 n HB Hep Hfp. wp_beta.
  pose proof (bi_workers _ _ HB) as Hw.
  wp_step. wp_step. wp_step. case_if.
  - wp_step. wp_step. wp_step. apply wp_int_result; [intros _|unfold MAX_WORKERS_PER_BELT in *; in_range]. wp_beta.
    wp_step. apply (wp_store_belt _ _ _ _ _ _ true); [done|belt_store_solve| |].
    { intros v' [Hown _]. specialize (Hown ltac:(done)). unfold bpart in Hown. injection Hown. cbn. rewrite Hreg.
      cbn. intros. lia. }
    wp_beta. wp_step. wp_step. wp_step. wp_step. wp_step. wp_step.
    eapply belt_unlock; [reflexivity|apply (workers_inv _ _ HB); cbn; lia|cbn; lia|cbn; lia|apply flow_same|]. wp_beta. wp_step.
    match goal with |- wp _ _ _ ?o' _ => assert (o' = set_o_reg true o) as -> by own_eq end. apply H.
  - wp_step. wp_step.
    eapply belt_unlock_same; [reflexivity|exact HB|cbn; lia|cbn; lia|]. wp_beta. wp_step.
    match goal with |- wp _ _ _ ?o' _ => assert (o' = set_o_reg false o) as -> by own_eq end. apply H.
Qed.

Lemma wp_unregisterWorker (c : unit -> prog A) :
  quiet o -> o_reg o = true ->
  (forall v', wp pid (c tt) Q (set_o_reg false o) v') -> wp pid (bind (unregisterWorker b) c) Q o v.
Proof.
  intros Hq Hreg H. destruct (Hq) as [Hb Hd He Hf]. unfold unregisterWorker. rewrite bp_shm. cbn [negb].
  wp_step. apply belt_lock; [done|]. intros v2 n HB Hep Hfp. wp_beta.
  pose proof (bi_workers _ _ HB) as Hw. unfold MAX_WORKERS_PER_BELT in Hw.
  apply wp_intro. intros v3 Ha Hk. pose proof (k_reg _ _ Hk Hreg) as Hone.
  assert (BInv v3 n) as HB3 by (eapply BInv_ext; [by apply Ha|exact HB]).
  pose proof (bi_workers _ _ HB3) as Hw3.
  wp_step. wp_step. rewrite (proj2 (Z.ltb_lt _ _)) by lia.
  wp_step. wp_step. wp_step. wp_step. apply wp_int_result; [intros _|unfold MAX_WORKERS_PER_BELT in *; in_range]. wp_beta.
  wp_step. apply (wp_store_belt _ _ _ _ _ _ false); [done|belt_store_solve| |].
  { intros v' [Hown _]. specialize (Hown ltac:(done)). unfold bpart in Hown. injection Hown. cbn. rewrite Hreg.
    cbn. intros. lia. }
  wp_beta. wp_step. wp_step. wp_step.
  eapply belt_unlock; [reflexivity|apply (workers_inv _ _ HB3); cbn; lia|cbn; lia|cbn; lia|apply flow_same|]. wp_beta.
  match goal with |- wp _ _ _ ?o' _ => assert (o' = set_o_reg false o) as -> by own_eq end. apply H.
Qed.

Lemma wp_getCount (c : Z -> prog A) : (forall z, wp pid (c z) Q o v) -> wp pid (bind (getCount b) c) Q o v.
Proof.
  intros H. unfold getCount. rewrite bp_shm. apply wp_load_any. intros v' Ha Hk. eapply wp_stable; [apply H|done].
Qed.

Lemma wp_getWorkerCount (c : Z -> prog A) : (forall z, wp pid (c z) Q o v) -> wp pid (bind (getWorkerCount b) c) Q o v.
Proof.
  intros H. unfold getWorkerCount. rewrite bp_shm. apply wp_load_any. intros v' Ha Hk. eapply wp_stable; [apply H|done].
Qed.

End BeltMethods.

(** ** The session table *)

(** What a [SessionManager] object needs of its callbacks; its session index is
    [-1] or a slot of the table. *)
Class SessionPorts (sm : SessionManager) : Prop := {
  sp_shm : sm_shm sm = true;
  sp_index : -1 <= current_session sm < MAX_USERS_SESSIONS;
  sp_lock :: BeltLock (sm_lock_fn sm) (sm_unlock_fn sm) }.

Section Loops.
Context (o : own) (v : view) (Hown : o_belt o <> None).

Lemma users_stable {T} (f : list UserSession -> T) v' : agree o v v' -> f (users (v_shm v')) = f (users (v_shm v)).
Proof. intros [Hb _]. specialize (Hb Hown). unfold bpart in Hb. congruence. Qed.

Lemma load_user_reads {A} i u (c : UserSession -> prog A) :
  users (v_shm v) !! i = Some u -> owned_reads o v (c u) -> owned_reads o v (bind (load_at users (Z.of_nat i)) c).
Proof.
  intros Hu Hc. unfold load_at. cbn [bind owned_reads]. split.
  - intros v' Ha. by rewrite (users_stable (fun us => us !! _) v' Ha).
  - rewrite (proj2 (Z.leb_le 0 (Z.of_nat i))) by lia. rewrite Nat2Z.id, Hu. exact Hc.
Qed.

Lemma find_duplicate_reads n i name :
  length (users (v_shm v)) = (i + n)%nat -> owned_reads o v (find_duplicate n (Z.of_nat i) name).
Proof.
  revert i; induction n as [|n IH]; intros i Hlen; [done|].
  destruct (lookup_lt_is_Some_2 (users (v_shm v)) i) as [u Hu]; [lia|].
  specialize (IH (S i) ltac:(lia)). replace (Z.of_nat (S i)) with (Z.of_nat i + 1) in IH by lia.
  cbn [find_duplicate]. eapply load_user_reads; [done|]. case_match; [|exact IH].
  eapply load_user_reads; [done|]. by case_match.
Qed.

Lemma find_free_slot_reads n i :
  length (users (v_shm v)) = (i + n)%nat -> owned_reads o v (find_free_slot n (Z.of_nat i)).
Proof.
  revert i; induction n as [|n IH]; intros i Hlen; [done|].
  destruct (lookup_lt_is_Some_2 (users (v_shm v)) i) as [u Hu]; [lia|].
  specialize (IH (S i) ltac:(lia)). replace (Z.of_nat (S i)) with (Z.of_nat i + 1) in IH by lia.
  cbn [find_free_slot]. eapply load_user_reads; [done|]. by case_match.
Qed.

(** The loops of [login] decide what they look for. *)
Lemma wp_find_duplicate {A} pid name (c : bool -> prog A) Q :
  length (users (v_shm v)) = Z.to_nat MAX_USERS_SESSIONS ->
  (name_taken (users (v_shm v)) name -> wp pid (c true) Q o v) ->
  (~ name_taken (users (v_shm v)) name -> wp pid (c false) Q o v) ->
  wp pid (bind (find_duplicate (Z.to_nat MAX_USERS_SESSIONS) 0 name) c) Q o v.
Proof.
  intros Hlen Ht Hf.
  destruct (find_duplicate_runs pid (view_world v)
              _ eq_refl (Z.to_nat MAX_USERS_SESSIONS) 0 name Hlen) as (d & Hrun & Hspec).
  eapply wp_owned_reads; [by apply (find_duplicate_reads _ 0)| |exact Hrun|]; [reflexivity|].
  destruct d.
  - apply Ht. destruct (proj1 Hspec eq_refl) as (j & u & _ & Hu). by exists j, u.
  - apply Hf. intros (j & u & Hu). assert (false = true); [|done]. apply Hspec. exists j, u. split; [lia|done].
Qed.

Lemma wp_find_free_slot {A} pid (c : Z -> prog A) Q :
  length (users (v_shm v)) = Z.to_nat MAX_USERS_SESSIONS ->
  (forall i, first_free (users (v_shm v)) i -> wp pid (c (Z.of_nat i)) Q o v) ->
  wp pid (c (-1)) Q o v ->
  wp pid (bind (find_free_slot (Z.to_nat MAX_USERS_SESSIONS) 0) c) Q o v.
Proof.
  intros Hlen Hf Hno.
  destruct (find_free_slot_runs pid (view_world v)
              _ eq_refl (Z.to_nat MAX_USERS_SESSIONS) 0 Hlen) as [(j & Hrun & _ & Hj & Hb)|[Hrun _]];
    (eapply wp_owned_reads; [by apply (find_free_slot_reads _ 0)| |exact Hrun|]; [reflexivity|]); [|done].
  apply Hf. split; [done|]. intros l u Hl. apply Hb. lia.
Qed.

End Loops.

Lemma wp_store_user {A} pid (Q : A -> own -> view -> Prop) o v i f (c : unit -> prog A) :
  o_belt o <> None -> 0 <= i < MAX_USERS_SESSIONS ->
  wp pid (c tt) Q o (upd_shm (fun s => set_users (alter f (Z.to_nat i) (users s)) s) v) ->
  wp pid (bind (store_user i f) c) Q o v.
Proof.
  intros Hb Hi H. unfold store_user. apply wp_store_at; [done|]. by apply wp_store_belt_same; [done|belt_store_solve|done|].
Qed.

(** A sequence of assignments to one slot is one assignment. *)
Lemma users_slot_inv v n i u u' us' :
  belt_inv v n -> users (v_shm v) !! i = Some u -> us' = <[i := u']> (users (v_shm v)) ->
  users_wf (<[i := u']> (users (v_shm v))) -> belt_inv (upd_shm (set_users us') v) n.
Proof. intros HB Hu -> Hwf. by apply users_inv. Qed.

(** Collapse nested updates of one slot. *)
Ltac slot_collapse Hu :=
  cbn [users set_users v_shm upd_shm]; rewrite ?Nat2Z.id, ?alter_twice, (alter_insert _ _ _ _ Hu).

Section SessionMethods.
Context {A : Type} (sm : SessionManager) `{!SessionPorts sm}.
Context (pid : Z) (Q : A -> own -> view -> Prop) (o : own) (v : view).

Lemma wp_login name r org max_procs (c : bool * SessionManager -> prog A) :
  quiet o -> max_procs <= INT_MAX ->
  (forall v', wp pid (c (false, sm)) Q o v') ->
  (forall i v', 0 <= i < MAX_USERS_SESSIONS -> wp pid (c (true, set_current_session i sm)) Q o v') ->
  wp pid (bind (login sm name r org max_procs) c) Q o v.
Proof.
  intros Hq Hmax Hf Ht. destruct (Hq) as [Hb Hd He Hfp]. unfold login. rewrite sp_shm. cbn [negb].
  wp_step. apply belt_lock; [done|]. intros v2 n HB Hep Hfn. wp_beta.
  pose proof (bi_users _ _ HB) as Hwf. pose proof (uw_length _ Hwf) as Hlen.
  wp_step. apply wp_find_duplicate; [done|done| |]; intros Htaken; wp_beta.
  { wp_step. wp_step. wp_step. eapply belt_unlock_same; [reflexivity|exact HB|cbn; lia|cbn; lia|]. wp_beta. wp_step.
    match goal with |- wp _ _ _ ?o' _ => assert (o' = o) as -> by own_eq end. apply Hf. }
  wp_step. apply wp_find_free_slot; [done|done| |]; [|wp_beta; rewrite Z.eqb_refl; wp_step; wp_step; wp_step;
    eapply belt_unlock_same; [reflexivity|exact HB|cbn; lia|cbn; lia|]; wp_beta; wp_step;
    match goal with |- wp _ _ _ ?o' _ => assert (o' = o) as -> by own_eq end; apply Hf].
  intros i Hfree. wp_beta. destruct (Hfree) as [(u & Hu & Hin) _].
  assert (0 <= Z.of_nat i < MAX_USERS_SESSIONS) as Hi by (apply lookup_lt_Some in Hu; lia).
  rewrite (proj2 (Z.eqb_neq _ _)) by lia.
  do 7 (wp_step; apply wp_store_user; [done|done|]; wp_beta). wp_step. wp_step.
  wp_step. apply wp_store_user; [done|done|]; wp_beta. wp_step. wp_step. wp_step.
  eapply belt_unlock_same; [reflexivity| |cbn; lia|cbn; lia|].
  - apply (users_slot_inv v2 n i u (fresh_session name r org max_procs pid)); [exact HB|done| |by apply login_users_wf].
    slot_collapse Hu. reflexivity.
  - wp_beta. wp_step. match goal with |- wp _ _ _ ?o' _ => assert (o' = o) as -> by own_eq end. by apply Ht.
Qed.

(** The methods on the current session: nothing without one. *)
Lemma session_cases :
  current_session sm = -1 \/ (0 <= current_session sm < MAX_USERS_SESSIONS /\ (current_session sm =? -1) = false).
Proof. pose proof sp_index. destruct (decide (current_session sm = -1)); [by left|right; lia]. Qed.

Lemma wp_logout (c : SessionManager -> prog A) :
  quiet o -> (forall sm' v', wp pid (c sm') Q o v') -> wp pid (bind (logout sm) c) Q o v.
Proof.
  intros Hq H. destruct (Hq) as [Hb Hd He Hf]. unfold logout.
  destruct session_cases as [->|[Hi ->]]; [cbn [Z.eqb orb Pos.eqb]; wp_step; apply H|]. rewrite sp_shm. cbn [negb orb].
  wp_step. apply belt_lock; [done|]. intros v2 n HB Hep Hfn. wp_beta.
  pose proof (bi_users _ _ HB) as Hwf. pose proof (uw_length _ Hwf) as Hlen.
  destruct (lookup_lt_is_Some_2 (users (v_shm v2)) (Z.to_nat (current_session sm))) as [u Hu]; [lia|].
  wp_step. eapply wp_load_at_own; [own_read|lia|exact Hu|]. wp_beta. wp_step. wp_step.
  do 4 (wp_step; apply wp_store_user; [done|done|]; wp_beta). wp_step.
  eapply belt_unlock_same; [reflexivity| |cbn; lia|cbn; lia|].
  - apply (users_slot_inv v2 n (Z.to_nat (current_session sm)) u (closed_session u)); [exact HB|exact Hu| |by apply closed_users_wf].
    slot_collapse Hu. reflexivity.
  - wp_beta. wp_step. match goal with |- wp _ _ _ ?o' _ => assert (o' = o) as -> by own_eq end. apply H.
Qed.

Lemma wp_trySpawnProcess (c : bool -> prog A) :
  quiet o -> (forall r v', wp pid (c r) Q o v') -> wp pid (bind (trySpawnProcess sm) c) Q o v.
Proof.
  intros Hq H. destruct (Hq) as [Hb Hd He Hf]. unfold trySpawnProcess.
  destruct session_cases as [->|[Hi ->]]; [cbn [Z.eqb orb Pos.eqb]; wp_step; apply H|]. rewrite sp_shm. cbn [negb orb].
  wp_step. apply belt_lock; [done|]. intros v2 n HB Hep Hfn. wp_beta.
  pose proof (bi_users _ _ HB) as Hwf. pose proof (uw_length _ Hwf) as Hlen.
  destruct (lookup_lt_is_Some_2 (users (v_shm v2)) (Z.to_nat (current_session sm))) as [u Hu]; [lia|].
  wp_step. eapply wp_load_at_own; [own_read|lia|exact Hu|]. wp_beta.
  wp_step. eapply wp_load_at_own; [own_read|lia|exact Hu|]. wp_beta. wp_step. case_if.
  - pose proof (uw_quota _ Hwf _ _ Hu). pose proof (uw_max _ Hwf _ _ Hu).
    wp_step. eapply wp_load_at_own; [own_read|lia|exact Hu|]. wp_beta.
    wp_step. apply wp_int_result; [intros _|in_range]. wp_beta. wp_step.
    apply wp_store_user; [done|done|]; wp_beta. wp_step. wp_step.
    eapply belt_unlock_same; [reflexivity| |cbn; lia|cbn; lia|].
    + apply (users_slot_inv v2 n (Z.to_nat (current_session sm)) u (set_current_processes (current_processes u + 1) u));
        [exact HB|exact Hu| |].
      * slot_collapse Hu. reflexivity.
      * eapply update_users_wf; [done|done|done|done|cbn; lia|done].
    + wp_beta. wp_step. match goal with |- wp _ _ _ ?o' _ => assert (o' = o) as -> by own_eq end. apply H.
  - wp_step. wp_step. eapply belt_unlock_same; [reflexivity|exact HB|cbn; lia|cbn; lia|]. wp_beta. wp_step.
    match goal with |- wp _ _ _ ?o' _ => assert (o' = o) as -> by own_eq end. apply H.
Qed.

Lemma wp_reportProcessFinished (c : unit -> prog A) :
  quiet o -> (forall v', wp pid (c tt) Q o v') -> wp pid (bind (reportProcessFinished sm) c) Q o v.
Proof.
  intros Hq H. destruct (Hq) as [Hb Hd He Hf]. unfold reportProcessFinished.
  destruct session_cases as [->|[Hi ->]]; [cbn [Z.eqb orb Pos.eqb]; wp_step; apply H|]. rewrite sp_shm. cbn [negb orb].
  wp_step. apply belt_lock; [done|]. intros v2 n HB Hep Hfn. wp_beta.
  pose proof (bi_users _ _ HB) as Hwf. pose proof (uw_length _ Hwf) as Hlen.
  destruct (lookup_lt_is_Some_2 (users (v_shm v2)) (Z.to_nat (current_session sm))) as [u Hu]; [lia|].
  pose proof (uw_quota _ Hwf _ _ Hu). pose proof (uw_max _ Hwf _ _ Hu).
  wp_step. eapply wp_load_at_own; [own_read|lia|exact Hu|]. wp_beta. wp_step. case_if.
  - wp_step. eapply wp_load_at_own; [own_read|lia|exact Hu|]. wp_beta.
    wp_step. apply wp_int_result; [intros _|in_range]. wp_beta.
    apply wp_store_user; [done|done|]; wp_beta.
    eapply belt_unlock_same; [reflexivity| |cbn; lia|cbn; lia|].
    + apply (users_slot_inv v2 n (Z.to_nat (current_session sm)) u (set_current_processes (current_processes u - 1) u));
        [exact HB|exact Hu| |].
      * slot_collapse Hu. reflexivity.
      * eapply update_users_wf; [done|done|done|done|cbn; lia|done].
    + wp_beta. match goal with |- wp _ _ _ ?o' _ => assert (o' = o) as -> by own_eq end. apply H.
  - wp_step. eapply belt_unlock_same; [reflexivity|exact HB|cbn; lia|cbn; lia|]. wp_beta.
    match goal with |- wp _ _ _ ?o' _ => assert (o' = o) as -> by own_eq end. apply H.
Qed.

Lemma wp_getCurrentRole (c : UserRole.t -> prog A) :
  (forall r, wp pid (c r) Q o v) -> wp pid (bind (getCurrentRole sm) c) Q o v.
Proof.
  intros H. unfold getCurrentRole.
  destruct session_cases as [->|[Hi ->]]; [cbn [Z.eqb orb Pos.eqb]; wp_step; apply H|]. rewrite sp_shm. cbn [negb orb].
  wp_step. apply wp_load_user; [done|]. intros u. wp_step. apply H.
Qed.

End SessionMethods.
