(* ===== verification/DockProof.v ===== *)
(** * The dock under interleaving

    Trucks, dispatcher and express deliveries, verified against the
    interfaces of their callbacks: they touch the dock only under the dock
    mutex, leave its invariant behind, and a truck that departs is the truck
    that docked. *)

From S2P Require Import Prelude Double Shared Ipc Belt Truck Dispatcher Express Logic Rules Invariants BeltProof.

(** A process that is in no critical section, not a counted worker, and has no
    truck at the dock. *)
Definition idle (o : own) : Prop := quiet o /\ o_reg o = false /\ o_docked o = false.

Lemma idle_resting o : idle o -> resting o.
Proof. intros [Hq _]. auto with warehouse. Qed.

#[export] Hint Resolve idle_resting : warehouse.

(** Assigning to the truck at the dock. *)
Definition upd_dock (f : TruckState -> TruckState) (v : view) : view :=
  upd_shm (fun s => set_dock_truck (f (dock_truck s)) s) v.

Abbreviation dock_of v := (dock_truck (v_shm v)).

Section DockRules.
Context {A : Type} (pid : Z) (Q : A -> own -> view -> Prop) (o : own) (v : view) (Hown : o_dock o <> None).

Lemma wp_load_dock {T} (f : TruckState -> T) (c : T -> prog A) :
  wp pid (c (f (dock_of v))) Q o v -> wp pid (bind (load_dock f) c) Q o v.
Proof. intros H. unfold load_dock. apply wp_load_own; [|done]. own_read. Qed.

Lemma wp_write_dock (f : TruckState -> TruckState) (c : unit -> prog A) :
  wp pid (c tt) Q o (upd_dock f v) -> wp pid (bind (store_dock f) c) Q o v.
Proof. intros H. unfold store_dock. by apply wp_store_dock; [done|dock_store_solve|]. Qed.

End DockRules.

Ltac dock_step :=
  lazymatch goal with
  | |- wp _ (bind (load_dock _) _) _ _ _ => apply wp_load_dock; [done|wp_beta]
  | |- wp _ (bind (store_dock _) _) _ _ _ => apply wp_write_dock; [done|wp_beta]
  | _ => wp_step
  end.

(** Execute up to the next call, branch or choice. *)
Ltac wp_go :=
  repeat lazymatch goal with
  | |- wp _ (bind (load running) _) _ _ _ => fail
  | |- wp _ (bind (RandInt _ _ _) _) _ _ _ => fail
  | |- wp _ (bind (RandReal _ _ _) _) _ _ _ => fail
  | |- wp _ (bind (SigFlag _) _) _ _ _ => fail
  | |- wp _ (bind (Getline _) _) _ _ _ => fail
  | |- wp _ (bind _ _) _ _ _ => dock_step
  end.

(** ** The dock invariant across the critical sections *)

(** A line that keeps the dock invariant keeps the log specification. *)
Lemma dock_line_log v oc m l :
  dock_inv (upd_log m v) oc -> is_dock_msg m = true -> is_belt_msg m = false ->
  dock_log l = dock_log (v_log v) -> log_inv l -> log_inv (l ++ [m]).
Proof.
  intros HD Hdm Hbm Hl [Hb _]. split; [by rewrite belt_log_app, Hbm, app_nil_r|].
  destruct (di_log _ _ HD) as (cur & Hrun & _). cbn [v_log upd_log] in Hrun.
  rewrite dock_log_app in *. rewrite Hl, Hrun. done.
Qed.

Section DockEffects.
Context (v : view) (oc : option Z) (HD : dock_inv v oc).

Lemma occupied : is_present (dock_of v) = true <-> oc <> None.
Proof. rewrite (di_present _ _ HD). apply bool_decide_eq_true. Qed.

(** A truck takes the free dock. *)
Lemma docked_inv pid mw mv :
  (d_ofZ 200 <=? mw)%double = true -> (d_ofZ 1 <=? mv)%double = true ->
  dock_inv (upd_log (Docked pid mw mv)
             (upd_dock (fun _ => mkTruckState true pid 0 100 d_zero d_zero mw mv) v)) (Some pid).
Proof.
  intros Hmw Hmv. destruct HD as [_ _ _ _ Ht (cur & Hrun & _)]. split; cbn; try done.
  - by intros p [= ->].
  - split; cbn; [exact (d_leb_zero_trans _ _ _ Hmw)|exact (d_leb_zero_trans _ _ _ Hmv)].
  - exists (Some (pid, 0)). split; [|by intros p [= ->]].
    rewrite dock_log_app. cbn. rewrite dock_run_app, Hrun. done.
Qed.

(** The truck at the dock leaves, and the departure is counted. *)
Lemma departed_inv pid m :
  oc = Some pid -> trucks_completed (v_shm v) < INT_MAX ->
  (exists w, m = ShutdownWithCargo pid w) \/ (exists w x, m = Departing pid w x (trucks_completed (v_shm v) + 1)) ->
  dock_inv (upd_log m (upd_dock (set_is_present false)
             (upd_shm (set_trucks_completed (trucks_completed (v_shm v) + 1)) v))) None.
Proof.
  intros -> Hmax Hm. destruct HD as [_ _ Hlim Hload Ht (cur & Hrun & Hcur)]. specialize (Hcur pid eq_refl) as ->.
  split; cbn; try done; try lia.
  exists None. split; [|done]. rewrite dock_log_app.
  destruct Hm as [(w & ->)|(w & x & ->)]; cbn; rewrite dock_run_app, Hrun; cbn; by rewrite ?Z.eqb_refl.
Qed.

(** The truck at the dock leaves empty. *)
Lemma left_inv : dock_inv (upd_dock (set_is_present false) v) None.
Proof.
  destruct HD as [_ _ Hlim Hload Ht (cur & Hrun & _)]. split; cbn; try done. by exists cur.
Qed.

(** The dispatcher loads a package that fits. *)
Lemma loaded_inv pkg p w x :
  oc = Some p -> current_load (dock_of v) < INT_MAX ->
  (w <=? max_weight (dock_of v))%double = true -> (x <=? max_volume (dock_of v))%double = true ->
  dock_inv (upd_log (PkgLoaded (id pkg) (weight pkg) (volume pkg) (truck_id (dock_of v)))
    (upd_dock (fun t => set_current_load (current_load (dock_of v) + 1)
                          (set_current_volume x (set_current_weight w t))) v)) oc.
Proof.
  intros -> Hmax Hw Hx. destruct HD as [Hpr Hid _ Hload Ht (cur & Hrun & Hcur)].
  pose proof (Hcur p eq_refl) as ->. specialize (Hid p eq_refl).
  split; cbn; try done; try lia.
  { by intros p' [= <-]. }
  exists (Some (p, current_load (dock_of v) + 1)). split; [|by intros p' [= ->]].
  rewrite dock_log_app. cbn. rewrite dock_run_app, Hrun. cbn. by rewrite Hid, Z.eqb_refl.
Qed.

(** An express item that fits is added. *)
Lemma express_inv w x :
  (w <=? max_weight (dock_of v))%double = true -> (x <=? max_volume (dock_of v))%double = true ->
  dock_inv (upd_dock (fun t => set_current_volume x (set_current_weight w t)) v) oc.
Proof. intros Hw Hx. destruct HD as [Hpr Hid _ Hload Ht Hl]. by split. Qed.

(** A line of another kind. *)
Lemma dock_other_line m : is_dock_msg m = false -> dock_inv (upd_log m v) oc.
Proof.
  intros Hm. destruct HD as [H1 H2 H3 H4 H5 H6]. split; cbn; try done.
  by rewrite dock_log_app, Hm, app_nil_r.
Qed.

End DockEffects.

(** ** The truck *)

Class TruckPorts (pid : Z) (t : Truck) : Prop := {
  tp_shm : t_shm t = true;
  tp_pid : my_pid t = pid;
  tp_lock :: DockLock (t_lock_dock_fn t) (t_unlock_dock_fn t);
  tp_receive :: SignalReceiver (wait_for_signal_fn t) }.

Section TruckMethods.
Context {A : Type} (pid : Z) (t : Truck) `{!TruckPorts pid t} (Q : A -> own -> view -> Prop).

Lemma quiet_dock o oc : quiet o -> quiet (leave_dock pid oc (set_o_dock (Some oc) o)).
Proof. by intros []. Qed.

(** Counting a departure, under the dock mutex. *)
Lemma wp_count_departure o v oc (c : unit -> prog A) :
  o_dock o <> None -> dock_inv v oc ->
  (trucks_completed (v_shm v) < INT_MAX ->
     wp pid (c tt) Q o (upd_shm (set_trucks_completed (trucks_completed (v_shm v) + 1)) v)) ->
  wp pid (bind count_departure c) Q o v.
Proof.
  intros Hown HD H. pose proof (di_trucks _ _ HD). unfold count_departure.
  wp_step. wp_step. wp_step. apply wp_int_result; [intros Hint; wp_beta|overflow].
  wp_step. apply H. unfold in_int in Hint. lia.
Qed.

Lemma wp_truck_shutdown o v (c : unit -> prog A) :
  quiet o -> o_docked o = true -> o_reg o = false ->
  (forall o' v', idle o' -> o_stop o' = o_stop o -> wp pid (c tt) Q o' v') ->
  wp pid (bind (truck_shutdown t) c) Q o v.
Proof.
  intros Hq Hdk Hreg H. destruct (Hq) as [Hb Hd He Hf]. unfold truck_shutdown.
  wp_step. apply dock_lock; [done|]. intros v2 oc HD Hoc. apply Hoc in Hdk as ->. wp_beta.
  pose proof (di_truck _ _ HD pid eq_refl) as Hid.
  wp_go. rewrite Hid, tp_pid, Z.eqb_refl. wp_go. case_if.
  - wp_go. apply (wp_count_departure _ _ (Some pid)); [done|done|]. intros Hmax. wp_beta. wp_go.
    pose proof (departed_inv v2 _ HD pid (ShutdownWithCargo pid (current_weight (dock_of v2))) eq_refl Hmax
                  ltac:(eauto)) as HD'.
    eapply wp_log_dock; [done|done|done|reflexivity| |].
    { intros l' Hl' HL. eapply (dock_line_log _ _ _ _ HD'); [done|done|exact Hl'|exact HL]. }
    wp_beta. wp_go. eapply dock_unlock; [reflexivity|exact HD'|by right; right|]. wp_beta.
    wp_go. apply H; done.
  - wp_go. rewrite Hid, Z.eqb_refl. wp_go.
    eapply dock_unlock; [reflexivity|apply (left_inv _ _ HD)|by right; right|]. wp_beta.
    wp_go. apply H; done.
Qed.

Lemma wp_truck_depart o v (c : unit -> prog A) :
  quiet o -> o_docked o = true -> o_reg o = false ->
  (forall o' v', idle o' -> wp pid (c tt) Q o' v') ->
  wp pid (bind (truck_depart t) c) Q o v.
Proof.
  intros Hq Hdk Hreg H. destruct (Hq) as [Hb Hd He Hf]. unfold truck_depart.
  wp_step. apply dock_lock; [done|]. intros v2 oc HD Hoc. apply Hoc in Hdk as ->. wp_beta.
  pose proof (di_truck _ _ HD pid eq_refl) as Hid.
  wp_go. rewrite Hid, tp_pid, Z.eqb_refl. wp_go.
  apply (wp_count_departure _ _ (Some pid)); [done|done|]. intros Hmax. wp_beta. wp_go.
  pose proof (departed_inv v2 _ HD pid (Departing pid (current_weight (dock_of v2)) (current_volume (dock_of v2))
                (trucks_completed (v_shm v2) + 1)) eq_refl Hmax ltac:(eauto)) as HD'.
  eapply wp_log_dock; [done|done|done|reflexivity| |].
  { intros l' Hl' HL. eapply (dock_line_log _ _ _ _ HD'); [done|done|exact Hl'|exact HL]. }
  wp_beta. wp_go. eapply dock_unlock; [reflexivity|exact HD'|by right; right|]. wp_beta.
  wp_go. apply wp_randint; [unfold RAND_MAX; lia|]. intros z _. wp_beta. wp_go. by apply H.
Qed.

(** Taking the free dock with fresh limits. *)
Lemma wp_randomizeTruckSpecs o v (c : unit -> prog A) :
  o_dock o <> None ->
  (forall mw mv, (d_ofZ 200 <=? mw)%double = true -> (d_ofZ 1 <=? mv)%double = true ->
     wp pid (c tt) Q o (upd_dock (fun _ => mkTruckState true pid 0 100 d_zero d_zero mw mv) v)) ->
  wp pid (bind (randomizeTruckSpecs t) c) Q o v.
Proof.
  intros Hown H. unfold randomizeTruckSpecs. rewrite tp_pid. wp_go.
  apply wp_randreal; [reflexivity|]. intros mw Hmw _. wp_beta. wp_go.
  apply wp_randreal; [reflexivity|]. intros mv Hmv _. wp_beta. wp_go. by apply (H mw mv).
Qed.

End TruckMethods.

Lemma wp_truck_round pid t `{!TruckPorts pid t} (Q : unit + unit -> own -> view -> Prop) o v :
  idle o ->
  (forall r o' v', idle o' -> Q r o' v') ->
  wp pid (truck_round t) Q o v.
Proof.
  intros (Hq & Hreg & Hdk) H. destruct (Hq) as [Hb Hd He Hf]. unfold truck_round.
  apply wp_load_running; [intros _|]; cbn [negb]; [|apply wp_ret; intros; by apply H].
  apply dock_lock; [done|]. intros v2 oc HD Hoc. wp_beta. wp_go.
  destruct (is_present (dock_of v2)) eqn:Hp.
  { eapply dock_unlock; [reflexivity|exact HD|by left|]. wp_beta. wp_go. apply wp_ret. intros. apply H. split; [done|].
    split; [done|]. cbn. apply bool_decide_eq_false. rewrite <- Hoc. by rewrite Hdk. }
  assert (oc = None) as ->.
  { destruct oc; [|done]. rewrite (proj2 (occupied _ _ HD)) in Hp; done. }
  apply (wp_randomizeTruckSpecs pid t); [done|]. intros mw mv Hmw Hmv. wp_beta. wp_go.
  pose proof (docked_inv v2 _ HD pid mw mv Hmw Hmv) as HD'. rewrite tp_pid.
  eapply wp_log_dock; [done|done|done|reflexivity| |].
  { intros l' Hl' HL. eapply (dock_line_log _ _ _ _ HD'); [done|done|exact Hl'|exact HL]. }
  wp_beta. wp_go. eapply dock_unlock; [reflexivity|exact HD'|by right; left|]. wp_beta.
  assert (bool_decide (Some pid = Some pid) = true) as Hmine by (by apply bool_decide_eq_true).
  apply signal_receive; [done|done|]. intros sig. wp_beta.
  assert (forall o', o' = leave_dock pid (Some pid) (set_o_dock (Some None) o) \/
                     o' = set_o_stop true (leave_dock pid (Some pid) (set_o_dock (Some None) o)) ->
          forall (stop : bool) v', wp pid (if stop then truck_shutdown t ;; Ret (inr tt) else truck_depart t ;; Ret (inl tt)) Q o' v') as Hrest.
  { intros o' Ho' stop v'. destruct stop.
    - apply wp_truck_shutdown; [by destruct Ho' as [-> | ->]..|]. intros o'' v'' Hid _. apply wp_ret. auto.
    - apply wp_truck_depart; [by destruct Ho' as [-> | ->]..|]. intros o'' v'' Hid. apply wp_ret. auto. }
  destruct sig; wp_go; try (apply wp_load_running; [intros _|]; wp_go);
    first [apply (Hrest _ ltac:(by left) true)|apply (Hrest _ ltac:(by left) false)|apply (Hrest _ ltac:(by right) true)].
Qed.

Lemma wp_truck_run {A} pid t `{!TruckPorts pid t} (Q : A -> own -> view -> Prop) o v (c : unit -> prog A) :
  idle o -> (forall o' v', idle o' -> wp pid (c tt) Q o' v') -> wp pid (bind (truck_run t) c) Q o v.
Proof.
  intros Hidle H. unfold truck_run. rewrite tp_shm. wp_go.
  apply (wp_loop pid _ _ _ (fun _ o' => idle o')); [done|auto with warehouse|]. intros [] o1 v1 Hi1.
  apply wp_truck_round; [done|done|]. intros [[]|[]] o2 v2 Hi2; [done|].
  destruct (Hi2) as (Hq & Hreg & Hdk). destruct (Hq) as [Hb Hd He Hf].
  wp_beta. wp_go. apply dock_lock; [done|]. intros v3 oc HD Hoc. wp_beta.
  assert (is_present (dock_of v3) = true -> truck_id (dock_of v3) <> my_pid t) as Hother.
  { intros Hp Hid. destruct oc as [p|]; [|by apply (occupied _ _ HD) in Hp].
    rewrite (di_truck _ _ HD p eq_refl), tp_pid in Hid. subst p. by rewrite (proj2 Hoc eq_refl) in Hdk. }
  wp_go. case_if; [wp_go; case_if; [by destruct (Hother eq_refl)|]|]; wp_go;
    (eapply dock_unlock; [reflexivity|exact HD|by left|]; wp_beta; wp_go; apply H;
     split; [done|split; [done|]]; cbn; apply bool_decide_eq_false; rewrite <- Hoc; by rewrite Hdk).
Qed.

(** ** The dispatcher *)

Class DispatcherPorts (d : Dispatcher) : Prop := {
  dp_shm : d_shm d = true;
  dp_belt :: BeltPorts (d_belt d);
  dp_lock :: DockLock (d_lock_dock_fn d) (d_unlock_dock_fn d);
  dp_send :: SignalSender (d_send_signal_fn d) }.

Lemma wp_limit_reached {A} pid (Q : A -> own -> view -> Prop) o v (c : bool -> prog A) :
  o_dock o <> None -> (forall b, wp pid (c b) Q o v) -> wp pid (bind limit_reached c) Q o v.
Proof.
  intros Hown H. unfold limit_reached. wp_go. case_if; [wp_go; apply H|]. wp_go. case_if; wp_go; apply H.
Qed.

(** Loading settles the package; a package that does not fit stays in hand. *)
Lemma wp_try_load {A} pid d `{!DispatcherPorts d} (Q : A -> own -> view -> Prop) o v oc pkg (c : bool -> prog A) :
  o_dock o = Some oc -> may_send o -> oc <> None -> dock_inv v oc -> o_pend o = [id pkg] ->
  (forall v', dock_inv v' oc -> wp pid (c true) Q (set_o_pend [] o) v') ->
  (forall v', dock_inv v' oc -> wp pid (c false) Q o v') ->
  wp pid (bind (try_load d pkg) c) Q o v.
Proof.
  intros Hown Hb Hoc HD Hpend Ht Hf. assert (o_dock o <> None) as Hne by (by rewrite Hown).
  destruct oc as [p|]; [|done]. pose proof (di_load _ _ HD) as Hload.
  unfold try_load. wp_go. case_if.
  - wp_go. apply wp_int_result; [intros Hint; wp_beta|overflow].
    assert (current_load (dock_of v) < INT_MAX) as Hmax by (unfold in_int in Hint; cbn in Hint; lia).
    match goal with H : (_ <=? max_weight _)%double = true |- _ => rename H into Hw end.
    match goal with H : (_ <=? max_volume _)%double = true |- _ => rename H into Hv end.
    pose proof (loaded_inv v _ HD pkg p _ _ eq_refl Hmax Hw Hv) as HD'. wp_go.
    eapply wp_log_dock; [done|done|done|by split| |].
    { intros l' Hl' HL. eapply (dock_line_log _ _ _ _ HD'); [done|done|exact Hl'|exact HL]. }
    wp_beta. wp_go. apply wp_limit_reached; [done|]. intros [|]; wp_go; [|by apply Ht].
    apply signal_send; [done|]. wp_beta. wp_go. by apply Ht.
  - wp_go. apply signal_send; [done|]. wp_beta. wp_go. by apply Hf.
Qed.

(** The hand of a dispatcher between two packages: empty, unless the system stopped. *)
Definition free_hand (o : own) : Prop :=
  idle o /\ o_carrier o = true /\ (o_pend o = [] \/ o_stop o = true).

Definition carrying (pkg : Package) (o : own) : Prop :=
  idle o /\ o_carrier o = true /\ o_pend o = [id pkg].

Lemma wp_load_round pid d `{!DispatcherPorts d} (Q : unit + unit -> own -> view -> Prop) o v pkg :
  carrying pkg o ->
  (forall o' v', carrying pkg o' -> Q (inl tt) o' v') ->
  (forall o' v', free_hand o' -> Q (inr tt) o' v') ->
  wp pid (load_round d pkg) Q o v.
Proof.
  intros ((Hq & Hreg & Hdk) & Hcar & Hpend) Hagain Hdone. destruct (Hq) as [Hb Hd He Hf]. unfold load_round.
  apply wp_load_running; [intros _|]; cbn [negb]; [|apply wp_ret; intros; apply Hdone; by repeat split; auto].
  apply dock_lock; [done|]. intros v2 oc HD Hoc. wp_beta. wp_go.
  assert (bool_decide (oc = Some pid) = false) as Hnot.
  { apply bool_decide_eq_false. rewrite <- Hoc. by rewrite Hdk. }
  case_if.
  - apply (wp_try_load _ _ _ _ _ oc); [done|done|by apply (occupied _ _ HD)|done|done| |]; intros v3 HD3; wp_beta;
      (eapply dock_unlock; [reflexivity|exact HD3|by left|]); wp_beta; wp_go; apply wp_ret; intros.
    + apply Hdone. repeat split; auto.
    + apply Hagain. repeat split; auto.
  - wp_go. eapply dock_unlock; [reflexivity|exact HD|by left|]. wp_beta. wp_go. apply wp_ret; intros.
    apply Hagain. repeat split; auto.
Qed.

Lemma wp_processNextPackage {A} pid d `{!DispatcherPorts d} (Q : A -> own -> view -> Prop) o v (c : unit -> prog A) :
  idle o -> o_carrier o = true -> o_pend o = [] ->
  (forall o' v', free_hand o' -> wp pid (c tt) Q o' v') -> wp pid (bind (processNextPackage d) c) Q o v.
Proof.
  intros (Hq & Hreg & Hdk) Hcar Hpend H. unfold processNextPackage. wp_go.
  apply (wp_pop (d_belt d)); [done|done|done|]. intros pkg v1 Hid. wp_beta. rewrite dp_shm. cbn [negb].
  rewrite (proj2 (Z.eqb_neq _ _) Hid).
  apply (wp_loop pid _ _ _ (fun _ o' => carrying pkg o')); [by destruct Hq|intros _ o' [Hi _]; auto with warehouse|].
  intros [] o1 v2 Hc. apply wp_load_round; [done|done|done|done].
Qed.

Lemma wp_dispatcher_run {A} pid d `{!DispatcherPorts d} (Q : A -> own -> view -> Prop) o v (c : unit -> prog A) :
  free_hand o -> (forall o' v', free_hand o' -> wp pid (c tt) Q o' v') -> wp pid (bind (dispatcher_run d) c) Q o v.
Proof.
  intros Hfree H. unfold dispatcher_run. wp_go.
  apply (wp_loop pid _ _ _ (fun _ o' => free_hand o')); [done|intros _ o' [Hi _]; auto with warehouse|].
  intros [] o1 v1 ((Hq & Hreg & Hdk) & Hcar & Hpend). rewrite dp_shm. cbn [negb].
  apply wp_load_running; [intros Hrun|]; cbn [negb].
  - destruct Hpend as [Hpend|Hs]; [|congruence].
    apply wp_processNextPackage; [done|done|done|done|]. intros o2 v2 Hf2. by apply wp_ret.
  - apply wp_ret. intros. wp_go. apply H. repeat split; auto; by destruct Hq.
Qed.

(** ** Express deliveries *)

Class ExpressPorts (e : Express) : Prop := {
  ep_shm : e_shm e = true;
  ep_lock :: DockLock (e_lock_dock_fn e) (e_unlock_dock_fn e);
  ep_send :: SignalSender (e_send_signal_fn e) }.

Lemma wp_express_items {A} pid e `{!ExpressPorts e} (Q : A -> own -> view -> Prop) o oc n i batch (c : unit -> prog A) v :
  o_dock o = Some oc -> may_send o -> dock_inv v oc ->
  (forall v', dock_inv v' oc -> wp pid (c tt) Q o v') ->
  wp pid (bind (express_items e n i batch) c) Q o v.
Proof.
  intros Hown Hb HD H. assert (o_dock o <> None) as Hne by (by rewrite Hown).
  revert i v HD. induction n as [|n IH]; intros i v HD; cbn [express_items]; wp_go; [by apply H|].
  apply wp_randreal; [reflexivity|]. intros wgt _ _. wp_beta. wp_go.
  apply wp_randint; [lia|]. intros t _. wp_beta. wp_go. case_if.
  - match goal with H : (_ <=? max_weight _)%double = true |- _ => rename H into Hw end.
    match goal with H : (_ <=? max_volume _)%double = true |- _ => rename H into Hv end.
    pose proof (express_inv v _ HD _ _ Hw Hv) as HD'. wp_go. apply IH. exact HD'.
  - wp_go. apply signal_send; [done|]. wp_beta. by apply H.
Qed.

Lemma wp_deliverExpressBatch {A} pid e `{!ExpressPorts e} (Q : A -> own -> view -> Prop) o v (c : unit -> prog A) :
  idle o -> (forall v', wp pid (c tt) Q o v') -> wp pid (bind (deliverExpressBatch e) c) Q o v.
Proof.
  intros (Hq & Hreg & Hdk) H. destruct (Hq) as [Hb Hd He Hf]. unfold deliverExpressBatch. rewrite ep_shm. cbn [negb].
  wp_go. apply dock_lock; [done|]. intros v2 oc HD Hoc. wp_beta. wp_go.
  assert (forall o', o' = leave_dock pid oc (set_o_dock (Some oc) o) -> o' = o) as Heq.
  { intros o' ->. apply own_ext; cbn; try done. rewrite Hdk. apply bool_decide_eq_false. rewrite <- Hoc. by rewrite Hdk. }
  case_if; wp_go.
  - eapply dock_unlock; [reflexivity|exact HD|by left|]. wp_beta. rewrite (Heq _ eq_refl). apply H.
  - apply wp_randint; [lia|]. intros z _. wp_beta. wp_go.
    apply (wp_express_items _ _ _ _ oc); [done|done|done|]. intros v3 HD3. wp_beta.
    eapply dock_unlock; [reflexivity|exact HD3|by left|]. wp_beta. rewrite (Heq _ eq_refl). apply H.
Qed.
