(* ===== verification/ProcessProof.v ===== *)
(** * Every process keeps to the discipline

    The manager's wrappers implement the interfaces the components were
    verified against; with them every [main] runs within the logic, so the
    system as it is booted satisfies the global invariant. *)

From S2P Require Import Prelude Double Shared Ipc Belt SessionManager Truck Dispatcher Express Manager Worker.
From S2P Require Import Terminal Args Master Processes Logic Rules Invariants BeltProof DockProof.

(** ** The manager implements the interfaces *)

#[global] Instance manager_belt_lock : BeltLock lockBelt unlockBelt.
Proof.
  split.
  - intros A pid c Q o v Hu H v' Ha Hk. left. split; [done|]. split; [done|]. intros v2 n _ HB He Hf. by apply H.
  - intros A pid c Q o v n n' Hb HB He Hf Hfl H v' Ha Hk. right. split; [done|]. exists n, n'.
    assert (agree (leave_belt n n' o) v v') as Ha' by (split; [done|apply Ha]).
    split; [done|]. split; [eapply BInv_ext; [apply Ha; by rewrite Hb|done]|]. do 3 (split; [done|]). by eapply wp_stable.
Qed.

#[global] Instance manager_dock_lock : DockLock lockDock unlockDock.
Proof.
  split.
  - intros A pid c Q o v Hu H v' Ha Hk. left. split; [done|]. split; [done|]. intros v2 oc _ HD Hoc. by apply H.
  - intros A pid c Q o v oc oc' Hd HD Hmv H v' Ha Hk. right. split; [done|]. exists oc, oc'.
    assert (agree (leave_dock pid oc' o) v v') as Ha' by (split; [apply Ha|done]).
    split; [done|]. split; [eapply DInv_ext; [apply Ha; by rewrite Hd|done]|]. split; [done|].
    by eapply wp_stable.
Qed.

#[global] Instance manager_empty_permits : EmptyPermits waitForEmptySlot signalSlotFreed.
Proof.
  split.
  - intros A pid c Q o v Hu H v' Ha Hk. left. split; [done|]. split; [done|]. by eapply wp_stable.
  - intros A pid c Q o v Hu H v' Ha Hk. right. split; [done|]. split; [done|]. by eapply wp_stable.
Qed.

#[global] Instance manager_full_permits : FullPermits waitForPackage signalPackageAdded.
Proof.
  split.
  - intros A pid c Q o v Hu H v' Ha Hk. left. split; [done|]. split; [done|]. by eapply wp_stable.
  - intros A pid c Q o v Hu H v' Ha Hk. right. split; [done|]. split; [done|]. by eapply wp_stable.
Qed.

#[global] Instance manager_sender : SignalSender sendSignal.
Proof.
  intros A pid target ty c Q o v Hb H v' Ha Hk. split; [done|].
  split; [unfold valid_msg; cbn; by rewrite signal_roundtrip|].
  assert (wp pid (c tt) Q o v') as H' by (by eapply wp_stable).
  intros [e|]; apply wp_log_free; try done.
Qed.

Lemma received_wp {A} pid (c : SignalType -> prog A) Q o v r :
  match r with inr m => valid_msg m | inl _ => True end -> (forall s, wp pid (c s) Q o v) ->
  wp pid (bind (received r) c) Q o v.
Proof.
  intros Hr H. destruct r as [e|m]; cbn; [apply H|]. unfold valid_msg in Hr.
  destruct (signal_of_int (command_id m)); [apply H|done].
Qed.

#[global] Instance manager_receiver : SignalReceiver receiveSignalBlocking.
Proof.
  intros A pid me c Q o v Hu Hme H v' Ha Hk. do 2 (split; [done|]). intros r Hr.
  apply received_wp; [done|]. intros s. eapply wp_stable; [apply H|done].
Qed.

#[global] Instance manager_belt_ports : BeltPorts manager_belt.
Proof. split; [done|apply _..]. Qed.

#[global] Instance manager_session_ports i :
  0 <= i < MAX_USERS_SESSIONS -> SessionPorts (set_current_session i manager_sessions).
Proof. intros Hi. split; [done|cbn; lia|apply manager_belt_lock]. Qed.

#[global] Instance manager_new_session_ports : SessionPorts manager_sessions.
Proof. split; [done|cbn; unfold MAX_USERS_SESSIONS; lia|apply manager_belt_lock]. Qed.

#[global] Instance manager_truck_ports pid : TruckPorts pid (manager_truck pid).
Proof. split; [done|done|apply manager_dock_lock|apply manager_receiver]. Qed.

#[global] Instance manager_dispatcher_ports : DispatcherPorts manager_dispatcher.
Proof. split; [done|apply manager_belt_ports|apply manager_dock_lock|apply manager_sender]. Qed.

#[global] Instance manager_express_ports : ExpressPorts manager_express.
Proof. split; [done|apply manager_dock_lock|apply manager_sender]. Qed.

(** ** The worker *)

Definition on_shift (o : own) : Prop :=
  quiet o /\ o_reg o = true /\ o_docked o = false /\ o_carrier o = false.

Section WorkerProof.
Context (pid : Z) (m : Manager) (Hbelt : BeltPorts (m_belt m)) (Hsess : SessionPorts (session_store m)).

Lemma wp_make_package {A} (Q : A -> own -> view -> Prop) o v junk (c : Package -> prog A) :
  (forall p, wp pid (c p) Q o v) -> wp pid (bind (make_package junk) c) Q o v.
Proof.
  intros H. unfold make_package. wp_go. apply wp_randint; [lia|]. intros r _. wp_beta. wp_go. unfold worker_weight.
  case_if; [|case_if]; (apply wp_randreal; [reflexivity|]); intros; wp_beta; wp_go; apply H.
Qed.

Lemma wp_worker_round (Q : nat + unit -> own -> view -> Prop) junk n o v :
  on_shift o -> (forall r o' v', on_shift o' -> Q r o' v') -> wp pid (worker_round m junk n) Q o v.
Proof.
  intros (Hq & Hreg & Hdk & Hcar) H. destruct (Hq) as [Hb Hd He Hf]. unfold worker_round.
  apply wp_sigflag. intros stopped. wp_beta. case_if; [apply wp_ret; intros; by apply H|].
  apply wp_load_running; [intros _|]; cbn [negb]; [|apply wp_ret; intros; by apply H].
  apply (wp_trySpawnProcess (session_store m)); [done|]. intros r v1. wp_beta. case_if.
  - apply wp_make_package. intros p. wp_beta. apply (wp_push (m_belt m)); [done|done|done|]. intros p' v2. wp_beta.
    apply (wp_reportProcessFinished (session_store m)); [done|]. intros v3. wp_beta. apply wp_ret. intros. by apply H.
  - wp_go. apply wp_ret. intros. by apply H.
Qed.

Lemma wp_worker_run {A} (Q : A -> own -> view -> Prop) wid junk o v (c : unit -> prog A) :
  idle o -> o_carrier o = false ->
  (forall o' v', idle o' -> wp pid (c tt) Q o' v') -> wp pid (bind (worker_run m wid junk) c) Q o v.
Proof.
  intros (Hq & Hreg & Hdk) Hcar H. destruct (Hq) as [Hb Hd He Hf]. unfold worker_run. wp_go.
  apply (wp_registerWorker (m_belt m)); [done|done|]. intros r v1. wp_beta. case_if; wp_go; [by apply H|].
  subst r. apply (wp_loop pid _ _ _ (fun _ o' => on_shift o')); [done|intros _ o' (Hq' & _); auto with warehouse|]. intros n o1 v2 Hs.
  apply wp_worker_round; [done|]. intros [n'|[]] o2 v3 Hs2; [done|].
  destruct (Hs2) as (Hq2 & Hreg2 & Hdk2 & _). wp_beta. wp_go.
  apply (wp_unregisterWorker (m_belt m)); [done|done|]. intros v4. wp_beta. wp_go. apply H. by destruct Hq2.
Qed.

End WorkerProof.

(** ** The console *)

Section TerminalProof.
Context {A : Type} (pid : Z) (sm : SessionManager) (Hsess : SessionPorts sm).
Context (Q : A -> own -> view -> Prop) (o : own) (Hb : may_send o).

Lemma wp_findProcessByRole n i name v (c : Z -> prog A) :
  0 <= i -> i + Z.of_nat n <= MAX_USERS_SESSIONS -> (forall z, wp pid (c z) Q o v) ->
  wp pid (bind (findProcessByRole n i name) c) Q o v.
Proof.
  revert i; induction n as [|n IH]; intros i Hi Hn H; cbn [findProcessByRole]; wp_go; [apply H|].
  apply wp_load_user; [lia|]. intros u. wp_beta. case_if; [|apply IH; [lia|lia|done]].
  wp_go. apply wp_load_user; [lia|]. intros u2. wp_beta. case_if; [|apply IH; [lia|lia|done]].
  wp_go. apply wp_load_user; [lia|]. intros u3. wp_beta. wp_go. apply H.
Qed.

Lemma wp_handleVip r v (c : unit -> prog A) :
  (forall v', wp pid (c tt) Q o v') -> wp pid (bind (handleVip r) c) Q o v.
Proof.
  intros H. unfold handleVip, printAccessDenied. case_if; wp_go; [apply H|].
  apply wp_findProcessByRole; [lia|unfold MAX_USERS_SESSIONS; lia|]. intros z. wp_beta. case_if; wp_go; [|apply H].
  apply signal_send; [done|]. wp_beta. wp_go. apply H.
Qed.

Lemma wp_handleDepart r v (c : unit -> prog A) :
  (forall v', wp pid (c tt) Q o v') -> wp pid (bind (handleDepart r) c) Q o v.
Proof.
  intros H. unfold handleDepart, printAccessDenied. case_if; wp_go; [apply H|].
  apply wp_load_any. intros v1 _ _. wp_beta. case_if; wp_go; [|apply H].
  apply wp_load_any. intros v2 _ _. wp_beta. wp_go. apply signal_send; [done|]. wp_beta. wp_go. apply H.
Qed.

Lemma wp_stop_all n i v (c : unit -> prog A) :
  0 <= i -> i + Z.of_nat n <= MAX_USERS_SESSIONS -> wp pid (c tt) Q o v ->
  wp pid (bind (stop_all n i) c) Q o v.
Proof.
  revert i; induction n as [|n IH]; intros i Hi Hn H; cbn [stop_all]; wp_go; [done|].
  apply wp_load_user; [lia|]. intros u. wp_beta. wp_go. case_if; wp_go; [|apply IH; [lia|lia|done]].
  apply wp_load_user; [lia|]. intros u2. wp_beta. apply signal_send; [done|]. wp_beta. apply IH; [lia|lia|done].
Qed.

Lemma wp_handleStop r act v (c : bool -> prog A) :
  (forall a v', wp pid (c a) Q o v') -> wp pid (bind (handleStop r act) c) Q o v.
Proof.
  intros H. unfold handleStop, printAccessDenied. case_if; wp_go; [|apply H].
  apply wp_store_running. wp_beta. wp_go.
  apply wp_stop_all; [lia|unfold MAX_USERS_SESSIONS; lia|]. wp_beta. wp_go. apply H.
Qed.

Lemma wp_printPrompt v (c : unit -> prog A) : wp pid (c tt) Q o v -> wp pid (bind (printPrompt sm) c) Q o v.
Proof.
  intros H. unfold printPrompt, getCurrentSession. destruct ((0 <=? getSessionIndex sm) && (getSessionIndex sm <? MAX_USERS_SESSIONS))%bool eqn:E;
    wp_go; [|done]. zbool. apply wp_load_user; [done|]. intros u. wp_beta. by wp_go.
Qed.

Lemma wp_printHeader v (c : unit -> prog A) : wp pid (c tt) Q o v -> wp pid (bind (printHeader sm) c) Q o v.
Proof.
  intros H. unfold printHeader, getCurrentSession. destruct ((0 <=? getSessionIndex sm) && (getSessionIndex sm <? MAX_USERS_SESSIONS))%bool eqn:E;
    wp_go; [|done]. zbool. do 3 (apply wp_load_user; [done|]; intros ?; wp_beta; wp_go). done.
Qed.

Lemma wp_run_command cmd r act v (c : bool -> prog A) :
  (forall a v', wp pid (c a) Q o v') -> wp pid (bind (run_command sm cmd r act) c) Q o v.
Proof.
  intros H. destruct cmd; cbn [run_command]; wp_go; try apply H.
  - apply wp_handleVip. intros v'. wp_beta. wp_go. apply H.
  - apply wp_handleDepart. intros v'. wp_beta. wp_go. apply H.
  - by apply wp_handleStop.
  - apply wp_printHeader. wp_beta. wp_go. apply H.
Qed.

Lemma wp_keep_running_load tm v (c : bool -> prog A) :
  (forall b, wp pid (c b) Q o v) -> wp pid (bind (keep_running_load tm) c) Q o v.
Proof. intros H. unfold keep_running_load. wp_go. apply wp_sigflag. intros b. wp_beta. wp_go. apply H. Qed.

Lemma wp_runOnce tm v (c : TerminalManager -> prog A) :
  (forall tm' v', wp pid (c tm') Q o v') -> wp pid (bind (runOnce sm tm) c) Q o v.
Proof.
  intros H. unfold runOnce. wp_go.
  destruct (negb (header_printed tm)); wp_go;
    [apply wp_printHeader; wp_beta; wp_go; apply wp_printPrompt; wp_beta; wp_go|];
    (match goal with b : bool |- _ => destruct b; wp_go end; (case_if; wp_go; [apply H|]));
    (apply wp_getline; intros [l|]; wp_beta; wp_go; [|apply H]); (case_if; wp_go; [apply H|]);
    (case_if; wp_go; [apply wp_printPrompt; wp_beta; wp_go; apply H|]);
    (apply wp_getCurrentRole; [done|]; intros r; wp_beta; wp_go);
    (apply wp_run_command; intros act v'; wp_beta; wp_go); (case_if; wp_go; [apply H|]);
    (apply wp_keep_running_load; intros kr; wp_beta; wp_go); (case_if; wp_go; [apply wp_printPrompt; wp_beta; wp_go|]);
    apply H.
Qed.

End TerminalProof.

(** ** The entry points *)

(** A session around a body that leaves nothing behind. *)
Lemma wp_with_session {A} pid name r org max_procs (body : SessionManager -> prog unit)
    (Q : A -> own -> view -> Prop) o v (c : Z -> prog A) :
  idle o -> max_procs <= INT_MAX ->
  (forall i v' (k : unit -> prog A), 0 <= i < MAX_USERS_SESSIONS ->
     (forall o' v'', idle o' -> wp pid (k tt) Q o' v'') ->
     wp pid (bind (body (set_current_session i manager_sessions)) k) Q o v') ->
  (forall z o' v', idle o' -> wp pid (c z) Q o' v') ->
  wp pid (bind (with_session name r org max_procs body) c) Q o v.
Proof.
  intros Hidle Hmax Hbody H. unfold with_session. wp_go.
  apply (wp_login manager_sessions); [apply Hidle|done| |].
  - intros v'. wp_beta. cbn [fst negb]. wp_go. by apply H.
  - intros i v' Hi. wp_beta. cbn [fst snd negb]. wp_go. apply Hbody; [done|]. intros o' v'' Hi'. wp_beta. wp_go.
    pose proof (manager_session_ports i Hi).
    apply (wp_logout (set_current_session i manager_sessions)); [apply Hi'|]. intros sm' v3. wp_beta. wp_go. by apply H.
Qed.

Lemma wp_clean_end {A} pid what st (Q : A -> own -> view -> Prop) o v (c : Z -> prog A) :
  wp pid (c st) Q o v -> wp pid (bind (clean_end what st) c) Q o v.
Proof. intros H. unfold clean_end. by case_if; wp_go. Qed.

Lemma wp_express_round pid (Q : unit + unit -> own -> view -> Prop) o v :
  idle o -> (forall r o' v', idle o' -> Q r o' v') -> wp pid (express_round pid) Q o v.
Proof.
  intros Hidle H. destruct (Hidle) as (Hq & Hreg & Hdk). destruct (Hq) as [Hb Hd He Hf]. unfold express_round.
  apply wp_sigflag. intros stop. wp_beta. case_if; [apply wp_ret; auto|].
  apply wp_load_running; [intros _|]; cbn [negb]; [|apply wp_ret; intros; by apply H].
  wp_go. apply signal_receive; [done|done|]. intros sig. wp_beta.
  destruct sig; wp_go; try (apply wp_ret; by auto).
  apply wp_deliverExpressBatch; [apply _|done|]. intros v'. wp_beta. wp_go. apply wp_ret. auto.
Qed.

Lemma idle_stop o b : idle o -> idle (set_o_stop b o).
Proof. by intros [[] ?]. Qed.

Lemma wp_belt_idle {A} pid n (Q : A -> own -> view -> Prop) o v (c : unit -> prog A) :
  idle o -> (forall o', idle o' -> wp pid (c tt) Q o' v) -> wp pid (bind (belt_idle n) c) Q o v.
Proof.
  revert o; induction n as [|n IH]; intros o Hidle H; cbn [belt_idle]; wp_go; [by apply H|].
  apply wp_sigflag. intros stop. wp_beta. case_if; wp_go; [by apply H|].
  apply wp_load_running; [intros _|]; cbn [negb]; wp_go; [by apply IH|]. by apply H, idle_stop.
Qed.

(** The monitor's counter stays below five. *)
Lemma wp_belt_round pid (Q : Z + unit -> own -> view -> Prop) n o v :
  idle o -> 0 <= n < 5 ->
  (forall n' o' v', 0 <= n' < 5 -> idle o' -> Q (inl n') o' v') ->
  (forall o' v', idle o' -> Q (inr tt) o' v') ->
  wp pid (belt_round n) Q o v.
Proof.
  intros Hidle Hn Hagain Hdone. unfold belt_round.
  apply wp_sigflag. intros stop. wp_beta. case_if; [apply wp_ret; auto|].
  apply wp_load_running; [intros _|]; cbn [negb]; [|apply wp_ret; intros; by apply Hdone, idle_stop].
  apply wp_int_result; [intros _|in_range]. wp_beta. case_if; wp_go.
  - apply (wp_getCount manager_belt). intros z1. wp_beta. wp_go. apply (wp_getWorkerCount manager_belt).
    intros z2. wp_beta. wp_go. apply wp_belt_idle; [done|]. intros o' Hi. wp_beta. apply wp_ret. intros.
    apply Hagain; [lia|done].
  - apply wp_belt_idle; [done|]. intros o' Hi. wp_beta. apply wp_ret. intros. apply Hagain; [lia|done].
Qed.

Lemma wp_terminal_round pid sm (Hs : SessionPorts sm) tm (Q : TerminalManager + unit -> own -> view -> Prop) o v :
  idle o -> (forall r o' v', idle o' -> Q r o' v') -> wp pid (terminal_round sm tm) Q o v.
Proof.
  intros Hidle H. unfold terminal_round. apply wp_keep_running_load. intros kr. wp_beta.
  case_if; [apply wp_ret; auto|].
  apply wp_load_running; [intros _|]; cbn [negb]; [|apply wp_ret; intros; by apply H, idle_stop].
  apply wp_runOnce; [done|by apply quiet_may_send, Hidle|]. intros tm' v'. wp_beta.
  apply wp_keep_running_load. intros kr'. wp_beta. case_if; apply wp_ret; auto.
Qed.

(** ** The master *)

Lemma idle_owns_nothing o : idle o -> owns_nothing o.
Proof. by intros ([] & ? & ?). Qed.

Section MasterProof.
Context {A : Type} (pid : Z) (Q : A -> own -> view -> Prop) (o : own) (Hidle : idle o).

Lemma wp_spawnChild path name arg pids v (c : list Z -> prog A) :
  (forall pids' v', wp pid (c pids') Q o v') -> wp pid (bind (spawnChild path name arg pids) c) Q o v.
Proof.
  intros H. unfold spawnChild. wp_go. apply wp_fork. intros z _. wp_beta. case_if; wp_go; [|apply H].
  by apply wp_exit, idle_owns_nothing.
Qed.

Lemma wp_spawn_fleet path name n i pids v (c : list Z -> prog A) :
  (forall pids' v', wp pid (c pids') Q o v') -> wp pid (bind (spawn_fleet path name n i pids) c) Q o v.
Proof.
  revert i pids v; induction n as [|n IH]; intros i pids v H; cbn [spawn_fleet]; wp_go; [apply H|].
  apply wp_spawnChild. intros pids' v'. wp_beta. wp_go. by apply IH.
Qed.

Lemma wp_kill_all pids v (c : unit -> prog A) : wp pid (c tt) Q o v -> wp pid (bind (kill_all pids) c) Q o v.
Proof.
  revert v; induction pids as [|p pids IH]; intros v H; cbn [kill_all]; wp_go; [done|].
  intros v' Ha Hk. apply IH. by eapply wp_stable.
Qed.

End MasterProof.

Lemma wp_monitor_round pid (Q : unit + unit -> own -> view -> Prop) o v :
  idle o -> (forall r o' v', idle o' -> Q r o' v') -> wp pid monitor_round Q o v.
Proof.
  intros Hidle H. unfold monitor_round. apply wp_sigflag. intros stop. wp_beta. case_if; [apply wp_ret; auto|].
  apply wp_load_running; [intros _|]; cbn [negb]; [|apply wp_ret; intros; by apply H, idle_stop].
  wp_go. apply wp_waitpid. intros z. wp_beta. case_if; wp_go; apply wp_ret; auto.
Qed.

Lemma wp_master_main {A} pid (Q : A -> own -> view -> Prop) o v (c : Z -> prog A) :
  idle o -> (forall z o' v', idle o' -> wp pid (c z) Q o' v') -> wp pid (bind master_main c) Q o v.
Proof.
  intros Hidle H. unfold master_main. wp_go.
  do 3 (apply wp_spawnChild; [done|]; intros ? ?; wp_beta; wp_go).
  do 2 (apply wp_spawn_fleet; [done|]; intros ? ?; wp_beta; wp_go).
  apply (wp_loop pid _ _ _ (fun _ o' => idle o')); [done|auto with warehouse|]. intros [] o1 v1 H1.
  apply wp_monitor_round; [done|]. intros [[]|[]] o2 v2 H2; [done|]. wp_beta. wp_go.
  apply wp_store_running. wp_beta. wp_go. apply wp_kill_all. wp_beta. wp_go. by apply H.
Qed.

(** Which processes may carry a package. *)
Definition is_carrier (p : process) : bool := match p with PDispatcher => true | _ => false end.

(** Every process, from the start with nothing to the end with nothing. *)
Lemma process_wp pid p v :
  wp pid (th_prog (process_thread (pid, p))) ended (idle_own (is_carrier p)) v.
Proof.
  assert (forall c, idle (idle_own c)) as Hi by done.
  assert (forall z o' v', idle o' -> wp pid ((fun _ : Z => Ret tt) z) ended o' v') as Hend.
  { intros z o' v' ([] & Hr & Hd). by apply wp_ret. }
  assert (forall what z o' v', idle o' -> wp pid (bind (clean_end what z) (fun _ => Ret tt)) ended o' v') as Hclean.
  { intros what z o' v' Ho'. apply wp_clean_end. by apply (Hend z). }
  destruct p as [| | |n|n junk| | |]; cbn [th_prog process_thread fst snd process_main is_carrier];
    [| | | | | |unfold worker_refused; wp_go; by apply (Hend 1)|by apply wp_master_main];
    unfold dispatcher_main, express_main, belt_main, truck_main, worker_main, terminal_main; wp_go;
    (apply wp_with_session; [done|unfold INT_MAX; lia| |by intros; wp_beta; auto]); intros i v' k Hi' Hk; wp_go.
  - apply (wp_dispatcher_run pid manager_dispatcher); [split; [done|split; [done|by left]]|]. intros o' v'' [Hf _]. by apply Hk.
  - apply (wp_loop pid _ _ _ (fun _ o' => idle o')); [done|auto with warehouse|]. intros [] o1 v1 H1.
    apply wp_express_round; [done|]. intros [[]|[]]; [done|]. by apply Hk.
  - apply (wp_loop pid _ _ _ (fun m o' => 0 <= m < 5 /\ idle o')); [split; [lia|done]|intros m o' [_ Hi1]; auto with warehouse|]. intros m o1 v1 [Hm H1].
    apply wp_belt_round; [done|done|done|]. intros o2 v2 H2. wp_beta. wp_go. by apply Hk.
  - by apply (wp_truck_run pid (manager_truck pid)).
  - apply wp_worker_run; [apply _|by apply manager_session_ports|done|done|done].
  - apply (wp_loop pid _ _ _ (fun _ o' => idle o')); [done|auto with warehouse|]. intros tm o1 v1 H1.
    apply wp_terminal_round; [by apply manager_session_ports|done|]. intros [tm'|[]]; [done|]. by apply Hk.
Qed.

(** ** The booted system *)

Lemma init_belt_inv : belt_inv (mkView init_shm []) 0.
Proof.
  split; try done; [apply init_belt_wf|apply zero_users_wf].
Qed.

Lemma init_dock_inv : dock_inv (mkView init_shm []) None.
Proof. split; try done. by exists None. Qed.

Lemma boot_inv qbytes ps :
  NoDup (map fst ps) -> sys_inv (map (fun pp => is_carrier (snd pp)) ps) (boot qbytes ps).
Proof.
  intros Hnd. exists (map (fun pp => idle_own (is_carrier (snd pp))) ps), 0, None.
  assert (forall o, o ∈ map (fun pp : Z * process => idle_own (is_carrier (snd pp))) ps ->
          exists c, o = idle_own c) as Hall.
  { intros o Ho. apply list_elem_of_fmap in Ho as (pp & -> & _). eauto. }
  assert (forall (f : own -> Z), (forall c, f (idle_own c) = 0) ->
          sumZ f (map (fun pp : Z * process => idle_own (is_carrier (snd pp))) ps) = 0) as Hsum.
  { intros f Hf. apply sumZ_zero. intros o Ho. by destruct (Hall o Ho) as [c ->]. }
  split; cbn [threads s_world boot initial_world w_sem w_shm w_log w_msgs w_sem_alive world_view].
  - by rewrite !length_map.
  - by rewrite map_map.
  - intros i th o Hth Ho. rewrite lookup_map in Hth. rewrite lookup_map in Ho.
    destruct (ps !! i) as [[pid p]|]; [|done]. cbn in Hth, Ho. simplify_eq. apply process_wp.
  - intros o [c ->]%Hall. cbn. lia.
  - done.
  - rewrite (Hsum holds_belt) by done. cbn. lia.
  - rewrite (Hsum holds_dock) by done. cbn. lia.
  - rewrite (Hsum o_ep) by done. unfold MAX_BELT_CAPACITY_K. cbn. lia.
  - rewrite (Hsum o_fp) by done. cbn. lia.
  - by rewrite (Hsum reg_count).
  - intros o m [c ->]%Hall. done.
  - intros _. apply init_belt_inv.
  - intros o x [c ->]%Hall. done.
  - intros _. apply init_dock_inv.
  - intros i th o Hth Ho. destruct (Hall o) as [c ->]; [by eapply list_elem_of_lookup_2|]. done.
  - done.
  - constructor.
  - cbn. rewrite map_map. cbn. clear. by induction ps.
  - intros o [c ->]%Hall. cbn. destruct c; cbn; lia.
  - by rewrite map_map.
  - intros o [c ->]%Hall. done.
  - done.
  - done.
Qed.
