(* ===== verification/Safety.v ===== *)
(** * Safety of the whole system

    Theorems about every state the booted system can reach while no [semop] is
    interrupted from outside and the semaphore set exists, for any number of
    processes of any kind, any interleaving and any inputs.  They follow from
    the global invariant of [Logic] and the proofs of [ProcessProof]. *)

From S2P Require Import Prelude Double Shared Ipc Belt SessionManager Truck Dispatcher Express Manager Worker.
From S2P Require Import Terminal Args Master Processes Logic Rules Invariants BeltProof DockProof ProcessProof.

(** ** Reachable states *)

Definition reachable (qbytes : Z) (ps : list (Z * process)) (s : sys) : Prop :=
  NoDup (map fst ps) /\ calm_steps (boot qbytes ps) s.

Definition carriers (ps : list (Z * process)) : list bool := map (fun pp => is_carrier (snd pp)) ps.

(** Thread [i] is about to write the belt's part of the segment, or the dock's. *)
Definition writes_belt (s : sys) (i : nat) : Prop :=
  exists pid g k, threads s !! i = Some (mkThread pid (Store g k)) /\
    bpart (upd_shm g (world_view (s_world s))) <> bpart (world_view (s_world s)).

Definition writes_dock (s : sys) (i : nat) : Prop :=
  exists pid g k, threads s !! i = Some (mkThread pid (Store g k)) /\
    dpart (upd_shm g (world_view (s_world s))) <> dpart (world_view (s_world s)).

(** The process has ended: it has returned from its [main] or called [exit]. *)
Definition finished (th : thread) : Prop :=
  match th_prog th with Ret _ | Exit _ => True | _ => False end.

(** ** Runs for examples

    An answer that may be given to a program ([sig]: a signal has arrived,
    [line]: what the operator types), and a driver that lets the threads of a
    list step in order, skipping those that are blocked. *)

Definition some_answer {A} (sig : bool) (line : string) (t : prog A) : answer :=
  match t with
  | RandInt lo _ _ => AInt lo
  | RandReal lo _ _ => AReal lo
  | SigFlag _ => ABool sig
  | PollStdin _ => ABool true
  | Getline _ => ALine (Some line)
  | Fork _ _ _ => AInt (-1)
  | Waitpid _ => AInt 0
  | _ => ANone
  end.

Definition drive (sig : bool) (line : string) (i : nat) (s : sys) : sys :=
  match threads s !! i with
  | Some th => match sys_step i (some_answer sig line (th_prog th)) s with Some s' => s' | None => s end
  | None => s
  end.

Fixpoint drives (sig : bool) (line : string) (sched : list nat) (s : sys) : sys :=
  match sched with
  | [] => s
  | i :: rest => drives sig line rest (drive sig line i s)
  end.

Lemma drives_calm sig line sched s : calm_steps s (drives sig line sched s).
Proof.
  revert s; induction sched as [|i sched IH]; intros s; [constructor|]. cbn. unfold drive.
  destruct (threads s !! i) as [th|] eqn:Hi; [|apply IH].
  destruct (sys_step i (some_answer sig line (th_prog th)) s) as [s'|] eqn:Hs; [|apply IH].
  eapply rtc_l; [|apply IH]. eapply calm_step_thread; [exact Hi| |exact Hs]. by destruct (th_prog th).
Qed.

(** ** Consequences of the invariant *)

Section Consequences.
Context (qbytes : Z) (ps : list (Z * process)) (s : sys) (Hreach : reachable qbytes ps s).

Lemma reachable_inv : exists os n oc, inv (carriers ps) (threads s) (s_world s) os n oc.
Proof. destruct Hreach as [Hnd Hst]. eapply calm_steps_inv; [exact Hst|]. by apply boot_inv. Qed.

(** While the mutex is free, its invariant holds. *)
Lemma belt_free_inv : v_belt (w_sem (s_world s)) = 1 -> exists n, belt_inv (world_view (s_world s)) n.
Proof.
  intros Hfree. destruct reachable_inv as (os & n & oc & Hinv). exists n. apply (i_binv Hinv).
  intros o Ho. eapply (belt_free _ _ _ _ _ _ Hinv); [lia|done].
Qed.

Lemma dock_free_inv : v_dock (w_sem (s_world s)) = 1 -> exists oc, dock_inv (world_view (s_world s)) oc.
Proof.
  intros Hfree. destruct reachable_inv as (os & n & oc & Hinv). exists oc. apply (i_dinv Hinv).
  intros o Ho. eapply (dock_free _ _ _ _ _ _ Hinv); [lia|done].
Qed.

(** A thread that writes a protected part holds the mutex. *)
Lemma writer_holds_belt os n oc i :
  inv (carriers ps) (threads s) (s_world s) os n oc -> writes_belt s i ->
  exists o, os !! i = Some o /\ o_belt o <> None.
Proof.
  intros Hinv (pid & g & k & Hth & Hne).
  destruct (thread_owner _ _ _ _ _ _ Hinv i _ Hth) as [o Ho].
  exists o. split; [done|]. intros Hnone. apply Hne.
  pose proof (i_wp Hinv i _ o Hth Ho _ (agree_refl _ _) (know_own _ _ _ _ _ _ Hinv i o Ho)) as [[Hfr _] _].
  symmetry. by apply Hfr.
Qed.

Lemma writer_holds_dock os n oc i :
  inv (carriers ps) (threads s) (s_world s) os n oc -> writes_dock s i ->
  exists o, os !! i = Some o /\ o_dock o <> None.
Proof.
  intros Hinv (pid & g & k & Hth & Hne).
  destruct (thread_owner _ _ _ _ _ _ Hinv i _ Hth) as [o Ho].
  exists o. split; [done|]. intros Hnone. apply Hne.
  pose proof (i_wp Hinv i _ o Hth Ho _ (agree_refl _ _) (know_own _ _ _ _ _ _ Hinv i o Ho)) as [[_ Hfr] _].
  symmetry. by apply Hfr.
Qed.

Lemma trace_inv : log_inv (w_log (s_world s)).
Proof. destruct reachable_inv as (os & n & oc & Hinv). apply (i_log Hinv). Qed.

Lemma queue_trace : exists p q, queue_run (w_log (s_world s)) = Some (p, q).
Proof.
  destruct trace_inv as [Hq _]. rewrite queue_run_belt_log in Hq.
  destruct (queue_run (w_log (s_world s))) as [[p q]|]; [eauto|done].
Qed.

Lemma dock_trace : exists cur d, dock_run (w_log (s_world s)) = Some (cur, d).
Proof.
  destruct trace_inv as [_ Hd]. rewrite dock_run_dock_log in Hd.
  destruct (dock_run (w_log (s_world s))) as [[cur d]|]; [eauto|done].
Qed.

(** A finished process owns nothing. *)
Lemma finished_owns_nothing os n oc i th o :
  inv (carriers ps) (threads s) (s_world s) os n oc -> threads s !! i = Some th -> os !! i = Some o ->
  finished th -> ended tt o (world_view (s_world s)).
Proof.
  intros Hinv Hth Ho Hfin. pose proof (i_wp Hinv i th o Hth Ho) as Hwp. unfold finished in Hfin.
  destruct (th_prog th); try done; specialize (Hwp _ (agree_refl _ _) (know_own _ _ _ _ _ _ Hinv i o Ho)); apply Hwp.
Qed.

(** The holder can go on. *)
Lemma belt_holder_moves :
  v_belt (w_sem (s_world s)) = 0 ->
  exists i th, threads s !! i = Some th /\ (can_step th (s_world s) \/ is_undef (th_prog th) = true).
Proof.
  intros Hz. destruct reachable_inv as (os & n & oc & Hinv).
  destruct (belt_holder _ _ _ _ _ _ Hinv Hz) as (i & th & o & Hth & Ho & Hb). exists i, th. split; [done|].
  destruct (holder_moves _ _ _ _ _ _ Hinv i th o Hth Ho) as [H|[H|[H _]]]; [by intros [? _]|by left|by right|done].
Qed.

Lemma dock_holder_moves :
  v_dock (w_sem (s_world s)) = 0 ->
  exists i th, threads s !! i = Some th /\
    (can_step th (s_world s) \/ is_undef (th_prog th) = true \/ in_msgsnd (th_prog th) = true).
Proof.
  intros Hz. destruct reachable_inv as (os & n & oc & Hinv).
  destruct (dock_holder _ _ _ _ _ _ Hinv Hz) as (i & th & o & Hth & Ho & Hb). exists i, th. split; [done|].
  destruct (holder_moves _ _ _ _ _ _ Hinv i th o Hth Ho) as [H|[H|[_ H]]]; [by intros [_ ?]|by left|by right; left|by right; right].
Qed.

(** The values of the mutexes. *)
Lemma mutex_values : 0 <= v_belt (w_sem (s_world s)) <= 1 /\ 0 <= v_dock (w_sem (s_world s)) <= 1.
Proof.
  destruct reachable_inv as (os & n & oc & Hinv). pose proof (i_belt Hinv). pose proof (i_dock Hinv).
  pose proof (sumZ_nonneg holds_belt os (holds_belt_nonneg os)). pose proof (sumZ_nonneg holds_dock os (holds_dock_nonneg os)).
  lia.
Qed.

(** When nobody can move. *)
Context (Hstuck : forall th, th ∈ threads s ->
  ~ can_step th (s_world s) /\ is_undef (th_prog th) = false /\ in_msgsnd (th_prog th) = false).

Lemma stuck_mutexes : v_belt (w_sem (s_world s)) = 1 /\ v_dock (w_sem (s_world s)) = 1.
Proof.
  destruct mutex_values as [Hb Hd].
  assert (v_belt (w_sem (s_world s)) <> 0) as Hb0.
  { intros (i & th & Hi & H)%belt_holder_moves. apply list_elem_of_lookup_2 in Hi.
    destruct (Hstuck th Hi) as (H1 & H2 & _). destruct H; congruence. }
  assert (v_dock (w_sem (s_world s)) <> 0) as Hd0.
  { intros (i & th & Hi & H)%dock_holder_moves. apply list_elem_of_lookup_2 in Hi.
    destruct (Hstuck th Hi) as (H1 & H2 & H3). destruct H as [|[|]]; congruence. }
  lia.
Qed.

(** All permits are in the semaphores, and the counter of the belt agrees. *)
Lemma stuck_counts os n oc :
  inv (carriers ps) (threads s) (s_world s) os n oc ->
  v_empty (w_sem (s_world s)) = MAX_BELT_CAPACITY_K - current_items_count (w_shm (s_world s)) /\
  v_full (w_sem (s_world s)) = current_items_count (w_shm (s_world s)).
Proof.
  intros Hinv. destruct stuck_mutexes as [Hb Hd].
  assert (forall o, o ∈ os -> resting o) as Hrest.
  { intros o Ho. apply list_elem_of_lookup in Ho as [i Ho]. destruct (owner_thread _ _ _ _ _ _ Hinv i _ Ho) as [th Hth].
    destruct (Hstuck th) as (H1 & H2 & H3); [by eapply list_elem_of_lookup_2|].
    apply (stuck_cases _ _ _ _ _ _ Hinv i th o Hth Ho H1 H2 H3); lia. }
  assert (belt_inv (world_view (s_world s)) n) as HB by (apply (i_binv Hinv); intros o Ho; apply (Hrest o Ho)).
  pose proof (bi_count _ _ HB) as Hc. cbn in Hc. rewrite Hc.
  pose proof (i_empty Hinv) as [He _]. pose proof (i_full Hinv) as [Hf _].
  rewrite (sumZ_zero o_ep) in He by (intros o Ho; apply (Hrest o Ho)).
  rewrite (sumZ_zero o_fp) in Hf by (intros o Ho; apply (Hrest o Ho)). lia.
Qed.

End Consequences.

(** A small warehouse, and the states a schedule of it leads to. *)
Definition demo_ps : list (Z * process) :=
  [(101, PTruck 1); (102, PDispatcher); (103, PWorker 1 (fun _ => zero_Package)); (104, PTerminal)].

Definition demo (sched : list nat) : sys := drives false "depart" sched (boot 16384 demo_ps).

(** The worker, the truck and the dispatcher, one after the other. *)
Definition demo_run : list nat := replicate 401 2%nat ++ replicate 400 0%nat ++ replicate 400 1%nat.

Lemma demo_reachable sched : reachable 16384 demo_ps (demo sched).
Proof. split; [|apply drives_calm]. by apply (bool_decide_unpack _). Qed.

(** Recognising finished threads by evaluation. *)
Definition is_finished (th : thread) : bool := match th_prog th with Ret _ | Exit _ => true | _ => false end.

Lemma is_finished_true th : is_finished th = true -> finished th.
Proof. unfold is_finished, finished. by destruct (th_prog th). Qed.

Lemma all_finished s : forallb is_finished (threads s) = true -> forall th, th ∈ threads s -> finished th.
Proof.
  intros Hall th Hth. apply is_finished_true. rewrite forallb_forall in Hall. apply Hall. by apply list_elem_of_In.
Qed.

(** Recognising a thread that is about to change a field, by evaluation. *)
Definition about_to_change (f : SharedState -> Z) (s : sys) (i : nat) : bool :=
  match threads s !! i with
  | Some th =>
      match th_prog th with
      | Store g _ => negb (f (g (w_shm (s_world s))) =? f (w_shm (s_world s)))
      | _ => false
      end
  | None => false
  end.

Lemma about_to_change_store f s i :
  about_to_change f s i = true ->
  exists pid g k, threads s !! i = Some (mkThread pid (Store g k)) /\ f (g (w_shm (s_world s))) <> f (w_shm (s_world s)).
Proof.
  unfold about_to_change. destruct (threads s !! i) as [[pid t]|]; [|done]. destruct t; try done. cbn. intros H. zbool.
  eauto.
Qed.

Lemma writes_belt_total s i : about_to_change total_packages_created s i = true -> writes_belt s i.
Proof.
  intros (pid & g & k & Hth & Hne)%about_to_change_store. exists pid, g, k. split; [done|].
  intros He. apply Hne. unfold bpart in He. cbn in He. congruence.
Qed.

Lemma writes_dock_truck s i : about_to_change (fun x => truck_id (dock_truck x)) s i = true -> writes_dock s i.
Proof.
  intros (pid & g & k & Hth & Hne)%about_to_change_store. exists pid, g, k. split; [done|].
  intros He. apply Hne. unfold dpart in He. cbn in He. congruence.
Qed.

(** * The belt *)

(** C1. As long as no [semop] is interrupted, in every reachable state the belt's log lines are a run of a bounded
    first-in first-out queue: the packages pushed so far carry the numbers
    1, 2, ..., p in this order, the packages popped so far are 1, ..., q in the
    same order with q <= p <= q + 10, every line reports the right ring index
    and count, and no push was ever rejected. *)
Theorem belt_fifo_trace qbytes ps s :
  reachable qbytes ps s ->
  exists p q, queue_run (w_log (s_world s)) = Some (p, q) /\
    pushed_ids (w_log (s_world s)) = seqZ 1 p /\ popped_ids (w_log (s_world s)) = seqZ 1 q /\
    0 <= q <= p /\ p - q <= MAX_BELT_CAPACITY_K /\
    (forall c, BeltRejected c ∉ w_log (s_world s)).
Proof.
  intros Hr. destruct (queue_trace _ _ _ Hr) as (p & q & Hq). exists p, q.
  destruct (queue_run_ids _ _ _ Hq) as (H1 & H2 & H3 & H4). repeat split; try done; try lia.
  intros c. by eapply queue_run_no_reject.
Qed.

Lemma belt_fifo_trace_witness :
  queue_run (w_log (s_world (demo demo_run))) = Some (4, 4) /\
  exists p q, queue_run (w_log (s_world (demo demo_run))) = Some (p, q) /\
    pushed_ids (w_log (s_world (demo demo_run))) = seqZ 1 p /\ popped_ids (w_log (s_world (demo demo_run))) = seqZ 1 q /\
    0 <= q <= p /\ p - q <= MAX_BELT_CAPACITY_K /\
    (forall c, BeltRejected c ∉ w_log (s_world (demo demo_run))).
Proof. split; [vm_compute; reflexivity|]. apply (belt_fifo_trace 16384 demo_ps), demo_reachable. Defined.

(** C2. As long as no [semop] is interrupted, no package is duplicated or lost
    between belt and truck: the packages
    taken from the belt are, up to order, those loaded on trucks together with
    those in the dispatchers' hands, at most one per dispatcher; no package is
    loaded twice, and only packages that were pushed are loaded. *)
Theorem loaded_exactly_once qbytes ps s :
  reachable qbytes ps s ->
  (exists hand, popped_ids (w_log (s_world s)) ≡ₚ loaded_ids (w_log (s_world s)) ++ hand /\
     Z.of_nat (length hand) <= sumZ b2z (carriers ps)) /\
  NoDup (loaded_ids (w_log (s_world s))) /\
  (forall i, i ∈ loaded_ids (w_log (s_world s)) -> i ∈ pushed_ids (w_log (s_world s))).
Proof.
  intros Hr. destruct (reachable_inv _ _ _ Hr) as (os & n & oc & Hinv). pose proof (i_pend Hinv) as Hp.
  destruct (queue_trace _ _ _ Hr) as (p & q & Hq). destruct (queue_run_ids _ _ _ Hq) as (Hpush & Hpop & Hle & _).
  split; [|split].
  - exists (mjoin (map o_pend os)). split; [done|]. rewrite <- (i_carriers Hinv).
    apply length_pending. apply (i_hand Hinv).
  - rewrite Hpop in Hp. pose proof (NoDup_seqZ 1 q) as Hnd. rewrite Hp in Hnd. by apply list.NoDup_app in Hnd as [? _].
  - intros i Hi. rewrite Hpush. apply elem_of_seqZ.
    assert (i ∈ popped_ids (w_log (s_world s))) as Hi' by (rewrite Hp; apply elem_of_app; by left).
    rewrite Hpop in Hi'. apply elem_of_seqZ in Hi'. lia.
Qed.

Lemma loaded_exactly_once_witness :
  loaded_ids (w_log (s_world (demo demo_run))) = [1; 2; 3; 4] /\
  (exists hand, popped_ids (w_log (s_world (demo demo_run))) ≡ₚ loaded_ids (w_log (s_world (demo demo_run))) ++ hand /\
     Z.of_nat (length hand) <= sumZ b2z (carriers demo_ps)).
Proof.
  split; [vm_compute; reflexivity|].
  exact (proj1 (loaded_exactly_once 16384 demo_ps (demo demo_run) (demo_reachable demo_run))).
Defined.

(** C3. Mutual exclusion on the shared data, as long as no [semop] is
    interrupted by a signal handler (an interrupted one breaks it, see [Findings]): a thread about to change the
    belt, the counters or the session table does so with the belt mutex taken,
    and it is the only such thread; the same for the dock and its mutex. *)
Theorem mutual_exclusion qbytes ps s :
  reachable qbytes ps s ->
  (forall i, writes_belt s i -> v_belt (w_sem (s_world s)) = 0 /\ forall j, writes_belt s j -> j = i) /\
  (forall i, writes_dock s i -> v_dock (w_sem (s_world s)) = 0 /\ forall j, writes_dock s j -> j = i).
Proof.
  intros Hr. destruct (reachable_inv _ _ _ Hr) as (os & n & oc & Hinv). split; intros i Hi.
  - destruct (writer_holds_belt _ _ _ _ _ _ Hinv Hi) as (o & Ho & Hb). split.
    + by eapply (belt_held_zero _ _ _ _ _ _ Hinv).
    + intros j Hj. destruct (writer_holds_belt _ _ _ _ _ _ Hinv Hj) as (o2 & Ho2 & Hb2).
      destruct (decide (i = j)) as [->|Hne]; [done|]. by rewrite (belt_exclusive _ _ _ _ _ _ Hinv i o Ho j o2) in Hb2.
  - destruct (writer_holds_dock _ _ _ _ _ _ Hinv Hi) as (o & Ho & Hb). split.
    + by eapply (dock_held_zero _ _ _ _ _ _ Hinv).
    + intros j Hj. destruct (writer_holds_dock _ _ _ _ _ _ Hinv Hj) as (o2 & Ho2 & Hb2).
      destruct (decide (i = j)) as [->|Hne]; [done|]. by rewrite (dock_exclusive _ _ _ _ _ _ Hinv i o Ho j o2) in Hb2.
Qed.

Lemma mutual_exclusion_witness :
  writes_belt (demo (replicate 252 2%nat)) 2 /\ v_belt (w_sem (s_world (demo (replicate 252 2%nat)))) = 0 /\
  writes_dock (demo (replicate 230 0%nat)) 0 /\ v_dock (w_sem (s_world (demo (replicate 230 0%nat)))) = 0.
Proof.
  assert (writes_belt (demo (replicate 252 2%nat)) 2) as Hb.
  { apply writes_belt_total. vm_compute. reflexivity. }
  assert (writes_dock (demo (replicate 230 0%nat)) 0) as Hd.
  { apply writes_dock_truck. vm_compute. reflexivity. }
  split; [exact Hb|]. split; [|split; [exact Hd|]].
  - exact (proj1 (proj1 (mutual_exclusion 16384 demo_ps _ (demo_reachable _)) 2%nat Hb)).
  - exact (proj1 (proj2 (mutual_exclusion 16384 demo_ps _ (demo_reachable _)) 0%nat Hd)).
Defined.

(** C4. As long as no [semop] is interrupted: whenever the belt mutex is free, the circular buffer is well formed:
    indices and count in range, the tail where head and count say, empty slots
    zero-filled; and its contents are the packages numbered
    [total - count + 1] to [total], in order. *)
Theorem belt_representation qbytes ps s :
  reachable qbytes ps s -> v_belt (w_sem (s_world s)) = 1 ->
  belt_wf (w_shm (s_world s)) /\
  map id (contents (w_shm (s_world s))) =
    seqZ (total_packages_created (w_shm (s_world s)) - current_items_count (w_shm (s_world s)) + 1)
         (current_items_count (w_shm (s_world s))) /\
  queue_run (w_log (s_world s)) =
    Some (total_packages_created (w_shm (s_world s)),
          total_packages_created (w_shm (s_world s)) - current_items_count (w_shm (s_world s))).
Proof.
  intros Hr Hf. destruct (belt_free_inv _ _ _ Hr Hf) as [n [H1 H2 H3 H4 H5 H6 H7 H8]]. cbn in *.
  rewrite queue_run_belt_log in H8. rewrite H2. done.
Qed.

Lemma belt_representation_witness :
  v_belt (w_sem (s_world (demo (replicate 401 2%nat)))) = 1 /\
  belt_wf (w_shm (s_world (demo (replicate 401 2%nat)))) /\
  map id (contents (w_shm (s_world (demo (replicate 401 2%nat))))) = [1; 2; 3; 4].
Proof.
  assert (v_belt (w_sem (s_world (demo (replicate 401 2%nat)))) = 1) as Hf by (vm_compute; reflexivity).
  split; [exact Hf|]. split; [|vm_compute; reflexivity].
  exact (proj1 (belt_representation 16384 demo_ps _ (demo_reachable _) Hf)).
Defined.

(** C5. As long as no [semop] is interrupted, the program of a process (its
    [main] and what it calls; the signal handlers are not part of it) comes to
    none of the undefined operations that the model marks, namely an array access
    out of bounds, the division by zero in [simulateWorkLoad], an enum value out
    of range, a null pointer, other than the overflow of a counter that has
    reached [INT_MAX]; and no process leaves through the [exit(errno)] of
    [semOperation]: an [exit] has the code 1 the master uses after a failed
    [fork]. *)
Theorem no_undefined_behaviour qbytes ps s i pid t :
  reachable qbytes ps s -> threads s !! i = Some (mkThread pid t) ->
  (forall u, t = Undef u -> u = SignedOverflow /\ counter_at_max (w_shm (s_world s))) /\
  (forall c, t = Exit c -> c = 1).
Proof.
  intros Hr Hth. destruct (reachable_inv _ _ _ Hr) as (os & n & oc & Hinv).
  destruct (thread_owner _ _ _ _ _ _ Hinv i _ Hth) as [o Ho].
  pose proof (i_wp Hinv i _ o Hth Ho) as Hwp. pose proof (know_own _ _ _ _ _ _ Hinv i o Ho) as Hk.
  split; [intros u ->|intros c ->]; apply (Hwp _ (agree_refl _ _) Hk).
Qed.

(** A master whose first [fork] fails: the one [exit] there is. *)
Definition fork_refused : sys := drives false "" (replicate 4 0%nat) (boot 16384 [(200, PMaster)]).

Lemma no_undefined_behaviour_witness :
  exists c, threads fork_refused !! 0%nat = Some (mkThread 200 (Exit c)) /\ c = 1.
Proof.
  assert (match threads fork_refused !! 0%nat with Some th => match th_prog th with Exit _ => th_pid th =? 200 | _ => false end | None => false end = true)
    as H by (vm_compute; reflexivity).
  destruct (threads fork_refused !! 0%nat) as [[pid t]|] eqn:E; [|discriminate H]. cbn in H. destruct t as [| | | | | | | | | | | | | | | | | |code|]; try discriminate H.
  apply Z.eqb_eq in H. subst pid. exists code. split; [reflexivity|].
  refine (proj2 (no_undefined_behaviour 16384 [(200, PMaster)] fork_refused 0%nat 200 (Exit code) _ E) code eq_refl).
  split; [by apply (bool_decide_unpack _)|apply drives_calm].
Defined.

(** * The dock *)

(** C6. As long as no [semop] is interrupted, in every reachable state the dock's log lines are a run of a dock that
    serves one truck at a time: packages are loaded only on the truck that
    docked last and has not departed, a departure is always that of this truck
    and carries the next departure number, and the "identity theft" line is
    never written. *)
Theorem dock_serves_one_truck qbytes ps s :
  reachable qbytes ps s ->
  (exists cur d, dock_run (w_log (s_world s)) = Some (cur, d)) /\
  (forall pid, IdentityTheft pid ∉ w_log (s_world s)).
Proof.
  intros Hr. destruct (dock_trace _ _ _ Hr) as (cur & d & Hd). split; [eauto|]. intros pid.
  by eapply dock_run_no_theft.
Qed.

Lemma dock_serves_one_truck_witness :
  dock_run (w_log (s_world (demo demo_run))) = Some (Some (101, 4), 0) /\
  forall pid, IdentityTheft pid ∉ w_log (s_world (demo demo_run)).
Proof.
  split; [vm_compute; reflexivity|].
  exact (proj2 (dock_serves_one_truck 16384 demo_ps _ (demo_reachable _))).
Defined.



(** C8. As long as no [semop] is interrupted, the truck at the dock belongs to a
    process that has not ended: while
    the dock mutex is free, a present truck carries the process id of a thread
    of the system that has not ended. *)
Theorem no_ghost_truck qbytes ps s :
  reachable qbytes ps s -> v_dock (w_sem (s_world s)) = 1 -> is_present (dock_truck (w_shm (s_world s))) = true ->
  exists i th, threads s !! i = Some th /\ th_pid th = truck_id (dock_truck (w_shm (s_world s))) /\ ~ finished th.
Proof.
  intros Hr Hf Hp. destruct (reachable_inv _ _ _ Hr) as (os & n & oc & Hinv).
  assert (dock_inv (world_view (s_world s)) oc) as HD.
  { apply (i_dinv Hinv). intros x Hx. eapply (dock_free _ _ _ _ _ _ Hinv); [lia|done]. }
  apply (occupied _ _ HD) in Hp. destruct oc as [p|]; [|done].
  pose proof (i_resident Hinv p eq_refl) as Hin. apply list_elem_of_fmap in Hin as (th & -> & Hth).
  apply list_elem_of_lookup in Hth as [i Hth]. destruct (thread_owner _ _ _ _ _ _ Hinv i _ Hth) as [o Ho].
  exists i, th. split; [done|]. split; [symmetry; exact (di_truck _ _ HD _ eq_refl)|]. intros Hfin.
  destruct (finished_owns_nothing _ _ _ _ _ _ _ _ Hinv Hth Ho Hfin) as (_ & _ & _ & _ & _ & Hdk).
  assert (o_docked o = true); [|congruence]. by apply (i_docked Hinv i th o Hth Ho).
Qed.

Lemma no_ghost_truck_witness :
  truck_id (dock_truck (w_shm (s_world (demo demo_run)))) = 101 /\
  exists i th, threads (demo demo_run) !! i = Some th /\
    th_pid th = truck_id (dock_truck (w_shm (s_world (demo demo_run)))) /\ ~ finished th.
Proof.
  split; [vm_compute; reflexivity|].
  apply (no_ghost_truck 16384 demo_ps); [apply demo_reachable|vm_compute; reflexivity|vm_compute; reflexivity].
Defined.

(** * Semaphores *)

(** C9. As long as no [semop] is interrupted by a signal handler (an interrupted
    one is treated as a success, so that the invariant is lost), the counting
    semaphores never hand out more permits than the belt has slots: both are non-negative and their sum is at most the capacity; the
    mutex semaphores are 0 or 1. *)
Theorem semaphore_bounds qbytes ps s :
  reachable qbytes ps s ->
  0 <= v_empty (w_sem (s_world s)) /\ 0 <= v_full (w_sem (s_world s)) /\
  v_empty (w_sem (s_world s)) + v_full (w_sem (s_world s)) <= MAX_BELT_CAPACITY_K /\
  0 <= v_belt (w_sem (s_world s)) <= 1 /\ 0 <= v_dock (w_sem (s_world s)) <= 1.
Proof.
  intros Hr. destruct (reachable_inv _ _ _ Hr) as (os & n & oc & Hinv).
  pose proof (i_empty Hinv). pose proof (i_full Hinv). pose proof (i_belt Hinv). pose proof (i_dock Hinv).
  pose proof (sumZ_nonneg o_ep os (fun o Ho => proj1 (i_nonneg Hinv o Ho))).
  pose proof (sumZ_nonneg o_fp os (fun o Ho => proj2 (i_nonneg Hinv o Ho))).
  pose proof (sumZ_nonneg holds_belt os (holds_belt_nonneg os)). pose proof (sumZ_nonneg holds_dock os (holds_dock_nonneg os)).
  lia.
Qed.

Lemma semaphore_bounds_witness :
  w_sem (s_world (demo (replicate 401 2%nat))) = mkSemset 1 5 4 1 /\
  v_empty (w_sem (s_world (demo (replicate 401 2%nat)))) + v_full (w_sem (s_world (demo (replicate 401 2%nat))))
    <= MAX_BELT_CAPACITY_K.
Proof.
  split; [vm_compute; reflexivity|].
  exact (proj1 (proj2 (proj2 (semaphore_bounds 16384 demo_ps _ (demo_reachable (replicate 401 2%nat)))))).
Defined.

(** C10. In a run in which no [semop] was interrupted, so in general not when
    SIGTERM ends processes that wait: when all processes have ended by themselves,
    everything is released: both
    mutexes are free, the permits match the packages left on the belt, no
    worker is counted and no truck stands at the dock. *)
Theorem quiescent_release qbytes ps s :
  reachable qbytes ps s -> (forall th, th ∈ threads s -> finished th) ->
  w_sem (s_world s) = mkSemset 1 (MAX_BELT_CAPACITY_K - current_items_count (w_shm (s_world s)))
                        (current_items_count (w_shm (s_world s))) 1 /\
  current_workers_count (w_shm (s_world s)) = 0 /\
  is_present (dock_truck (w_shm (s_world s))) = false.
Proof.
  intros Hr Hall. destruct (reachable_inv _ _ _ Hr) as (os & n & oc & Hinv).
  assert (forall o, o ∈ os -> ended tt o (world_view (s_world s))) as Hend.
  { intros o Ho. apply list_elem_of_lookup in Ho as [i Ho]. destruct (owner_thread _ _ _ _ _ _ Hinv i _ Ho) as [th Hth].
    eapply (finished_owns_nothing _ _ _ _ _ _ _ _ Hinv); [done|done|]. by eapply Hall, list_elem_of_lookup_2. }
  assert (belt_inv (world_view (s_world s)) n) as HB by (apply (i_binv Hinv); intros o Ho; apply (Hend o Ho)).
  assert (dock_inv (world_view (s_world s)) oc) as HD by (apply (i_dinv Hinv); intros o Ho; apply (Hend o Ho)).
  pose proof (i_empty Hinv) as [He _]. pose proof (i_full Hinv) as [Hf _]. pose proof (i_belt Hinv) as [Hb _].
  pose proof (i_dock Hinv) as [Hd _]. pose proof (i_workers Hinv) as Hw.
  rewrite (sumZ_zero o_ep) in He by (intros o Ho; apply (Hend o Ho)).
  rewrite (sumZ_zero o_fp) in Hf by (intros o Ho; apply (Hend o Ho)).
  rewrite (sumZ_zero holds_belt) in Hb by (intros o Ho; unfold holds_belt; destruct (Hend o Ho) as [-> _]; done).
  rewrite (sumZ_zero holds_dock) in Hd by (intros o Ho; unfold holds_dock; destruct (Hend o Ho) as (_ & -> & _); done).
  rewrite (sumZ_zero reg_count) in Hw
    by (intros o Ho; unfold reg_count; destruct (Hend o Ho) as (_ & _ & _ & _ & -> & _); done).
  split; [|split; [done|]].
  - pose proof (bi_count _ _ HB) as Hc. cbn in Hc. rewrite Hc. destruct (w_sem (s_world s)). cbn in *. f_equal; lia.
  - pose proof (di_present _ _ HD) as Hp. cbn in Hp. rewrite Hp. apply bool_decide_eq_false. intros Hne.
    destruct oc as [p|]; [|done]. pose proof (i_resident Hinv p eq_refl) as Hin.
    apply list_elem_of_fmap in Hin as (th & -> & Hth). apply list_elem_of_lookup in Hth as [i Hth].
    destruct (thread_owner _ _ _ _ _ _ Hinv i _ Hth) as [o Ho].
    destruct (Hend o) as (_ & _ & _ & _ & _ & Hdk); [by eapply list_elem_of_lookup_2|].
    assert (o_docked o = true); [|congruence]. by apply (i_docked Hinv i th o Hth Ho).
Qed.

(** One worker that is told to stop after it has pushed four packages. *)
Definition shift_over : sys :=
  drives true "depart" (replicate 300 0%nat)
    (drives false "depart" (replicate 401 0%nat) (boot 16384 [(103, PWorker 1 (fun _ => zero_Package))])).

Lemma quiescent_release_witness :
  current_items_count (w_shm (s_world shift_over)) = 5 /\
  w_sem (s_world shift_over) = mkSemset 1 (MAX_BELT_CAPACITY_K - current_items_count (w_shm (s_world shift_over)))
                        (current_items_count (w_shm (s_world shift_over))) 1.
Proof.
  split; [vm_compute; reflexivity|].
  refine (proj1 (quiescent_release 16384 [(103, PWorker 1 (fun _ => zero_Package))] shift_over _ _)).
  - split; [by apply (bool_decide_unpack _)|]. unfold calm_steps. etrans; apply drives_calm.
  - apply all_finished. vm_compute. reflexivity.
Defined.

(** The holder of a mutex can always go on: when the belt semaphore is zero,
    some thread can take a step at once or has overflowed a counter; the same
    for the dock mutex, whose holder may also be sending a signal while the
    message queue is full: that is the only call a holder may block in. *)
Theorem mutex_progress qbytes ps s :
  reachable qbytes ps s ->
  (v_belt (w_sem (s_world s)) = 0 ->
     exists i th, threads s !! i = Some th /\ (can_step th (s_world s) \/ is_undef (th_prog th) = true)) /\
  (v_dock (w_sem (s_world s)) = 0 ->
     exists i th, threads s !! i = Some th /\
       (can_step th (s_world s) \/ is_undef (th_prog th) = true \/ in_msgsnd (th_prog th) = true)).
Proof. intros Hr. split; intros Hz; [by apply (belt_holder_moves qbytes ps)|by apply (dock_holder_moves qbytes ps)]. Qed.

(** C12. The only ways to stand still, in a run in which no [semop] was
    interrupted.  When no thread can take a step of its own accord, none has
    overflowed a counter, and none is inside [msgsnd] (where the holder of the
    dock can wait for room in a full message queue), both
    mutexes are free and every process has ended or waits for a message, for a
    free slot, or for a package; one that waits for a slot faces a full belt,
    one that waits for a package an empty one, so workers and dispatchers never
    wait for each other. *)
Theorem standstill qbytes ps s :
  reachable qbytes ps s ->
  (forall th, th ∈ threads s ->
     ~ can_step th (s_world s) /\ is_undef (th_prog th) = false /\ in_msgsnd (th_prog th) = false) ->
  v_belt (w_sem (s_world s)) = 1 /\ v_dock (w_sem (s_world s)) = 1 /\
  forall th, th ∈ threads s ->
    has_ended (th_prog th) = true \/ waits_message (th_prog th) = true \/
    (waits_slot (th_prog th) = true /\ current_items_count (w_shm (s_world s)) = MAX_BELT_CAPACITY_K) \/
    (waits_package (th_prog th) = true /\ current_items_count (w_shm (s_world s)) = 0).
Proof.
  intros Hr Hstuck. destruct (stuck_mutexes _ _ _ Hr Hstuck) as [Hb Hd]. split; [done|]. split; [done|].
  destruct (reachable_inv _ _ _ Hr) as (os & n & oc & Hinv). intros th Hth.
  destruct (stuck_counts _ _ _ Hr Hstuck _ _ _ Hinv) as [He Hf].
  apply list_elem_of_lookup in Hth as Hi. destruct Hi as [i Hi].
  destruct (thread_owner _ _ _ _ _ _ Hinv i _ Hi) as [o Ho]. destruct (Hstuck th Hth) as (H1 & H2 & H3).
  destruct (stuck_cases _ _ _ _ _ _ Hinv i th o Hi Ho H1 H2 H3) as (_ & Hcases); [lia|lia|].
  intuition lia.
Qed.

(** Recognising a thread that has ended, or waits for a semaphore or a message,
    by evaluation. *)
Definition blocked_thread (w : world) (th : thread) : bool :=
  match th_prog th with
  | Ret _ | Exit _ => true
  | Semop i op _ => w_sem_alive w && (sem_get (w_sem w) i + op <? 0)
  | Msgrcv typ nowait _ =>
      w_msg_alive w && negb nowait && match msg_take typ (w_msgs w) with Some _ => false | None => true end
  | _ => false
  end.

Lemma blocked_thread_stuck w th :
  blocked_thread w th = true ->
  ~ can_step th w /\ is_undef (th_prog th) = false /\ in_msgsnd (th_prog th) = false.
Proof.
  unfold blocked_thread, can_step. destruct (th_prog th); try done; intros Hb; (split; [|done]);
    intros (b & t' & w' & Hc & He); cbn [estep] in He; try done; unfold k_semop, k_msgrcv in He.
  - apply andb_true_iff in Hb as [Ha Hb]. rewrite Ha, Hb in He. by destruct b.
  - apply andb_true_iff in Hb as [Hb Hq]. apply andb_true_iff in Hb as [Ha Hb]. rewrite Ha in He. destruct b; try done.
    destruct (msg_take typ (w_msgs w)); [done|]. by destruct nowait.
Qed.

Lemma all_blocked s :
  forallb (blocked_thread (s_world s)) (threads s) = true ->
  forall th, th ∈ threads s ->
    ~ can_step th (s_world s) /\ is_undef (th_prog th) = false /\ in_msgsnd (th_prog th) = false.
Proof.
  intros Hall th Hth. apply blocked_thread_stuck. rewrite forallb_forall in Hall. apply Hall. by apply list_elem_of_In.
Qed.

(** The end of a day: a worker has pushed five packages and gone home, and the
    dispatcher has loaded them on a truck. *)
Definition day_ps : list (Z * process) := [(101, PTruck 1); (102, PDispatcher); (103, PWorker 1 (fun _ => zero_Package))].

Definition day_over : sys :=
  drives false "depart" (replicate 400 0%nat ++ replicate 800 1%nat)
    (drives true "depart" (replicate 300 2%nat) (drives false "depart" (replicate 401 2%nat) (boot 16384 day_ps))).

Lemma standstill_witness :
  map (fun th => (waits_message (th_prog th), waits_package (th_prog th), has_ended (th_prog th))) (threads day_over) =
    [(true, false, false); (false, true, false); (false, false, true)] /\
  loaded_ids (w_log (s_world day_over)) = [1; 2; 3; 4; 5] /\ v_belt (w_sem (s_world day_over)) = 1.
Proof.
  split; [vm_compute; reflexivity|]. split; [vm_compute; reflexivity|].
  refine (proj1 (standstill 16384 day_ps day_over _ _)).
  - split; [by apply (bool_decide_unpack _)|]. unfold calm_steps. do 2 (etrans; [|apply drives_calm]). apply drives_calm.
  - apply all_blocked. vm_compute. reflexivity.
Defined.

(** * Sessions, workers, signals *)

(** C13. As long as no [semop] is interrupted: whenever the belt mutex is free, the session table is sound: 210
    slots, no two active sessions with the same name (as [strncmp] compares
    it), and every session within its process quota. *)
Theorem session_table_sound qbytes ps s :
  reachable qbytes ps s -> v_belt (w_sem (s_world s)) = 1 -> users_wf (users (w_shm (s_world s))).
Proof. intros Hr Hf. destruct (belt_free_inv _ _ _ Hr Hf) as [n HB]. apply (bi_users _ _ HB). Qed.

Lemma session_table_sound_witness :
  map active (take 4 (users (w_shm (s_world (demo demo_run))))) = [true; true; true; false] /\
  users_wf (users (w_shm (s_world (demo demo_run)))).
Proof.
  split; [vm_compute; reflexivity|].
  apply (session_table_sound 16384 demo_ps); [apply demo_reachable|vm_compute; reflexivity].
Defined.

(** C14. As long as no [semop] is interrupted, the worker counter is never negative and never exceeds the number of
    processes; while the belt mutex is free it is within the belt's limit. *)
Theorem worker_count_bounds qbytes ps s :
  reachable qbytes ps s ->
  0 <= current_workers_count (w_shm (s_world s)) <= Z.of_nat (length ps) /\
  (v_belt (w_sem (s_world s)) = 1 -> current_workers_count (w_shm (s_world s)) <= MAX_WORKERS_PER_BELT).
Proof.
  intros Hr. destruct (reachable_inv _ _ _ Hr) as (os & n & oc & Hinv). split.
  - rewrite (i_workers Hinv). rewrite <- (length_map (fun pp => is_carrier (snd pp)) ps).
    change (map (fun pp => is_carrier pp.2) ps) with (carriers ps). rewrite <- (i_carriers Hinv), length_map.
    apply sumZ_count. intros o. unfold reg_count, b2z. by case_match; lia.
  - intros Hf. destruct (belt_free_inv _ _ _ Hr Hf) as [n' HB]. apply (bi_workers _ _ HB).
Qed.

Lemma worker_count_bounds_witness :
  current_workers_count (w_shm (s_world (demo demo_run))) = 1 /\
  0 <= current_workers_count (w_shm (s_world (demo demo_run))) <= Z.of_nat (length demo_ps).
Proof.
  split; [vm_compute; reflexivity|]. exact (proj1 (worker_count_bounds 16384 demo_ps _ (demo_reachable _))).
Defined.

(** The emergency stop is final: once [running] is false it stays false. *)
Theorem stop_is_final qbytes ps s s' :
  reachable qbytes ps s -> calm_steps s s' ->
  running (w_shm (s_world s)) = false -> running (w_shm (s_world s')) = false.
Proof.
  intros Hr Hst Hrun. assert (sys_inv (carriers ps) s) as Hinv by (exact (reachable_inv qbytes ps s Hr)).
  clear Hr. induction Hst as [|s1 s2 s3 H1 _ IH]; [done|].
  apply IH; [by eapply calm_step_running|by eapply calm_step_inv].
Qed.
