(* ===== verification/Fairness.v ===== *)
(** * Fair runs

    An infinite run of the system is a sequence of states with the thread that
    moves at each time, or nobody.  Weak fairness: a thread that stays able to
    move does move.  Strong fairness: a thread that is able to move again and
    again does move; this is what System V semaphores give to processes that
    wait in [semop], since a waiting process is not overtaken for ever.

    The results of this file hold for any application of the logic: because
    loops rest outside the critical sections, the holder of a mutex releases it,
    a request for a mutex is granted, and every operation comes to a point
    where the process waits for others, looks at its loop condition, or ends. *)

From S2P Require Import Prelude Double Shared Ipc Logic.

(** ** Runs *)

Record execution := mkExecution { state : nat -> sys; moves : nat -> option (nat * answer) }.

Section Execution.
Context (e : execution).

Definition world_at (n : nat) : world := s_world (state e n).

Definition log_at (n : nat) : list log_msg := w_log (world_at n).

(** Thread [i] moves at time [n]. *)
Definition moved (n i : nat) : Prop := exists a, moves e n = Some (i, a).

(** What happens at time [n] is a calm step of the thread, or nothing. *)
Definition calm_move (n : nat) : Prop :=
  match moves e n with
  | None => state e (S n) = state e n
  | Some (i, a) =>
      exists th, threads (state e n) !! i = Some th /\ calm_answer (th_prog th) a = true /\
        sys_step i a (state e n) = Some (state e (S n))
  end.

Definition is_run : Prop := forall n, calm_move n.

Definition enabled (n i : nat) : Prop :=
  exists th, threads (state e n) !! i = Some th /\ can_step th (world_at n).

Definition weakly_fair : Prop :=
  forall i n, exists m, (n <= m)%nat /\ (moved m i \/ ~ enabled m i).

Definition strongly_fair : Prop :=
  forall i n, exists m, (n <= m)%nat /\ (moved m i \/ forall m', (m <= m')%nat -> ~ enabled m' i).

(** No counter reaches the end of its range. *)
Definition no_overflow : Prop := forall n, ~ counter_at_max (w_shm (world_at n)).

(** The message queue exists and has room again and again. *)
Definition room_recurs : Prop :=
  forall n, exists m, (n <= m)%nat /\ w_msg_alive (world_at m) = true /\ msg_room (world_at m) = true.

Lemma strongly_weakly : strongly_fair -> weakly_fair.
Proof. intros Hf i n. destruct (Hf i n) as (m & Hm & [H|H]); exists m; [auto|]. split; [done|]. right. by apply H. Qed.

#[global] Instance moved_dec n i : Decision (moved n i).
Proof.
  unfold moved. destruct (moves e n) as [[j a]|]; [|right; by intros [? ?]].
  destruct (decide (j = i)) as [->|Hne]; [left; eauto|right; intros [? ?]; congruence].
Defined.

(** The first move of a thread in an interval, if there is one. *)
Lemma first_move i n m :
  (n <= m)%nat ->
  (exists k, (n <= k < m)%nat /\ moved k i /\ forall j, (n <= j < k)%nat -> ~ moved j i) \/
  (forall k, (n <= k < m)%nat -> ~ moved k i).
Proof.
  induction 1 as [|m Hle IH]; [right; lia|]. destruct IH as [(k & Hk & Hm & Hf)|Hno].
  - left. exists k. split; [lia|done].
  - destruct (decide (moved m i)) as [Hm|Hm]; [left; exists m; auto with lia|].
    right. intros k Hk. destruct (decide (k = m)) as [->|]; [done|]. apply Hno. lia.
Qed.

End Execution.

(** A finite schedule as a run: it is played, and then nothing happens. *)
Definition scripted (sched : list (nat * answer)) (s : sys) : execution :=
  mkExecution (fun n => default s (calm_run (take n sched) s)) (fun n => sched !! n).

Lemma calm_run_app l1 l2 s : calm_run (l1 ++ l2) s = (calm_run l1 s ≫= calm_run l2).
Proof.
  revert s; induction l1 as [|[i a] l1 IH]; intros s; [done|]. cbn.
  destruct (threads s !! i) as [th|]; [|done]. destruct (calm_answer (th_prog th) a); [|done].
  destruct (sys_step i a s); [apply IH|done].
Qed.

Section Scripted.
Context (sched : list (nat * answer)) (s f : sys) (Hplay : calm_run sched s = Some f).

Lemma scripted_prefix n : calm_run (take n sched) s = Some (state (scripted sched s) n).
Proof.
  cbn. destruct (calm_run (take n sched) s) as [s'|] eqn:E; [done|]. exfalso.
  rewrite <- (take_drop n sched), calm_run_app, E in Hplay. done.
Qed.

Lemma scripted_run : is_run (scripted sched s).
Proof.
  intros n. unfold calm_move. pose proof (scripted_prefix n) as Hn. pose proof (scripted_prefix (S n)) as Hn1.
  change (moves (scripted sched s) n) with (sched !! n).
  generalize dependent (state (scripted sched s) n). generalize dependent (state (scripted sched s) (S n)).
  intros s1 H1 s0 H0. destruct (sched !! n) as [[i a]|] eqn:E.
  - rewrite (take_S_r _ _ _ E), calm_run_app, H0 in H1. cbn in H1.
    destruct (threads s0 !! i) as [th|] eqn:Eth; [|done]. exists th. split; [done|].
    destruct (calm_answer (th_prog th) a); [|done]. split; [done|]. by destruct (sys_step i a s0).
  - apply lookup_ge_None in E. rewrite take_ge in H0, H1 by lia. congruence.
Qed.

Lemma scripted_end n : (length sched <= n)%nat -> state (scripted sched s) n = f.
Proof. intros Hn. cbn. rewrite take_ge by done. by rewrite Hplay. Qed.

(** If nobody can move in the last state, the run is fair. *)
Lemma scripted_fair : (forall th, th ∈ threads f -> ~ can_step th (s_world f)) -> strongly_fair (scripted sched s).
Proof.
  intros Hstuck i n. exists (n + length sched)%nat. split; [lia|]. right. intros m Hm (th & Hth & Hcan).
  unfold world_at in Hcan. rewrite scripted_end in Hth, Hcan by lia. eapply Hstuck; [|exact Hcan].
  by eapply list_elem_of_lookup_2.
Qed.

End Scripted.

(** A property of all states of a schedule, checked in one pass. *)
Fixpoint calm_all (P : sys -> bool) (sched : list (nat * answer)) (s : sys) : bool :=
  P s &&
  match sched with
  | [] => true
  | (i, a) :: rest => match sys_step i a s with Some s' => calm_all P rest s' | None => true end
  end.

Lemma calm_all_prefix P sched s n s' :
  calm_all P sched s = true -> calm_run (take n sched) s = Some s' -> P s' = true.
Proof.
  revert s n; induction sched as [|[i a] sched IH]; intros s n Hall Hr.
  - rewrite take_nil in Hr. cbn in *. simplify_eq. by apply andb_true_iff in Hall as [? _].
  - apply andb_true_iff in Hall as [Hs Hall]. destruct n as [|n]; [by cbn in Hr; simplify_eq|]. cbn in Hr, Hall.
    destruct (threads s !! i) as [th|]; [|done]. destruct (calm_answer (th_prog th) a); [|done].
    destruct (sys_step i a s) as [s1|]; [by eapply IH|done].
Qed.

(** ** Programs get smaller until they come to a loop *)

Definition is_loop {A} (t : prog A) : bool := match t with Loop _ _ _ => true | _ => false end.

Definition smaller {A} (t' t : prog A) : Prop :=
  is_loop t = false /\ exists pid a w w', estep pid a t w = Some (t', w').

Lemma smaller_wf {A} (t : prog A) : Acc smaller t.
Proof.
  induction t; constructor; intros t' (Hl & p & b & w & w' & Hst); cbn [estep is_loop] in Hl, Hst;
    try discriminate Hl; try discriminate Hst;
    repeat match type of Hst with
    | Some _ = Some _ => injection Hst as <- _
    | match ?x with _ => _ end = Some _ => destruct x; try discriminate Hst
    end;
    match goal with IH : _ |- _ => first [exact IH|apply IH] end.
Qed.

(** Where an operation has come to its end: the process has ended, is about to
    look at a loop condition, or waits for a slot, a package or a message. *)
Definition at_rest {A} (t : prog A) : bool :=
  match t with
  | Ret _ | Exit _ | Loop _ _ _ | Msgrcv _ _ _ => true
  | Semop SEM_EMPTY_SLOTS op _ | Semop SEM_FULL_SLOTS op _ => op <? 0
  | _ => false
  end.

Definition takes_belt {A} (t : prog A) : bool := match t with Semop SEM_MUTEX_BELT op _ => op <? 0 | _ => false end.
Definition takes_dock {A} (t : prog A) : bool := match t with Semop SEM_DOCK_MUTEX op _ => op <? 0 | _ => false end.

Section Fair.
Context {P : Protocol}.

(** ** One state *)

Section OneState.
Context (cs : list bool) (ths : list thread) (w : world) (os : list own) (n : Z) (oc : option Z).
Context (Hinv : inv cs ths w os n oc).
Context (i : nat) (th : thread) (o : own) (Hth : ths !! i = Some th) (Ho : os !! i = Some o).

(** Without overflow no thread is in undefined behaviour. *)
Lemma defined_thread : ~ counter_at_max (w_shm w) -> is_undef (th_prog th) = false.
Proof.
  intros Hc. pose proof (i_wp Hinv i th o Hth Ho) as Hwp. destruct (th_prog th); try done.
  specialize (Hwp _ (agree_refl _ _) (know_own _ _ _ _ _ _ Hinv i o Ho)). by destruct Hwp.
Qed.

(** A thread inside an operation waits only for a mutex or for room in the queue. *)
Lemma moves_when :
  at_rest (th_prog th) = false -> is_undef (th_prog th) = false ->
  (takes_belt (th_prog th) = true -> 1 <= v_belt (w_sem w)) ->
  (takes_dock (th_prog th) = true -> 1 <= v_dock (w_sem w)) ->
  (in_msgsnd (th_prog th) = true -> w_msg_alive w = true /\ msg_room w = true) ->
  can_step th w.
Proof.
  intros Hr Hu Hb Hd Hm. pose proof (i_wp Hinv i th o Hth Ho) as Hwp.
  pose proof (i_belt Hinv). pose proof (i_dock Hinv). pose proof (i_empty Hinv). pose proof (i_full Hinv).
  destruct (th_prog th) as [| |g k|idx op k|m k|typ nw k| | | | |m k| | | |path argv k|k|kp sg k|St R body s k| |] eqn:Et;
    cbn in *; try done; specialize (Hwp _ (agree_refl _ _) (know_own _ _ _ _ _ _ Hinv i o Ho)); cbn in Hwp;
    try (by exists ANone; rewrite Et; cbn; do 2 eexists; split; reflexivity);
    try (by exists (ABool true); rewrite Et; cbn; do 2 eexists; split; reflexivity);
    try (by exists (AInt (-1)); rewrite Et; cbn; do 2 eexists; split; reflexivity).
  - exists ANone. rewrite Et. cbn. rewrite (i_alive Hinv).
    assert (0 <= sem_get (w_sem w) idx + op) as Hge.
    { destruct idx; cbn in *; destruct Hwp as [[-> _]|[-> _]]; try done; try lia. }
    rewrite (proj2 (Z.ltb_ge _ _) Hge). destruct (SEMVMX <? _); do 2 eexists; split; reflexivity.
  - exists ANone. rewrite Et. cbn. destruct Hm as [-> ->]; [done|]. destruct (mtype m <? 1); do 2 eexists; split; reflexivity.
  - exists (AInt lo). rewrite Et. cbn. destruct Hwp as [Hle _].
    rewrite Z.leb_refl, (proj2 (Z.leb_le _ _) Hle). cbn. do 2 eexists; split; reflexivity.
  - exists (AReal lo). rewrite Et. cbn. destruct Hwp as [-> _]. do 2 eexists; split; reflexivity.
  - exists (ALine None). rewrite Et. cbn. do 2 eexists; split; reflexivity.
Qed.

(** The holder of a mutex is inside an operation and does not wait for a mutex. *)
Lemma holder_busy :
  ~ unlocked o -> at_rest (th_prog th) = false /\ takes_belt (th_prog th) = false /\ takes_dock (th_prog th) = false.
Proof.
  intros Hlk. pose proof (i_wp Hinv i th o Hth Ho) as Hwp.
  destruct (th_prog th); try done; specialize (Hwp _ (agree_refl _ _) (know_own _ _ _ _ _ _ Hinv i o Ho)); cbn in Hwp.
  - by destruct Hwp as (Hb & Hd & _), Hlk.
  - destruct i0; destruct Hwp as [(-> & Hu & _)|[-> _]]; try done;
      unfold takes_slot, takes_package, resting in Hu; by destruct_and?.
  - by destruct Hwp as [[? _] _].
  - destruct Hwp as (I & HI & _ & Hre & _). by destruct (Hre _ _ _ HI).
  - by destruct Hwp as (_ & Hb & Hd & _), Hlk.
Qed.

Lemma belt_holder_silent : o_belt o <> None -> in_msgsnd (th_prog th) = false.
Proof.
  intros Hb. pose proof (i_wp Hinv i th o Hth Ho) as Hwp. destruct (th_prog th); try done.
  specialize (Hwp _ (agree_refl _ _) (know_own _ _ _ _ _ _ Hinv i o Ho)). by destruct Hwp as [[? _] _].
Qed.

(** A thread with a permit is inside an operation of the belt. *)
Lemma permit_busy :
  1 <= o_ep o \/ 1 <= o_fp o ->
  at_rest (th_prog th) = false /\ takes_dock (th_prog th) = false /\ in_msgsnd (th_prog th) = false.
Proof.
  intros Hp. pose proof (i_wp Hinv i th o Hth Ho) as Hwp.
  destruct (th_prog th); try done; specialize (Hwp _ (agree_refl _ _) (know_own _ _ _ _ _ _ Hinv i o Ho)); cbn in Hwp.
  - destruct Hwp as (_ & _ & ? & ? & _). lia.
  - destruct i0; destruct Hwp as [(-> & Hu & _)|[-> _]]; try done;
      unfold takes_slot, takes_package, resting in Hu; destruct_and?; lia.
  - destruct Hwp as [(_ & ? & ?) _]. lia.
  - destruct Hwp as [(_ & ? & ?) _]. lia.
  - destruct Hwp as (I & HI & _ & Hre & _). destruct (Hre _ _ _ HI) as (_ & ? & ?). lia.
  - destruct Hwp as (_ & _ & _ & ? & ? & _). lia.
Qed.

(** When the holder lets go, the mutex is free. *)
Lemma belt_all_free : (forall x, x ∈ os -> o_belt x = None) -> v_belt (w_sem w) = 1.
Proof.
  intros Hall. pose proof (i_belt Hinv) as [He _]. rewrite (sumZ_zero holds_belt) in He; [lia|].
  intros x Hx. unfold holds_belt. by rewrite (Hall x Hx).
Qed.

Lemma dock_all_free : (forall x, x ∈ os -> o_dock x = None) -> v_dock (w_sem w) = 1.
Proof.
  intros Hall. pose proof (i_dock Hinv) as [He _]. rewrite (sumZ_zero holds_dock) in He; [lia|].
  intros x Hx. unfold holds_dock. by rewrite (Hall x Hx).
Qed.

End OneState.

(** ** Along a run *)

Section Run.
Context (e : execution) (cs : list bool).
Context (Hrun : is_run e) (Hstart : sys_inv cs (state e 0)) (Hno : no_overflow e).

Definition inv_at (n : nat) (os : list own) (c : Z) (oc : option Z) : Prop :=
  inv cs (threads (state e n)) (world_at e n) os c oc.

(** One move of the thread itself. *)
Lemma own_move n os c oc i a :
  inv_at n os c oc -> moves e n = Some (i, a) ->
  exists th o t' o' c' oc',
    threads (state e n) !! i = Some th /\ os !! i = Some o /\ calm_answer (th_prog th) a = true /\
    estep (th_pid th) a (th_prog th) (world_at e n) = Some (t', world_at e (S n)) /\
    threads (state e (S n)) = <[i := mkThread (th_pid th) t']> (threads (state e n)) /\
    inv_at (S n) (<[i:=o']> os) c' oc' /\
    own_moves (th_prog th) (world_at e (S n)) o o' c c'.
Proof.
  intros Hinv Hmv. pose proof (Hrun n) as Hc. unfold calm_move in Hc. rewrite Hmv in Hc.
  destruct Hc as (th & Hth & Hcalm & Hst). unfold sys_step in Hst. rewrite Hth in Hst.
  destruct (estep (th_pid th) a (th_prog th) (s_world (state e n))) as [[t' w']|] eqn:E; [|done]. injection Hst as Hst.
  destruct (thread_owner _ _ _ _ _ _ Hinv i th Hth) as [o Ho].
  destruct (thread_step _ _ _ _ _ _ Hinv i th o Hth Ho a t' w' Hcalm E) as (o' & c' & oc' & Hinv' & Hmoves).
  exists th, o, t', o', c', oc'. unfold inv_at, world_at in *. rewrite <- Hst. done.
Qed.

(** What happens at a time at which thread [i] does not move. *)
Lemma other_move n os c oc i :
  inv_at n os c oc -> ~ moved e n i ->
  exists os' c' oc', inv_at (S n) os' c' oc' /\ os' !! i = os !! i /\
    threads (state e (S n)) !! i = threads (state e n) !! i.
Proof.
  intros Hinv Hnm. pose proof (Hrun n) as Hc. unfold calm_move in Hc.
  destruct (moves e n) as [[j a]|] eqn:Hmv.
  - destruct (own_move n os c oc j a Hinv Hmv) as (th & o & t' & o' & c' & oc' & Hth & Ho & _ & _ & Hths & Hinv' & _).
    assert (j <> i) as Hji by (intros ->; apply Hnm; by exists a).
    exists (<[j:=o']> os), c', oc'. split; [done|]. by rewrite Hths, !list_lookup_insert_ne.
  - exists os, c, oc. unfold inv_at, world_at in *. by rewrite Hc.
Qed.

(** The log only grows. *)
Lemma log_step n : log_at e n `prefix_of` log_at e (S n).
Proof.
  pose proof (Hrun n) as Hc. unfold calm_move in Hc. unfold log_at, world_at.
  destruct (moves e n) as [[j a]|]; [|by rewrite Hc]. destruct Hc as (th & Hth & _ & Hst).
  unfold sys_step in Hst. rewrite Hth in Hst.
  destruct (estep (th_pid th) a (th_prog th) (s_world (state e n))) as [[t' w']|] eqn:E; [|done]. injection Hst as <-.
  cbn. apply estep_log in E as [->|[m ->]]; [done|by apply prefix_app_r].
Qed.

Lemma log_grows n m : (n <= m)%nat -> log_at e n `prefix_of` log_at e m.
Proof. induction 1; [done|]. etrans; [done|apply log_step]. Qed.

Lemma inv_always n : exists os c oc, inv_at n os c oc.
Proof.
  induction n as [|n (os & c & oc & Hinv)]; [exact Hstart|].
  destruct (moves e n) as [[i a]|] eqn:Hmv.
  - destruct (own_move n os c oc i a Hinv Hmv) as (th & o & t' & o' & c' & oc' & _ & _ & _ & _ & _ & Hinv' & _). eauto.
  - pose proof (Hrun n) as Hc. unfold calm_move in Hc. rewrite Hmv in Hc. unfold inv_at, world_at. rewrite Hc. eauto.
Qed.

Lemma stays n m i os c oc :
  (n <= m)%nat -> (forall k, (n <= k < m)%nat -> ~ moved e k i) -> inv_at n os c oc ->
  exists os' c' oc', inv_at m os' c' oc' /\ os' !! i = os !! i /\
    threads (state e m) !! i = threads (state e n) !! i.
Proof.
  intros Hle Hnm Hinv. induction Hle as [|m Hle IH]; [by exists os, c, oc|].
  destruct IH as (os1 & c1 & oc1 & Hinv1 & Ho1 & Ht1); [intros k Hk; apply Hnm; lia|].
  destruct (other_move m os1 c1 oc1 i Hinv1) as (os2 & c2 & oc2 & Hinv2 & Ho2 & Ht2); [apply Hnm; lia|].
  exists os2, c2, oc2. split; [done|]. by rewrite Ho2, Ho1, Ht2, Ht1.
Qed.

(** Thread [i] is still the thread [th] with ownership [o]. *)
Definition still (i : nat) (th : thread) (o : own) (m : nat) : Prop :=
  threads (state e m) !! i = Some th /\ exists os c oc, inv_at m os c oc /\ os !! i = Some o.

(** It moves at time [m], unchanged until then. *)
Definition acts (i : nat) (th : thread) (o : own) (m : nat) : Prop := still i th o m /\ moved e m i.

Lemma still_until i th o n m :
  still i th o n -> (n <= m)%nat -> (forall k, (n <= k < m)%nat -> ~ moved e k i) -> still i th o m.
Proof.
  intros (Hth & os & c & oc & Hinv & Ho) Hle Hnm.
  destruct (stays n m i os c oc Hle Hnm Hinv) as (os' & c' & oc' & Hinv' & Ho' & Ht').
  split; [by rewrite Ht'|]. exists os', c', oc'. by rewrite Ho'.
Qed.

(** Weak fairness: a thread that is able to move as long as it does not, moves. *)
Lemma weak_acts_while (C : nat -> Prop) i th o n :
  weakly_fair e -> still i th o n -> C n -> (forall m, (n <= m)%nat -> C m -> ~ moved e m i -> still i th o m -> C (S m)) ->
  (forall m, (n <= m)%nat -> still i th o m -> C m -> can_step th (world_at e m)) ->
  exists m, (n <= m)%nat /\ acts i th o m.
Proof.
  intros Hf Hs HC Hnext Hcan. destruct (Hf i n) as (m & Hm & Hcase).
  destruct (first_move e i n m Hm) as [(k & Hk & Hmk & Hnk)|Hnone].
  - exists k. split; [lia|]. split; [|done]. eapply still_until; [done|lia|done].
  - assert (still i th o m) as Hsm by (by eapply still_until).
    destruct Hcase as [Hmm|Hdis]; [by exists m|]. exfalso. apply Hdis. exists th. split; [apply Hsm|]. apply Hcan; [done|done|].
    clear Hdis Hsm. induction Hm as [|m Hm IH]; [done|].
    apply Hnext; [done|apply IH; intros k Hk; apply Hnone; lia|apply Hnone; lia|].
    eapply still_until; [done|done|]. intros k Hk. apply Hnone. lia.
Qed.

Lemma weak_acts i th o n :
  weakly_fair e -> still i th o n ->
  (forall m, (n <= m)%nat -> still i th o m -> can_step th (world_at e m)) ->
  exists m, (n <= m)%nat /\ acts i th o m.
Proof. intros Hf Hs Hcan. apply (weak_acts_while (fun _ => True)); auto. Qed.

(** Strong fairness: it moves, or it is never able to again. *)
Lemma strong_cases i th o n :
  strongly_fair e -> still i th o n ->
  (exists m, (n <= m)%nat /\ acts i th o m) \/
  (exists m, (n <= m)%nat /\ still i th o m /\ forall m', (m <= m')%nat -> ~ enabled e m' i).
Proof.
  intros Hf Hs. destruct (Hf i n) as (m & Hm & Hcase).
  destruct (first_move e i n m Hm) as [(k & Hk & Hmk & Hnk)|Hnone].
  - left. exists k. split; [lia|]. split; [|done]. eapply still_until; [done|lia|done].
  - assert (still i th o m) as Hsm by (by eapply still_until).
    destruct Hcase as [Hmm|Hdis]; [left; by exists m|]. right. by exists m.
Qed.

(** A [semop] is never disturbed, so a thread in it moves only when it is able to. *)
Lemma semop_moved n i th :
  threads (state e n) !! i = Some th -> in_semop (th_prog th) = true -> moved e n i -> enabled e n i.
Proof.
  intros Hth Hsem [a Hmv]. pose proof (Hrun n) as Hc. unfold calm_move in Hc. rewrite Hmv in Hc.
  destruct Hc as (th1 & Hth1 & Hcalm & Hst). simplify_eq. exists th. split; [done|].
  unfold sys_step in Hst. rewrite Hth in Hst.
  destruct (estep (th_pid th) a (th_prog th) (s_world (state e n))) as [[t' w']|] eqn:E; [|done].
  exists a, t', w'. split; [|done]. unfold calm_answer in Hcalm. rewrite Hsem in Hcalm. by destruct a.
Qed.

Lemma semop_cases i th o n :
  strongly_fair e -> still i th o n -> in_semop (th_prog th) = true ->
  (exists m, (n <= m)%nat /\ acts i th o m) \/
  (exists m, (n <= m)%nat /\ forall m', (m <= m')%nat -> still i th o m' /\ ~ can_step th (world_at e m')).
Proof.
  intros Hf Hs Hsem. destruct (strong_cases i th o n Hf Hs) as [Ha|(m & Hm & Hsm & Hdis)]; [by left|].
  right. exists m. split; [done|]. assert (forall m', (m <= m')%nat -> still i th o m') as Hstill.
  { induction 1 as [|m' Hm' IH]; [done|]. eapply still_until; [exact IH|lia|]. intros k Hk Hmk.
    assert (k = m') as -> by lia. apply (Hdis m' Hm'). eapply semop_moved; [apply IH|done|done]. }
  intros m' Hm'. split; [auto|]. intros Hcan. apply (Hdis m' Hm'). exists th. split; [by apply Hstill|done].
Qed.

Lemma strong_acts i th o n :
  strongly_fair e -> still i th o n ->
  (forall m, (n <= m)%nat -> exists m', (m <= m')%nat /\ (still i th o m' -> can_step th (world_at e m'))) ->
  exists m, (n <= m)%nat /\ acts i th o m.
Proof.
  intros Hf Hs Hrec. destruct (strong_cases i th o n Hf Hs) as [|(m & Hm & Hsm & Hdis)]; [done|].
  destruct (Hrec m Hm) as (m' & Hm' & Hcan).
  destruct (first_move e i m m' Hm') as [(k & Hk & Hmk & Hnk)|Hnone].
  - exists k. split; [lia|]. split; [|done]. eapply still_until; [done|lia|done].
  - exfalso. assert (still i th o m') as Hs' by (by eapply still_until). apply (Hdis m' Hm').
    exists th. split; [apply Hs'|]. by apply Hcan.
Qed.

(** The move itself, with the ownership before and after it. *)
Record move_of (i : nat) (th : thread) (o : own) (n : nat) (t' : prog unit) (o' : own)
    (os : list own) (c c' : Z) (oc oc' : option Z) : Prop := {
  mv_before : threads (state e n) !! i = Some th;
  mv_own : os !! i = Some o;
  mv_inv : inv_at n os c oc;
  mv_after : threads (state e (S n)) !! i = Some (mkThread (th_pid th) t');
  mv_step : exists a, calm_answer (th_prog th) a = true /\
              estep (th_pid th) a (th_prog th) (world_at e n) = Some (t', world_at e (S n));
  mv_smaller : is_loop (th_prog th) = false -> smaller t' (th_prog th);
  mv_own' : <[i:=o']> os !! i = Some o';
  mv_inv' : inv_at (S n) (<[i:=o']> os) c' oc';
  mv_moves : own_moves (th_prog th) (world_at e (S n)) o o' c c' }.

Lemma acts_move i th o n :
  acts i th o n -> exists t' o' os c c' oc oc', move_of i th o n t' o' os c c' oc oc'.
Proof.
  intros [(Hth & os & c & oc & Hinv & Ho) [a Hmv]].
  destruct (own_move n os c oc i a Hinv Hmv) as (th1 & o1 & t' & o' & c' & oc' & Hth1 & Ho1 & Hcalm & Hst & Hths & Hinv' & Hmoves).
  simplify_eq. exists t', o', os, c, c', oc, oc'. split; try done.
  - rewrite Hths. apply list_lookup_insert_eq. by eapply lookup_lt_Some.
  - by exists a.
  - intros Hl. split; [done|]. by exists (th_pid th), a, (world_at e n), (world_at e (S n)).
  - apply list_lookup_insert_eq. by eapply lookup_lt_Some.
Qed.

Lemma at_rest_loop {A} (t : prog A) : at_rest t = false -> is_loop t = false.
Proof. by destruct t. Qed.

(** The rule for progress: as long as [J] holds of the thread it is inside an
    operation and moves on, and each move keeps [J] or reaches the goal [G];
    then the goal is reached, since the operation is finite. *)
Lemma leads_to i (J : nat -> thread -> own -> Prop) (G : nat -> Prop) :
  (forall n th o, still i th o n -> J n th o ->
     at_rest (th_prog th) = false /\ exists m, (n <= m)%nat /\ acts i th o m) ->
  (forall n m th o, (n <= m)%nat -> J n th o -> J m th o) ->
  (forall m th o t' o' os c c' oc oc', move_of i th o m t' o' os c c' oc oc' -> J m th o ->
     G (S m) \/ J (S m) (mkThread (th_pid th) t') o') ->
  forall n th o, still i th o n -> J n th o -> exists m, (n <= m)%nat /\ G m.
Proof.
  intros Hact Hmono Hstep n th o. remember (th_prog th) as t eqn:Ht. pose proof (smaller_wf t) as Hacc.
  revert n th o Ht. induction Hacc as [t _ IH]; intros n th o Ht Hs HJ.
  destruct (Hact n th o Hs HJ) as (Hrest & m & Hm & Ha).
  destruct (acts_move i th o m Ha) as (t' & o' & os & c & c' & oc & oc' & Hmv).
  destruct (Hstep m th o t' o' os c c' oc oc' Hmv) as [HG|HJ']; [by eapply Hmono|exists (S m); split; [lia|done]|].
  destruct (IH t') with (n := S m) (th := mkThread (th_pid th) t') (o := o') as (m' & Hm' & HG); try done.
  - rewrite Ht. by apply (mv_smaller _ _ _ _ _ _ _ _ _ _ _ Hmv), at_rest_loop.
  - split; [by apply (mv_after _ _ _ _ _ _ _ _ _ _ _ Hmv)|].
    exists (<[i:=o']> os), c', oc'. split; [apply (mv_inv' _ _ _ _ _ _ _ _ _ _ _ Hmv)|apply (mv_own' _ _ _ _ _ _ _ _ _ _ _ Hmv)].
  - exists m'. split; [lia|done].
Qed.

(** *** The mutexes are released *)

(** What only the moving thread held, nobody holds when it lets go. *)
Lemma nobody_holds {T} (f : own -> option T) (i : nat) (o' : own) (os : list own) :
  (forall j x, os !! j = Some x -> i <> j -> f x = None) -> f o' = None -> forall x, x ∈ <[i:=o']> os -> f x = None.
Proof.
  intros Hex Hf x Hx. apply list_elem_of_lookup in Hx as [j Hj].
  apply lookup_insert_cases in Hj as [[_ ->]|[Hij Hj]]; [done|]. by eapply Hex.
Qed.

Lemma belt_release n : weakly_fair e -> exists m, (n <= m)%nat /\ v_belt (w_sem (world_at e m)) = 1.
Proof.
  intros Hf. destruct (inv_always n) as (os & c & oc & Hinv).
  destruct (decide (v_belt (w_sem (world_at e n)) = 1)) as [He|Hne]; [by exists n|].
  destruct (belt_holder _ _ _ _ _ _ Hinv) as (i & th & o & Hth & Ho & Hb).
  { pose proof (i_belt Hinv). pose proof (sumZ_nonneg holds_belt os (holds_belt_nonneg os)). lia. }
  apply (leads_to i (fun _ _ o => o_belt o <> None) (fun m => v_belt (w_sem (world_at e m)) = 1)) with (th := th) (o := o);
    [|done| |split; [done|eauto]|done].
  - clear -Hf Hrun Hno. intros n th o Hs Hb.
    assert (~ unlocked o) as Hun by (by intros [? _]). split.
    { destruct Hs as (Hth & os & c & oc & Hinv & Ho). by eapply (holder_busy _ _ _ _ _ _ Hinv). }
    apply weak_acts; [done|done|]. intros m Hm (Hth & os & c & oc & Hinv & Ho).
    destruct (holder_busy _ _ _ _ _ _ Hinv i th o Hth Ho Hun) as (H1 & H2 & H3).
    apply (moves_when _ _ _ _ _ _ Hinv i th o Hth Ho H1); [|by rewrite H2|by rewrite H3|].
    + by eapply (defined_thread _ _ _ _ _ _ Hinv).
    + by rewrite (belt_holder_silent _ _ _ _ _ _ Hinv i th o Hth Ho Hb).
  - clear. intros m th o t' o' os c c' oc oc' [_ Ho Hinv _ _ _ _ Hinv' _] Hb.
    destruct (o_belt o') eqn:Eb; [by right|]. left. eapply (belt_all_free _ _ _ _ _ _ Hinv').
    apply nobody_holds; [|done]. intros j x Hx Hij. by eapply (belt_exclusive _ _ _ _ _ _ Hinv i o).
Qed.

(** *** The permits

    A carrier takes permits for packages and gives permits for slots; the
    others take permits for slots and give permits for packages. *)

Definition taken (o : own) : Z := if o_carrier o then o_fp o else o_ep o.
Definition owed (o : own) : Z := if o_carrier o then o_ep o else o_fp o.
Definition given (o : own) (w : world) : Z := if o_carrier o then v_empty (w_sem w) else v_full (w_sem w).

(** What a move does to the permits of the thread: nothing; it takes the belt;
    it leaves the belt, and for each package moved a permit taken becomes a
    permit owed; it gives a permit back; or it takes one, and had none. *)
Lemma permit_move i th o m t' o' os c c' oc oc' :
  move_of i th o m t' o' os c c' oc oc' ->
  o_carrier o' = o_carrier o /\
  ((taken o' = taken o /\ owed o' = owed o /\ o_belt o' = o_belt o) \/
   (taken o' = taken o /\ owed o' = owed o /\ o_belt o' = Some c /\ BInv (world_view (world_at e (S m))) c) \/
   (exists d, 0 <= d /\ taken o' = taken o - d /\ owed o' = owed o + d /\ o_belt o = Some c /\ o_belt o' = None /\
      BInv (world_view (world_at e (S m))) c' /\ c' = c + (if o_carrier o then - d else d)) \/
   (taken o' = taken o /\ owed o' = owed o - 1 /\ o_belt o' = o_belt o /\ 1 <= given o (world_at e (S m))) \/
   (taken o = 0 /\ owed o = 0 /\ taken o' = 1 /\ owed o' = 0 /\ o_belt o' = None)).
Proof.
  intros [Hth Ho Hinv _ _ _ _ Hinv' (Hcar & _ & Hm)]. split; [done|].
  pose proof (i_wp Hinv i th o Hth Ho) as Hwp. pose proof (know_own _ _ _ _ _ _ Hinv i o Ho) as Hk.
  pose proof (i_empty Hinv') as He'. pose proof (i_full Hinv') as Hf'.
  rewrite (sumZ_insert _ _ _ _ _ Ho) in He'. rewrite (sumZ_insert _ _ _ _ _ Ho) in Hf'.
  pose proof (i_empty Hinv) as He. pose proof (i_full Hinv) as Hf. unfold taken, owed, given. rewrite Hcar.
  destruct (th_prog th) as [| | |[] op k| | | | | | | | | | | | | | | |] eqn:Et;
    try (left; destruct Hm as (-> & -> & -> & ->); by destruct (o_carrier o));
    specialize (Hwp _ (agree_refl _ _) Hk); cbn in Hwp.
  - destruct Hm as (HB & [(-> & -> & -> & -> & ->)|(-> & -> & Hfl & -> & -> & ->)]).
    + right. left. by destruct (o_carrier o).
    + right. right. left. unfold flow_ok in Hfl. exists (if o_carrier o then c - c' else c' - c).
      destruct (o_carrier o); repeat split; try done; lia.
  - destruct Hm as (-> & -> & Hep & Hfp). destruct Hwp as [(-> & [[[Hb _] [Hz1 Hz2]] Hc] & _)|(-> & [Hone Hc] & _)];
      rewrite Hc, Hep, Hfp in *.
    + do 4 right. repeat split; try done; lia.
    + do 3 right. left. repeat split; try done; lia.
  - destruct Hm as (-> & -> & Hep & Hfp). destruct Hwp as [(-> & [[[Hb _] [Hz1 Hz2]] [Hc _]] & _)|(-> & [Hone Hc] & _)];
      rewrite Hc, Hep, Hfp in *.
    + do 4 right. repeat split; try done; lia.
    + do 3 right. left. repeat split; try done; lia.
Qed.

(** From here on the run is strongly fair. *)
Context (Hfair : strongly_fair e).

Lemma dock_release n : room_recurs e -> exists m, (n <= m)%nat /\ v_dock (w_sem (world_at e m)) = 1.
Proof.
  intros Hroom. destruct (inv_always n) as (os & c & oc & Hinv).
  destruct (decide (v_dock (w_sem (world_at e n)) = 1)) as [He|Hne]; [by exists n|].
  destruct (dock_holder _ _ _ _ _ _ Hinv) as (i & th & o & Hth & Ho & Hb).
  { pose proof (i_dock Hinv). pose proof (sumZ_nonneg holds_dock os (holds_dock_nonneg os)). lia. }
  apply (leads_to i (fun _ _ o => o_dock o <> None) (fun m => v_dock (w_sem (world_at e m)) = 1)) with (th := th) (o := o);
    [|done| |split; [done|eauto]|done].
  - clear -Hfair Hrun Hno Hroom. intros n th o Hs Hb.
    assert (~ unlocked o) as Hun by (by intros [_ ?]). split.
    { destruct Hs as (Hth & os & c & oc & Hinv & Ho). by eapply (holder_busy _ _ _ _ _ _ Hinv). }
    apply strong_acts; [done|done|]. intros m Hm. destruct (Hroom m) as (m' & Hm' & Hr). exists m'. split; [done|].
    intros (Hth & os & c & oc & Hinv & Ho).
    destruct (holder_busy _ _ _ _ _ _ Hinv i th o Hth Ho Hun) as (H1 & H2 & H3).
    apply (moves_when _ _ _ _ _ _ Hinv i th o Hth Ho H1); [|by rewrite H2|by rewrite H3|done].
    by eapply (defined_thread _ _ _ _ _ _ Hinv).
  - clear. intros m th o t' o' os c c' oc oc' [_ Ho Hinv _ _ _ _ Hinv' _] Hb.
    destruct (o_dock o') eqn:Eb; [by right|]. left. eapply (dock_all_free _ _ _ _ _ _ Hinv').
    apply nobody_holds; [|done]. intros j x Hx Hij. by eapply (dock_exclusive _ _ _ _ _ _ Hinv i o).
Qed.

(** A thread inside an operation moves on: a mutex it asks for is granted. *)
Lemma busy_acts i th o n :
  still i th o n -> at_rest (th_prog th) = false ->
  (takes_dock (th_prog th) = true \/ in_msgsnd (th_prog th) = true -> room_recurs e) ->
  exists m, (n <= m)%nat /\ acts i th o m.
Proof.
  intros Hs Hrest Hroom.
  assert (forall m, exists m', (m <= m')%nat /\
            (takes_belt (th_prog th) = true -> 1 <= v_belt (w_sem (world_at e m'))) /\
            (takes_dock (th_prog th) = true -> 1 <= v_dock (w_sem (world_at e m'))) /\
            (in_msgsnd (th_prog th) = true -> w_msg_alive (world_at e m') = true /\ msg_room (world_at e m') = true)) as Hrec.
  { intros m. pose proof (strongly_weakly e Hfair) as Hweak.
    destruct (th_prog th) as [| | |[] op k|mm k| | | | | | | | | | | | | | |] eqn:Et;
      try (exists m; split; [done|split; [done|split; done]]).
    - destruct (belt_release m Hweak) as (m' & Hm' & Hv). exists m'. rewrite Hv. by split; [|split; [|split]].
    - cbn in *. destruct (op <? 0) eqn:Eop; [|by exists m; auto].
      destruct (dock_release m) as (m' & Hm' & Hv); [auto|]. exists m'. rewrite Hv. by split; [|split; [|split]].
    - destruct (Hroom (or_intror eq_refl) m) as (m' & Hm' & Hr). exists m'. done. }
  apply strong_acts; [done|done|]. intros m Hm. destruct (Hrec m) as (m' & Hm' & H1 & H2 & H3). exists m'. split; [done|].
  intros (Hth & os & c & oc & Hinv & Ho). apply (moves_when _ _ _ _ _ _ Hinv i th o Hth Ho Hrest); try done.
  by eapply (defined_thread _ _ _ _ _ _ Hinv).
Qed.

(** *** Every operation comes to its end *)

Lemma finishes i n th :
  room_recurs e -> threads (state e n) !! i = Some th ->
  exists m th', (n <= m)%nat /\ threads (state e m) !! i = Some th' /\ at_rest (th_prog th') = true.
Proof.
  intros Hroom Hth. destruct (inv_always n) as (os & c & oc & Hinv).
  destruct (thread_owner _ _ _ _ _ _ Hinv i th Hth) as [o Ho].
  destruct (at_rest (th_prog th)) eqn:Er; [by exists n, th|].
  destruct (leads_to i (fun _ th _ => at_rest (th_prog th) = false)
             (fun m => exists th', threads (state e m) !! i = Some th' /\ at_rest (th_prog th') = true))
    with (n := n) (th := th) (o := o) as (m & Hm & th' & Hth' & Hr'); try done.
  - clear -Hfair Hrun Hno Hroom Hstart. intros n th o Hs Hr. split; [done|]. by apply busy_acts.
  - clear. intros m th o t' o' os c c' oc oc' Hmv _. pose proof (mv_after _ _ _ _ _ _ _ _ _ _ _ Hmv) as Ht'.
    destruct (at_rest t') eqn:Er; [left|by right]. eauto.
  - split; [done|]. eauto.
  - exists m, th'. done.
Qed.

End Run.
End Fair.
