(* ===== verification/Liveness.v ===== *)
(** * The warehouse keeps moving

    Liveness of the booted system in strongly fair runs without interrupted
    [semop]s and without overflow of a counter: mutexes are released, operations
    end, and as long as the dispatchers come back to the belt, every package is
    loaded on a truck and every worker gets its slot. *)

From S2P Require Import Prelude Double Shared Ipc Belt SessionManager Truck Dispatcher Express Manager Worker.
From S2P Require Import Terminal Args Master Processes Logic Rules Invariants BeltProof DockProof ProcessProof Safety.
From S2P Require Import Fairness.

(** ** Packages counted in the log *)

Definition pushes (l : list log_msg) : Z := Z.of_nat (length (pushed_ids l)).
Definition pops (l : list log_msg) : Z := Z.of_nat (length (popped_ids l)).

Lemma pushes_prefix l l' : l `prefix_of` l' -> pushes l <= pushes l'.
Proof. intros [k ->]. unfold pushes, pushed_ids. rewrite omap_app, length_app. lia. Qed.

Lemma pops_prefix l l' : l `prefix_of` l' -> pops l <= pops l'.
Proof. intros [k ->]. unfold pops, popped_ids. rewrite omap_app, length_app. lia. Qed.

Lemma loaded_prefix l l' p : l `prefix_of` l' -> p ∈ loaded_ids l -> p ∈ loaded_ids l'.
Proof. intros [k ->]. unfold loaded_ids. rewrite omap_app. set_solver. Qed.

(** While the mutex is free, the belt holds what was pushed and not popped. *)
Lemma belt_balance v n : belt_inv v n -> pushes (v_log v) - pops (v_log v) = n.
Proof.
  intros HB. pose proof (bi_log _ _ HB) as Hq. rewrite queue_run_belt_log in Hq.
  destruct (queue_run_ids _ _ _ Hq) as (Hp & Ho & Hle & _). unfold pushes, pops. rewrite Hp, Ho, !length_seqZ.
  pose proof (bi_total _ _ HB). lia.
Qed.

Section Flow.
Context (e : execution) (cs : list bool).
Context (Hrun : is_run e) (Hstart : sys_inv cs (state e 0)) (Hno : no_overflow e) (Hfair : strongly_fair e).

Local Abbreviation still := (still e cs).
Local Abbreviation inv_at := (inv_at e cs).

Lemma owed_nonneg n os c oc i o : inv_at n os c oc -> os !! i = Some o -> 0 <= owed o.
Proof.
  intros Hinv Ho. pose proof (i_nonneg Hinv o (list_elem_of_lookup_2 _ _ _ Ho)). unfold owed. destruct (o_carrier o); lia.
Qed.

(** A thread that holds a permit moves on. *)
Lemma permit_acts i th o n :
  still i th o n -> 1 <= taken o \/ 1 <= owed o ->
  at_rest (th_prog th) = false /\ exists m, (n <= m)%nat /\ acts e cs i th o m.
Proof.
  intros Hs Hp. destruct (Hs) as (Hth & os & c & oc & Hinv & Ho).
  destruct (permit_busy _ _ _ _ _ _ Hinv i th o Hth Ho) as (H1 & H2 & H3).
  { unfold taken, owed in Hp. destruct (o_carrier o); lia. }
  split; [done|]. eapply busy_acts; [done..|]. intros [|]; congruence.
Qed.

(** A permit owed is given back. *)
Lemma gives_back i th o n :
  still i th o n -> 1 <= owed o -> exists m, (n <= m)%nat /\ 1 <= given o (world_at e m).
Proof.
  intros Hs Howed.
  apply (leads_to e cs Hrun i (fun _ _ x => 1 <= owed x /\ o_carrier x = o_carrier o)
           (fun m => 1 <= given o (world_at e m))) with (th := th) (o := o); try done.
  - intros k th1 o1 Hs1 [H1 _]. apply permit_acts; [done|by right].
  - intros m th1 o1 t' o' os c c' oc oc' Hmv [H1 Hc1].
    destruct (permit_move _ _ _ _ _ _ _ _ _ _ _ _ _ Hmv) as (Hc & [Hk|[Hk|[(d & Hk)|[Hk|Hk]]]]); try (right; split; [lia|congruence]).
    left. unfold given in *. rewrite Hc1 in Hk. apply Hk.
Qed.

(** A permit taken outside the critical section becomes, after a package has
    been moved, a permit owed. *)
Lemma moves_package i th o n :
  still i th o n -> o_belt o = None -> 1 <= taken o ->
  exists m, (n <= m)%nat /\ exists th' o', still i th' o' m /\ o_carrier o' = o_carrier o /\ 1 <= owed o' /\
    (if o_carrier o then pops (log_at e n) < pops (log_at e m) else pushes (log_at e n) < pushes (log_at e m)).
Proof.
  intros Hs Hb Htaken.
  apply (leads_to e cs Hrun i
    (fun k _ x => (n <= k)%nat /\ 1 <= taken x /\ o_carrier x = o_carrier o /\
       forall y, o_belt x = Some y ->
         exists l, log_at e n `prefix_of` l /\ l `prefix_of` log_at e k /\ pushes l - pops l = y)
    (fun m => exists th' o', still i th' o' m /\ o_carrier o' = o_carrier o /\ 1 <= owed o' /\
       (if o_carrier o then pops (log_at e n) < pops (log_at e m) else pushes (log_at e n) < pushes (log_at e m))))
    with (th := th) (o := o); try done.
  - intros k th1 o1 Hs1 (_ & H1 & _). apply permit_acts; [done|by left].
  - intros k m th1 o1 Hle (Hk & H1 & H3 & H4). repeat split; try done; [lia|]. intros y Hy.
    destruct (H4 y Hy) as (l & ? & ? & ?). exists l. split; [done|]. split; [|done]. etrans; [done|]. by apply log_grows.
  - intros m th1 o1 t' o' os c c' oc oc' Hmv (Hm & H1 & H3 & H4).
    destruct (permit_move _ _ _ _ _ _ _ _ _ _ _ _ _ Hmv) as (Hc & [Hk|[Hk|[(d & Hk)|[Hk|Hk]]]]).
    + right. destruct Hk as (-> & _ & ->). rewrite Hc. repeat split; try done; [lia|]. intros y Hy.
      destruct (H4 y Hy) as (l & ? & ? & ?). exists l. split; [done|]. split; [|done]. etrans; [done|]. apply log_grows; [done|lia].
    + right. destruct Hk as (-> & _ & -> & HB). rewrite Hc. repeat split; try done; [lia|]. intros y [= <-].
      exists (log_at e (S m)). split; [apply log_grows; [done|lia]|]. split; [done|]. by apply belt_balance in HB.
    + destruct Hk as (Hd & Ht & Hw & Hin & Hout & HB & Hcc). destruct (decide (d = 0)) as [->|Hd0].
      * right. rewrite Ht, Hout, Hc. repeat split; try done; lia.
      * left. exists (mkThread (th_pid th1) t'), o'. destruct (H4 c Hin) as (l & Hl1 & Hl2 & Hl3).
        split; [split; [apply Hmv|exists (<[i:=o']> os), c', oc'; split; apply Hmv]|].
        split; [congruence|]. assert (0 <= owed o1) by (eapply owed_nonneg; apply Hmv).
        split; [lia|]. apply belt_balance in HB. cbn in HB.
        change (w_log (world_at e (S m))) with (log_at e (S m)) in HB. rewrite H3 in Hcc.
        assert (l `prefix_of` log_at e (S m)) as Hl4 by (etrans; [exact Hl2|apply log_grows; [done|lia]]).
        apply pushes_prefix in Hl1 as Hp1. apply pops_prefix in Hl1 as Hq1.
        apply pushes_prefix in Hl4 as Hp2. apply pops_prefix in Hl4 as Hq2.
        destruct (o_carrier o); lia.
    + right. destruct Hk as (-> & _ & -> & _). rewrite Hc. repeat split; try done; [lia|].
      intros y Hy. destruct (H4 y Hy) as (l & ? & ? & ?). exists l. split; [done|]. split; [|done].
      etrans; [done|]. apply log_grows; [done|lia].
    + lia.
  - repeat split; try done. by rewrite Hb.
Qed.

(** *** A dispatcher at the belt *)

(** Again and again a dispatcher waits for a package. *)
Context (Hback : forall n, exists m i th, (n <= m)%nat /\ threads (state e m) !! i = Some th /\ waits_package (th_prog th) = true).

(** A thread that waits for a package: what it is and what it needs. *)
Lemma waits_package_spec n os c oc i th o :
  inv_at n os c oc -> threads (state e n) !! i = Some th -> os !! i = Some o -> waits_package (th_prog th) = true ->
  resting o /\ o_carrier o = true /\ o_pend o = [] /\ (1 <= v_full (w_sem (world_at e n)) -> can_step th (world_at e n)).
Proof.
  intros Hinv Hth Ho Hw. pose proof (i_wp Hinv i th o Hth Ho) as Hwp.
  destruct (th_prog th) as [| | |[] op k| | | | | | | | | | | | | | | |] eqn:Et; try done. cbn in Hw.
  destruct (Hwp _ (agree_refl _ _) (know_own _ _ _ _ _ _ Hinv i o Ho)) as [(-> & (Hr & Hc & Hp) & _)|(-> & _)]; [|done].
  repeat split; try done; try apply Hr. intros Hv. exists ANone. rewrite Et. cbn. rewrite (i_alive Hinv).
  rewrite (proj2 (Z.ltb_ge _ _)) by lia. destruct (SEMVMX <? _); do 2 eexists; split; reflexivity.
Qed.

Lemma waits_slot_spec n os c oc i th o :
  inv_at n os c oc -> threads (state e n) !! i = Some th -> os !! i = Some o -> waits_slot (th_prog th) = true ->
  resting o /\ o_carrier o = false /\ (1 <= v_empty (w_sem (world_at e n)) -> can_step th (world_at e n)).
Proof.
  intros Hinv Hth Ho Hw. pose proof (i_wp Hinv i th o Hth Ho) as Hwp.
  destruct (th_prog th) as [| | |[] op k| | | | | | | | | | | | | | | |] eqn:Et; try done. cbn in Hw.
  destruct (Hwp _ (agree_refl _ _) (know_own _ _ _ _ _ _ Hinv i o Ho)) as [(-> & (Hr & Hc) & _)|(-> & _)]; [|done].
  repeat split; try done; try apply Hr. intros Hv. exists ANone. rewrite Et. cbn. rewrite (i_alive Hinv).
  rewrite (proj2 (Z.ltb_ge _ _)) by lia. destruct (SEMVMX <? _); do 2 eexists; split; reflexivity.
Qed.

(** Later on, a dispatcher has taken a permit for a package; or the belt is
    free, no permit for a package is left, and no worker is inside an
    operation of the belt. *)
Lemma dispatcher_turn n :
  exists m os c oc, (n <= m)%nat /\ inv_at m os c oc /\
    ((exists i th o, still i th o m /\ o_carrier o = true /\ o_belt o = None /\ 1 <= o_fp o) \/
     (v_belt (w_sem (world_at e m)) = 1 /\ v_full (w_sem (world_at e m)) = 0 /\
      forall o, o ∈ os -> o_carrier o = false -> o_ep o = 0 /\ o_fp o = 0)).
Proof.
  destruct (Hback n) as (m0 & i & th & Hm0 & Hth & Hw).
  destruct (inv_always e cs Hrun Hstart m0) as (os0 & c0 & oc0 & Hinv0).
  destruct (thread_owner _ _ _ _ _ _ Hinv0 i th Hth) as [o Ho0].
  destruct (waits_package_spec _ _ _ _ _ _ _ Hinv0 Hth Ho0 Hw) as ([[Hb Hd] [He Hf]] & Hc & _ & _).
  assert (still i th o m0) as Hs0 by (split; [done|eauto]).
  assert (in_semop (th_prog th) = true) as Hsem by (by destruct (th_prog th)).
  destruct (semop_cases e cs Hrun i th o m0 Hfair Hs0 Hsem) as [(m & Hm & Ha)|(m1 & Hm1 & Hdis)].
  { destruct (acts_move e cs Hrun i th o m Ha) as (t' & o' & os & c & c' & oc & oc' & Hmv).
    exists (S m), (<[i:=o']> os), c', oc'. split; [lia|]. split; [apply Hmv|]. left.
    exists i, (mkThread (th_pid th) t'), o'. pose proof (mv_moves _ _ _ _ _ _ _ _ _ _ _ _ _ Hmv) as (Hc' & _ & Hk).
    split; [split; [apply Hmv|exists (<[i:=o']> os), c', oc'; split; apply Hmv]|]. rewrite Hc'. split; [done|].
    destruct (th_prog th) as [| | |[] op k| | | | | | | | | | | | | | | |]; try done. cbn in Hw. zbool.
    destruct Hk as (_ & -> & _ & ->). split; [done|lia]. }
  assert (forall m, (m1 <= m)%nat -> v_full (w_sem (world_at e m)) = 0) as Hzero.
  { intros m Hm. destruct (Hdis m Hm) as [(Hth' & os & c & oc & Hinv & Ho) Hcan].
    destruct (waits_package_spec _ _ _ _ _ _ _ Hinv Hth' Ho Hw) as (_ & _ & _ & Hstep). pose proof (i_full Hinv).
    destruct (decide (1 <= v_full (w_sem (world_at e m)))); [by destruct Hcan; apply Hstep|lia]. }
  assert (forall j th1 o1 m, (m1 <= m)%nat -> still j th1 o1 m -> o_carrier o1 = false -> o_fp o1 <= 0) as Hnofp.
  { intros j th1 o1 m Hm Hs1 Hc1. destruct (decide (1 <= o_fp o1)); [|lia]. exfalso.
    destruct (gives_back j th1 o1 m Hs1) as (m2 & Hm2 & Hg); [by unfold owed; rewrite Hc1|].
    unfold given in Hg. rewrite Hc1, Hzero in Hg by lia. lia. }
  destruct (belt_release e cs Hrun Hstart Hno m1) as (m & Hm & Hbelt); [by apply strongly_weakly|].
  destruct (inv_always e cs Hrun Hstart m) as (os & c & oc & Hinv).
  exists m, os, c, oc. split; [lia|]. split; [done|]. right. split; [done|]. split; [by apply Hzero|].
  intros o1 Ho1 Hc1. pose proof (i_nonneg Hinv o1 Ho1) as [? ?].
  assert (o_belt o1 = None) as Hb1 by (eapply (belt_free _ _ _ _ _ _ Hinv); [lia|done]).
  apply list_elem_of_lookup in Ho1 as [j Hj]. destruct (owner_thread _ _ _ _ _ _ Hinv j o1 Hj) as [th1 Hth1].
  assert (still j th1 o1 m) as Hs1 by (split; [done|eauto]).
  split; [|pose proof (Hnofp j th1 o1 m Hm Hs1 Hc1); lia].
  destruct (decide (1 <= o_ep o1)); [|lia]. exfalso.
  destruct (moves_package j th1 o1 m Hs1 Hb1) as (m2 & Hm2 & th2 & o2 & Hs2 & Hc2 & Ho2 & _); [by unfold taken; rewrite Hc1|].
  rewrite Hc1 in Hc2. pose proof (Hnofp j th2 o2 m2 ltac:(lia) Hs2 Hc2). unfold owed in Ho2. rewrite Hc2 in Ho2. lia.
Qed.

(** At such a turn the packages on the belt are in the hands of dispatchers. *)
Lemma carrier_ready m os c oc :
  inv_at m os c oc -> v_belt (w_sem (world_at e m)) = 1 -> v_full (w_sem (world_at e m)) = 0 ->
  (forall o, o ∈ os -> o_carrier o = false -> o_ep o = 0 /\ o_fp o = 0) ->
  c = pushes (log_at e m) - pops (log_at e m) /\
  (0 < c -> exists i th o, still i th o m /\ o_carrier o = true /\ o_belt o = None /\ 1 <= o_fp o) /\
  (c = 0 -> v_empty (w_sem (world_at e m)) = 0 -> exists i th o, still i th o m /\ o_carrier o = true /\ 1 <= o_ep o).
Proof.
  intros Hinv Hb Hf Hw. pose proof (belt_free _ _ _ _ _ _ Hinv) as Hfree. rewrite Hb in Hfree. specialize (Hfree ltac:(lia)).
  pose proof (i_full Hinv) as [Hfull _]. pose proof (i_empty Hinv) as [Hempty _].
  assert (forall (f : own -> Z), (forall o, o ∈ os -> o_carrier o = false -> f o = 0) -> 0 < sumZ f os ->
          exists i th o, still i th o m /\ o_carrier o = true /\ o_belt o = None /\ 1 <= f o) as Hex.
  { intros f Hf0 (o & Ho & Hpos)%sumZ_pos. pose proof (Hfree o Ho). destruct (o_carrier o) eqn:Ec; [|rewrite Hf0 in Hpos by done; lia].
    apply list_elem_of_lookup in Ho as [i Ho]. destruct (owner_thread _ _ _ _ _ _ Hinv i o Ho) as [th Hth].
    exists i, th, o. split; [split; [done|eauto]|]. repeat split; try done; lia. }
  split; [|split].
  - by rewrite <- (belt_balance _ _ (i_binv Hinv Hfree)).
  - intros Hc. apply (Hex o_fp); [intros o Ho Hc0; by apply Hw|lia].
  - intros -> He. destruct (Hex o_ep) as (i & th & o & ? & ? & _ & ?); [intros o Ho Hc0; by apply Hw| |by exists i, th, o].
    unfold MAX_BELT_CAPACITY_K in *. lia.
Qed.

(** A belt that is not empty is popped. *)
Lemma popped_again n :
  pops (log_at e n) < pushes (log_at e n) -> exists m, (n <= m)%nat /\ pops (log_at e n) < pops (log_at e m).
Proof.
  intros Hlt. destruct (dispatcher_turn n) as (m & os & c & oc & Hm & Hinv & Hcase).
  pose proof (log_grows e Hrun n m Hm) as Hpre. apply pops_prefix in Hpre as Hq. apply pushes_prefix in Hpre as Hp.
  assert ((exists i th o, still i th o m /\ o_carrier o = true /\ o_belt o = None /\ 1 <= o_fp o) ->
          exists m, (n <= m)%nat /\ pops (log_at e n) < pops (log_at e m)) as Hdone.
  { intros (i & th & o & Hs & Hc & Hb & Hfp).
    destruct (moves_package i th o m Hs Hb) as (m2 & Hm2 & _ & _ & _ & _ & _ & Hcount); [by unfold taken; rewrite Hc|].
    rewrite Hc in Hcount. exists m2. split; [lia|lia]. }
  destruct Hcase as [Hcar|(Hb & Hf & Hw)]; [by apply Hdone|].
  destruct (carrier_ready m os c oc Hinv Hb Hf Hw) as (Hc & Hcar & _).
  destruct (decide (pops (log_at e n) < pops (log_at e m))); [by exists m|]. apply Hdone, Hcar. lia.
Qed.

(** A free slot comes back. *)
Lemma slot_again n : exists m, (n <= m)%nat /\ 1 <= v_empty (w_sem (world_at e m)).
Proof.
  destruct (dispatcher_turn n) as (m & os & c & oc & Hm & Hinv & Hcase).
  assert (forall i th o m1, (n <= m1)%nat -> still i th o m1 -> o_carrier o = true -> 1 <= o_ep o ->
          exists m, (n <= m)%nat /\ 1 <= v_empty (w_sem (world_at e m))) as Hgive.
  { intros i th o m1 Hm1 Hs Hc He. destruct (gives_back i th o m1 Hs) as (m2 & Hm2 & Hg); [by unfold owed; rewrite Hc|].
    unfold given in Hg. rewrite Hc in Hg. exists m2. split; [lia|done]. }
  assert ((exists i th o, still i th o m /\ o_carrier o = true /\ o_belt o = None /\ 1 <= o_fp o) ->
          exists m, (n <= m)%nat /\ 1 <= v_empty (w_sem (world_at e m))) as Hdone.
  { intros (i & th & o & Hs & Hc & Hb & Hfp).
    destruct (moves_package i th o m Hs Hb) as (m2 & Hm2 & th2 & o2 & Hs2 & Hc2 & Ho2 & _); [by unfold taken; rewrite Hc|].
    rewrite Hc in Hc2. unfold owed in Ho2. rewrite Hc2 in Ho2. eapply (Hgive i th2 o2 m2); [lia|done..]. }
  destruct Hcase as [Hcar|(Hb & Hf & Hw)]; [by apply Hdone|].
  destruct (carrier_ready m os c oc Hinv Hb Hf Hw) as (_ & Hcar & Hcar0).
  pose proof (sem_bounds _ _ _ _ _ _ Hinv). pose proof (i_empty Hinv).
  destruct (decide (1 <= v_empty (w_sem (world_at e m)))); [by exists m|].
  destruct (decide (0 < c)); [by apply Hdone, Hcar|].
  destruct Hcar0 as (i & th & o & Hs & Hc & He); [lia|lia|]. by eapply (Hgive i th o m).
Qed.

End Flow.

(** ** Runs of the booted system *)

Record run_of (qbytes : Z) (ps : list (Z * process)) (e : execution) : Prop := {
  ro_pids : NoDup (map fst ps);
  ro_boot : state e 0 = boot qbytes ps;
  ro_run : is_run e;
  ro_counters : no_overflow e }.

(** Process [i] comes back to the belt again and again to wait for a package. *)
Definition comes_back (e : execution) (i : nat) : Prop :=
  forall n, exists m th, (n <= m)%nat /\ threads (state e m) !! i = Some th /\ waits_package (th_prog th) = true.

Section Runs.
Context (qbytes : Z) (ps : list (Z * process)) (e : execution) (Hof : run_of qbytes ps e).

Lemma run_inv : sys_inv (carriers ps) (state e 0).
Proof. rewrite (ro_boot _ _ _ Hof). apply boot_inv, (ro_pids _ _ _ Hof). Qed.

Lemma run_numbers n :
  exists p q, pushed_ids (log_at e n) = seqZ 1 p /\ popped_ids (log_at e n) = seqZ 1 q /\ 0 <= q <= p /\
    pushes (log_at e n) = p /\ pops (log_at e n) = q.
Proof.
  destruct (inv_always e _ (ro_run _ _ _ Hof) run_inv n) as (os & c & oc & Hinv).
  destruct (i_log Hinv) as [Hq _]. rewrite queue_run_belt_log in Hq.
  destruct (queue_run (w_log (world_at e n))) as [[p q]|] eqn:E; [|done].
  destruct (queue_run_ids _ _ _ E) as (H1 & H2 & H3 & _). exists p, q. unfold log_at, pushes, pops.
  rewrite H1, H2, !length_seqZ. repeat split; try done; lia.
Qed.

(** A package in the hand of a dispatcher stays there until it is loaded. *)
Lemma hand_keeps i p n m os c oc o :
  (n <= m)%nat -> inv_at e (carriers ps) n os c oc -> os !! i = Some o -> p ∈ o_pend o ->
  p ∈ loaded_ids (log_at e m) \/
  exists os' c' oc' o', inv_at e (carriers ps) m os' c' oc' /\ os' !! i = Some o' /\ p ∈ o_pend o'.
Proof.
  intros Hle Hinv Ho Hp. pose proof (ro_run _ _ _ Hof) as Hrun. induction Hle as [|m Hle IH]; [right; by exists os, c, oc, o|].
  destruct IH as [Hl|(os1 & c1 & oc1 & o1 & Hinv1 & Ho1 & Hp1)].
  { left. eapply loaded_prefix; [|exact Hl]. by apply log_step. }
  destruct (decide (moved e m i)) as [[a Hmv]|Hnm].
  - destruct (own_move e _ Hrun m os1 c1 oc1 i a Hinv1 Hmv)
      as (th & o2 & t' & o' & c' & oc' & Hth & Ho2 & _ & Hst & _ & Hinv' & (_ & Hk & _)). simplify_eq.
    assert (<[i:=o']> os1 !! i = Some o') as Ho' by (apply list_lookup_insert_eq; by eapply lookup_lt_Some).
    destruct (th_prog th) as [| | | | | | | | | |mm k| | | | | | | | |] eqn:Et;
      try (right; exists (<[i:=o']> os1), c', oc', o'; by rewrite Hk).
    destruct mm; try (right; exists (<[i:=o']> os1), c', oc', o'; cbn in Hk; by rewrite Hk).
    + cbn in Hk. destruct Hk as (_ & Hnil & _). rewrite Hnil in Hp1. set_solver.
    + cbn in Hk. destruct Hk as [Hone _]. rewrite Hone in Hp1. apply list_elem_of_singleton in Hp1 as ->.
      left. destruct a; try done. cbn in Hst. injection Hst as _ Hw. unfold log_at. rewrite <- Hw. cbn.
      unfold loaded_ids. rewrite omap_app. cbn. set_solver.
  - destruct (other_move e _ Hrun m os1 c1 oc1 i Hinv1 Hnm) as (os2 & c2 & oc2 & Hinv2 & Ho2 & _).
    right. exists os2, c2, oc2, o1. by rewrite Ho2.
Qed.

Context (Hfair : strongly_fair e).

Lemma popped_eventually n p :
  (exists i, comes_back e i) -> p ∈ pushed_ids (log_at e n) -> exists m, (n <= m)%nat /\ p ∈ popped_ids (log_at e m).
Proof.
  intros [i Hback] Hp. pose proof (ro_run _ _ _ Hof) as Hrun.
  assert (forall k n, p ∈ pushed_ids (log_at e n) -> p - pops (log_at e n) <= Z.of_nat k ->
            exists m, (n <= m)%nat /\ p ∈ popped_ids (log_at e m)) as Hind.
  { clear n Hp. induction k as [|k IH]; intros n Hp Hk; destruct (run_numbers n) as (P & Q & H1 & H2 & H3 & H4 & H5).
    - exists n. split; [done|]. rewrite H2, elem_of_seqZ. rewrite H1, elem_of_seqZ in Hp. lia.
    - rewrite H1, elem_of_seqZ in Hp. destruct (decide (p <= Q)); [exists n; split; [done|]; rewrite H2, elem_of_seqZ; lia|].
      destruct (popped_again e _ Hrun run_inv (ro_counters _ _ _ Hof) Hfair) with (n := n) as (m & Hm & Hlt); [|lia|].
      { intros n'. destruct (Hback n') as (m & th & ? & ? & ?). by exists m, i, th. }
      destruct (IH m) as (m' & Hm' & Hin); [|lia|exists m'; split; [lia|done]].
      destruct (run_numbers m) as (P' & Q' & H1' & _ & _ & H4' & _). rewrite H1', elem_of_seqZ.
      pose proof (pushes_prefix _ _ (log_grows e Hrun n m Hm)). lia. }
  apply (Hind (Z.to_nat (p - pops (log_at e n)))); [done|lia].
Qed.

End Runs.

(** ** A run for examples: the day of [Safety], played as a fair run *)

Fixpoint script (sig : bool) (line : string) (who : list nat) (s : sys) : list (nat * answer) :=
  match who with
  | [] => []
  | i :: rest =>
      match threads s !! i with
      | Some th =>
          match sys_step i (some_answer sig line (th_prog th)) s with
          | Some s' => (i, some_answer sig line (th_prog th)) :: script sig line rest s'
          | None => script sig line rest s
          end
      | None => script sig line rest s
      end
  end.

Definition day_script : list (nat * answer) :=
  let s0 := boot 16384 day_ps in
  let s1 := drives false "depart" (replicate 401 2%nat) s0 in
  let s2 := drives true "depart" (replicate 300 2%nat) s1 in
  script false "depart" (replicate 401 2%nat) s0 ++ script true "depart" (replicate 300 2%nat) s1 ++
  script false "depart" (replicate 400 0%nat ++ replicate 800 1%nat) s2.

Lemma script_drives sig line who s : calm_run (script sig line who s) s = Some (drives sig line who s).
Proof.
  revert s; induction who as [|i who IH]; intros s; [done|]. cbn. unfold drive.
  destruct (threads s !! i) as [th|] eqn:Hi; [|apply IH].
  destruct (sys_step i (some_answer sig line (th_prog th)) s) as [s'|] eqn:Hs; [|apply IH]. cbn. rewrite Hi.
  assert (calm_answer (th_prog th) (some_answer sig line (th_prog th)) = true) as -> by (by destruct (th_prog th)).
  rewrite Hs. apply IH.
Qed.

Definition day : execution := scripted day_script (boot 16384 day_ps).

Lemma day_plays : calm_run day_script (boot 16384 day_ps) = Some day_over.
Proof.
  unfold day_script, day_over. cbv zeta. rewrite calm_run_app, script_drives. cbn [mbind option_bind].
  rewrite calm_run_app, script_drives. cbn [mbind option_bind]. by rewrite script_drives.
Qed.

(** Counters below their limit, by evaluation. *)
Definition counters_small (s : sys) : bool :=
  let x := w_shm (s_world s) in
  (total_packages_created x <? INT_MAX) && (trucks_completed x <? INT_MAX) && (current_load (dock_truck x) <? INT_MAX).

Lemma counters_small_ok s : counters_small s = true -> ~ counter_at_max (w_shm (s_world s)).
Proof. unfold counters_small, counter_at_max. intros H. zbool. lia. Qed.

(** A schedule that ends in a state where nobody can move is a fair run. *)
Section Script.
Context (qbytes : Z) (ps : list (Z * process)) (sched : list (nat * answer)) (f : sys).
Context (Hplay : calm_run sched (boot qbytes ps) = Some f).

Lemma script_run :
  NoDup (map fst ps) -> calm_all counters_small sched (boot qbytes ps) = true ->
  run_of qbytes ps (scripted sched (boot qbytes ps)).
Proof.
  intros Hnd Hall. split; [done|done|apply (scripted_run _ _ _ Hplay)|].
  intros n. apply counters_small_ok. apply (calm_all_prefix counters_small sched (boot qbytes ps) n); [done|].
  apply (scripted_prefix _ _ _ Hplay).
Qed.

Lemma script_fair : forallb (blocked_thread (s_world f)) (threads f) = true -> strongly_fair (scripted sched (boot qbytes ps)).
Proof. intros Hb. apply (scripted_fair _ _ _ Hplay). intros th Hth. by apply (all_blocked f). Qed.

Lemma script_room :
  w_msg_alive (s_world f) = true -> msg_room (s_world f) = true -> room_recurs (scripted sched (boot qbytes ps)).
Proof.
  intros Ha Hr n. exists (n + length sched)%nat. split; [lia|]. unfold world_at.
  rewrite (scripted_end _ _ _ Hplay) by lia. done.
Qed.

End Script.

Lemma day_run : run_of 16384 day_ps day.
Proof. apply (script_run _ _ _ _ day_plays); [by apply (bool_decide_unpack _)|vm_compute; reflexivity]. Qed.

Lemma day_fair : strongly_fair day.
Proof. apply (script_fair _ _ _ _ day_plays). vm_compute. reflexivity. Qed.

(** From the end of the schedule on, the state is the last one. *)
Lemma day_end n : exists m, (n <= m)%nat /\ state day m = day_over.
Proof. exists (n + length day_script)%nat. split; [lia|]. apply (scripted_end _ _ _ day_plays). lia. Qed.

Lemma option_map_some {A B} (f : A -> B) (x : option A) y : option_map f x = Some y -> exists a, x = Some a /\ f a = y.
Proof. destruct x; cbn; intros; simplify_eq. eauto. Qed.

Lemma day_dispatcher : comes_back day 1.
Proof.
  intros n. destruct (day_end n) as (m & Hm & Hs).
  assert (option_map (fun th => waits_package (th_prog th)) (threads day_over !! 1%nat) = Some true) as Hw by (vm_compute; reflexivity).
  apply option_map_some in Hw as (th & Hth & Hw). exists m, th.
  split; [exact Hm|]. rewrite Hs. split; [exact Hth|exact Hw].
Qed.

Lemma day_room : room_recurs day.
Proof. apply (script_room _ _ _ _ day_plays); vm_compute; reflexivity. Qed.

(** * Theorems *)

(** C11. Nobody keeps a mutex, and every operation ends.  In a run of any number
    of processes in which no [semop] is interrupted and no counter overflows: if it is weakly fair, the belt
    mutex is free again and again; if it is strongly fair, a process that asks
    for the belt mutex gets it; if, besides, the message queue has room again
    and again, the dock mutex is free again and again, and every process comes
    again and again to a point where it has ended, looks at its loop condition,
    or waits for a slot, a package or a message. *)
Theorem operations_finish qbytes ps e :
  run_of qbytes ps e ->
  (weakly_fair e -> forall n, exists m, (n <= m)%nat /\ v_belt (w_sem (world_at e m)) = 1) /\
  (strongly_fair e -> forall n i th, threads (state e n) !! i = Some th -> takes_belt (th_prog th) = true ->
     exists m, (n <= m)%nat /\ moved e m i) /\
  (strongly_fair e -> room_recurs e ->
     (forall n, exists m, (n <= m)%nat /\ v_dock (w_sem (world_at e m)) = 1) /\
     forall n i th, threads (state e n) !! i = Some th ->
       exists m th', (n <= m)%nat /\ threads (state e m) !! i = Some th' /\ at_rest (th_prog th') = true).
Proof.
  intros Hof. pose proof (ro_run _ _ _ Hof) as Hrun. pose proof (run_inv _ _ _ Hof) as Hst. pose proof (ro_counters _ _ _ Hof) as Hno.
  split; [intros Hf n; by apply (belt_release e (carriers ps))|]. split.
  - intros Hf n i th Hth Ht. destruct (inv_always e _ Hrun Hst n) as (os & c & oc & Hinv).
    destruct (thread_owner _ _ _ _ _ _ Hinv i th Hth) as [o Ho].
    destruct (busy_acts e _ Hrun Hst Hno Hf i th o n) as (m & Hm & _ & Hmv);
      [split; [done|eauto]|by destruct (th_prog th) as [| | |[]| | | | | | | | | | | | | | | |]| |by exists m].
    intros [Hd|Hs]; by destruct (th_prog th) as [| | |[]| | | | | | | | | | | | | | | |].
  - intros Hf Hroom. split; [intros n; by apply (dock_release e (carriers ps))|].
    intros n i th Hth. by apply (finishes e (carriers ps) Hrun Hst Hno Hf i n th).
Qed.

Lemma operations_finish_witness :
  (forall n, exists m, (n <= m)%nat /\ v_dock (w_sem (world_at day m)) = 1) /\
  forall n i th, threads (state day n) !! i = Some th ->
    exists m th', (n <= m)%nat /\ threads (state day m) !! i = Some th' /\ at_rest (th_prog th') = true.
Proof. exact (proj2 (proj2 (operations_finish 16384 day_ps day day_run)) day_fair day_room). Defined.

(** C23. Every package is delivered: in a strongly fair run of any number of
    processes in which no counter overflows and there is a dispatcher, if every
    dispatcher comes back to the belt again and again, then every package that
    was ever pushed is loaded on a truck in the end (no [semop] interrupted). *)
Theorem packages_delivered qbytes ps e n p :
  run_of qbytes ps e -> strongly_fair e ->
  (exists i, carriers ps !! i = Some true) -> (forall i, carriers ps !! i = Some true -> comes_back e i) ->
  p ∈ pushed_ids (log_at e n) ->
  exists m, (n <= m)%nat /\ p ∈ loaded_ids (log_at e m).
Proof.
  intros Hof Hfair [i0 Hi0] Hback Hp. pose proof (ro_run _ _ _ Hof) as Hrun.
  destruct (popped_eventually _ _ _ Hof Hfair n p) as (m & Hm & Hpop); [eauto|done|].
  destruct (inv_always e _ Hrun (run_inv _ _ _ Hof) m) as (os & c & oc & Hinv).
  unfold log_at in Hpop. rewrite (i_pend Hinv) in Hpop. apply elem_of_app in Hpop as [Hl|Hh]; [by exists m|].
  apply list_elem_of_join in Hh as (l & Hpl & Hl). apply list_elem_of_fmap in Hl as (o & -> & Ho).
  apply list_elem_of_lookup in Ho as [i Ho].
  assert (carriers ps !! i = Some true) as Hi.
  { rewrite <- (i_carriers Hinv), lookup_map, Ho. cbn. f_equal.
    pose proof (i_hand Hinv o (list_elem_of_lookup_2 _ _ _ Ho)) as Hh. destruct (o_carrier o); [done|].
    destruct (o_pend o); [set_solver|cbn in Hh; lia]. }
  destruct (Hback i Hi m) as (m' & th & Hm' & Hth & Hw). exists m'. split; [lia|].
  destruct (hand_keeps _ _ _ Hof i p m m' os c oc o Hm' Hinv Ho Hpl) as [|(os' & c' & oc' & o' & Hinv' & Ho' & Hp')]; [done|].
  destruct (waits_package_spec _ _ _ _ _ _ _ _ _ Hinv' Hth Ho' Hw) as (_ & _ & Hnil & _). rewrite Hnil in Hp'. set_solver.
Qed.

Lemma packages_delivered_witness :
  pushed_ids (log_at day 450) = [1; 2; 3; 4; 5] /\ exists m, (450 <= m)%nat /\ 5 ∈ loaded_ids (log_at day m).
Proof.
  assert (pushed_ids (log_at day 450) = [1; 2; 3; 4; 5]) as Hp by (vm_compute; reflexivity). split; [exact Hp|].
  refine (packages_delivered 16384 day_ps day 450 5 day_run day_fair _ _ _).
  - exists 1%nat. reflexivity.
  - intros [|[|[|i]]] Hi; [discriminate Hi|exact day_dispatcher|discriminate Hi|discriminate Hi].
  - rewrite Hp. exact (list_elem_of_lookup_2 [1; 2; 3; 4; 5] 4 5 eq_refl).
Defined.

(** C33. No worker waits for ever: in a strongly fair run of any number of
    processes in which no counter overflows and some dispatcher comes back to
    the belt again and again, a worker that waits for a free slot gets one, and
    afterwards a package is pushed (no [semop] interrupted). *)
Theorem workers_served qbytes ps e n i th :
  run_of qbytes ps e -> strongly_fair e -> (exists j, comes_back e j) ->
  threads (state e n) !! i = Some th -> waits_slot (th_prog th) = true ->
  exists m m', (n <= m < m')%nat /\ moved e m i /\ pushes (log_at e m) < pushes (log_at e m').
Proof.
  intros Hof Hfair [j Hback] Hth Hw. pose proof (ro_run _ _ _ Hof) as Hrun. pose proof (run_inv _ _ _ Hof) as Hst.
  pose proof (ro_counters _ _ _ Hof) as Hno.
  destruct (inv_always e (carriers ps) Hrun Hst n) as (os & c & oc & Hinv). destruct (thread_owner _ _ _ _ _ _ Hinv i th Hth) as [o Ho].
  destruct (waits_slot_spec _ _ _ _ _ _ _ _ _ Hinv Hth Ho Hw) as ([[Hb _] [He Hf]] & Hc & _).
  destruct (strong_acts e (carriers ps) Hrun i th o n Hfair) as (m & Hm & Ha); [split; [done|eauto]| |].
  { intros m _. destruct (slot_again e (carriers ps) Hrun Hst Hno Hfair) with (n := m) as (m' & Hm' & Hv).
    { intros n'. destruct (Hback n') as (m2 & th2 & ? & ? & ?). by exists m2, j, th2. }
    exists m'. split; [done|]. intros (Hth' & os' & c' & oc' & Hinv' & Ho').
    by apply (waits_slot_spec _ _ _ _ _ _ _ _ _ Hinv' Hth' Ho' Hw). }
  destruct (acts_move e (carriers ps) Hrun i th o m Ha) as (t' & o' & os' & c1 & c1' & oc1 & oc1' & Hmv).
  pose proof (mv_moves _ _ _ _ _ _ _ _ _ _ _ _ _ Hmv) as (Hc' & _ & Hk).
  destruct (moves_package e (carriers ps) Hrun Hst Hno Hfair i (mkThread (th_pid th) t') o' (S m)) as (m' & Hm' & _ & _ & _ & _ & _ & Hcount).
  - split; [apply Hmv|]. exists (<[i:=o']> os'), c1', oc1'. split; apply Hmv.
  - destruct (th_prog th) as [| | |[] op k| | | | | | | | | | | | | | | |]; try done. destruct Hk as (_ & -> & _). done.
  - unfold taken. rewrite Hc', Hc. destruct (th_prog th) as [| | |[] op k| | | | | | | | | | | | | | | |]; try done.
    cbn in Hw. zbool. destruct Hk as (_ & _ & -> & _). lia.
  - rewrite Hc', Hc in Hcount. exists m, m'. split; [lia|]. split; [apply Ha|].
    pose proof (pushes_prefix _ _ (log_step e Hrun m)). lia.
Qed.

Lemma workers_served_witness :
  exists m m', (400 <= m < m')%nat /\ moved day m 2 /\ pushes (log_at day m) < pushes (log_at day m').
Proof.
  assert (option_map (fun th => waits_slot (th_prog th)) (threads (state day 400) !! 2%nat) = Some true) as Hw by (vm_compute; reflexivity).
  apply option_map_some in Hw as (th & Hth & Hw).
  exact (workers_served 16384 day_ps day 400 2 th day_run day_fair (ex_intro _ 1%nat day_dispatcher) Hth Hw).
Defined.
