(* ===== verification/Shutdown.v ===== *)
(** * Termination after the shutdown

    Once [running] is false and the semaphore set and the message queue have
    been removed, every process comes to its end, whatever the interleaving
    and whatever state the processes were in: no call blocks any more, every
    unbounded loop of the sources tests [running] before it goes round again,
    and nothing sets [running] back.

    [settles] is the syntactic condition on a program that makes this work, a
    structural predicate like [wp] that needs no invariant of the shared data;
    strong normalisation ([sn], from stdpp) is the termination statement. *)

From S2P Require Import Prelude Double Shared Ipc Belt SessionManager Truck Dispatcher Express Manager Worker.
From S2P Require Import Terminal Args Master Processes.

(** ** The world after the shutdown *)

Definition is_down (w : world) : Prop :=
  running (w_shm w) = false /\ w_sem_alive w = false /\ w_msg_alive w = false.

(** [IPC_RMID] of the semaphore set and of the queue; the segment stays
    attached. *)
Definition remove_ipc (w : world) : world :=
  mkWorld (w_shm w) (w_sem w) false (w_msgs w) (w_qbytes w) false (w_log w).

(** The error of a call on a removed resource. *)
Definition gone (e : errno) : Prop := e = EIDRM \/ e = EINVAL.

(** Never sets [running] back. *)
Definition stays_stopped (g : SharedState -> SharedState) : Prop :=
  forall s, running s = false -> running (g s) = false.

(** ** What a program can return once the system is down *)

Fixpoint quits {A} (t : prog A) (Q : A -> Prop) : Prop :=
  match t with
  | Ret a => Q a
  | Load f k => forall s, running s = false -> quits (k (f s)) Q
  | Store _ k => quits k Q
  | Semop _ _ k | Msgsnd _ k => forall e, gone e -> quits (k (Some e)) Q
  | Msgrcv _ _ k => forall e, gone e -> quits (k (inl e)) Q
  | Getpid k | RandInt _ _ k | Fork _ _ k | Waitpid k => forall z, quits (k z) Q
  | RandReal _ _ k => forall d, quits (k d) Q
  | Sleep _ k | Log _ k | Kill _ _ k => quits k Q
  | SigFlag k | PollStdin k => forall b, quits (k b) Q
  | Getline k => forall l, quits (k l) Q
  | Loop body s k => quits (body s) (fun r => match r with inl _ => False | inr x => quits (k x) Q end)
  | Exit _ | Undef _ => True
  end.

(** A round that does not ask for another one. *)
Definition last_round {St R} (t : prog (St + R)) : Prop :=
  quits t (fun r => match r with inl _ => False | inr _ => True end).

(** Every loop ends with its next round once the system is down, no store sets
    [running] back, and every random draw has a range to draw from; calls that
    concern the table of processes are made only if [pc]. *)
Fixpoint settles (pc : bool) {A} (t : prog A) : Prop :=
  match t with
  | Ret _ | Exit _ | Undef _ => True
  | Load f k => forall s, settles pc (k (f s))
  | Store g k => stays_stopped g /\ settles pc k
  | Semop _ _ k | Msgsnd _ k => forall r, settles pc (k r)
  | Msgrcv _ _ k => forall r, settles pc (k r)
  | Getpid k => forall z, settles pc (k z)
  | Fork _ _ k | Waitpid k => pc = true /\ forall z, settles pc (k z)
  | RandInt lo hi k => lo <= hi /\ forall z, settles pc (k z)
  | RandReal lo hi k => ((lo <=? lo)%double && (lo <? hi)%double)%bool = true /\ forall d, settles pc (k d)
  | Sleep _ k | Log _ k => settles pc k
  | Kill _ _ k => pc = true /\ settles pc k
  | SigFlag k | PollStdin k => forall b, settles pc (k b)
  | Getline k => forall l, settles pc (k l)
  | Loop body _ k => (forall s, last_round (body s)) /\ (forall s, settles pc (body s)) /\ (forall x, settles pc (k x))
  end.

(** ** Termination of one program *)

(** One step of a program in a world that is down; the world may have changed
    in between. *)
Definition down_step {A} (t t' : prog A) : Prop :=
  exists pid a w w', is_down w /\ estep pid a t w = Some (t', w').

(** Neither a semaphore nor a message call succeeds any more. *)
Lemma down_semop i op a w r w' : is_down w -> k_semop i op a w = Some (r, w') -> exists e, gone e /\ r = Some e /\ w' = w.
Proof.
  intros (_ & Hs & _). unfold k_semop, gone. rewrite Hs. destruct a as [|[]| | | |]; cbn; intros; simplify_eq; eauto.
Qed.

Lemma down_msgsnd m a w r w' : is_down w -> k_msgsnd m a w = Some (r, w') -> exists e, gone e /\ r = Some e /\ w' = w.
Proof.
  intros (_ & _ & Hm). unfold k_msgsnd, gone. rewrite Hm. destruct a as [|[]| | | |]; cbn; intros; simplify_eq; eauto.
Qed.

Lemma down_msgrcv typ nw a w r w' :
  is_down w -> k_msgrcv typ nw a w = Some (r, w') -> exists e, gone e /\ r = inl e /\ w' = w.
Proof.
  intros (_ & _ & Hm). unfold k_msgrcv, gone. rewrite Hm. destruct a as [|[]| | | |]; cbn; intros; simplify_eq; eauto.
Qed.

(** Case analysis on a step in a world that is down. *)
Ltac down_cases H :=
  let pid := fresh "pid" in let a := fresh "a" in let w := fresh "w" in let w' := fresh "w'" in
  let Hd := fresh "Hd" in let Hs := fresh "Hs" in
  destruct H as (pid & a & w & w' & Hd & Hs); cbn in Hs;
  try (match type of Hs with
       | context [k_semop ?i ?op ?a ?w] =>
           let E := fresh "E" in destruct (k_semop i op a w) as [[]|] eqn:E; [|discriminate Hs];
           apply (down_semop _ _ _ _ _ _ Hd) in E as (? & ? & -> & ->)
       | context [k_msgsnd ?m ?a ?w] =>
           let E := fresh "E" in destruct (k_msgsnd m a w) as [[]|] eqn:E; [|discriminate Hs];
           apply (down_msgsnd _ _ _ _ _ Hd) in E as (? & ? & -> & ->)
       | context [k_msgrcv ?t ?nw ?a ?w] =>
           let E := fresh "E" in destruct (k_msgrcv t nw a w) as [[]|] eqn:E; [|discriminate Hs];
           apply (down_msgrcv _ _ _ _ _ _ Hd) in E as (? & ? & -> & ->)
       end);
  try (destruct a; try discriminate Hs); try (match type of Hs with (if ?b then _ else _) = _ => destruct b eqn:?; [|discriminate Hs] end);
  simplify_eq.

(** A program that returns only results from which the rest terminates,
    terminates with the rest. *)
Lemma quits_sn {A B} (t : prog A) (Q : A -> Prop) (c : A -> prog B) :
  quits t Q -> (forall a, Q a -> sn down_step (c a)) -> sn down_step (bind t c).
Proof.
  revert B Q c; induction t; intros B' Q c Hq Hc; cbn in Hq; [by apply Hc|..];
    constructor; intros t' Hst; down_cases Hst;
    try (match goal with IH : _ |- _ => eapply IH; [|exact Hc]; first [exact Hq|apply Hq; assumption|apply Hq, Hd] end).
  (* one round of the loop *)
  eapply H; [exact Hq|]. intros [s'|x] Hx; [destruct Hx|]. cbn. eapply H0; [exact Hx|exact Hc].
Qed.

(** A settling program terminates, from wherever it stands. *)
Lemma settles_terminates pc {A} (t : prog A) : settles pc t -> sn down_step t.
Proof.
  induction t; intros Hs; cbn in Hs; constructor; intros t' Hst; down_cases Hst;
    try (match goal with IH : _ |- _ => apply IH; first [exact Hs|apply Hs] end).
  destruct Hs as (Hl & Hb & Hk). eapply quits_sn; [apply Hl|]. intros [s'|x] Hx; [destruct Hx|]. cbn.
  apply H0. apply Hk.
Qed.

(** ** Closure of the condition *)

Lemma settles_bind pc {A B} (t : prog A) (c : A -> prog B) :
  settles pc t -> (forall a, settles pc (c a)) -> settles pc (bind t c).
Proof. revert B c; induction t; intros B' c Hs Hc; cbn in *; naive_solver. Qed.

Lemma settles_step pc {A} pid a (t t' : prog A) w w' : settles pc t -> estep pid a t w = Some (t', w') -> settles pc t'.
Proof.
  intros Hs Hst. destruct t; cbn in Hst, Hs; try done;
    try (repeat case_match; simplify_eq; by naive_solver).
  destruct a; try done. simplify_eq. apply settles_bind; [apply Hs|]. intros [s'|x]; [done|apply Hs].
Qed.

(** [running] is never set again, even without the locking discipline. *)
Lemma settles_running pc {A} pid a (t t' : prog A) w w' :
  settles pc t -> estep pid a t w = Some (t', w') -> running (w_shm w) = false -> running (w_shm w') = false.
Proof.
  intros Hs Hst Hr. destruct t; cbn in Hst, Hs; unfold k_semop, k_msgsnd, k_msgrcv in Hst;
    repeat case_match; simplify_eq; try done. by apply Hs.
Qed.

(** A step does not create or remove resources. *)
Lemma estep_alive {A} pid a (t t' : prog A) w w' :
  estep pid a t w = Some (t', w') -> w_sem_alive w' = w_sem_alive w /\ w_msg_alive w' = w_msg_alive w.
Proof.
  intros Hst. destruct t; cbn in Hst; unfold k_semop, k_msgsnd, k_msgrcv in Hst; repeat case_match; by simplify_eq.
Qed.

(** The calls that concern the table of processes. *)
Definition process_call {A} (t : prog A) : bool :=
  match t with Fork _ _ _ | Waitpid _ | Kill _ _ _ => true | _ => false end.

Lemma settles_no_call {A} (t : prog A) : settles false t -> process_call t = false.
Proof. intros Hs. destruct t; try done; by destruct Hs. Qed.

Lemma settles_true pc {A} (t : prog A) : settles pc t -> settles true t.
Proof. induction t; intros Hs; cbn in *; naive_solver. Qed.

(** The program has come to its end. *)
Definition stopped_prog {A} (t : prog A) : Prop :=
  match t with Ret _ | Exit _ | Undef _ => True | _ => False end.

(** The answers a process can get without a signal being delivered now, where
    [seen] says whether the flag of its handler is set. *)
Definition quiet_answer {A} (seen : bool) (t : prog A) (a : answer) : bool :=
  match t, a with
  | SigFlag _, ABool b => Bool.eqb b seen
  | (Semop _ _ _ | Msgsnd _ _ | Msgrcv _ _ _), AErr EINTR => false
  | _, _ => true
  end.

(** Nothing blocks once the system is down. *)
Lemma settles_moves pc {A} pid seen (t : prog A) w :
  settles pc t -> is_down w -> stopped_prog t \/ exists a t' w', quiet_answer seen t a = true /\ estep pid a t w = Some (t', w').
Proof.
  intros Hs (_ & Hsem & Hmsg). destruct t; cbn in Hs; try (by left); right.
  all: try (exists ANone; by do 2 eexists).
  all: try (exists (AErr EIDRM); cbn; rewrite ?Hsem, ?Hmsg; by do 2 eexists).
  all: try (exists (ABool seen); do 2 eexists; split; [apply eqb_reflx|done]).
  all: try (exists (AInt (-1)); by do 2 eexists).
  - exists (AInt lo). cbn. rewrite Z.leb_refl, (proj2 (Z.leb_le _ _) (proj1 Hs)). by do 2 eexists.
  - exists (AReal lo). cbn. rewrite (proj1 Hs). by do 2 eexists.
  - exists (ABool true). by do 2 eexists.
  - exists (ALine None). by do 2 eexists.
Qed.

(** ** The programs of the sources settle *)

Create HintDb settle discriminated.

(** Follow the control flow of a program; known parts come from the database. *)
Ltac settle :=
  repeat first
    [ progress intros
    | solve [auto with settle]
    | match goal with
      | |- settles _ (bind _ _) => apply settles_bind
      | |- settles _ (Ret _) => exact I
      | |- settles _ (Exit _) => exact I
      | |- settles _ (Undef _) => exact I
      | |- settles _ skip => exact I
      | |- settles _ (load _) => exact (fun _ => I)
      | |- settles _ (log _) => exact I
      | |- settles _ (sleep_ms _) => exact I
      | |- settles _ (store _) => split; [intros ? Hr; exact Hr|exact I]
      | |- settles _ (RandInt _ _ Ret) => split; [first [lia|unfold RAND_MAX; lia]|exact (fun _ => I)]
      | |- settles _ (RandReal _ _ Ret) => split; [reflexivity|exact (fun _ => I)]
      | |- settles _ (SigFlag Ret) => exact (fun _ => I)
      | |- settles _ (PollStdin Ret) => exact (fun _ => I)
      | |- settles _ (Getline Ret) => exact (fun _ => I)
      | |- settles _ (Getpid Ret) => exact (fun _ => I)
      | |- settles true (Waitpid Ret) => split; [reflexivity|exact (fun _ => I)]
      | |- settles true (Fork _ _ Ret) => split; [reflexivity|exact (fun _ => I)]
      | |- settles _ (match ?x with _ => _ end) => destruct x
      | |- settles _ (if ?x then _ else _) => destruct x
      end ].

Lemma settles_int_result pc z : settles pc (int_result z).
Proof. unfold int_result. by case_match. Qed.

Lemma settles_load_at pc {T} (arr : SharedState -> list T) i : settles pc (load_at arr i).
Proof. intros s. cbn. by destruct (if 0 <=? i then arr s !! Z.to_nat i else None). Qed.

Lemma settles_store_at pc n i g : stays_stopped g -> settles pc (store_at n i g).
Proof. intros Hg. unfold store_at. by case_match. Qed.

Lemma settles_store_user pc i f : settles pc (store_user i f).
Proof. apply settles_store_at. by intros s. Qed.

Lemma settles_load_dock pc {T} (f : TruckState -> T) : settles pc (load_dock f).
Proof. done. Qed.

Lemma settles_store_dock pc f : settles pc (store_dock f).
Proof. split; [by intros s|done]. Qed.

Lemma settles_loop pc {St R} (s : St) (body : St -> prog (St + R)) :
  (forall s, last_round (body s)) -> (forall s, settles pc (body s)) -> settles pc (loop s body).
Proof. by intros Hl Hb. Qed.

#[export] Hint Resolve settles_int_result settles_load_at settles_store_user settles_load_dock settles_store_dock : settle.

(** *** The manager's calls *)

Lemma settles_semOperation pc i op : settles pc (semOperation i op).
Proof. intros [e|]; settle. Qed.

Lemma settles_sendSignal pc target ty : settles pc (sendSignal target ty).
Proof. intros [e|]; settle. Qed.

Lemma settles_receive pc me : settles pc (receiveSignalBlocking me).
Proof. intros [e|m]; cbn; settle. Qed.

#[export] Hint Resolve settles_semOperation settles_sendSignal settles_receive : settle.

Ltac manager_calls := apply settles_semOperation.

Lemma settles_lockBelt pc : settles pc lockBelt. Proof. manager_calls. Qed.
Lemma settles_unlockBelt pc : settles pc unlockBelt. Proof. manager_calls. Qed.
Lemma settles_lockDock pc : settles pc lockDock. Proof. manager_calls. Qed.
Lemma settles_unlockDock pc : settles pc unlockDock. Proof. manager_calls. Qed.

#[export] Hint Resolve settles_lockBelt settles_unlockBelt settles_lockDock settles_unlockDock : settle.

(** *** The components, for callbacks that settle *)

Section Components.
Context (pc : bool) (b : Belt) (Hwe : settles pc (wait_empty_fn b)) (Hse : settles pc (signal_empty_fn b)) (Hwf : settles pc (wait_full_fn b))
  (Hsf : settles pc (signal_full_fn b)) (Hlk : settles pc (lock_fn b)) (Hul : settles pc (unlock_fn b)).

Lemma settles_simulateWorkLoad : settles pc (simulateWorkLoad b).
Proof. unfold simulateWorkLoad. settle. Qed.

Lemma settles_registerWorker : settles pc (registerWorker b).
Proof. unfold registerWorker. settle. Qed.

Lemma settles_unregisterWorker : settles pc (unregisterWorker b).
Proof. unfold unregisterWorker. settle. Qed.

Lemma settles_push pkg : settles pc (push b pkg).
Proof.
  pose proof settles_simulateWorkLoad. unfold push. settle. apply settles_store_at. by intros s.
Qed.

Lemma settles_pop : settles pc (pop b).
Proof. unfold pop. settle. apply settles_store_at. by intros s. Qed.

Lemma settles_getCount : settles pc (getCount b).
Proof. unfold getCount. settle. Qed.

Lemma settles_getWorkerCount : settles pc (getWorkerCount b).
Proof. unfold getWorkerCount. settle. Qed.

Context (sm : SessionManager) (Hslk : settles pc (sm_lock_fn sm)) (Hsul : settles pc (sm_unlock_fn sm)).

Lemma settles_find_duplicate n i name : settles pc (find_duplicate n i name).
Proof. revert i; induction n as [|n IH]; intros i; cbn [find_duplicate]; settle. Qed.

Lemma settles_find_free_slot n i : settles pc (find_free_slot n i).
Proof. revert i; induction n as [|n IH]; intros i; cbn [find_free_slot]; settle. Qed.

Lemma settles_login name r org m : settles pc (login sm name r org m).
Proof. pose proof settles_find_duplicate. pose proof settles_find_free_slot. unfold login. settle. Qed.

Lemma settles_logout : settles pc (logout sm).
Proof. unfold logout. settle. Qed.

Lemma settles_trySpawnProcess : settles pc (trySpawnProcess sm).
Proof. unfold trySpawnProcess. settle. Qed.

Lemma settles_reportProcessFinished : settles pc (reportProcessFinished sm).
Proof. unfold reportProcessFinished. settle. Qed.

Lemma settles_getCurrentRole : settles pc (getCurrentRole sm).
Proof. unfold getCurrentRole. settle. Qed.

End Components.

(** *** The processes, with the manager's callbacks *)

Lemma settles_manager_push pc pkg : settles pc (push manager_belt pkg).
Proof. apply settles_push; apply settles_semOperation. Qed.

Lemma settles_manager_pop pc : settles pc (pop manager_belt).
Proof. apply settles_pop; apply settles_semOperation. Qed.

Lemma settles_manager_register pc : settles pc (registerWorker manager_belt).
Proof. apply settles_registerWorker; apply settles_semOperation. Qed.

Lemma settles_manager_unregister pc : settles pc (unregisterWorker manager_belt).
Proof. apply settles_unregisterWorker; apply settles_semOperation. Qed.

(** A session of the manager, whatever its slot. *)
Definition manager_session (sm : SessionManager) : Prop := sm_lock_fn sm = lockBelt /\ sm_unlock_fn sm = unlockBelt.

Section Session.
Context (sm : SessionManager) (Hsm : manager_session sm).

Lemma settles_session_lock pc : settles pc (sm_lock_fn sm).
Proof. destruct Hsm as [-> _]. apply settles_lockBelt. Qed.

Lemma settles_session_unlock pc : settles pc (sm_unlock_fn sm).
Proof. destruct Hsm as [_ ->]. apply settles_unlockBelt. Qed.

Hint Resolve settles_session_lock settles_session_unlock : settle.

Lemma settles_session_logout pc : settles pc (logout sm).
Proof. apply settles_logout; auto with settle. Qed.

Lemma settles_session_spawn pc : settles pc (trySpawnProcess sm).
Proof. apply settles_trySpawnProcess; auto with settle. Qed.

Lemma settles_session_report pc : settles pc (reportProcessFinished sm).
Proof. apply settles_reportProcessFinished; auto with settle. Qed.

End Session.

#[export] Hint Resolve settles_manager_push settles_manager_pop settles_manager_register settles_manager_unregister
  settles_session_logout settles_session_spawn settles_session_report settles_getCurrentRole
  settles_getCount settles_getWorkerCount : settle.

(** A round that begins with the test of [running], or with that of a flag. *)
Ltac last_round :=
  unfold last_round; cbn; intros;
  repeat match goal with
  | |- True => exact I
  | H : running _ = false |- _ => rewrite H; exact I
  | |- quits (if ?b then _ else _) _ => destruct b; cbn
  | |- forall _, _ => intros
  end.

Lemma settles_truck_run pc pid : settles pc (truck_run (manager_truck pid)).
Proof.
  unfold truck_run, truck_round, truck_shutdown, truck_depart, randomizeTruckSpecs, count_departure.
  cbn [t_lock_dock_fn t_unlock_dock_fn wait_for_signal_fn my_pid t_shm manager_truck]. settle.
  apply settles_loop; [last_round|settle].
Qed.

Lemma settles_dispatcher_run pc : settles pc (dispatcher_run manager_dispatcher).
Proof.
  unfold dispatcher_run, processNextPackage, load_round, try_load, limit_reached.
  cbn [d_belt d_shm d_lock_dock_fn d_unlock_dock_fn d_send_signal_fn manager_dispatcher negb]. settle.
  apply settles_loop; [last_round|]. settle. apply settles_loop; [last_round|settle].
Qed.

Lemma settles_express_items pc n i m : settles pc (express_items manager_express n i m).
Proof. revert i; induction n as [|n IH]; intros i; cbn [express_items e_send_signal_fn manager_express]; settle. Qed.

Lemma settles_deliverExpressBatch pc : settles pc (deliverExpressBatch manager_express).
Proof.
  pose proof settles_express_items. unfold deliverExpressBatch.
  cbn [e_shm e_lock_dock_fn e_unlock_dock_fn manager_express negb]. settle.
Qed.

Lemma settles_make_package pc junk : settles pc (make_package junk).
Proof. unfold make_package, worker_weight. settle. Qed.

Lemma settles_worker_run pc m n junk :
  m_belt m = manager_belt -> manager_session (session_store m) -> settles pc (worker_run m n junk).
Proof.
  intros Hb Hs. pose proof settles_make_package. unfold worker_run, worker_round. rewrite Hb. settle.
  apply settles_loop; [last_round|]. settle.
Qed.

(** *** The console *)

Lemma settles_findProcessByRole pc n i name : settles pc (findProcessByRole n i name).
Proof. revert i; induction n as [|n IH]; intros i; cbn [findProcessByRole]; settle. Qed.

Lemma settles_stop_all pc n i : settles pc (stop_all n i).
Proof. revert i; induction n as [|n IH]; intros i; cbn [stop_all]; settle. Qed.

Lemma settles_store_running pc : settles pc (store (set_running false)).
Proof. split; [by intros s|done]. Qed.

#[export] Hint Resolve settles_findProcessByRole settles_stop_all settles_store_running : settle.

Lemma settles_runOnce pc sm tm : settles pc (runOnce sm tm).
Proof.
  unfold runOnce, run_command, handleVip, handleDepart, handleStop, printHeader, printPrompt, printAccessDenied, keep_running_load.
  settle.
Qed.

(** *** Sessions

    What a program returns, whatever the calls in it return. *)

Fixpoint results {A} (t : prog A) (Q : A -> Prop) : Prop :=
  match t with
  | Ret a => Q a
  | Exit _ | Undef _ => True
  | Load f k => forall s, results (k (f s)) Q
  | Store _ k | Sleep _ k | Log _ k | Kill _ _ k => results k Q
  | Semop _ _ k | Msgsnd _ k => forall r, results (k r) Q
  | Msgrcv _ _ k => forall r, results (k r) Q
  | Getpid k | RandInt _ _ k | Fork _ _ k | Waitpid k => forall z, results (k z) Q
  | RandReal _ _ k => forall d, results (k d) Q
  | SigFlag k | PollStdin k => forall b, results (k b) Q
  | Getline k => forall l, results (k l) Q
  | Loop _ _ k => forall x, results (k x) Q
  end.

Lemma results_any {A} (t : prog A) : results t (fun _ => True).
Proof. induction t; cbn; auto. Qed.

Lemma settles_bind_results pc {A B} (t : prog A) (Q : A -> Prop) (c : A -> prog B) :
  settles pc t -> results t Q -> (forall a, Q a -> settles pc (c a)) -> settles pc (bind t c).
Proof. revert B Q c; induction t; intros B' Q c Hs Hr Hc; cbn in *; naive_solver. Qed.

Lemma results_bind {A B} (t : prog A) (c : A -> prog B) Q : (forall a, results (c a) Q) -> results (bind t c) Q.
Proof. revert B c Q; induction t; intros B' c Q Hc; cbn in *; naive_solver. Qed.

Lemma results_login name r org m : results (login manager_sessions name r org m) (fun res => manager_session (snd res)).
Proof.
  unfold login. cbn [sm_shm manager_sessions new_SessionManager negb].
  repeat first [apply results_bind; intros|case_match|done].
Qed.

Lemma settles_with_session pc name r org m (body : SessionManager -> prog unit) :
  (forall sm, manager_session sm -> settles pc (body sm)) -> settles pc (with_session name r org m body).
Proof.
  intros Hb. unfold with_session. eapply settles_bind_results; [|apply results_login|].
  - apply settles_login; apply settles_semOperation.
  - intros [ok sm] Hsm. cbn [fst snd] in *. settle.
Qed.

(** *** The entry points *)

Lemma settles_clean_end pc what st : settles pc (clean_end what st).
Proof. unfold clean_end. settle. Qed.

Lemma settles_belt_idle pc n : settles pc (belt_idle n).
Proof. induction n as [|n IH]; cbn [belt_idle]; settle. Qed.

Lemma settles_spawn_fleet path name n i pids : settles true (spawn_fleet path name n i pids).
Proof. revert i pids; induction n as [|n IH]; intros i pids; cbn [spawn_fleet]; unfold spawnChild; settle. Qed.

Lemma settles_kill_all pids : settles true (kill_all pids).
Proof. by induction pids. Qed.

#[export] Hint Resolve settles_clean_end settles_belt_idle settles_spawn_fleet settles_kill_all settles_deliverExpressBatch
  settles_dispatcher_run settles_truck_run settles_worker_run settles_runOnce : settle.

Lemma settles_master_main : settles true master_main.
Proof. unfold master_main, spawnChild. settle. apply settles_loop; [last_round|]. unfold monitor_round. settle. Qed.

Definition is_master (p : process) : bool := match p with PMaster => true | _ => false end.

(** Every process of the system settles; only the master makes process calls. *)
Lemma settles_process pid p : settles (is_master p) (th_prog (process_thread (pid, p))).
Proof.
  apply settles_bind; [|by intros]. destruct p; cbn [fst snd process_main is_master];
    unfold dispatcher_main, express_main, belt_main, truck_main, worker_main, terminal_main, worker_refused;
    try (apply settles_bind; [|by intros; auto with settle]); try (apply settles_with_session; intros sm Hsm); settle.
  - apply settles_loop; [last_round|]. unfold express_round. settle.
  - apply settles_loop; [last_round|]. unfold belt_round. settle.
  - apply settles_loop; [last_round|]. unfold terminal_round, keep_running_load. settle.
  - apply settles_master_main.
Qed.

(** ** The whole system *)

(** One element of a list makes a step. *)
Definition one_of {A} (R : relation A) : relation (list A) :=
  fun l l' => exists i x x', l !! i = Some x /\ R x x' /\ l' = <[i := x']> l.

Lemma sn_cons {A} (R : relation A) x l : sn R x -> sn (one_of R) l -> sn (one_of R) (x :: l).
Proof.
  intros Hx. revert l. induction Hx as [x _ IHx]. intros l Hl. induction Hl as [l Hl IHl].
  constructor. intros l' (i & y & y' & Hi & HR & ->). destruct i as [|i]; cbn in Hi |- *.
  - simplify_eq. apply IHx; [exact HR|]. by constructor.
  - apply IHl. by exists i, y, y'.
Qed.

(** Programs that terminate one by one terminate in any interleaving. *)
Lemma sn_list {A} (R : relation A) l : Forall (sn R) l -> sn (one_of R) l.
Proof.
  induction 1 as [|x l Hx _ IH]; [|by apply sn_cons]. constructor. by intros l' (i & x & x' & Hi & _).
Qed.

Definition all_settle (s : sys) : Prop := Forall (fun th => settles true (th_prog th)) (threads s).

(** A step of the system keeps the condition and the shutdown. *)
Lemma all_settle_step s s' : step s s' -> all_settle s -> all_settle s'.
Proof.
  intros [i a s1 s2 Hst] Hall. unfold sys_step in Hst. destruct (threads s1 !! i) as [th|] eqn:Hi; [|done].
  destruct (estep (th_pid th) a (th_prog th) (s_world s1)) as [[t' w']|] eqn:E; [|done]. simplify_eq.
  apply Forall_insert; [done|]. cbn. eapply settles_step; [|exact E]. exact (Forall_lookup_1 _ _ _ _ Hall Hi).
Qed.

Lemma step_running s s' :
  step s s' -> all_settle s -> running (w_shm (s_world s)) = false -> running (w_shm (s_world s')) = false.
Proof.
  intros [i a s1 s2 Hst] Hall. unfold sys_step in Hst. destruct (threads s1 !! i) as [th|] eqn:Hi; [|done].
  destruct (estep (th_pid th) a (th_prog th) (s_world s1)) as [[t' w']|] eqn:E; [|done]. simplify_eq.
  eapply settles_running; [|exact E]. exact (Forall_lookup_1 _ _ _ _ Hall Hi).
Qed.

Lemma step_alive s s' :
  step s s' -> w_sem_alive (s_world s') = w_sem_alive (s_world s) /\ w_msg_alive (s_world s') = w_msg_alive (s_world s).
Proof.
  intros [i a s1 s2 Hst]. unfold sys_step in Hst. destruct (threads s1 !! i) as [th|] eqn:Hi; [|done].
  destruct (estep (th_pid th) a (th_prog th) (s_world s1)) as [[t' w']|] eqn:E; [|done]. simplify_eq.
  by eapply estep_alive.
Qed.

Lemma step_down s s' : step s s' -> all_settle s -> is_down (s_world s) -> is_down (s_world s').
Proof.
  intros Hst Hall (Hr & Hsem & Hmsg). destruct (step_alive _ _ Hst) as [H1 H2].
  split; [by eapply step_running|]. by rewrite H1, H2.
Qed.

(** No schedule goes on for ever. *)
Lemma down_terminates s : all_settle s -> is_down (s_world s) -> sn step s.
Proof.
  intros Hall Hd. assert (sn (one_of down_step) (map th_prog (threads s))) as Hsn.
  { apply sn_list, List.Forall_map. eapply List.Forall_impl; [|exact Hall]. intros th Hth. exact (settles_terminates true _ Hth). }
  remember (map th_prog (threads s)) as l eqn:El. revert s El Hall Hd.
  induction Hsn as [l _ IH]. intros s -> Hall Hd. constructor. intros s' Hst.
  eapply IH; [|reflexivity|by eapply all_settle_step|by eapply step_down].
  destruct Hst as [i a s1 s2 Hst]. unfold sys_step in Hst. destruct (threads s1 !! i) as [th|] eqn:Hi; [|discriminate Hst].
  destruct (estep (th_pid th) a (th_prog th) (s_world s1)) as [[t' w']|] eqn:E; [|discriminate Hst]. simplify_eq.
  exists i, (th_prog th), t'. split; [by rewrite lookup_map, Hi|]. split; [by exists (th_pid th), a, (s_world s1), w'|].
  cbn. apply list_fmap_insert.
Qed.
