(* ===== verification/Signals.v ===== *)
(** * Who is sent which signal

    The messages in the queue, in every interleaving, with interrupted calls and
    removed resources included: a departure signal is addressed to a truck, the
    other signals come from a console and are addressed to processes of the
    system, and the end of work is announced only when the system has stopped.

    [sends] is a structural condition on programs, like [settles]; it follows
    the addresses from the shared memory, where trucks and sessions leave their
    process ids, to the messages.  It needs no locking discipline, because every
    address is written by one store. *)

From S2P Require Import Prelude Double Shared Ipc Belt SessionManager Truck Dispatcher Express Manager Worker.
From S2P Require Import Terminal Args Master Processes Safety Shutdown.

(** Taking a message adds none. *)
Lemma msg_take_subset typ q m q' x : msg_take typ q = Some (m, q') -> x ∈ q' -> x ∈ q.
Proof.
  revert q'; induction q as [|y q IH]; intros q' H Hx; cbn in H; [done|]. destruct (msg_match typ y); [simplify_eq; by right|].
  destruct (msg_take typ q) as [[z q2]|]; [|done]. simplify_eq. apply elem_of_cons in Hx as [->|Hx]; [by left|]. right. by eapply IH.
Qed.

Section System.
Context (ps : list (Z * process)).

(** ** Addresses *)

Definition is_truck_pid (z : Z) : Prop := exists n, (z, PTruck n) ∈ ps.
Definition is_pid (z : Z) : Prop := z ∈ map fst ps.
Definition has_console : Prop := exists z, (z, PTerminal) ∈ ps.

(** The process ids in the segment: the truck at the dock and the sessions. *)
Record addresses (s : SharedState) : Prop := {
  ad_truck : truck_id (dock_truck s) <= 0 \/ is_truck_pid (truck_id (dock_truck s));
  ad_users : forall u, u ∈ users s -> session_pid u <= 0 \/ is_pid (session_pid u) }.

(** A message that may be sent; [stopped] says that [running] is false.  One
    without a positive type never gets into the queue. *)
Definition postable (stopped : bool) (m : CommandMessage) : Prop :=
  match signal_of_int (command_id m) with
  | Some SIGNAL_DEPARTURE => mtype m <= 0 \/ is_truck_pid (mtype m)
  | Some SIGNAL_EXPRESS_LOAD => has_console /\ (mtype m <= 0 \/ is_pid (mtype m))
  | Some SIGNAL_END_WORK => has_console /\ stopped = true /\ (mtype m <= 0 \/ is_pid (mtype m))
  | _ => False
  end.

Section Program.
Context (me : Z).

Fixpoint sends {A} (b : bool) (t : prog A) : Prop :=
  match t with
  | Ret _ | Exit _ | Undef _ => True
  | Load f k => forall s, addresses s -> sends b (k (f s))
  | Store g k =>
      (forall s, addresses s -> addresses (g s)) /\ stays_stopped g /\
      (sends b k \/ (forall s, running (g s) = false) /\ sends true k)
  | Semop _ _ k => forall r, sends b (k r)
  | Msgsnd m k => postable b m /\ forall r, sends b (k r)
  | Msgrcv _ _ k => forall r, sends b (k r)
  | Getpid k => sends b (k me)
  | RandInt _ _ k | Fork _ _ k | Waitpid k => forall z, sends b (k z)
  | RandReal _ _ k => forall d, sends b (k d)
  | Sleep _ k | Log _ k | Kill _ _ k => sends b k
  | SigFlag k | PollStdin k => forall x, sends b (k x)
  | Getline k => forall l, sends b (k l)
  | Loop body _ k => (forall s, sends b (body s)) /\ (forall x, sends b (k x))
  end.

Lemma postable_mono b m : postable b m -> postable true m.
Proof. unfold postable. repeat case_match; naive_solver. Qed.

Lemma sends_mono {A} b (t : prog A) : sends b t -> sends true t.
Proof. induction t; cbn in *; try (by naive_solver eauto using postable_mono). Qed.

Lemma sends_bind_results {A B} b (t : prog A) (Q : A -> Prop) (c : A -> prog B) :
  sends b t -> results t Q -> (forall a, Q a -> sends b (c a)) -> sends b (bind t c).
Proof.
  revert B b Q c; induction t; intros B' b' Q c Hs Hr Hc; cbn in *; try (by eauto);
    try (destruct Hs as [Hs1 Hs2]; split; by eauto).
  destruct Hs as (H1 & H2 & [H3|[H3 H4]]); (split; [done|]); (split; [done|]); [by left; eapply IHt|right].
  split; [done|]. eapply IHt; [done|done|]. intros a Ha. eapply sends_mono. by apply Hc.
Qed.

Lemma sends_bind {A B} b (t : prog A) (c : A -> prog B) : sends b t -> (forall a, sends b (c a)) -> sends b (bind t c).
Proof. intros Hs Hc. by apply (sends_bind_results b t (fun _ => True)); [|apply results_any|]. Qed.

(** One step: the addresses stay sound, and what is sent is postable. *)
Lemma sends_step {A} b a (t t' : prog A) w w' :
  sends b t -> addresses (w_shm w) -> (b = true -> running (w_shm w) = false) -> estep me a t w = Some (t', w') ->
  addresses (w_shm w') /\ (running (w_shm w) = false -> running (w_shm w') = false) /\
  (exists b', sends b' t' /\ (b' = true -> running (w_shm w') = false)) /\
  forall m, m ∈ w_msgs w' -> m ∈ w_msgs w \/ 0 < mtype m /\ postable b m.
Proof.
  intros Hs Had Hb Hst. destruct t as [| |g k|i op k|m k|typ nw k| | | | | | | | | | | |St R body st k| |]; cbn in Hs, Hst; try done;
    try (repeat case_match; simplify_eq; split; [done|]; split; [done|]; split; [exists b; split; [by auto|done]|by left]).
  - destruct a; simplify_eq. destruct Hs as (H1 & H2 & H3). split; [by apply H1|]. split; [by apply H2|]. split; [|by left].
    destruct H3 as [H3|[H3 H4]]; [exists b|exists true]; (split; [done|]); cbn; auto.
  - unfold k_semop in Hst. repeat case_match; simplify_eq; (split; [done|]; split; [done|]; split; [exists b; split; [by auto|done]|by left]).
  - destruct Hs as [Hm Hs]. unfold k_msgsnd in Hst. repeat case_match; simplify_eq; (split; [done|]; split; [done|]; split; [exists b; split; [by auto|done]|]);
      try (by left).
    intros x [Hx|Hx%list_elem_of_singleton]%elem_of_app; [by left|right]. subst. zbool. split; [lia|done].
  - destruct (k_msgrcv typ nw a w) as [[r w1]|] eqn:E; [|done]. simplify_eq. unfold k_msgrcv in E.
    repeat case_match; simplify_eq; (split; [done|]; split; [done|]; split; [exists b; split; [by auto|done]|]); try (by left).
    intros x Hx. left. by eapply msg_take_subset.
  - destruct a; simplify_eq. split; [done|]. split; [done|]. split; [|by left]. exists b. split; [|done].
    apply sends_bind; [apply Hs|]. intros [s'|x]; [done|apply Hs].
Qed.

(** ** Statements *)

Lemma sends_store b g :
  (forall s, dock_truck (g s) = dock_truck s) -> (forall s, users (g s) = users s) -> stays_stopped g -> sends b (store g).
Proof.
  intros H1 H2 H3. split; [|by split; [|left]]. intros s [Ht Hu]. split; [by rewrite H1|by rewrite H2].
Qed.

Lemma sends_store_at b n i g :
  (forall s, dock_truck (g s) = dock_truck s) -> (forall s, users (g s) = users s) -> stays_stopped g -> sends b (store_at n i g).
Proof. intros. unfold store_at. case_match; [by apply sends_store|done]. Qed.

Lemma sends_store_dock b f :
  (forall t, truck_id (f t) = truck_id t \/ is_truck_pid (truck_id (f t))) -> sends b (store_dock f).
Proof.
  intros Hf. split; [|split; [by intros s0|by left]]. intros s [Ht Hu]. split; [|done]. cbn. destruct (Hf (dock_truck s)) as [->|?]; [done|by right].
Qed.

Lemma sends_store_user b i f :
  (forall u, session_pid (f u) = session_pid u \/ session_pid (f u) <= 0 \/ is_pid (session_pid (f u))) -> sends b (store_user i f).
Proof.
  intros Hf. unfold store_user, store_at. case_match; [|done]. split; [|split; [by intros s0|by left]]. intros s [Ht Hu]. split; [done|].
  cbn. intros u [j Hj]%list_elem_of_lookup. destruct (decide (j = Z.to_nat i)) as [->|Hne].
  - rewrite list_lookup_alter_eq in Hj. destruct (users s !! Z.to_nat i) as [u0|] eqn:E; [|done]. cbn in Hj. simplify_eq.
    destruct (Hf u0) as [->|?]; [|done]. apply Hu. by eapply list_elem_of_lookup_2.
  - rewrite list_lookup_alter_ne in Hj by done. apply Hu. by eapply list_elem_of_lookup_2.
Qed.

Lemma sends_load_at {T} b (arr : SharedState -> list T) i : sends b (load_at arr i).
Proof. intros s _. cbn. by destruct (if 0 <=? i then arr s !! Z.to_nat i else None). Qed.

Lemma sends_int_result b z : sends b (int_result z).
Proof. unfold int_result. by case_match. Qed.

Lemma sends_semOperation b i op : sends b (semOperation i op).
Proof. intros [e|]; [|done]. destruct e; cbn; intros; repeat case_match; done. Qed.

Lemma sends_sendSignal b target ty :
  postable b (mkCommandMessage target (signal_to_int ty)) -> sends b (sendSignal target ty).
Proof. intros Hp. split; [done|]. by intros [e|]. Qed.

Lemma sends_receive b z : sends b (receiveSignalBlocking z).
Proof. intros [e|m]; cbn; [done|]. by case_match. Qed.

(** The address of the truck, and that of a session. *)
Lemma sends_truck_id {B} b (c : Z -> prog B) :
  (forall z, z <= 0 \/ is_truck_pid z -> sends b (c z)) -> sends b (bind (load_dock truck_id) c).
Proof. intros H s Hs. cbn. apply H, Hs. Qed.

Lemma address_at s i u :
  addresses s -> (if 0 <=? i then users s !! Z.to_nat i else None) = Some u -> session_pid u <= 0 \/ is_pid (session_pid u).
Proof. intros Hs Hu. case_match; [|done]. apply Hs. by eapply list_elem_of_lookup_2. Qed.

Lemma sends_load_user {B} b i (c : UserSession -> prog B) :
  (forall u, session_pid u <= 0 \/ is_pid (session_pid u) -> sends b (c u)) -> sends b (bind (load_at users i) c).
Proof.
  intros H s Hs. cbn. destruct (if 0 <=? i then _ else None) as [u|] eqn:E; [|done]. apply H. by eapply address_at.
Qed.

Lemma sends_load_user_in {B C} b i (c : UserSession -> prog B) (d : B -> prog C) :
  (forall u, session_pid u <= 0 \/ is_pid (session_pid u) -> sends b (bind (c u) d)) ->
  sends b (bind (bind (load_at users i) c) d).
Proof.
  intros H s Hs. cbn. destruct (if 0 <=? i then _ else None) as [u|] eqn:E; [|done]. apply H. by eapply address_at.
Qed.

End Program.

Create HintDb post discriminated.
#[local] Hint Resolve sends_load_at sends_int_result sends_semOperation sends_receive : post.

(** Follow the control flow of a program; known parts come from the database. *)
Ltac post :=
  repeat first
    [ progress intros
    | solve [auto with post]
    | match goal with
      | |- sends _ _ (bind (load_dock truck_id) _) => apply sends_truck_id
      | |- sends _ _ (bind _ _) => apply sends_bind
      | |- sends _ _ (Ret _) => exact I
      | |- sends _ _ (Exit _) => exact I
      | |- sends _ _ (Undef _) => exact I
      | |- sends _ _ skip => exact I
      | |- sends _ _ (load _) => exact (fun _ _ => I)
      | |- sends _ _ (load_dock _) => exact (fun _ _ => I)
      | |- sends _ _ (log _) => exact I
      | |- sends _ _ (sleep_ms _) => exact I
      | |- sends _ _ (store_dock _) => apply sends_store_dock; by left
      | |- sends _ _ (store_user _ _) => apply sends_store_user; by left
      | |- sends _ _ (store _) => apply sends_store; [reflexivity|reflexivity|intros ? Hr; exact Hr]
      | |- sends _ _ (store_at _ _ _) => apply sends_store_at; [reflexivity|reflexivity|intros ? Hr; exact Hr]
      | |- sends _ _ (sendSignal _ SIGNAL_DEPARTURE) => apply sends_sendSignal; assumption
      | |- sends _ _ (RandInt _ _ Ret) => exact (fun _ => I)
      | |- sends _ _ (RandReal _ _ Ret) => exact (fun _ => I)
      | |- sends _ _ (SigFlag Ret) => exact (fun _ => I)
      | |- sends _ _ (PollStdin Ret) => exact (fun _ => I)
      | |- sends _ _ (Getline Ret) => exact (fun _ => I)
      | |- sends _ _ (Waitpid Ret) => exact (fun _ => I)
      | |- sends _ _ (Fork _ _ Ret) => exact (fun _ => I)
      | |- sends _ _ (Getpid Ret) => exact I
      | |- sends _ _ (loop _ _) => split; [|exact (fun _ => I)]
      | |- sends _ _ (match ?x with _ => _ end) => destruct x
      | |- sends _ _ (if ?x then _ else _) => destruct x
      end ].

(** The manager's callbacks, down to [semOperation]. *)
Ltac wired :=
  cbn [b_shm wait_empty_fn signal_empty_fn wait_full_fn signal_full_fn lock_fn unlock_fn manager_belt
       sm_shm sm_lock_fn sm_unlock_fn manager_sessions new_SessionManager
       t_lock_dock_fn t_unlock_dock_fn wait_for_signal_fn my_pid t_shm manager_truck
       d_belt d_shm d_lock_dock_fn d_unlock_dock_fn d_send_signal_fn manager_dispatcher
       e_shm e_lock_dock_fn e_unlock_dock_fn e_send_signal_fn manager_express negb];
  unfold lockBelt, unlockBelt, lockDock, unlockDock, waitForEmptySlot, signalSlotFreed, waitForPackage, signalPackageAdded.

Section Components.
Context (me : Z) (Hme : is_pid me).

Lemma sends_manager_push b pkg : sends me b (push manager_belt pkg).
Proof. unfold push, simulateWorkLoad. wired. post. Qed.

Lemma sends_manager_pop b : sends me b (pop manager_belt).
Proof. unfold pop. wired. post. Qed.

Lemma sends_manager_register b : sends me b (registerWorker manager_belt).
Proof. unfold registerWorker. wired. post. Qed.

Lemma sends_manager_unregister b : sends me b (unregisterWorker manager_belt).
Proof. unfold unregisterWorker. wired. post. Qed.

Lemma sends_find_duplicate b n i name : sends me b (find_duplicate n i name).
Proof. revert i; induction n as [|n IH]; intros i; cbn [find_duplicate]; post. Qed.

Lemma sends_find_free_slot b n i : sends me b (find_free_slot n i).
Proof. revert i; induction n as [|n IH]; intros i; cbn [find_free_slot]; post. Qed.

Hint Resolve sends_find_duplicate sends_find_free_slot : post.

(** A login leaves the id of its own process. *)
Lemma sends_getpid {B} b (c : Z -> prog B) : (forall z, is_pid z -> sends me b (c z)) -> sends me b (bind (Getpid Ret) c).
Proof. intros H. apply H, Hme. Qed.

Lemma sends_login b name r org m : sends me b (login manager_sessions name r org m).
Proof.
  unfold login. wired.
  do 2 (apply sends_bind; [solve [post]|intros]). case_if; [solve [post]|]. apply sends_bind; [solve [post]|intros]. case_if; [solve [post]|].
  apply sends_bind; [apply sends_store_user; intros; by right; left|intros _].
  do 6 (apply sends_bind; [solve [post]|intros _]). apply sends_getpid. intros z Hz.
  apply sends_bind; [apply sends_store_user; intros; by right; right|]. post.
Qed.

Section Session.
Context (sm : SessionManager) (Hsm : manager_session sm).

Lemma sends_logout b : sends me b (logout sm).
Proof. destruct Hsm as [H1 H2]. unfold logout. rewrite H1, H2. wired. post. Qed.

Lemma sends_trySpawnProcess b : sends me b (trySpawnProcess sm).
Proof. destruct Hsm as [H1 H2]. unfold trySpawnProcess. rewrite H1, H2. wired. post. Qed.

Lemma sends_reportProcessFinished b : sends me b (reportProcessFinished sm).
Proof. destruct Hsm as [H1 H2]. unfold reportProcessFinished. rewrite H1, H2. wired. post. Qed.

End Session.

Hint Resolve sends_manager_push sends_manager_pop sends_manager_register sends_manager_unregister sends_login
  sends_logout sends_trySpawnProcess sends_reportProcessFinished : post.

Lemma sends_truck_run b : is_truck_pid me -> sends me b (truck_run (manager_truck me)).
Proof.
  intros Ht. assert (forall b', sends me b' (store_dock (set_truck_id me))) as Hid by (intros b'; apply sends_store_dock; by right).
  unfold truck_run, truck_round, truck_shutdown, truck_depart, randomizeTruckSpecs, count_departure. wired. post.
Qed.

Lemma sends_dispatcher_run b : sends me b (dispatcher_run manager_dispatcher).
Proof. unfold dispatcher_run, processNextPackage, load_round, try_load, limit_reached. wired. post. Qed.

Lemma sends_express_items b n i m : sends me b (express_items manager_express n i m).
Proof. revert i; induction n as [|n IH]; intros i; cbn [express_items]; wired; post. Qed.

Lemma sends_deliverExpressBatch b : sends me b (deliverExpressBatch manager_express).
Proof. pose proof sends_express_items. unfold deliverExpressBatch. wired. post. Qed.

Lemma sends_make_package b junk : sends me b (make_package junk).
Proof. unfold make_package, worker_weight. post. Qed.

Lemma sends_worker_run b m n junk :
  m_belt m = manager_belt -> manager_session (session_store m) -> sends me b (worker_run m n junk).
Proof. intros Hb Hs. pose proof sends_make_package. unfold worker_run, worker_round. rewrite Hb. post. Qed.

(** ** The console *)

Lemma sends_findProcessByRole {B} b n i name (c : Z -> prog B) :
  (forall z, z <= 0 \/ is_pid z -> sends me b (c z)) -> sends me b (bind (findProcessByRole n i name) c).
Proof.
  intros Hc. revert i; induction n as [|n IH]; intros i; cbn [findProcessByRole]; [apply Hc; left; lia|].
  apply sends_load_user_in. intros u _. destruct (active u); [|apply IH].
  apply sends_load_user_in. intros v _. destruct (String.eqb _ name); [|apply IH].
  apply sends_load_user_in. intros x Hx. by apply Hc.
Qed.

Context (Hcon : has_console).

Lemma sends_stop_all n i : sends me true (stop_all n i).
Proof.
  revert i; induction n as [|n IH]; intros i; cbn [stop_all]; [done|]. apply sends_bind; [apply sends_load_at|]. intros u.
  apply sends_bind; [|by intros _; apply IH]. destruct (active u); [|done].
  apply sends_load_user. intros v Hv. by apply sends_sendSignal.
Qed.

(** The order matters: the stop is stored before it is announced. *)
Lemma sends_stop_first {B} b (c : prog B) : sends me true c -> sends me b (store (set_running false) ;; c).
Proof. intros Hc. split; [by intros s [H1 H2]|]. split; [by intros s|]. right. split; [by intros s|exact Hc]. Qed.

Lemma sends_handleStop b r act : sends me b (handleStop r act).
Proof.
  unfold handleStop, printAccessDenied. destruct (UserRole.hasFlag r UserRole.SysAdmin); [|solve [post]].
  apply sends_bind; [done|]. intros _. apply sends_stop_first. apply sends_bind; [apply sends_stop_all|]. post.
Qed.

Lemma sends_handleVip b r : sends me b (handleVip r).
Proof.
  unfold handleVip, printAccessDenied. case_if; [done|]. apply sends_findProcessByRole. intros z Hz. case_if; [|done].
  apply sends_bind; [|solve [post]]. by apply sends_sendSignal.
Qed.

Lemma sends_handleDepart b r : sends me b (handleDepart r).
Proof.
  unfold handleDepart, printAccessDenied. case_if; [done|]. intros s Hs. cbn. destruct (is_present (dock_truck s)); [|done].
  apply (sends_truck_id me b (fun z => sendSignal z SIGNAL_DEPARTURE ;; log (DepartSent z))). post.
Qed.

Hint Resolve sends_handleStop sends_handleVip sends_handleDepart : post.

Lemma sends_runOnce b sm tm : sends me b (runOnce sm tm).
Proof. unfold runOnce, run_command, printHeader, printPrompt, keep_running_load, getCurrentRole. post. Qed.

End Components.

(** ** Every process *)

Lemma sends_with_session me b name r org m (body : SessionManager -> prog unit) :
  is_pid me -> (forall sm, manager_session sm -> sends me b (body sm)) -> sends me b (with_session name r org m body).
Proof.
  intros Hme Hb. unfold with_session. eapply sends_bind_results; [by apply sends_login|apply results_login|].
  intros [ok sm] Hsm. cbn [fst snd] in *. pose proof (sends_logout me sm Hsm b). post.
Qed.

Lemma sends_process pid p : (pid, p) ∈ ps -> sends pid false (th_prog (process_thread (pid, p))).
Proof.
  intros Hin. assert (is_pid pid) as Hme by (apply list_elem_of_fmap; by exists (pid, p)).
  apply sends_bind; [|by intros]. destruct p; cbn [fst snd process_main];
    unfold dispatcher_main, express_main, belt_main, truck_main, worker_main, terminal_main, worker_refused, clean_end;
    try (apply sends_bind; [|solve [post]]); try (apply sends_with_session; [done|]; intros sm Hsm).
  - pose proof (sends_dispatcher_run pid false). post.
  - pose proof (sends_deliverExpressBatch pid false). unfold express_round. post.
  - assert (forall n, sends pid false (belt_idle n)) by (induction n as [|n IH]; cbn [belt_idle]; post).
    unfold belt_round, getCount, getWorkerCount. wired. post.
  - assert (is_truck_pid pid) as Ht by (by eexists). pose proof (sends_truck_run pid false Ht). post.
  - apply sends_bind; [done|]. intros _. by apply sends_worker_run.
  - assert (has_console) as Hc by (by eexists). pose proof (sends_runOnce pid Hc false). unfold terminal_round, keep_running_load. post.
  - post.
  - assert (forall path name n i pids, sends pid false (spawn_fleet path name n i pids)) as Hf.
    { intros path name n. induction n as [|n IH]; intros i pids; cbn [spawn_fleet]; unfold spawnChild; post. }
    assert (forall pids, sends pid false (kill_all pids)) by (by induction pids).
    assert (sends pid false (store (set_running false))) by (apply sends_store; by intros s).
    unfold master_main, spawnChild, monitor_round. post.
Qed.

(** ** The whole system *)

(** A message that is in the queue while the system is in the state [s]. *)
Definition posted (s : SharedState) (m : CommandMessage) : Prop := 0 < mtype m /\ postable (negb (running s)) m.

Record signal_inv (s : sys) : Prop := {
  si_threads : forall th, th ∈ threads s -> exists b, sends (th_pid th) b (th_prog th) /\ (b = true -> running (w_shm (s_world s)) = false);
  si_addresses : addresses (w_shm (s_world s));
  si_msgs : forall m, m ∈ w_msgs (s_world s) -> posted (w_shm (s_world s)) m }.

Lemma boot_signal_inv qbytes : signal_inv (boot qbytes ps).
Proof.
  split; cbn.
  - intros th Hth. apply list_elem_of_fmap in Hth as ([pid p] & -> & Hin). exists false. split; [|done]. by apply sends_process.
  - split; [by left|]. cbn -[replicate]. intros u Hu. apply elem_of_replicate_inv in Hu as ->. by left.
  - by intros m Hm%not_elem_of_nil.
Qed.

Lemma posted_stays s s' m : (running s = false -> running s' = false) -> posted s m -> posted s' m.
Proof.
  intros Hr [Hp Hm]. split; [done|]. destruct (running s) eqn:E, (running s') eqn:E'; cbn in *; try done; [by eapply postable_mono|].
  by specialize (Hr eq_refl).
Qed.

Lemma signal_inv_step s s' : step s s' -> signal_inv s -> signal_inv s'.
Proof.
  intros [i a s1 s2 Hst] [Hth Had Hm]. unfold sys_step in Hst. destruct (threads s1 !! i) as [th|] eqn:Hi; [|done].
  destruct (estep (th_pid th) a (th_prog th) (s_world s1)) as [[t' w']|] eqn:E; [|done]. simplify_eq.
  destruct (Hth th) as (b & Hs & Hb); [by eapply list_elem_of_lookup_2|].
  destruct (sends_step _ _ _ _ _ _ _ Hs Had Hb E) as (Had' & Hr & (b' & Hs' & Hb') & Hm'). split; [|done|]; cbn.
  - intros x [j Hj]%list_elem_of_lookup. apply lookup_insert_cases in Hj as [[_ ->]|[_ Hj]]; [by exists b'|].
    destruct (Hth x) as (bx & Hx & Hbx); [by eapply list_elem_of_lookup_2|]. exists bx. auto.
  - intros m [Hin|[Hpos Hpost]]%Hm'; [by eapply posted_stays; [|apply Hm]|]. apply (posted_stays (w_shm (s_world s1))); [done|].
    split; [done|]. destruct b; [by rewrite Hb|]. by destruct (running (w_shm (s_world s1))); [|eapply postable_mono].
Qed.

End System.

(** * Theorem *)


(** A truck, a worker and the console, which stops the system. *)
Definition stop_ps : list (Z * process) := [(101, PTruck 1); (103, PWorker 1 (fun _ => zero_Package)); (104, PTerminal)].

Definition stop_sent : sys :=
  drives false "stop" (replicate 400 0%nat ++ replicate 401 1%nat ++ replicate 1000 2%nat) (boot 16384 stop_ps).

