(* ===== verification/DockSection.v ===== *)
(** * The critical section of the dock

    [in_dock_section t]: whatever the program [t] reads, draws or is answered,
    the next thing it does to a semaphore is to give the dock mutex back, unless
    a counter of the dock overflows before.  A process that obeys the discipline
    of [Logic] and stands at such a point owns the dock mutex; and every
    [lockDock] of the sources leads to such a point. *)

From S2P Require Import Prelude Double Shared Ipc Belt SessionManager Truck Dispatcher Express Manager Worker.
From S2P Require Import Terminal Args Master Processes Logic Rules Invariants BeltProof DockProof ProcessProof Safety Shutdown.

(** The counters that the sections of the dock increment have room. *)
Definition dock_room (s : SharedState) : Prop :=
  in_int (trucks_completed s + 1) = true /\ in_int (current_load (dock_truck s) + 1) = true.

Fixpoint in_dock_section {A} (t : prog A) : Prop :=
  match t with
  | Semop SEM_DOCK_MUTEX op _ => op = 1
  | Load f k => forall s, dock_room s -> in_dock_section (k (f s))
  | Store _ k | Sleep _ k | Log _ k => in_dock_section k
  | Msgsnd _ k => forall r, in_dock_section (k r)
  | RandInt lo hi k => forall z, lo <= z <= hi -> in_dock_section (k z)
  | RandReal _ _ k => forall d, in_dock_section (k d)
  | _ => False
  end.

(** ** Who stands inside owns the mutex *)

(** The view with the counters of the dock at zero. *)
Definition roomy (v : view) : view :=
  upd_shm (fun s => set_dock_truck (set_current_load 0 (dock_truck s)) (set_trucks_completed 0 s)) v.

Lemma roomy_room v : dock_room (v_shm (roomy v)).
Proof. by split. Qed.

Lemma roomy_agree o v : o_dock o = None -> agree o v (roomy v).
Proof. intros Ho. by split. Qed.

(** What a process knows, and that the count of workers covers it. *)
Definition informed (o : own) (v : view) : Prop := know o v /\ b2z (o_reg o) <= current_workers_count (v_shm v).

Lemma informed_roomy o v : informed o v -> informed o (roomy v).
Proof. intros [[H1 H2 H3] H4]. by split; [split|]. Qed.

Lemma informed_stop o v st :
  informed o v -> (st = true -> o_stop o = true \/ running (v_shm v) = false) -> informed (set_o_stop st o) v.
Proof.
  intros [[H1 H2 H3] H4] Hst. split; [split; [done| |done]|done]. intros E. cbn in E. destruct (Hst E) as [?|?]; auto.
Qed.

Lemma informed_store o v g r :
  informed o v -> store_ok o r (v_shm v) (g (v_shm v)) -> informed (set_o_reg r o) (upd_shm g v).
Proof.
  intros [[H1 H2 H3] H4] [H5 H6 H7]. split; [split|]; cbn in *.
  - intros ->. cbn in H5. lia.
  - auto.
  - by rewrite H6.
  - lia.
Qed.

Lemma section_owner {A} pid (t : prog A) Q o v :
  in_dock_section t -> wp pid t Q o v -> informed o v -> o_dock o <> None.
Proof.
  revert Q o v; induction t as [|A T f k IH|A g k IH|A i op k|A m k IH| | |A lo hi k IH|A lo hi k IH|A ms k IH|A m k IH| | | | | | | | |];
    intros Q o v Hin Hwp Hk Hnone; cbn in Hin; try done; pose proof (informed_roomy _ _ Hk) as Hk';
    pose proof (Hwp _ (roomy_agree o v Hnone) (proj1 Hk')) as Hw.
  - destruct Hw as (st & Hst & Hw). refine (IH _ _ _ _ (Hin _ (roomy_room v)) Hw _ Hnone). by apply informed_stop.
  - destruct Hw as (_ & r & Hs & Hw). refine (IH _ _ _ Hin Hw _ Hnone). by apply informed_store.
  - destruct i; try done. subst op. destruct Hw as [[? _]|(_ & x & y & Hx & _)]; [done|congruence].
  - destruct Hw as (_ & _ & Hw). exact (IH None _ _ _ (Hin None) (Hw None) Hk' Hnone).
  - destruct Hw as [Hle Hw]. exact (IH lo _ _ _ (Hin lo ltac:(lia)) (Hw lo ltac:(lia)) Hk' Hnone).
  - destruct Hw as [Hr Hw]. apply andb_true_iff in Hr as [H1 H2]. exact (IH lo _ _ _ (Hin lo) (Hw lo H1 H2) Hk' Hnone).
  - exact (IH _ _ _ Hin Hw Hk' Hnone).
  - destruct Hw as (_ & _ & l & _ & Hw). refine (IH _ _ _ Hin Hw _ Hnone). destruct Hk' as [[H1 H2 H3] H4]. by split; [split|].
Qed.

(** A thread inside the section keeps the semaphore of the dock at zero. *)
Lemma section_zero qbytes ps s i th :
  reachable qbytes ps s -> threads s !! i = Some th -> in_dock_section (th_prog th) -> v_dock (w_sem (s_world s)) = 0.
Proof.
  intros Hr Hi Hin. destruct (reachable_inv _ _ _ Hr) as (os & n & oc & Hinv). destruct (thread_owner _ _ _ _ _ _ Hinv i _ Hi) as [o Ho].
  eapply (dock_held_zero _ _ _ _ _ _ Hinv i); [done|]. eapply section_owner; [exact Hin|by apply (i_wp Hinv i)|].
  split; [by eapply (know_own _ _ _ _ _ _ Hinv i)|]. cbn. rewrite (i_workers Hinv).
  apply (sumZ_elem reg_count os i); [|done]. intros x _. unfold reg_count, b2z. case_match; lia.
Qed.

(** ** Every lock leads inside *)

(** What stands after the end of the section does not matter. *)
Lemma section_bind {A B} (t : prog A) (c : A -> prog B) : in_dock_section t -> in_dock_section (bind t c).
Proof. revert B c; induction t; intros B' c Hs; cbn in *; try (by naive_solver). Qed.

(** Every successful [lockDock] of the program enters a section. *)
Fixpoint brackets {A} (t : prog A) : Prop :=
  match t with
  | Ret _ | Exit _ | Undef _ => True
  | Load f k => forall s, brackets (k (f s))
  | Semop i op k => (i = SEM_DOCK_MUTEX -> op = -1 -> in_dock_section (k None)) /\ forall r, brackets (k r)
  | Store _ k | Sleep _ k | Log _ k | Kill _ _ k => brackets k
  | Msgsnd _ k => forall r, brackets (k r)
  | Msgrcv _ _ k => forall r, brackets (k r)
  | Getpid k | RandInt _ _ k | Fork _ _ k | Waitpid k => forall z, brackets (k z)
  | RandReal _ _ k => forall d, brackets (k d)
  | SigFlag k | PollStdin k => forall x, brackets (k x)
  | Getline k => forall l, brackets (k l)
  | Loop body _ k => (forall s, brackets (body s)) /\ (forall x, brackets (k x))
  end.

Lemma brackets_bind_results {A B} (t : prog A) (Q : A -> Prop) (c : A -> prog B) :
  brackets t -> results t Q -> (forall a, Q a -> brackets (c a)) -> brackets (bind t c).
Proof.
  revert B Q c; induction t; intros B' Q c Hs Hr Hc; cbn in *; try (by naive_solver).
  destruct Hs as [Hs1 Hs2]. split; [|by naive_solver]. intros Hi Hop. by apply section_bind, Hs1.
Qed.

Lemma brackets_bind {A B} (t : prog A) (c : A -> prog B) : brackets t -> (forall a, brackets (c a)) -> brackets (bind t c).
Proof. intros Hs Hc. by apply (brackets_bind_results t (fun _ => True)); [|apply results_any|]. Qed.

Lemma brackets_step {A} pid a (t t' : prog A) w w' : brackets t -> estep pid a t w = Some (t', w') -> brackets t'.
Proof.
  intros Hs Hst. destruct t; cbn in Hst, Hs; try done; try (repeat case_match; simplify_eq; by naive_solver).
  destruct a; try done. simplify_eq. apply brackets_bind; [apply Hs|]. intros [s'|x]; [done|apply Hs].
Qed.

(** The lock, with the section behind it. *)
Lemma brackets_lock {B} (c : prog B) : in_dock_section c -> brackets c -> brackets (lockDock ;; c).
Proof.
  intros Hin Hc. split; [by intros|]. intros [e|]; [|done]. apply brackets_bind; [|done].
  destruct e; cbn; intros; by repeat case_match.
Qed.

(** The other calls. *)
Lemma brackets_semOperation i op : i <> SEM_DOCK_MUTEX \/ op = 1 -> brackets (semOperation i op).
Proof.
  intros Hi. split; [by destruct Hi as [? | ->]|]. intros [e|]; [|done]. destruct e; cbn; intros; by repeat case_match.
Qed.

Lemma brackets_load_at {T} (arr : SharedState -> list T) i : brackets (load_at arr i).
Proof. intros s. cbn. by destruct (if 0 <=? i then arr s !! Z.to_nat i else None). Qed.

Lemma brackets_store_at n i g : brackets (store_at n i g).
Proof. unfold store_at. by case_match. Qed.

Lemma brackets_int_result z : brackets (int_result z).
Proof. unfold int_result. by case_match. Qed.

Lemma brackets_sendSignal target ty : brackets (sendSignal target ty).
Proof. by intros [e|]. Qed.

Lemma brackets_receive z : brackets (receiveSignalBlocking z).
Proof. intros [e|m]; cbn; [done|]. by case_match. Qed.

Create HintDb bracket discriminated.
#[export] Hint Resolve brackets_load_at brackets_store_at brackets_int_result brackets_sendSignal brackets_receive : bracket.

(** *** Inside a section *)

(** The program uses no semaphore, and no counter of the dock overflows in it. *)
Definition passes {A} (t : prog A) : Prop :=
  forall B (c : A -> prog B), (forall a, in_dock_section (c a)) -> in_dock_section (bind t c).

Lemma section_assoc {A B C} (t : prog A) (c : A -> prog B) (d : B -> prog C) :
  in_dock_section (bind t (fun a => bind (c a) d)) -> in_dock_section (bind (bind t c) d).
Proof. revert B C c d; induction t; intros B' C' c d Hs; cbn in *; try (by naive_solver). Qed.

Lemma passes_bind {A B} (t : prog A) (c : A -> prog B) : passes t -> (forall a, passes (c a)) -> passes (bind t c).
Proof. intros Ht Hc C d Hd. apply section_assoc, Ht. intros a. by apply Hc. Qed.

Lemma passes_ret {A} (a : A) : passes (Ret a).
Proof. intros B c Hc. apply Hc. Qed.

Lemma passes_load {T} (f : SharedState -> T) : passes (load f).
Proof. intros B c Hc s _. apply Hc. Qed.

Lemma passes_store g : passes (store g).
Proof. intros B c Hc. apply Hc. Qed.

Lemma passes_log m : passes (log m).
Proof. intros B c Hc. apply Hc. Qed.

Lemma passes_sleep ms : passes (sleep_ms ms).
Proof. intros B c Hc. apply Hc. Qed.

Lemma passes_RandInt lo hi : passes (RandInt lo hi Ret).
Proof. intros B c Hc z _. apply Hc. Qed.

Lemma passes_RandReal lo hi : passes (RandReal lo hi Ret).
Proof. intros B c Hc d. apply Hc. Qed.

Lemma passes_sendSignal target ty : passes (sendSignal target ty).
Proof. intros B c Hc [e|]; apply Hc. Qed.

(** Counting a departure, or a package. *)
Lemma passes_count {B} (f : SharedState -> Z) (c : Z -> prog B) :
  (forall s, dock_room s -> in_int (f s + 1) = true) -> (forall n, passes (c n)) ->
  passes (let* n := load f in let* n' := int_result (n + 1) in c n').
Proof. intros Hf Hc C d Hd s Hs. cbn. unfold int_result. rewrite (Hf s Hs). cbn. by apply Hc. Qed.

#[export] Hint Resolve passes_ret passes_load passes_store passes_log passes_sleep passes_RandInt passes_RandReal passes_sendSignal : bracket.

Ltac passing :=
  repeat first
    [ progress intros
    | solve [auto with bracket]
    | match goal with
      | |- passes (load_dock _) => apply passes_load
      | |- passes (store_dock _) => apply passes_store
      | |- passes skip => apply passes_ret
      | |- passes (bind (load trucks_completed) (fun n => bind (int_result (n + 1)) _)) => apply passes_count; [by intros s []|]
      | |- passes (bind (load_dock current_load) (fun n => bind (int_result (n + 1)) _)) =>
          apply (passes_count (fun s => current_load (dock_truck s))); [by intros s []|]
      | |- passes (bind _ _) => apply passes_bind
      | |- passes (if ?x then _ else _) => destruct x
      end ].

Lemma passes_count_departure : passes count_departure.
Proof. unfold count_departure. passing. Qed.

Lemma passes_try_load pkg : passes (try_load manager_dispatcher pkg).
Proof. unfold try_load, limit_reached. cbn [d_send_signal_fn manager_dispatcher]. passing. Qed.

Lemma passes_express_items n i m : passes (express_items manager_express n i m).
Proof. revert i; induction n as [|n IH]; intros i; cbn [express_items e_send_signal_fn manager_express]; passing. Qed.

Lemma passes_randomizeTruckSpecs pid : passes (randomizeTruckSpecs (manager_truck pid)).
Proof. unfold randomizeTruckSpecs. cbn [my_pid manager_truck]. passing. Qed.

#[export] Hint Resolve passes_count_departure passes_try_load passes_express_items passes_randomizeTruckSpecs : bracket.

(** Follow a section to its [unlockDock]. *)
Lemma section_bind_passes {A B} (t : prog A) (c : A -> prog B) :
  passes t -> (forall a, in_dock_section (c a)) -> in_dock_section (bind t c).
Proof. intros Ht Hc. by apply Ht. Qed.

Ltac inside :=
  repeat first
    [ progress intros
    | reflexivity
    | match goal with
      | |- in_dock_section (bind _ _) => apply section_bind_passes; [solve [passing]|]
      | |- in_dock_section (if ?x then _ else _) => destruct x
      end ].

(** Follow the control flow of a program; known parts come from the database. *)
Ltac bracket :=
  repeat first
    [ progress intros
    | solve [auto with bracket]
    | match goal with
      | |- brackets (bind lockDock _) => apply brackets_lock; [solve [inside]|]
      | |- brackets (bind _ _) => apply brackets_bind
      | |- brackets (Ret _) => exact I
      | |- brackets (Exit _) => exact I
      | |- brackets (Undef _) => exact I
      | |- brackets skip => exact I
      | |- brackets (load _) => exact (fun _ => I)
      | |- brackets (load_dock _) => exact (fun _ => I)
      | |- brackets (log _) => exact I
      | |- brackets (sleep_ms _) => exact I
      | |- brackets (store _) => exact I
      | |- brackets (store_dock _) => exact I
      | |- brackets (store_user _ _) => apply brackets_store_at
      | |- brackets unlockDock => apply brackets_semOperation; by right
      | |- brackets (semOperation _ _) => apply brackets_semOperation; by left
      | |- brackets (RandInt _ _ Ret) => exact (fun _ => I)
      | |- brackets (RandReal _ _ Ret) => exact (fun _ => I)
      | |- brackets (SigFlag Ret) => exact (fun _ => I)
      | |- brackets (PollStdin Ret) => exact (fun _ => I)
      | |- brackets (Getline Ret) => exact (fun _ => I)
      | |- brackets (Getpid Ret) => exact (fun _ => I)
      | |- brackets (Waitpid Ret) => exact (fun _ => I)
      | |- brackets (Fork _ _ Ret) => exact (fun _ => I)
      | |- brackets (loop _ _) => split; [|exact (fun _ => I)]
      | |- brackets (match ?x with _ => _ end) => destruct x
      | |- brackets (if ?x then _ else _) => destruct x
      end ].

(** *** The programs of the sources *)

Lemma brackets_manager_push pkg : brackets (push manager_belt pkg).
Proof.
  unfold push, simulateWorkLoad, waitForEmptySlot. cbn [b_shm wait_empty_fn signal_empty_fn signal_full_fn lock_fn unlock_fn manager_belt negb].
  unfold waitForEmptySlot, signalSlotFreed, signalPackageAdded, lockBelt, unlockBelt. bracket.
Qed.

Lemma brackets_manager_pop : brackets (pop manager_belt).
Proof.
  unfold pop. cbn [b_shm wait_full_fn signal_full_fn signal_empty_fn lock_fn unlock_fn manager_belt negb].
  unfold waitForPackage, signalSlotFreed, signalPackageAdded, lockBelt, unlockBelt. bracket.
Qed.

Lemma brackets_manager_register : brackets (registerWorker manager_belt).
Proof. unfold registerWorker. cbn [b_shm lock_fn unlock_fn manager_belt negb]. unfold lockBelt, unlockBelt. bracket. Qed.

Lemma brackets_manager_unregister : brackets (unregisterWorker manager_belt).
Proof. unfold unregisterWorker. cbn [b_shm lock_fn unlock_fn manager_belt negb]. unfold lockBelt, unlockBelt. bracket. Qed.

Lemma brackets_find_duplicate n i name : brackets (find_duplicate n i name).
Proof. revert i; induction n as [|n IH]; intros i; cbn [find_duplicate]; bracket. Qed.

Lemma brackets_find_free_slot n i : brackets (find_free_slot n i).
Proof. revert i; induction n as [|n IH]; intros i; cbn [find_free_slot]; bracket. Qed.

#[export] Hint Resolve brackets_find_duplicate brackets_find_free_slot : bracket.

Lemma brackets_login name r org m : brackets (login manager_sessions name r org m).
Proof. unfold login. cbn [sm_shm sm_lock_fn sm_unlock_fn manager_sessions new_SessionManager negb]. unfold lockBelt, unlockBelt. bracket. Qed.

Section Session.
Context (sm : SessionManager) (Hsm : manager_session sm).

Lemma brackets_logout : brackets (logout sm).
Proof. destruct Hsm as [H1 H2]. unfold logout. rewrite H1, H2. unfold lockBelt, unlockBelt. bracket. Qed.

Lemma brackets_trySpawnProcess : brackets (trySpawnProcess sm).
Proof. destruct Hsm as [H1 H2]. unfold trySpawnProcess. rewrite H1, H2. unfold lockBelt, unlockBelt. bracket. Qed.

Lemma brackets_reportProcessFinished : brackets (reportProcessFinished sm).
Proof. destruct Hsm as [H1 H2]. unfold reportProcessFinished. rewrite H1, H2. unfold lockBelt, unlockBelt. bracket. Qed.

End Session.

#[export] Hint Resolve brackets_manager_push brackets_manager_pop brackets_manager_register brackets_manager_unregister
  brackets_logout brackets_trySpawnProcess brackets_reportProcessFinished : bracket.

Lemma brackets_truck_run pid : brackets (truck_run (manager_truck pid)).
Proof.
  unfold truck_run, truck_round, truck_shutdown, truck_depart.
  cbn [t_lock_dock_fn t_unlock_dock_fn wait_for_signal_fn my_pid t_shm manager_truck].
  assert (brackets (randomizeTruckSpecs (manager_truck pid))) by (unfold randomizeTruckSpecs; bracket).
  assert (brackets count_departure) by (unfold count_departure; bracket). bracket.
Qed.

Lemma brackets_dispatcher_run : brackets (dispatcher_run manager_dispatcher).
Proof.
  assert (forall pkg, brackets (try_load manager_dispatcher pkg)).
  { intros pkg. unfold try_load, limit_reached. cbn [d_send_signal_fn manager_dispatcher]. bracket. }
  unfold dispatcher_run, processNextPackage, load_round.
  cbn [d_belt d_shm d_lock_dock_fn d_unlock_dock_fn manager_dispatcher negb]. bracket.
Qed.

Lemma brackets_deliverExpressBatch : brackets (deliverExpressBatch manager_express).
Proof.
  assert (forall n i m, brackets (express_items manager_express n i m)).
  { induction n as [|n IH]; intros i m; cbn [express_items e_send_signal_fn manager_express]; bracket. }
  unfold deliverExpressBatch. cbn [e_shm e_lock_dock_fn e_unlock_dock_fn manager_express negb]. bracket.
Qed.

Lemma brackets_worker_run m n junk :
  m_belt m = manager_belt -> manager_session (session_store m) -> brackets (worker_run m n junk).
Proof. intros Hb Hs. unfold worker_run, worker_round, make_package, worker_weight. rewrite Hb. bracket. Qed.

Lemma brackets_runOnce sm tm : brackets (runOnce sm tm).
Proof.
  assert (forall n i name, brackets (findProcessByRole n i name)).
  { induction n as [|n IH]; intros i name; cbn [findProcessByRole]; bracket. }
  assert (forall n i, brackets (stop_all n i)) by (induction n as [|n IH]; intros i; cbn [stop_all]; bracket).
  unfold runOnce, run_command, handleVip, handleDepart, handleStop, printHeader, printPrompt, printAccessDenied, keep_running_load, getCurrentRole.
  bracket.
Qed.

#[export] Hint Resolve brackets_truck_run brackets_dispatcher_run brackets_deliverExpressBatch brackets_worker_run brackets_runOnce : bracket.

Lemma brackets_with_session name r org m (body : SessionManager -> prog unit) :
  (forall sm, manager_session sm -> brackets (body sm)) -> brackets (with_session name r org m body).
Proof.
  intros Hb. unfold with_session. eapply brackets_bind_results; [apply brackets_login|apply results_login|].
  intros [ok sm] Hsm. cbn [fst snd] in *. bracket.
Qed.

Lemma brackets_process pid p : brackets (th_prog (process_thread (pid, p))).
Proof.
  apply brackets_bind; [|by intros]. destruct p; cbn [fst snd process_main];
    unfold dispatcher_main, express_main, belt_main, truck_main, worker_main, terminal_main, worker_refused, clean_end;
    try (apply brackets_bind; [|solve [bracket]]); try (apply brackets_with_session; intros sm Hsm).
  - bracket.
  - unfold express_round. bracket.
  - assert (forall n, brackets (belt_idle n)) by (induction n as [|n IH]; cbn [belt_idle]; bracket).
    unfold belt_round, getCount, getWorkerCount. bracket.
  - bracket.
  - apply brackets_bind; [done|]. intros _. by apply brackets_worker_run.
  - unfold terminal_round, keep_running_load. bracket.
  - bracket.
  - assert (forall path name n i pids, brackets (spawn_fleet path name n i pids)).
    { intros path name n. induction n as [|n IH]; intros i pids; cbn [spawn_fleet]; unfold spawnChild; bracket. }
    assert (forall pids, brackets (kill_all pids)) by (by induction pids). unfold master_main, spawnChild, monitor_round. bracket.
Qed.

Lemma reachable_brackets qbytes ps s th : reachable qbytes ps s -> th ∈ threads s -> brackets (th_prog th).
Proof.
  intros [_ Hst]. assert (forall x, x ∈ threads (boot qbytes ps) -> brackets (th_prog x)) as H0.
  { cbn. intros x Hx. apply list_elem_of_fmap in Hx as ([pid p] & -> & _). apply brackets_process. }
  revert th. induction Hst as [|s1 s2 s3 Hc _ IH]; [done|]. apply IH. clear IH. destruct Hc as [i a th s1 s2 Hi _ H1].
  unfold sys_step in H1. rewrite Hi in H1. destruct (estep (th_pid th) a (th_prog th) (s_world s1)) as [[t' w']|] eqn:E; [|done]. simplify_eq.
  cbn. intros x [j Hj]%list_elem_of_lookup. apply lookup_insert_cases in Hj as [[_ ->]|[_ Hj]].
  - cbn. eapply brackets_step; [|exact E]. by eapply H0, list_elem_of_lookup_2.
  - by eapply H0, list_elem_of_lookup_2.
Qed.

(** Inside a section a process goes on inside, until it gives the mutex back. *)
Lemma section_step {A} pid a (t t' : prog A) w w' :
  in_dock_section t -> dock_room (w_shm w) -> estep pid a t w = Some (t', w') ->
  in_semop t = true \/ in_dock_section t'.
Proof.
  intros Hin Hroom Hst. destruct t; cbn in Hin, Hst; try done; try (by left); right; repeat case_match; simplify_eq; try done; auto.
  zbool. apply Hin. lia.
Qed.
