(* ===== verification/Halt.v ===== *)
(** * The dispatchers after the stop

    What a dispatcher does once [running] is false and it has come to a test of
    one of its two loops: nothing to the belt and nothing to the dock.  The
    package it may hold in its hand is lost. *)

From S2P Require Import Prelude Double Shared Ipc Belt SessionManager Truck Dispatcher Express Manager Worker.
From S2P Require Import Terminal Args Master Processes Logic Rules Invariants BeltProof DockProof ProcessProof Safety Fairness Shutdown.

(** ** Conditions on programs *)

(** Writes no line of the belt or the dock while the system is stopped. *)
Fixpoint idles {A} (t : prog A) : Prop :=
  match t with
  | Ret _ | Exit _ | Undef _ => True
  | Load f k => forall s, running s = false -> idles (k (f s))
  | Store g k => stays_stopped g /\ idles k
  | Semop _ _ k | Msgsnd _ k => forall r, idles (k r)
  | Msgrcv _ _ k => forall r, idles (k r)
  | Getpid k | RandInt _ _ k | Fork _ _ k | Waitpid k => forall z, idles (k z)
  | RandReal _ _ k => forall d, idles (k d)
  | Log m k => (is_belt_msg m = false /\ is_dock_msg m = false) /\ idles k
  | Sleep _ k | Kill _ _ k => idles k
  | SigFlag k | PollStdin k => forall x, idles (k x)
  | Getline k => forall l, idles (k l)
  | Loop body _ k => (forall s, idles (body s)) /\ (forall x, idles (k x))
  end.

(** From every loop test on that the program can come to, it idles. *)
Fixpoint gives_up {A} (t : prog A) : Prop :=
  match t with
  | Ret _ | Exit _ | Undef _ => True
  | Load f k => forall s, gives_up (k (f s))
  | Semop _ _ k | Msgsnd _ k => forall r, gives_up (k r)
  | Msgrcv _ _ k => forall r, gives_up (k r)
  | Getpid k | RandInt _ _ k | Fork _ _ k | Waitpid k => forall z, gives_up (k z)
  | RandReal _ _ k => forall d, gives_up (k d)
  | Store _ k | Log _ k | Sleep _ k | Kill _ _ k => gives_up k
  | SigFlag k | PollStdin k => forall x, gives_up (k x)
  | Getline k => forall l, gives_up (k l)
  | Loop body s k => idles t /\ (forall s', gives_up (body s')) /\ (forall x, gives_up (k x))
  end.

(** No loop at all. *)
Fixpoint straight {A} (t : prog A) : Prop :=
  match t with
  | Ret _ | Exit _ | Undef _ => True
  | Load f k => forall s, straight (k (f s))
  | Semop _ _ k | Msgsnd _ k => forall r, straight (k r)
  | Msgrcv _ _ k => forall r, straight (k r)
  | Getpid k | RandInt _ _ k | Fork _ _ k | Waitpid k => forall z, straight (k z)
  | RandReal _ _ k => forall d, straight (k d)
  | Store _ k | Log _ k | Sleep _ k | Kill _ _ k => straight k
  | SigFlag k | PollStdin k => forall x, straight (k x)
  | Getline k => forall l, straight (k l)
  | Loop _ _ _ => False
  end.

Lemma idles_bind {A B} (t : prog A) (c : A -> prog B) : idles t -> (forall a, idles (c a)) -> idles (bind t c).
Proof. revert B c; induction t; intros B' c Hs Hc; cbn in *; naive_solver. Qed.

Lemma gives_up_bind {A B} (t : prog A) (c : A -> prog B) :
  gives_up t -> (forall a, idles (c a)) -> (forall a, gives_up (c a)) -> gives_up (bind t c).
Proof.
  revert B c; induction t; intros B' c Hs Hi Hc; cbn in *; try (by eauto). destruct Hs as ([H1 H2] & H3 & H4).
  split; [|by eauto]. split; [done|]. intros x. by apply idles_bind.
Qed.

(** In front of a program without loops nothing need be known of the rest. *)
Lemma straight_gives_up_results {A B} (t : prog A) (Q : A -> Prop) (c : A -> prog B) :
  straight t -> results t Q -> (forall a, Q a -> gives_up (c a)) -> gives_up (bind t c).
Proof. revert B Q c; induction t; intros B' Q c Hs Hr Hc; cbn in *; naive_solver. Qed.

Lemma straight_gives_up {A B} (t : prog A) (c : A -> prog B) : straight t -> (forall a, gives_up (c a)) -> gives_up (bind t c).
Proof. intros Hs Hc. by apply (straight_gives_up_results t (fun _ => True)); [|apply results_any|]. Qed.

Lemma gives_up_straight {A} (t : prog A) : straight t -> gives_up t.
Proof. induction t; cbn in *; naive_solver. Qed.

Lemma straight_bind {A B} (t : prog A) (c : A -> prog B) : straight t -> (forall a, straight (c a)) -> straight (bind t c).
Proof. revert B c; induction t; intros B' c Hs Hc; cbn in *; naive_solver. Qed.

Lemma gives_up_step {A} pid a (t t' : prog A) w w' : gives_up t -> estep pid a t w = Some (t', w') -> gives_up t'.
Proof.
  intros Hs Hst. destruct t; cbn in Hst, Hs; try done; try (repeat case_match; simplify_eq; by naive_solver).
  destruct a; try done. simplify_eq. destruct Hs as ([H1 H2] & H3 & H4). apply gives_up_bind; [done| |].
  - by intros [s'|x]; [split|apply H2].
  - by intros [s'|x]; [split; [split|]|apply H4].
Qed.

Lemma idles_step {A} pid a (t t' : prog A) w w' :
  idles t -> running (w_shm w) = false -> estep pid a t w = Some (t', w') ->
  idles t' /\ belt_log (w_log w') = belt_log (w_log w) /\ dock_log (w_log w') = dock_log (w_log w).
Proof.
  intros Hs Hr Hst. destruct t; cbn in Hst, Hs; try done;
    try (unfold k_semop, k_msgsnd, k_msgrcv in Hst; repeat case_match; simplify_eq; cbn; by auto).
  - destruct a; try done. simplify_eq. cbn. by destruct Hs.
  - destruct a; try done. simplify_eq. destruct Hs as [[H1 H2] H3]. split; [done|]. cbn.
    by rewrite belt_log_app, dock_log_app, H1, H2, !app_nil_r.
  - destruct a; try done. simplify_eq. split; [|done]. apply idles_bind; [apply Hs|]. intros [s'|x]; [done|apply Hs].
Qed.

(** ** The dispatcher *)

Create HintDb halt discriminated.

Ltac straightly :=
  repeat first
    [ progress intros
    | solve [auto with halt]
    | match goal with
      | |- straight (bind _ _) => apply straight_bind
      | |- straight (if ?x then _ else _) => destruct x
      | |- straight (load_at _ _) => intros ?; cbn; by case_match
      | |- straight (store_at _ _ _) => unfold store_at; by case_match
      | |- straight (store_user _ _) => unfold store_user, store_at; by case_match
      | |- straight (int_result _) => unfold int_result; by case_match
      | |- straight _ => exact I || exact (fun _ => I)
      end ].

Lemma straight_semOperation i op : straight (semOperation i op).
Proof. intros [e|]; [|done]. destruct e; cbn; intros; by repeat case_match. Qed.

Lemma straight_sendSignal target ty : straight (sendSignal target ty).
Proof. by intros [e|]. Qed.

#[local] Hint Resolve straight_semOperation straight_sendSignal : halt.

Lemma straight_find_duplicate n i name : straight (find_duplicate n i name).
Proof. revert i; induction n as [|n IH]; intros i; cbn [find_duplicate]; straightly. Qed.

Lemma straight_find_free_slot n i : straight (find_free_slot n i).
Proof. revert i; induction n as [|n IH]; intros i; cbn [find_free_slot]; straightly. Qed.

#[local] Hint Resolve straight_find_duplicate straight_find_free_slot : halt.

Lemma straight_login name r org m : straight (login manager_sessions name r org m).
Proof. unfold login. cbn [sm_shm sm_lock_fn sm_unlock_fn manager_sessions new_SessionManager negb]. unfold lockBelt, unlockBelt. straightly. Qed.

Lemma straight_pop : straight (pop manager_belt).
Proof.
  unfold pop. cbn [b_shm wait_full_fn signal_full_fn signal_empty_fn lock_fn unlock_fn manager_belt negb].
  unfold waitForPackage, signalSlotFreed, signalPackageAdded, lockBelt, unlockBelt. straightly.
Qed.

Lemma straight_load_round pkg : straight (load_round manager_dispatcher pkg).
Proof.
  unfold load_round, try_load, limit_reached. cbn [d_lock_dock_fn d_unlock_dock_fn d_send_signal_fn manager_dispatcher].
  unfold lockDock, unlockDock. straightly.
Qed.

Lemma straight_logout sm : manager_session sm -> straight (logout sm).
Proof. intros [H1 H2]. unfold logout. rewrite H1, H2. unfold lockBelt, unlockBelt. straightly. Qed.

(** A round of either loop looks at [running] first. *)
Lemma idles_load_round pkg : idles (load_round manager_dispatcher pkg).
Proof. intros s Hs. cbn. by rewrite Hs. Qed.

Lemma idles_retry pkg : idles (loop tt (fun _ => load_round manager_dispatcher pkg)).
Proof. split; [intros _; apply idles_load_round|done]. Qed.

Lemma idles_dispatcher_run : idles (dispatcher_run manager_dispatcher).
Proof. split; [done|]. split; [|done]. intros _ s Hs. cbn. by rewrite Hs. Qed.

Lemma idles_semOperation i op : idles (semOperation i op).
Proof. intros [e|]; [|done]. destruct e; cbn; intros; by repeat case_match. Qed.

Lemma idles_store_user i f : idles (store_user i f).
Proof. unfold store_user, store_at. case_match; [|done]. by split; [intros s|]. Qed.

Lemma idles_logout sm : manager_session sm -> idles (logout sm).
Proof.
  intros [H1 H2]. unfold logout. rewrite H1, H2. case_if; [done|]. apply idles_bind; [apply idles_semOperation|]. intros _.
  apply idles_bind; [intros s _; cbn; by case_match|]. intros u. apply idles_bind; [done|]. intros _.
  do 4 (apply idles_bind; [apply idles_store_user|]; intros _). apply idles_bind; [apply idles_semOperation|done].
Qed.

Lemma gives_up_processNextPackage : gives_up (processNextPackage manager_dispatcher).
Proof.
  unfold processNextPackage. cbn [d_belt d_shm manager_dispatcher negb]. apply straight_gives_up; [apply straight_pop|]. intros pkg.
  case_if; [by intros s; cbn; case_match|]. split; [apply idles_retry|]. split; [|done].
  intros _. apply gives_up_straight, straight_load_round.
Qed.

Lemma gives_up_dispatcher_run : gives_up (dispatcher_run manager_dispatcher).
Proof.
  split; [apply idles_dispatcher_run|]. split; [|done]. intros _ s. cbn [bind load d_shm manager_dispatcher negb].
  destruct (negb (running s)); [done|]. apply gives_up_bind; [apply gives_up_processNextPackage|done|done].
Qed.

Lemma gives_up_dispatcher pid : gives_up (th_prog (process_thread (pid, PDispatcher))).
Proof.
  apply gives_up_bind; [|done|done]. unfold process_main, dispatcher_main, with_session. cbn [fst snd].
  eapply straight_gives_up_results; [apply straight_login|apply results_login|]. intros [ok sm] Hsm. cbn [fst snd] in *.
  case_if; [done|]. apply straight_gives_up; [done|]. intros _. apply gives_up_bind.
  - apply straight_gives_up; [done|]. intros _. apply gives_up_dispatcher_run.
  - intros _. apply idles_bind; [by apply idles_logout|done].
  - intros _. apply straight_gives_up; [by apply straight_logout|done].
Qed.

(** ** The system *)

(** The process of the thread is a dispatcher. *)
Definition dispatches (ps : list (Z * process)) (i : nat) : Prop := exists pid, ps !! i = Some (pid, PDispatcher).

(** The thread stands at the test of a loop, or has ended. *)
Definition at_test (th : thread) : bool := is_loop (th_prog th) || has_ended (th_prog th).

Lemma reachable_gives_up qbytes ps s i th :
  reachable qbytes ps s -> dispatches ps i -> threads s !! i = Some th -> gives_up (th_prog th).
Proof.
  intros [_ Hst] [pid Hps]. assert (forall x, threads (boot qbytes ps) !! i = Some x -> gives_up (th_prog x)) as H0.
  { cbn. intros x Hx. rewrite lookup_map, Hps in Hx. cbn in Hx. simplify_eq. apply gives_up_dispatcher. }
  revert th. induction Hst as [|s1 s2 s3 Hc _ IH]; [done|]. apply IH. clear IH. destruct Hc as [j a th s1 s2 Hj _ H1].
  unfold sys_step in H1. rewrite Hj in H1. destruct (estep (th_pid th) a (th_prog th) (s_world s1)) as [[t' w']|] eqn:E; [|done]. simplify_eq.
  cbn. intros x Hx. apply lookup_insert_cases in Hx as [[-> ->]|[_ Hx]]; [|by apply H0]. cbn. eapply gives_up_step; [|exact E]. by apply H0.
Qed.

(** The state after the stop in which every dispatcher idles. *)
Record halted (ps : list (Z * process)) (s : sys) : Prop := {
  ht_inv : sys_inv (carriers ps) s;
  ht_running : running (w_shm (s_world s)) = false;
  ht_idle : forall i th, dispatches ps i -> threads s !! i = Some th -> idles (th_prog th) }.

Lemma at_test_halted qbytes ps s :
  reachable qbytes ps s -> running (w_shm (s_world s)) = false ->
  (forall i th, dispatches ps i -> threads s !! i = Some th -> at_test th = true) -> halted ps s.
Proof.
  intros Hr Hrun Htest. split; [exact (reachable_inv qbytes ps s Hr)|done|]. intros i th Hd Hi.
  pose proof (reachable_gives_up _ _ _ _ _ Hr Hd Hi) as Hg. pose proof (Htest i th Hd Hi) as Ht. unfold at_test in Ht.
  destruct (th_prog th); try done. apply Hg.
Qed.

(** What was loaded is told by the lines of the dock. *)
Lemma loaded_ids_app l m : loaded_ids (l ++ [m]) = loaded_ids l ++ loaded_ids [m].
Proof. unfold loaded_ids. by rewrite omap_app. Qed.

Lemma loaded_ids_dock l : loaded_ids (dock_log l) = loaded_ids l.
Proof.
  induction l as [|m l IH] using rev_ind; [done|]. rewrite dock_log_app, loaded_ids_app, <- IH. unfold loaded_ids. rewrite omap_app.
  f_equal. by destruct m.
Qed.

(** A process other than a dispatcher loads nothing. *)
Lemma others_load_nothing cs ths w os n oc i th o a t' w' :
  inv cs ths w os n oc -> ths !! i = Some th -> os !! i = Some o -> o_carrier o = false ->
  estep (th_pid th) a (th_prog th) w = Some (t', w') -> loaded_ids (w_log w') = loaded_ids (w_log w).
Proof.
  intros Hinv Hth Ho Hc Hst. pose proof (i_wp Hinv i th o Hth Ho) as Hwp.
  pose proof (know_own _ _ _ _ _ _ Hinv i o Ho) as Hk. pose proof (i_hand Hinv o (list_elem_of_lookup_2 _ _ _ Ho)) as Hh. rewrite Hc in Hh. cbn in Hh.
  destruct (th_prog th) as [| | | | | | | | | |m k| | | | | | | | |]; cbn in Hst; unfold k_semop, k_msgsnd, k_msgrcv in Hst;
    repeat case_match; simplify_eq; try done.
  cbn. rewrite loaded_ids_app. destruct (Hwp _ (agree_refl _ _) Hk) as (_ & _ & l & Hl & _). destruct m; try (by rewrite app_nil_r).
  destruct Hl as [Hl _]. rewrite Hl in Hh. cbn in Hh. lia.
Qed.

Lemma halted_step ps s s' :
  calm_step s s' -> halted ps s -> halted ps s' /\ loaded_ids (w_log (s_world s')) = loaded_ids (w_log (s_world s)).
Proof.
  intros Hc [Hinv Hr Hid]. pose proof (calm_step_inv _ _ _ Hc Hinv) as Hinv'. pose proof (calm_step_running _ _ _ Hc Hinv Hr) as Hr'.
  destruct Hc as [j a th s s' Hj Hcalm Hst]. unfold sys_step in Hst. rewrite Hj in Hst.
  destruct (estep (th_pid th) a (th_prog th) (s_world s)) as [[t' w']|] eqn:E; [|done]. simplify_eq. cbn in Hr' |- *.
  assert (dispatches ps j -> idles t' /\ loaded_ids (w_log w') = loaded_ids (w_log (s_world s))) as Hdisp.
  { intros Hd. destruct (idles_step _ _ _ _ _ _ (Hid j th Hd Hj) Hr E) as (H1 & _ & H2). split; [done|].
    by rewrite <- loaded_ids_dock, H2, loaded_ids_dock. }
  split.
  - split; [done|done|]. cbn. intros i x Hd Hx. apply lookup_insert_cases in Hx as [[-> ->]|[_ Hx]]; [by apply Hdisp|by eapply Hid].
  - destruct Hinv as (os & n & oc & Hinv). destruct (thread_owner _ _ _ _ _ _ Hinv j _ Hj) as [o Ho].
    destruct (o_carrier o) eqn:Ec; [|by eapply others_load_nothing]. apply Hdisp.
    assert (carriers ps !! j = Some true) as Hcar by (rewrite <- (i_carriers Hinv), lookup_map, Ho; cbn; by rewrite Ec).
    unfold carriers in Hcar. rewrite lookup_map in Hcar. destruct (ps !! j) as [[pid p]|] eqn:Ep; [|done]. cbn in Hcar.
    exists pid. by destruct p.
Qed.

Lemma halted_steps ps s s' :
  calm_steps s s' -> halted ps s -> halted ps s' /\ loaded_ids (w_log (s_world s')) = loaded_ids (w_log (s_world s)).
Proof.
  induction 1 as [|s1 s2 s3 H1 _ IH]; [done|]. intros Hh. destruct (halted_step _ _ _ H1 Hh) as [Hh' <-]. by apply IH.
Qed.

(** What was taken from the belt is not on it any more. *)
Lemma popped_off_belt qbytes ps s p :
  reachable qbytes ps s -> p ∈ popped_ids (w_log (s_world s)) -> v_belt (w_sem (s_world s)) = 1 ->
  p ∉ map id (contents (w_shm (s_world s))).
Proof.
  intros Hr Hp Hf. destruct (belt_free_inv _ _ _ Hr Hf) as [n [H1 H2 H3 H4 H5 H6 H7 H8]]. cbn in *.
  rewrite queue_run_belt_log in H8. destruct (queue_run_ids _ _ _ H8) as (_ & Hq & _ & _). rewrite Hq in Hp. apply elem_of_seqZ in Hp.
  rewrite H7. intros Hin%elem_of_seqZ. lia.
Qed.

Lemma popped_grows s s' p :
  calm_steps s s' -> p ∈ popped_ids (w_log (s_world s)) -> p ∈ popped_ids (w_log (s_world s')).
Proof.
  induction 1 as [|s1 s2 s3 Hc _ IH]; [done|]. intros Hp. apply IH. clear IH. destruct Hc as [i a th s1 s2 Hi _ Hst]. unfold sys_step in Hst. rewrite Hi in Hst.
  destruct (estep (th_pid th) a (th_prog th) (s_world s1)) as [[t' w']|] eqn:E; [|done]. simplify_eq. cbn.
  destruct (estep_log _ _ _ _ _ _ E) as [->|[m ->]]; [done|]. unfold popped_ids. rewrite omap_app. apply elem_of_app. by left.
Qed.
