(* ===== verification/Departure.v ===== *)
(** * Trucks answer their signals

    A docked truck that has a signal waiting takes it and leaves the dock: in a
    fair run the message is not lost, the truck receives it, and every way
    through its program after that ends its stay. *)

From S2P Require Import Prelude Double Shared Ipc Belt SessionManager Truck Dispatcher Express Manager Worker.
From S2P Require Import Terminal Args Master Processes Logic Rules Invariants BeltProof DockProof ProcessProof Safety.
From S2P Require Import Shutdown Fairness Liveness.

(** ** Programs that are bound to write a line

    Whatever the program reads, and before it rests, it writes a line of the
    kind [G]; a [semop] that is not disturbed reports no error. *)

Fixpoint must_log (G : log_msg -> bool) {A} (t : prog A) : Prop :=
  match t with
  | Ret _ | Exit _ | Loop _ _ _ | Msgrcv _ _ _ => False
  | Undef _ => True
  | Load f k => forall s, must_log G (k (f s))
  | Store _ k | Sleep _ k | Kill _ _ k => must_log G k
  | Semop i op k => at_rest (Semop i op k) = false /\ must_log G (k None)
  | Msgsnd _ k => forall r, must_log G (k r)
  | Log m k => G m = true \/ must_log G k
  | Getpid k | RandInt _ _ k | Fork _ _ k | Waitpid k => forall z, must_log G (k z)
  | RandReal _ _ k => forall d, must_log G (k d)
  | SigFlag k | PollStdin k => forall b, must_log G (k b)
  | Getline k => forall l, must_log G (k l)
  end.

(** After every signal it receives, the program is bound to write such a line. *)
Fixpoint answers (G : log_msg -> bool) {A} (t : prog A) : Prop :=
  match t with
  | Ret _ | Exit _ | Undef _ => True
  | Load f k => forall s, answers G (k (f s))
  | Store _ k | Sleep _ k | Log _ k | Kill _ _ k => answers G k
  | Semop _ _ k | Msgsnd _ k => forall r, answers G (k r)
  | Msgrcv _ _ k => (forall r, must_log G (k r)) /\ forall r, answers G (k r)
  | Getpid k | RandInt _ _ k | Fork _ _ k | Waitpid k => forall z, answers G (k z)
  | RandReal _ _ k => forall d, answers G (k d)
  | SigFlag k | PollStdin k => forall b, answers G (k b)
  | Getline k => forall l, answers G (k l)
  | Loop body _ k => (forall s, answers G (body s)) /\ forall x, answers G (k x)
  end.

Section Structure.
Context (G : log_msg -> bool).

Lemma must_log_bind {A B} (t : prog A) (c : A -> prog B) : must_log G t -> must_log G (bind t c).
Proof. revert B c; induction t; intros B' c Hm; cbn in Hm |- *; naive_solver. Qed.

Lemma must_log_rest {A} (t : prog A) : must_log G t -> at_rest t = false.
Proof. destruct t; try done. by intros [? _]. Qed.

Lemma answers_bind {A B} (t : prog A) (c : A -> prog B) :
  answers G t -> (forall a, answers G (c a)) -> answers G (bind t c).
Proof.
  revert B c; induction t; intros B' c Ht Hc; cbn in Ht |- *; try (by eauto); try (by naive_solver).
  destruct Ht as [H1 H2]. split; [|auto]. intros r. by apply must_log_bind.
Qed.

Lemma answers_step {A} pid a (t t' : prog A) w w' : answers G t -> estep pid a t w = Some (t', w') -> answers G t'.
Proof.
  intros Ht Hst. destruct t; cbn [estep answers] in Ht, Hst; try discriminate Hst;
    try (repeat match type of Hst with
         | Some _ = Some _ => injection Hst as <- _
         | match ?x with _ => _ end = Some _ => destruct x; try discriminate Hst
         end; first [exact Ht|apply Ht]).
  destruct a; try discriminate Hst. injection Hst as <- _. destruct Ht as [Hb Hk]. apply answers_bind; [apply Hb|].
  intros [s'|x]; [by split|apply Hk].
Qed.

End Structure.

(** ** The truck *)

(** The lines with which a truck leaves the dock. *)
Definition leaves_dock (pid : Z) (m : log_msg) : bool :=
  match m with
  | Departing p _ _ _ | ShutdownWithCargo p _ | EmptyShutdown p => p =? pid
  | _ => false
  end.

(** The same, or the line that never appears ([dock_run_no_theft]). *)
Definition leaves_or_theft (pid : Z) (m : log_msg) : bool :=
  match m with IdentityTheft _ => true | _ => leaves_dock pid m end.

(** Follow the control flow of a program without signals. *)
Ltac answer :=
  repeat first
    [ progress intros
    | match goal with
      | |- answers _ (bind _ _) => apply answers_bind
      | |- answers _ (match ?x with _ => _ end) => destruct x
      | |- answers _ (if ?x then _ else _) => destruct x
      | |- answers _ _ => solve [cbn; auto|apply I]
      end ].

Lemma answers_load_at G {T} (arr : SharedState -> list T) i : answers G (load_at arr i).
Proof. intros s. cbn. by destruct (if 0 <=? i then arr s !! Z.to_nat i else None). Qed.

Lemma answers_semOperation G i op : answers G (semOperation i op).
Proof. intros [e|]; answer. Qed.

Lemma truck_bound pid (stop : bool) :
  must_log (leaves_or_theft pid)
    (if stop then truck_shutdown (manager_truck pid) ;; Ret (inr tt) else truck_depart (manager_truck pid) ;; Ret (inl tt) : prog (unit + unit)).
Proof.
  destruct stop; unfold truck_shutdown, truck_depart, count_departure, int_result; cbn;
    repeat first [progress intros|split; [reflexivity|]|case_match; cbn|rewrite Z.eqb_refl; by left|by left|by right; left|right]; try done.
Qed.

(** What the truck does with a signal. *)
Definition truck_obeys (pid : Z) (sig : SignalType) : prog (unit + unit) :=
  let* stop := (match sig with
                | SIGNAL_END_WORK => Ret true
                | _ => let* r' := load running in Ret (negb r')
                end) in
  if (stop : bool) then truck_shutdown (manager_truck pid) ;; Ret (inr tt)
  else truck_depart (manager_truck pid) ;; Ret (inl tt).

Lemma truck_obeys_bound pid sig : must_log (leaves_or_theft pid) (truck_obeys pid sig).
Proof.
  pose proof (truck_bound pid) as H. destruct sig; first [exact (H true)|intros s; exact (H (negb (running s)))].
Qed.

Lemma truck_receives_bound pid r : must_log (leaves_or_theft pid) (bind (received r) (truck_obeys pid)).
Proof.
  destruct r as [e|m]; cbn [received bind]; [apply truck_obeys_bound|].
  destruct (signal_of_int (command_id m)); [apply truck_obeys_bound|exact I].
Qed.

Create HintDb answer discriminated.

Section TruckProgram.
Context (G : log_msg -> bool).

Hint Resolve answers_load_at answers_semOperation : answer.

Ltac answer_all := repeat first [progress intros|solve [auto with answer]|progress answer].

Lemma answers_find_duplicate n i name : answers G (find_duplicate n i name).
Proof. revert i; induction n as [|n IH]; intros i; cbn [find_duplicate]; answer_all. Qed.

Lemma answers_find_free_slot n i : answers G (find_free_slot n i).
Proof. revert i; induction n as [|n IH]; intros i; cbn [find_free_slot]; answer_all. Qed.

Lemma answers_store_at n i g : answers G (store_at n i g).
Proof. unfold store_at. answer_all. Qed.

Hint Resolve answers_find_duplicate answers_find_free_slot answers_store_at : answer.

Lemma answers_store_user i f : answers G (store_user i f).
Proof. apply answers_store_at. Qed.

Lemma answers_lockBelt : answers G lockBelt.
Proof. apply answers_semOperation. Qed.

Lemma answers_unlockBelt : answers G unlockBelt.
Proof. apply answers_semOperation. Qed.

Hint Resolve answers_store_user answers_lockBelt answers_unlockBelt : answer.

Lemma answers_login name r org m : answers G (login manager_sessions name r org m).
Proof. unfold login. cbn [sm_shm sm_lock_fn sm_unlock_fn manager_sessions new_SessionManager negb]. answer_all. Qed.

Lemma answers_logout sm : manager_session sm -> answers G (logout sm).
Proof. intros [Hl Hu]. unfold logout. rewrite Hl, Hu. answer_all. Qed.

Lemma answers_bind_results {A B} (t : prog A) (Q : A -> Prop) (c : A -> prog B) :
  answers G t -> results t Q -> (forall a, Q a -> answers G (c a)) -> answers G (bind t c).
Proof.
  revert B Q c; induction t; intros B' Q c Ha Hr Hc; cbn in Ha, Hr |- *; try (by naive_solver).
  destruct Ha as [H1 H2]. split; [|naive_solver]. intros r. by apply must_log_bind.
Qed.

Lemma answers_with_session name r org m (body : SessionManager -> prog unit) :
  (forall sm, answers G (body sm)) -> answers G (with_session name r org m body).
Proof.
  intros Hb. unfold with_session. eapply answers_bind_results; [apply answers_login|apply results_login|].
  intros [ok sm] Hsm. cbn [fst snd] in *. pose proof (answers_logout sm Hsm). answer_all.
Qed.

End TruckProgram.

Section TruckRun.
Context (pid : Z).
Local Abbreviation G := (leaves_or_theft pid).

Lemma answers_dock_calls : answers G lockDock /\ answers G unlockDock.
Proof. split; apply answers_semOperation. Qed.

Lemma answers_obeys sig : answers G (truck_obeys pid sig).
Proof.
  destruct answers_dock_calls as [Hl Hu]. unfold truck_obeys, truck_shutdown, truck_depart, count_departure, int_result.
  cbn [t_shm manager_truck t_lock_dock_fn t_unlock_dock_fn my_pid]. repeat first [exact Hl|exact Hu|progress answer].
Qed.

Lemma answers_receive : answers G (bind (receiveSignalBlocking pid) (truck_obeys pid)).
Proof.
  split; intros r; [apply truck_receives_bound|]. apply answers_bind; [|apply answers_obeys].
  destruct r as [e|m]; cbn; [done|]. by destruct (signal_of_int (command_id m)).
Qed.

Lemma answers_truck_round : answers G (truck_round (manager_truck pid)).
Proof.
  destruct answers_dock_calls as [Hl Hu]. pose proof answers_receive as Hr. unfold truck_obeys in Hr.
  unfold truck_round, randomizeTruckSpecs. cbn [t_shm manager_truck t_lock_dock_fn t_unlock_dock_fn my_pid wait_for_signal_fn].
  repeat first [exact Hr|exact Hl|exact Hu|progress intros|apply answers_bind|solve [cbn; auto|apply I]|case_match].
Qed.

Lemma answers_truck_main k : answers G (truck_main pid k).
Proof.
  destruct answers_dock_calls as [Hl Hu]. unfold truck_main. apply answers_bind; [|intros; unfold clean_end; answer].
  apply answers_with_session. intros sm. unfold truck_run.
  cbn [t_shm manager_truck t_lock_dock_fn t_unlock_dock_fn my_pid].
  apply answers_bind; [done|intros _]. apply answers_bind; [done|intros _].
  apply answers_bind; [split; [intros _; apply answers_truck_round|done]|intros _].
  repeat first [exact Hl|exact Hu|progress answer].
Qed.

End TruckRun.

(** ** Along a fair run *)

(** The lines written since time [n]. *)
Definition new_lines (e : execution) (n m : nat) : list log_msg := drop (length (log_at e n)) (log_at e m).

(** Taking a message leaves those it does not match. *)
Lemma msg_take_keeps typ q m q' x : msg_take typ q = Some (m, q') -> x ∈ q -> msg_match typ x = false -> x ∈ q'.
Proof.
  revert q'; induction q as [|y q IH]; intros q' Ht Hx Hm; cbn in Ht; [done|].
  destruct (msg_match typ y) eqn:Ey.
  - simplify_eq. apply elem_of_cons in Hx as [->|Hx]; [congruence|done].
  - destruct (msg_take typ q) as [[m1 q1]|]; [|done]. simplify_eq. apply elem_of_cons in Hx as [->|Hx]; [by left|].
    right. by apply IH.
Qed.

(** A message of the type is found. *)
Lemma msg_take_found typ q x : x ∈ q -> mtype x = typ -> msg_take typ q <> None.
Proof.
  intros Hx Hty. induction q as [|y q IH]; cbn; [by apply not_elem_of_nil in Hx|].
  destruct (msg_match typ y) eqn:Ey; [done|]. apply elem_of_cons in Hx as [<-|Hx].
  - unfold msg_match in Ey. destruct (typ =? 0); [done|]. apply Z.eqb_neq in Ey. congruence.
  - destruct (msg_take typ q) as [[]|]; [done|]. by destruct IH.
Qed.

Section Run.
Context (qbytes : Z) (ps : list (Z * process)) (e : execution) (Hof : run_of qbytes ps e).

Lemma new_lines_app n m : (n <= m)%nat -> log_at e m = log_at e n ++ new_lines e n m.
Proof.
  intros Hle. destruct (log_grows e (ro_run _ _ _ Hof) n m Hle) as [l Hl]. unfold new_lines. rewrite Hl.
  by rewrite drop_app_length.
Qed.

(** A line written later is new also from an earlier time. *)
Lemma new_lines_earlier n k m g : (n <= k)%nat -> (k <= m)%nat -> g ∈ new_lines e k m -> g ∈ new_lines e n m.
Proof.
  intros Hn Hk Hg. pose proof (new_lines_app n m ltac:(lia)) as H1. rewrite (new_lines_app k m Hk) in H1.
  rewrite (new_lines_app n k Hn), <- app_assoc in H1. apply app_inv_head in H1. rewrite <- H1. set_solver.
Qed.

(** The queue stays, and so do the ids of the processes. *)
Lemma queue_alive n : w_msg_alive (world_at e n) = true.
Proof.
  pose proof (ro_run _ _ _ Hof) as Hrun. induction n as [|n IH]; [unfold world_at; by rewrite (ro_boot _ _ _ Hof)|].
  pose proof (Hrun n) as Hc. unfold calm_move in Hc. unfold world_at in *. destruct (moves e n) as [[i a]|]; [|by rewrite Hc].
  destruct Hc as (th & Hth & _ & Hst). unfold sys_step in Hst. rewrite Hth in Hst.
  destruct (estep (th_pid th) a (th_prog th) (s_world (state e n))) as [[t' w']|] eqn:E; [|done]. injection Hst as <-. cbn.
  rewrite <- IH. destruct (th_prog th); cbn in E; unfold k_semop, k_msgsnd, k_msgrcv in E; repeat case_match; by simplify_eq.
Qed.

Lemma thread_pids n : map th_pid (threads (state e n)) = map fst ps.
Proof.
  pose proof (ro_run _ _ _ Hof) as Hrun. induction n as [|n IH].
  { rewrite (ro_boot _ _ _ Hof). cbn. rewrite map_map. by apply map_ext. }
  pose proof (Hrun n) as Hc. unfold calm_move in Hc. destruct (moves e n) as [[i a]|]; [|by rewrite Hc].
  destruct Hc as (th & Hth & _ & Hst). unfold sys_step in Hst. rewrite Hth in Hst.
  destruct (estep (th_pid th) a (th_prog th) (s_world (state e n))) as [[t' w']|] eqn:E; [|done]. injection Hst as <-. cbn.
  rewrite <- IH. by apply pids_updated.
Qed.

(** A truck keeps answering its signals. *)
Lemma run_answers i pid k n th :
  ps !! i = Some (pid, PTruck k) -> threads (state e n) !! i = Some th ->
  th_pid th = pid /\ answers (leaves_or_theft pid) (th_prog th).
Proof.
  intros Hps. pose proof (ro_run _ _ _ Hof) as Hrun. revert th. induction n as [|n IH]; intros th Hth.
  { rewrite (ro_boot _ _ _ Hof) in Hth. cbn [threads boot] in Hth. rewrite lookup_map, Hps in Hth. cbn [option_map] in Hth. injection Hth as <-.
    split; [done|]. cbn [th_prog process_thread fst snd process_main]. apply answers_bind; [apply answers_truck_main|done]. }
  pose proof (Hrun n) as Hc. unfold calm_move in Hc. destruct (moves e n) as [[j a]|]; [|apply IH; by rewrite <- Hc].
  destruct Hc as (thj & Hthj & _ & Hst). unfold sys_step in Hst. rewrite Hthj in Hst.
  destruct (estep (th_pid thj) a (th_prog thj) (s_world (state e n))) as [[t' w']|] eqn:E; [|done]. injection Hst as Hst.
  rewrite <- Hst in Hth. cbn in Hth. apply lookup_insert_cases in Hth as [[-> ->]|[_ Hth]]; [|by apply IH].
  destruct (IH thj Hthj) as [Hp Ha]. split; [done|]. by eapply answers_step.
Qed.

(** A message for a process that waits stays until the process takes it. *)
Lemma message_stays n i th x :
  Forall (fun p => 0 < p) (map fst ps) -> threads (state e n) !! i = Some th -> ~ moved e n i ->
  x ∈ w_msgs (world_at e n) -> mtype x = th_pid th -> x ∈ w_msgs (world_at e (S n)).
Proof.
  intros Hpos Hth Hnm Hx Hty. pose proof (ro_run _ _ _ Hof) as Hrun.
  destruct (inv_always e _ Hrun (run_inv _ _ _ Hof) n) as (os & c & oc & Hinv).
  destruct (moves e n) as [[j a]|] eqn:Hmv.
  2: { pose proof (Hrun n) as Hc. unfold calm_move in Hc. rewrite Hmv in Hc. unfold world_at in *. by rewrite Hc. }
  destruct (own_move e _ Hrun n os c oc j a Hinv Hmv) as (thj & oj & t' & o' & c' & oc' & Hthj & Hoj & _ & Hstep & _ & _ & _).
  pose proof (i_wp Hinv j thj oj Hthj Hoj) as Hwp. pose proof (know_own _ _ _ _ _ _ Hinv j oj Hoj) as Hk.
  assert (th_pid thj <> th_pid th) as Hne.
  { apply (other_pid _ _ _ _ _ _ Hinv i th Hth j thj Hthj). intros ->. apply Hnm. by exists a. }
  assert (0 < th_pid thj) as Hp.
  { rewrite <- (thread_pids n) in Hpos. rewrite list.Forall_forall in Hpos. apply Hpos. apply list_elem_of_fmap.
    exists thj. split; [done|]. by eapply list_elem_of_lookup_2. }
  generalize dependent (world_at e (S n)). intros w1 Hstep.
  destruct (th_prog thj) as [| | |idx op k|mm k|typ nw k| | | | | | | | | | | | | |] eqn:Et; cbn [estep] in Hstep;
    try (repeat match type of Hstep with
         | Some _ = Some _ => injection Hstep as _ <-; exact Hx
         | match ?y with _ => _ end = Some _ => destruct y; try discriminate Hstep
         end; discriminate Hstep).
  - unfold k_semop in Hstep. repeat case_match; simplify_eq; exact Hx.
  - unfold k_msgsnd in Hstep. repeat case_match; simplify_eq; cbn; set_solver.
  - specialize (Hwp _ (agree_refl _ _) Hk) as (_ & Htyp & _).
    destruct (k_msgrcv typ nw a (world_at e n)) as [[r w']|] eqn:Ek; [|done]. injection Hstep as _ <-.
    unfold k_msgrcv in Ek. destruct (msg_take typ (w_msgs (world_at e n))) as [[y q]|] eqn:Eq;
      repeat case_match; simplify_eq; try exact Hx. cbn.
    eapply msg_take_keeps; [exact Eq|exact Hx|]. unfold msg_match. rewrite (proj2 (Z.eqb_neq _ _)) by lia.
    apply Z.eqb_neq. congruence.
Qed.

Context (Hfair : strongly_fair e) (Hroom : room_recurs e).

(** A thread that is bound to write a line writes it. *)
Lemma logs_eventually G i n th :
  threads (state e n) !! i = Some th -> must_log G (th_prog th) ->
  exists m g, (n <= m)%nat /\ g ∈ new_lines e n m /\ G g = true.
Proof.
  intros Hth Hm. pose proof (ro_run _ _ _ Hof) as Hrun. pose proof (run_inv _ _ _ Hof) as Hst.
  destruct (inv_always e _ Hrun Hst n) as (os & c & oc & Hinv). destruct (thread_owner _ _ _ _ _ _ Hinv i th Hth) as [o Ho].
  destruct (leads_to e (carriers ps) Hrun i (fun k th _ => (n <= k)%nat /\ must_log G (th_prog th))
             (fun m => (n <= m)%nat /\ exists g, g ∈ new_lines e n m /\ G g = true)) with (n := n) (th := th) (o := o)
    as (m & _ & Hnm & g & Hg); [| | | |done|by exists m, g].
  - intros k th1 o1 Hs [_ H1]. apply must_log_rest in H1. split; [done|].
    by apply (busy_acts e (carriers ps) Hrun Hst (ro_counters _ _ _ Hof) Hfair).
  - intros k m th1 o1 Hle [? ?]. split; [lia|done].
  - clear th o os c oc Hth Hm Hinv Ho. intros m th o t' o' os c c' oc oc' Hmv [Hnm Hm].
    destruct Hmv as [Hth Ho Hinv _ (a & Hcalm & Hstep) _ _ _ _].
    destruct (th_prog th) as [| | |idx op k|mm k| | | | | |mm k| | | | | | | | |] eqn:Et; cbn [must_log estep] in Hm, Hstep;
      try discriminate Hstep; try done;
      try (right; split; [lia|]; repeat match type of Hstep with
           | Some _ = Some _ => injection Hstep as <- _
           | match ?x with _ => _ end = Some _ => destruct x; try discriminate Hstep
           end; cbn; first [exact Hm|apply Hm]).
    + right. split; [lia|]. destruct (k_semop idx op a (world_at e m)) as [[r w1]|] eqn:Ek; [|done]. injection Hstep as <- _.
      destruct (semop_none _ _ _ _ _ _ Hinv i th o Hth Ho idx op k a r w1 Et) as (-> & _); [by intros e0 -> |done|apply Hm].
    + destruct a; try discriminate Hstep. injection Hstep as <- Hw. destruct Hm as [HG|Hm]; [|right; split; [lia|done]].
      left. split; [lia|]. exists mm. split; [|done].
      assert (log_at e (S m) = log_at e m ++ [mm]) as Hlog by (unfold log_at; by rewrite <- Hw).
      apply (new_lines_earlier n m); [lia|lia|]. unfold new_lines. rewrite Hlog, drop_app_length. set_solver.
  - split; [done|]. eauto.
Qed.

End Run.

(** * Theorem *)

(** C15. A truck answers its signals: in a strongly fair run of any number of
    processes (with positive ids) in which no [semop] is interrupted, no counter overflows and the message
    queue has room again and again, a truck that waits for a message while one
    for it is in the queue leaves the dock: it departs, or ends its shift, and
    the log says so. *)
Theorem truck_answers_signal qbytes ps e n i pid k th x :
  run_of qbytes ps e -> strongly_fair e -> room_recurs e -> Forall (fun p => 0 < p) (map fst ps) ->
  ps !! i = Some (pid, PTruck k) -> threads (state e n) !! i = Some th -> waits_message (th_prog th) = true ->
  x ∈ w_msgs (world_at e n) -> mtype x = pid ->
  exists m g, (n <= m)%nat /\ g ∈ new_lines e n m /\ leaves_dock pid g = true.
Proof.
  intros Hof Hfair Hroom Hpos Hps Hth Hw Hx Hty. pose proof (ro_run _ _ _ Hof) as Hrun. pose proof (run_inv _ _ _ Hof) as Hst.
  destruct (run_answers _ _ _ Hof i pid k n th Hps Hth) as [<- Hans].
  destruct (inv_always e _ Hrun Hst n) as (os & c & oc & Hinv). destruct (thread_owner _ _ _ _ _ _ Hinv i th Hth) as [o Ho].
  destruct (th_prog th) as [| | | | |typ nw kk| | | | | | | | | | | | | |] eqn:Et; try done. destruct Hans as [Hbound _].
  pose proof (i_wp Hinv i th o Hth Ho) as Hwp. rewrite Et in Hwp.
  destruct (Hwp _ (agree_refl _ _) (know_own _ _ _ _ _ _ Hinv i o Ho)) as (_ & -> & _).
  destruct (weak_acts_while e (carriers ps) Hrun (fun m => x ∈ w_msgs (world_at e m)) i th o n) as (m & Hm & Ha).
  - by apply strongly_weakly.
  - split; [done|eauto].
  - done.
  - intros m Hm Hxm Hnm [Hthm _]. by eapply (message_stays _ _ _ Hof m i th).
  - intros m Hm [Hthm _] Hxm. exists ANone. rewrite Et. cbn [estep k_msgrcv]. rewrite (queue_alive _ _ _ Hof).
    pose proof (msg_take_found (th_pid th) _ x Hxm Hty) as Hf.
    destruct (msg_take (th_pid th) (w_msgs (world_at e m))) as [[y q]|]; [do 2 eexists; split; reflexivity|done].
  - destruct (acts_move e (carriers ps) Hrun i th o m Ha) as (t' & o' & os' & c1 & c1' & oc1 & oc1' & Hmv).
    destruct (mv_step _ _ _ _ _ _ _ _ _ _ _ _ _ Hmv) as (a & _ & Hstep). rewrite Et in Hstep. cbn [estep] in Hstep.
    destruct (k_msgrcv (th_pid th) nw a (world_at e m)) as [[r w']|]; [|done]. injection Hstep as Ht' _.
    destruct (logs_eventually _ _ _ Hof Hfair Hroom (leaves_or_theft (th_pid th)) i (S m) (mkThread (th_pid th) t'))
      as (m' & g & Hm' & Hg & HG); [apply Hmv|cbn; rewrite <- Ht'; apply Hbound|].
    exists m', g. split; [lia|]. assert (g ∈ new_lines e n m') as Hnew by (eapply new_lines_earlier; [exact Hof|..|exact Hg]; lia).
    split; [done|]. destruct g; try done. exfalso.
    destruct (inv_always e _ Hrun Hst m') as (os2 & c2 & oc2 & Hinv2). destruct (i_log Hinv2) as [_ Hd].
    rewrite dock_run_dock_log in Hd. destruct (dock_run (w_log (world_at e m'))) as [[cur d]|] eqn:Er; [|done].
    apply (dock_run_no_theft _ _ _ pid Er). change (w_log (world_at e m')) with (log_at e m').
    rewrite (new_lines_app _ _ _ Hof n m') by lia. set_solver.
Qed.

(** The operator sends the truck at the dock away and leaves the console. *)
Definition trip_ps : list (Z * process) := [(101, PTruck 1); (104, PTerminal)].

Definition trip_script : list (nat * answer) :=
  let s0 := boot 16384 trip_ps in
  let s1 := drives false "depart" (replicate 400 0%nat ++ replicate 252 1%nat) s0 in
  script false "depart" (replicate 400 0%nat ++ replicate 252 1%nat) s0 ++
  script false "exit" (replicate 300 1%nat ++ replicate 300 0%nat) s1.

Definition trip_over : sys :=
  drives false "exit" (replicate 300 1%nat ++ replicate 300 0%nat)
    (drives false "depart" (replicate 400 0%nat ++ replicate 252 1%nat) (boot 16384 trip_ps)).

Lemma trip_plays : calm_run trip_script (boot 16384 trip_ps) = Some trip_over.
Proof.
  unfold trip_script, trip_over. cbv zeta. rewrite calm_run_app, script_drives. cbn [mbind option_bind]. by rewrite script_drives.
Qed.

Definition trip : execution := scripted trip_script (boot 16384 trip_ps).

Lemma trip_run : run_of 16384 trip_ps trip.
Proof. apply (script_run _ _ _ _ trip_plays); [by apply (bool_decide_unpack _)|vm_compute; reflexivity]. Qed.

Lemma trip_fair : strongly_fair trip.
Proof. apply (script_fair _ _ _ _ trip_plays). vm_compute. reflexivity. Qed.

Lemma trip_room : room_recurs trip.
Proof. apply (script_room _ _ _ _ trip_plays); vm_compute; reflexivity. Qed.

Lemma truck_answers_signal_witness :
  w_msgs (world_at trip 490) = [mkCommandMessage 101 1] /\
  exists m g, (490 <= m)%nat /\ g ∈ new_lines trip 490 m /\ leaves_dock 101 g = true.
Proof.
  assert (w_msgs (world_at trip 490) = [mkCommandMessage 101 1]) as Hq by (vm_compute; reflexivity).
  split; [exact Hq|].
  assert (option_map (fun th => waits_message (th_prog th)) (threads (state trip 490) !! 0%nat) = Some true) as Hw
    by (vm_compute; reflexivity).
  apply option_map_some in Hw as (th & Hth & Hw).
  refine (truck_answers_signal 16384 trip_ps trip 490 0 101 1 th (mkCommandMessage 101 1)
            trip_run trip_fair trip_room _ eq_refl Hth Hw _ eq_refl).
  - apply (bool_decide_unpack _). vm_compute. exact I.
  - rewrite Hq. by left.
Defined.
