(* ===== verification/Orchestra.v ===== *)
(** * The system under the master process

    [boot] starts a given list of processes.  Here the master starts them, and
    signals reach them: the state below adds the table of processes and the
    signals on their way to the system, and its steps say what [fork], [execv],
    [waitpid], [kill], the delivery of a signal and the destructor of [Manager]
    do.  Process ids are not reused while the master runs.

    - The steps are those of the system itself ([own_step]) and those of its
      users ([user_step]): somebody sends SIGINT or SIGTERM to a process, or
      starts a process by hand, as the console is.
    - A call fails with EINTR, and the flag that a handler sets is found set,
      only in a process that a signal was delivered to.
    - The handler of a worker may find [global_worker_ptr] null, pointing to the
      worker, or pointing to the destroyed worker; the model does not follow
      the life of the object and lets each happen at any time.  In the last case
      the behaviour is undefined: the process makes no modelled step any more.
    - [plan] follows the program of the master through the table of processes:
      whom it forks and whom it signals.

    The invariant of this system and the theorems are in [Deployment]. *)

From stdpp Require Import gmap.
From S2P Require Import Prelude Double Shared Ipc Belt SessionManager Truck Dispatcher Express Manager Worker.
From S2P Require Import Terminal Args Master Processes Logic Rules Invariants ProcessProof Safety Shutdown.

(** ** State *)

(** A path and its arguments, as given to [execv]. *)
Definition image : Type := string * list string.

Record msys := mkMsys {
  m_sys : sys;                   (* thread 0 is the master *)
  m_procs : list (Z * process);  (* the processes whose image was loaded, in order *)
  m_byhand : list Z;             (* those that a user started *)
  m_forked : list (Z * image);   (* all children the master forked, in order *)
  m_dead : list Z;               (* processes ended by a failed [execv] or by a signal *)
  m_signalled : list Z;          (* whom the master sent SIGTERM, in order *)
  m_pending : gset (Z * Z);      (* signals sent and not delivered: process and signal *)
  m_caught : list (Z * bool);    (* whose handler has run, and whether its flag is found set *)
  m_broken : list Z;             (* who had a [semop] interrupted, or a handler that ran on a destroyed object *)
  m_over : bool }.               (* the destructor of the master's [Manager] has run *)

Definition mboot (qbytes mpid : Z) : msys :=
  mkMsys (boot qbytes [(mpid, PMaster)]) [(mpid, PMaster)] [] [] [] [] ∅ [] [] false.

Definition set_sys (s : sys) (ms : msys) : msys :=
  mkMsys s (m_procs ms) (m_byhand ms) (m_forked ms) (m_dead ms) (m_signalled ms) (m_pending ms) (m_caught ms)
    (m_broken ms) (m_over ms).

(** A process starts beside those of [s]. *)
Definition join (pid : Z) (p : process) (s : sys) : sys := mkSys (threads s ++ [process_thread (pid, p)]) (s_world s).

(** The child starts; the parent goes on in [s]. *)
Definition start_child (pid : Z) (p : process) (img : image) (s : sys) (ms : msys) : msys :=
  mkMsys (join pid p s) (m_procs ms ++ [(pid, p)]) (m_byhand ms) (m_forked ms ++ [(pid, img)]) (m_dead ms) (m_signalled ms)
    (m_pending ms) (m_caught ms) (m_broken ms) (m_over ms).

(** [execv] fails: the child calls [exit(1)]. *)
Definition lose_child (pid : Z) (img : image) (s : sys) (ms : msys) : msys :=
  mkMsys s (m_procs ms) (m_byhand ms) (m_forked ms ++ [(pid, img)]) (m_dead ms ++ [pid]) (m_signalled ms) (m_pending ms)
    (m_caught ms) (m_broken ms) (m_over ms).

(** The master sends a signal. *)
Definition signal_child (pid sig : Z) (s : sys) (ms : msys) : msys :=
  mkMsys s (m_procs ms) (m_byhand ms) (m_forked ms) (m_dead ms) (m_signalled ms ++ [pid]) ({[(pid, sig)]} ∪ m_pending ms)
    (m_caught ms) (m_broken ms) (m_over ms).

(** The signal ends the process. *)
Definition end_process (pid sig : Z) (ms : msys) : msys :=
  mkMsys (m_sys ms) (m_procs ms) (m_byhand ms) (m_forked ms) (m_dead ms ++ [pid]) (m_signalled ms)
    (m_pending ms ∖ {[(pid, sig)]}) (m_caught ms) (m_broken ms) (m_over ms).

(** The handler runs; the process goes on in [s].  [cut] says that it was inside
    a [semop], which fails, or that the handler ran into undefined behaviour. *)
Definition run_handler (pid sig : Z) (seen cut : bool) (s : sys) (ms : msys) : msys :=
  mkMsys s (m_procs ms) (m_byhand ms) (m_forked ms) (m_dead ms) (m_signalled ms) (m_pending ms ∖ {[(pid, sig)]})
    (m_caught ms ++ [(pid, seen)]) (m_broken ms ++ (if cut then [pid] else [])) (m_over ms).

(** The behaviour of thread [i] is undefined from now on. *)
Definition go_wild (i : nat) (pid : Z) (u : ub) (s : sys) : sys :=
  mkSys (<[i := mkThread pid (Undef u)]> (threads s)) (s_world s).

(** [virtual ~Manager()] of the owner: the resources are removed. *)
Definition end_master (ms : msys) : msys :=
  mkMsys (mkSys (threads (m_sys ms)) (remove_ipc (s_world (m_sys ms)))) (m_procs ms) (m_byhand ms) (m_forked ms) (m_dead ms)
    (m_signalled ms) (m_pending ms) (m_caught ms) (m_broken ms) true.

(** A user sends a signal, or starts a process. *)
Definition user_signal (pid sig : Z) (ms : msys) : msys :=
  mkMsys (m_sys ms) (m_procs ms) (m_byhand ms) (m_forked ms) (m_dead ms) (m_signalled ms) ({[(pid, sig)]} ∪ m_pending ms)
    (m_caught ms) (m_broken ms) (m_over ms).

Definition user_start (pid : Z) (p : process) (ms : msys) : msys :=
  mkMsys (join pid p (m_sys ms)) (m_procs ms ++ [(pid, p)]) (m_byhand ms ++ [pid]) (m_forked ms) (m_dead ms) (m_signalled ms)
    (m_pending ms) (m_caught ms) (m_broken ms) (m_over ms).

(** What [waitpid(-1, ..., WNOHANG)] may report. *)
Definition waitable (z : Z) (ms : msys) : Prop :=
  z = -1 \/ z = 0 \/
  (z ∈ map fst (m_forked ms) /\
   (z ∈ m_dead ms \/ exists th, th ∈ threads (m_sys ms) /\ th_pid th = z /\ stopped_prog (th_prog th))).

(** Where the master stands, and that it is there. *)
Definition master_at (ms : msys) (t : prog unit) : Prop := exists mpid, threads (m_sys ms) !! 0%nat = Some (mkThread mpid t).
Definition master_dead (ms : msys) : Prop := exists th, threads (m_sys ms) !! 0%nat = Some th /\ th_pid th ∈ m_dead ms.
Definition master_runs (ms : msys) (t : prog unit) : Prop :=
  exists mpid, threads (m_sys ms) !! 0%nat = Some (mkThread mpid t) /\ mpid ∉ m_dead ms.

(** A process id that is not in use. *)
Definition fresh_pid (pid : Z) (ms : msys) : Prop :=
  0 < pid /\ pid ∉ map th_pid (threads (m_sys ms)) /\ pid ∉ map fst (m_forked ms).

(** A call that a signal handler can interrupt. *)
Definition in_wait {A} (t : prog A) : bool :=
  match t with Semop _ _ _ | Msgsnd _ _ | Msgrcv _ _ _ => true | _ => false end.

(** The flag of the process is set. *)
Definition flagged (pid : Z) (ms : msys) : bool := bool_decide ((pid, true) ∈ m_caught ms).

(** ** Steps *)

Inductive own_step : msys -> msys -> Prop :=
| ms_thread i a th ms s' :
    threads (m_sys ms) !! i = Some th -> th_pid th ∉ m_dead ms -> process_call (th_prog th) = false ->
    quiet_answer (flagged (th_pid th) ms) (th_prog th) a = true ->
    sys_step i a (m_sys ms) = Some s' ->
    own_step ms (set_sys s' ms)
| ms_fork path argv k pid junk p ms s' :
    master_runs ms (Fork path argv k) -> fresh_pid pid ms -> load_image pid junk path argv = Some p ->
    sys_step 0 (AInt pid) (m_sys ms) = Some s' ->
    own_step ms (start_child pid p (path, argv) s' ms)
| ms_exec_fails path argv k pid ms s' :
    master_runs ms (Fork path argv k) -> fresh_pid pid ms -> sys_step 0 (AInt pid) (m_sys ms) = Some s' ->
    own_step ms (lose_child pid (path, argv) s' ms)
| ms_fork_fails path argv k ms s' :
    master_runs ms (Fork path argv k) -> sys_step 0 (AInt (-1)) (m_sys ms) = Some s' ->
    own_step ms (set_sys s' ms)
| ms_waitpid k z ms s' :
    master_runs ms (Waitpid k) -> waitable z ms -> sys_step 0 (AInt z) (m_sys ms) = Some s' ->
    own_step ms (set_sys s' ms)
| ms_kill pid sig k ms s' :
    master_runs ms (Kill pid sig k) -> sys_step 0 ANone (m_sys ms) = Some s' ->
    own_step ms (signal_child pid sig s' ms)
| ms_exit ms :
    master_runs ms (Ret tt) -> m_over ms = false ->
    own_step ms (end_master ms)
| ms_die pid sig p ms :
    (pid, sig) ∈ m_pending ms -> (pid, p) ∈ m_procs ms ->
    handles sig p = false \/ process_thread (pid, p) ∈ threads (m_sys ms) ->
    own_step ms (end_process pid sig ms)
| ms_handle pid sig p ptr seen ms :
    (pid, sig) ∈ m_pending ms -> (pid, p) ∈ m_procs ms -> pid ∉ m_dead ms -> handles sig p = true ->
    stop_seen sig ptr p = inr seen ->
    own_step ms (run_handler pid sig seen false (m_sys ms) ms)
| ms_interrupt i th sig p ptr seen ms s' :
    threads (m_sys ms) !! i = Some th -> th_pid th ∉ m_dead ms -> in_wait (th_prog th) = true ->
    (th_pid th, sig) ∈ m_pending ms -> (th_pid th, p) ∈ m_procs ms -> handles sig p = true ->
    stop_seen sig ptr p = inr seen -> sys_step i (AErr EINTR) (m_sys ms) = Some s' ->
    own_step ms (run_handler (th_pid th) sig seen (in_semop (th_prog th)) s' ms)
| ms_wild i th sig p ptr u ms :
    threads (m_sys ms) !! i = Some th -> th_pid th ∉ m_dead ms -> ~ stopped_prog (th_prog th) ->
    (th_pid th, sig) ∈ m_pending ms -> (th_pid th, p) ∈ m_procs ms -> handles sig p = true ->
    stop_seen sig ptr p = inl u ->
    own_step ms (run_handler (th_pid th) sig false true (go_wild i (th_pid th) u (m_sys ms)) ms).

Inductive user_step : msys -> msys -> Prop :=
| us_signal pid sig ms :
    pid ∈ map fst (m_procs ms) -> sig = SIGINT \/ sig = SIGTERM ->
    user_step ms (user_signal pid sig ms)
| us_start path argv pid junk p ms :
    m_over ms = false -> fresh_pid pid ms -> load_image pid junk path argv = Some p ->
    user_step ms (user_start pid p ms).

Definition mstep (ms ms' : msys) : Prop := own_step ms ms' \/ user_step ms ms'.

Definition msteps : relation msys := rtc mstep.

(** What the master is meant to start. *)
Definition fleet : list image :=
  [("./build/dispatcher", ["dispatcher"]); ("./build/express", ["express"]); ("./build/belt", ["belt"]);
   ("./build/truck", ["truck"; "1"]); ("./build/truck", ["truck"; "2"]);
   ("./build/worker", ["worker"; "1"]); ("./build/worker", ["worker"; "2"]); ("./build/worker", ["worker"; "3"])].

(** * Lemmas *)

(** ** An orchestrated run is a run of the booted system *)

(** A process that has not been scheduled yet changes nothing. *)
Lemma calm_step_weaken s s' th :
  calm_step s s' -> calm_step (mkSys (threads s ++ [th]) (s_world s)) (mkSys (threads s' ++ [th]) (s_world s')).
Proof.
  intros [i a th0 s1 s2 Hi Hc Hst]. apply (calm_step_thread i a th0); [by apply lookup_app_l_Some|done|].
  unfold sys_step in Hst |- *. cbn. rewrite (lookup_app_l_Some _ _ _ _ Hi). rewrite Hi in Hst.
  destruct (estep (th_pid th0) a (th_prog th0) (s_world s1)) as [[t' w']|]; [|done]. simplify_eq. cbn.
  rewrite insert_app_l; [done|]. by eapply lookup_lt_Some.
Qed.

Lemma reachable_spawn qbytes ps s pp :
  reachable qbytes ps s -> fst pp ∉ map fst ps ->
  reachable qbytes (ps ++ [pp]) (mkSys (threads s ++ [process_thread pp]) (s_world s)).
Proof.
  intros [Hnd Hst] Hnew. split.
  - rewrite map_app. apply list.NoDup_app. split; [done|]. split; [|cbn; by apply NoDup_singleton].
    intros x Hx Hx'. cbn in Hx'. apply list_elem_of_singleton in Hx'. by subst.
  - unfold boot in *. rewrite map_app. cbn [map].
    assert (forall s0, calm_steps s0 s ->
      calm_steps (mkSys (threads s0 ++ [process_thread pp]) (s_world s0)) (mkSys (threads s ++ [process_thread pp]) (s_world s)))
      as Hgen.
    { induction 1 as [x|x y z Hxy _ IH]; [constructor|].
      exact (rtc_l _ _ _ _ (calm_step_weaken _ _ _ Hxy) (IH Hst)). }
    exact (Hgen _ Hst).
Qed.

Lemma reachable_step qbytes ps s i a th s' :
  reachable qbytes ps s -> threads s !! i = Some th -> calm_answer (th_prog th) a = true -> sys_step i a s = Some s' ->
  reachable qbytes ps s'.
Proof.
  intros [Hnd Hst] Hi Hc Hs. split; [done|]. eapply rtc_r; [exact Hst|]. by eapply calm_step_thread.
Qed.

Lemma sys_step_pids i a s s' : sys_step i a s = Some s' -> map th_pid (threads s') = map th_pid (threads s).
Proof.
  unfold sys_step. destruct (threads s !! i) as [th|] eqn:Hi; [|done].
  destruct (estep (th_pid th) a (th_prog th) (s_world s)) as [[t' w']|]; [|done]. intros; simplify_eq. cbn.
  change (th_pid <$> (<[i:=mkThread (th_pid th) t']> (threads s)) = th_pid <$> threads s).
  rewrite list_fmap_insert. apply list_insert_id. by rewrite list_lookup_fmap, Hi.
Qed.

Lemma reachable_pids qbytes ps s : reachable qbytes ps s -> map th_pid (threads s) = map fst ps.
Proof.
  intros [_ Hst]. assert (map th_pid (threads (boot qbytes ps)) = map fst ps) as Hb by (cbn; by rewrite map_map).
  rewrite <- Hb. clear Hb. induction Hst as [|s1 s2 s3 [i a th s0 s4 _ _ H1] _ IH]; [done|].
  rewrite IH. by eapply sys_step_pids.
Qed.

(** ** The plan of the master

    [g_forked] and [g_sent] are what the table of processes has recorded,
    [g_stop] says that the master has cleared [running]. *)

Record ghost := mkGhost { g_forked : list (Z * image); g_sent : list Z; g_stop : bool }.

Definition add_forked (x : Z * image) (g : ghost) : ghost := mkGhost (g_forked g ++ [x]) (g_sent g) (g_stop g).
Definition add_sent (pid : Z) (g : ghost) : ghost := mkGhost (g_forked g) (g_sent g ++ [pid]) (g_stop g).
Definition set_stop (st : bool) (g : ghost) : ghost := mkGhost (g_forked g) (g_sent g) st.

(** [plan t Q g]: from record [g] on, [t] forks and signals so that its result
    satisfies [Q]; an [exit] has the code 1 and comes before any signal,
    and nothing waits for a semaphore or a message. *)
Fixpoint plan {A} (t : prog A) (Q : A -> ghost -> Prop) (g : ghost) : Prop :=
  match t with
  | Ret a => Q a g
  | Exit c => c = 1 /\ g_sent g = []
  | Undef _ => False
  | Load f k => forall s, plan (k (f s)) Q g
  | Store f k => exists st, (st = true -> g_stop g = true \/ forall s, running (f s) = false) /\ plan k Q (set_stop st g)
  | Semop _ _ _ | Msgsnd _ _ | Msgrcv _ _ _ => False
  | Getpid k | RandInt _ _ k | Waitpid k => forall z, plan (k z) Q g
  | RandReal _ _ k => forall d, plan (k d) Q g
  | Sleep _ k | Log _ k => plan k Q g
  | SigFlag k | PollStdin k => forall b, plan (k b) Q g
  | Getline k => forall l, plan (k l) Q g
  | Fork path argv k =>
      (forall z, 0 < z -> plan (k z) Q (add_forked (z, (path, argv)) g)) /\ plan (k (-1)) Q g
  | Kill pid sig k => sig = SIGTERM /\ plan k Q (add_sent pid g)
  | Loop body _ k =>
      forall s, plan (body s) (fun r g' => match r with inl _ => g' = g | inr x => plan (k x) Q g' end) g
  end.

Lemma plan_mono {A} (t : prog A) (Q Q' : A -> ghost -> Prop) gh :
  (forall a g', Q a g' -> Q' a g') -> plan t Q gh -> plan t Q' gh.
Proof.
  revert Q Q' gh; induction t; intros Q Q' gh HQ Hp; cbn in *; try (by naive_solver).
  intros s'. eapply H; [|apply Hp]. intros [s2|x] g'; [done|]. cbn. eauto.
Qed.

Lemma plan_bind {A B} (t : prog A) (c : A -> prog B) Q gh :
  plan t (fun a g' => plan (c a) Q g') gh -> plan (bind t c) Q gh.
Proof.
  revert B c Q gh; induction t; intros B' c Q gh Hp; cbn in *; try (by naive_solver).
  intros s'. eapply plan_mono; [|apply Hp]. intros [s2|x] g'; [done|]. cbn. eauto.
Qed.

(** A step that does not touch the table of processes. *)
Lemma plan_step {A} pid a (t t' : prog A) Q g w w' :
  plan t Q g -> process_call t = false -> estep pid a t w = Some (t', w') ->
  exists st, plan t' Q (set_stop st g) /\ (st = true -> g_stop g = true \/ running (w_shm w') = false).
Proof.
  intros Hp Hc Hst. destruct g as [fk se st0]. destruct t; cbn in Hst, Hp, Hc; try discriminate;
    try (exists st0; split; [|by left]; repeat case_match; simplify_eq; by auto).
  - destruct a; simplify_eq. destruct Hp as (st & Hs & Hp). exists st. split; [exact Hp|].
    intros Ht. destruct (Hs Ht) as [|Hr]; [by left|right]. apply Hr.
  - destruct a; simplify_eq. exists st0. split; [|by left]. apply plan_bind. eapply plan_mono; [|apply Hp].
    intros [s2|x] g' Hg; cbn; [by subst|done].
Qed.

(** ** The program of the master follows the plan *)

Lemma plan_spawnChild path name arg pids g :
  g_sent g = [] -> pids = map fst (g_forked g) ->
  plan (spawnChild path name arg pids)
    (fun pids' g' => exists pid, g' = add_forked (pid, (path, child_argv name arg)) g /\ pids' = map fst (g_forked g')) g.
Proof.
  intros Hs ->. cbn. split.
  - intros z Hz. rewrite (proj2 (Z.ltb_ge _ _)) by lia. cbn. exists z. split; [done|]. by rewrite map_app.
  - done.
Qed.

Lemma plan_spawn_fleet path name n i pids g :
  g_sent g = [] -> pids = map fst (g_forked g) ->
  plan (spawn_fleet path name n i pids)
    (fun pids' g' => pids' = map fst (g_forked g') /\ g_sent g' = [] /\
       map snd (g_forked g') = map snd (g_forked g) ++ map (fun j => (path, child_argv name (to_string j))) (seqZ i (Z.of_nat n))) g.
Proof.
  revert i pids g; induction n as [|n IH]; intros i pids g Hs Hp; cbn [spawn_fleet].
  - cbn. by rewrite app_nil_r.
  - apply plan_bind. eapply plan_mono; [|by apply plan_spawnChild]. intros pids' g' (pid & -> & Hp').
    apply plan_bind. cbn [plan sleep_ms]. eapply plan_mono; [|by apply IH]. intros a g' (-> & Hs' & Hm). split; [done|]. split; [done|].
    rewrite Hm, Nat2Z.inj_succ, (seqZ_cons i) by lia. cbn. rewrite map_app, <- app_assoc. cbn. rewrite Z.pred_succ. by rewrite Z.add_1_r.
Qed.

Lemma plan_kill_all pids (Q : unit -> ghost -> Prop) g :
  Q tt (mkGhost (g_forked g) (g_sent g ++ pids) (g_stop g)) -> plan (kill_all pids) Q g.
Proof.
  revert g; induction pids as [|p pids IH]; intros g H; cbn.
  - rewrite app_nil_r in H. by destruct g.
  - split; [done|]. apply IH. cbn. by rewrite <- app_assoc.
Qed.

(** What the master has done when it returns. *)
Definition accomplished (g : ghost) : Prop :=
  map snd (g_forked g) = fleet /\ g_sent g = map fst (g_forked g) /\ g_stop g = true.

Lemma plan_master : plan master_main (fun _ g => accomplished g) (mkGhost [] [] false).
Proof.
  unfold master_main. apply plan_bind. cbn [plan log].
  do 3 (apply plan_bind; eapply plan_mono; [|by apply plan_spawnChild]; intros ? ? (? & -> & ->)).
  apply plan_bind. cbn [plan sleep_ms].
  apply plan_bind. eapply plan_mono; [|by apply plan_spawn_fleet]. intros ? ? (-> & Hs1 & Hm1).
  apply plan_bind. eapply plan_mono; [|by apply plan_spawn_fleet]. intros ? g (-> & Hs2 & Hm2).
  rewrite Hm1 in Hm2. apply plan_bind. cbn [plan log]. apply plan_bind. cbn [plan loop]. intros _.
  assert (forall Q : unit + unit -> ghost -> Prop, Q (inl tt) g -> Q (inr tt) g -> plan monitor_round Q g) as Hmon.
  { intros Q H1 H2. cbn. intros []; [done|]. intros s. destruct (negb (running s)); [done|]. intros z. cbn.
    by destruct (0 <? z). }
  apply Hmon; [done|]. apply plan_bind. cbn [plan log]. apply plan_bind. cbn [plan store]. exists true.
  split; [by right|]. apply plan_bind, plan_kill_all. apply plan_bind. cbn [plan sleep_ms]. apply plan_bind.
  cbn [plan log]. split; [|split]; cbn; [|by rewrite Hs2|done]. rewrite Hm2. by vm_compute.
Qed.
