(* ===== verification/Deployment.v ===== *)
(** * The deployed system

    The invariant of the system of [Orchestra], and what follows from it: until
    a [semop] of a signalled process is interrupted the deployed system is the
    system of [Safety]; its shutdown terminates and is complete; without the
    master's orderly end the resources stay. *)

From stdpp Require Import gmap.
From S2P Require Import Prelude Double Shared Ipc Belt SessionManager Truck Dispatcher Express Manager Worker.
From S2P Require Import Terminal Args Master Processes Logic Rules Invariants ProcessProof Safety Shutdown Orchestra.

(** ** The table of processes *)

(** What the entries of the table say of each other: [pids] are the ids of the
    threads. *)
Record table_ok (pids : list Z) (procs : list (Z * process)) (byhand : list Z) (forked : list (Z * image)) : Prop := {
  t_pids : pids = map fst procs;
  t_nodup : NoDup (map fst procs);
  t_master : exists mpid rest, procs = (mpid, PMaster) :: rest /\ Forall (fun pp => is_master (snd pp) = false) rest;
  t_byhand : forall pid, pid ∈ byhand -> pid ∈ pids /\ pid ∉ map fst forked;
  t_images : forall pid p, (pid, p) ∈ procs -> p = PMaster \/ pid ∈ byhand \/
    exists junk img, (pid, img) ∈ forked /\ load_image pid junk (fst img) (snd img) = Some p }.

Arguments t_pids {_ _ _ _}.
Arguments t_nodup {_ _ _ _}.
Arguments t_master {_ _ _ _}.
Arguments t_byhand {_ _ _ _}.
Arguments t_images {_ _ _ _}.

Lemma loaded_not_master pid junk path argv p : load_image pid junk path argv = Some p -> is_master p = false.
Proof.
  intros Hl. unfold load_image in Hl. repeat case_match; simplify_eq; try done.
  destruct (truck_arg argv); by simplify_option_eq.
Qed.

(** The images of the build make no process calls. *)
Lemma loaded_settles pid junk path argv p :
  load_image pid junk path argv = Some p -> settles false (th_prog (process_thread (pid, p))).
Proof. intros Hl. pose proof (settles_process pid p) as Hs. by rewrite (loaded_not_master _ _ _ _ _ Hl) in Hs. Qed.

Section Table.
Context (pids : list Z) (procs : list (Z * process)) (byhand : list Z) (forked : list (Z * image))
  (Hok : table_ok pids procs byhand forked) (pid : Z) (Hnew : pid ∉ pids).

(** A child that does not start. *)
Lemma table_lost img : table_ok pids procs byhand (forked ++ [(pid, img)]).
Proof.
  split; [apply Hok|apply Hok|apply Hok|..].
  - intros x Hx. destruct (t_byhand Hok x Hx) as [Hp Hf]. split; [done|]. rewrite map_app, not_elem_of_app. split; [done|].
    intros Heq%list_elem_of_singleton. by simplify_eq/=.
  - intros x p Hp. destruct (t_images Hok x p Hp) as [?|[?|(j & im & H1 & H2)]]; [by left|by right; left|].
    do 2 right. exists j, im. rewrite elem_of_app. auto.
Qed.

(** A new process: a child, or one started by hand. *)
Lemma table_new p byhand' forked' :
  is_master p = false -> table_ok pids procs byhand forked' ->
  (forall x, x ∈ byhand -> x ∈ byhand') -> (forall x, x ∈ byhand' -> x ∈ byhand \/ x = pid /\ pid ∉ map fst forked') ->
  (pid ∈ byhand' \/ exists junk img, (pid, img) ∈ forked' /\ load_image pid junk (fst img) (snd img) = Some p) ->
  table_ok (pids ++ [pid]) (procs ++ [(pid, p)]) byhand' forked'.
Proof.
  intros Hm Hok' Hsub Hby Hsrc. split.
  - rewrite map_app, (t_pids Hok). done.
  - rewrite map_app. apply list.NoDup_app. split; [apply Hok|]. split; [|apply NoDup_singleton].
    intros x Hx ->%list_elem_of_singleton. by rewrite <- (t_pids Hok) in Hx.
  - destruct (t_master Hok) as (mpid & rest & -> & Hr). exists mpid, (rest ++ [(pid, p)]). split; [done|].
    apply Forall_app. by split; [|constructor].
  - intros x Hx. rewrite elem_of_app. destruct (Hby x Hx) as [Hb|[-> Hf]].
    + destruct (t_byhand Hok' x Hb). auto.
    + split; [right; by apply list_elem_of_singleton|done].
  - intros x q [Hin|Heq%list_elem_of_singleton]%elem_of_app; [|simplify_eq; by right].
    destruct (t_images Hok' x q Hin) as [?|[?|?]]; auto.
Qed.

End Table.

(** The master is the process of thread 0, and of no other. *)
Lemma master_index pids procs byhand forked i pid :
  table_ok pids procs byhand forked -> (pid, PMaster) ∈ procs -> pids !! i = Some pid -> i = 0%nat.
Proof.
  intros Hok Hin Hi. destruct (t_master Hok) as (mpid & rest & Heq & Hr). pose proof (t_nodup Hok) as Hnd.
  rewrite (t_pids Hok), Heq in Hi. rewrite Heq in Hnd, Hin. apply elem_of_cons in Hin as [Hin|Hin].
  - simplify_eq. eapply (NoDup_lookup _ i 0); [exact Hnd|exact Hi|done].
  - rewrite List.Forall_forall in Hr. apply list_elem_of_In in Hin. by specialize (Hr _ Hin).
Qed.

(** ** The invariant *)

(** The master stands where the plan and the table of processes say. *)
Definition on_plan (forked : list (Z * image)) (sent : list Z) (s : sys) : Prop :=
  exists mpid t st, threads s !! 0%nat = Some (mkThread mpid t) /\
    plan t (fun _ g => accomplished g) (mkGhost forked sent st) /\
    (st = true -> running (w_shm (s_world s)) = false).

Record m_inv (ms : msys) : Prop := {
  mi_settle : all_settle (m_sys ms);
  mi_children : forall i th, threads (m_sys ms) !! S i = Some th -> settles false (th_prog th);
  mi_table : table_ok (map th_pid (threads (m_sys ms))) (m_procs ms) (m_byhand ms) (m_forked ms);
  mi_broken : forall pid, pid ∈ m_broken ms -> exists sig p b,
    (pid, p) ∈ m_procs ms /\ p <> PMaster /\ handles sig p = true /\ (pid, b) ∈ m_caught ms;
  mi_before : m_over ms = false ->
    on_plan (m_forked ms) (m_signalled ms) (m_sys ms) /\
    w_sem_alive (s_world (m_sys ms)) = true /\ w_msg_alive (s_world (m_sys ms)) = true;
  mi_after : m_over ms = true ->
    is_down (s_world (m_sys ms)) /\ master_at ms (Ret tt) /\
    map snd (m_forked ms) = fleet /\ m_signalled ms = map fst (m_forked ms) }.

Lemma sys_step_inv i a s s' :
  sys_step i a s = Some s' ->
  exists th t' w', threads s !! i = Some th /\ estep (th_pid th) a (th_prog th) (s_world s) = Some (t', w') /\
    s' = mkSys (<[i := mkThread (th_pid th) t']> (threads s)) w'.
Proof.
  unfold sys_step. destruct (threads s !! i) as [th|]; [|done].
  destruct (estep (th_pid th) a (th_prog th) (s_world s)) as [[t' w']|] eqn:E; [|done]. intros; simplify_eq. eauto 10.
Qed.

Section MasterStep.
Context (s s' : sys) (mpid : Z) (t : prog unit) (Hm : threads s !! 0%nat = Some (mkThread mpid t)).

(** The master makes a step. *)
Lemma master_step a :
  sys_step 0 a s = Some s' ->
  exists t', estep mpid a t (s_world s) = Some (t', s_world s') /\ threads s' !! 0%nat = Some (mkThread mpid t').
Proof.
  intros (th & t' & w' & Hi & He & ->)%sys_step_inv. rewrite Hm in Hi. simplify_eq. exists t'. split; [done|].
  apply list_lookup_insert_eq. by eapply lookup_lt_Some.
Qed.

(** Somebody else does. *)
Lemma child_step i a : i <> 0%nat -> sys_step i a s = Some s' -> threads s' !! 0%nat = Some (mkThread mpid t).
Proof. intros Hne (th & t' & w' & Hi & He & ->)%sys_step_inv. cbn. by rewrite list_lookup_insert_ne. Qed.

End MasterStep.

(** A step that does not concern the table of processes keeps the plan. *)
Lemma on_plan_step fk sent s s' i a th :
  all_settle s -> on_plan fk sent s -> threads s !! i = Some th -> process_call (th_prog th) = false ->
  sys_step i a s = Some s' -> on_plan fk sent s'.
Proof.
  intros Hall (mpid & t & st & Hm & Hp & Hr) Hi Hc Hst.
  pose proof (step_running s s' (step_thread i a s s' Hst) Hall) as Hrun.
  destruct (decide (i = 0%nat)) as [->|Hne].
  - rewrite Hm in Hi. simplify_eq. destruct (master_step _ _ _ _ Hm a Hst) as (t' & He & Hm').
    destruct (plan_step _ _ _ _ _ _ _ _ Hp Hc He) as (st' & Hp' & Hst'). exists mpid, t', st'.
    split; [done|]. split; [done|]. intros Ht. destruct (Hst' Ht) as [Hg|Hg]; [|done]. by apply Hrun, Hr.
  - exists mpid, t, st. split; [by eapply child_step|]. split; [done|]. auto.
Qed.

(** The master makes a call that concerns the table of processes. *)
Lemma on_plan_call fk sent fk' sent' s s' a :
  all_settle s -> on_plan fk sent s -> sys_step 0 a s = Some s' ->
  (forall mpid t t' st, threads s !! 0%nat = Some (mkThread mpid t) -> estep mpid a t (s_world s) = Some (t', s_world s') ->
     plan t (fun _ g => accomplished g) (mkGhost fk sent st) -> plan t' (fun _ g => accomplished g) (mkGhost fk' sent' st)) ->
  on_plan fk' sent' s'.
Proof.
  intros Hall (mpid & t & st & Hm & Hp & Hr) Hst H. destruct (master_step _ _ _ _ Hm a Hst) as (t' & He & Hm').
  exists mpid, t', st. split; [done|]. split; [by eapply H|].
  intros Ht. eapply step_running; [by apply (step_thread 0 a)|done|auto].
Qed.

(** Adding a thread at the end. *)
Lemma on_plan_grow fk sent s ths : on_plan fk sent s -> on_plan fk sent (mkSys (threads s ++ ths) (s_world s)).
Proof.
  intros (mpid & t & st & Hm & H). exists mpid, t, st. split; [|done]. cbn. by apply lookup_app_l_Some.
Qed.

Lemma mboot_inv qbytes mpid : m_inv (mboot qbytes mpid).
Proof.
  split.
  - constructor; [exact (settles_process mpid PMaster)|constructor].
  - intros i th Hi. apply lookup_lt_Some in Hi. cbn in Hi. lia.
  - split; cbn; [done|apply NoDup_singleton|by exists mpid, []|by intros pid H%not_elem_of_nil|].
    intros pid p Hin%list_elem_of_singleton. simplify_eq. by left.
  - by intros pid H%not_elem_of_nil.
  - intros _. split; [|done]. exists mpid, (th_prog (process_thread (mpid, PMaster))), false. split; [done|].
    split; [|done]. apply plan_bind. eapply plan_mono; [|apply plan_master]. by intros.
  - done.
Qed.

(** What every step of a thread keeps, whatever it does to the table. *)
Lemma m_inv_thread ms s' i a :
  m_inv ms -> sys_step i a (m_sys ms) = Some s' ->
  all_settle s' /\ (forall j th, threads s' !! S j = Some th -> settles false (th_prog th)) /\
  w_sem_alive (s_world s') = w_sem_alive (s_world (m_sys ms)) /\ w_msg_alive (s_world s') = w_msg_alive (s_world (m_sys ms)).
Proof.
  intros Hinv Hst. pose proof (step_thread i a _ _ Hst) as Hst'.
  split; [eapply all_settle_step; [done|apply (mi_settle _ Hinv)]|]. split; [|by apply step_alive].
  intros j th Hj. destruct (sys_step_inv _ _ _ _ Hst) as (th0 & t' & w' & Hi & He & ->). cbn in Hj.
  apply list_lookup_insert_Some in Hj as [(-> & <- & _)|[_ Hj]]; [|by apply (mi_children _ Hinv j)].
  cbn. eapply settles_step; [|exact He]. by apply (mi_children _ Hinv j).
Qed.

(** The master's calls come before its end. *)
Lemma calls_before_end ms t : m_inv ms -> master_runs ms t -> process_call t = true -> m_over ms = false.
Proof.
  intros Hinv (mpid & Hm & _) Hc. destruct (m_over ms) eqn:Ho; [|done].
  destruct (mi_after _ Hinv Ho) as (_ & [m2 Hm2] & _). rewrite Hm in Hm2. by simplify_eq.
Qed.

(** The master never waits for a semaphore or a message. *)
Lemma master_no_wait ms i th :
  m_inv ms -> threads (m_sys ms) !! i = Some th -> in_wait (th_prog th) = true -> i <> 0%nat.
Proof.
  intros Hinv Hi Hw ->. destruct (m_over ms) eqn:Ho.
  - destruct (mi_after _ Hinv Ho) as (_ & [m Hm] & _). rewrite Hm in Hi. by simplify_eq.
  - destruct (mi_before _ Hinv Ho) as ((m & t & st & Hm & Hp & _) & _). rewrite Hm in Hi. simplify_eq. by destruct t.
Qed.

Section Preservation.
Context (ms ms' : msys) (Hinv : m_inv ms)
  (Hbroken : forall pid, pid ∈ m_broken ms' -> exists sig p b,
     (pid, p) ∈ m_procs ms' /\ p <> PMaster /\ handles sig p = true /\ (pid, b) ∈ m_caught ms').

(** A step that concerns neither the threads nor their table. *)
Lemma m_inv_same :
  m_sys ms' = m_sys ms -> m_procs ms' = m_procs ms -> m_byhand ms' = m_byhand ms -> m_forked ms' = m_forked ms ->
  m_signalled ms' = m_signalled ms -> m_over ms' = m_over ms -> m_inv ms'.
Proof.
  intros H1 H2 H3 H4 H5 H6. split; rewrite ?H1, ?H2, ?H3, ?H4, ?H5, ?H6; try apply Hinv.
  - rewrite <- H2. exact Hbroken.
  - unfold master_at. rewrite H1. apply Hinv.
Qed.

(** A thread moves. *)
Lemma m_inv_move i a th :
  threads (m_sys ms) !! i = Some th -> process_call (th_prog th) = false -> sys_step i a (m_sys ms) = Some (m_sys ms') ->
  m_procs ms' = m_procs ms -> m_byhand ms' = m_byhand ms -> m_forked ms' = m_forked ms ->
  m_signalled ms' = m_signalled ms -> m_over ms' = m_over ms -> m_inv ms'.
Proof.
  intros Hi Hc Hs H2 H3 H4 H5 H6. destruct (m_inv_thread _ _ _ _ Hinv Hs) as (Hall & Hch & Hsem & Hmsg).
  split; [done|done| |done|..].
  - rewrite H2, H3, H4, (sys_step_pids _ _ _ _ Hs). apply (mi_table _ Hinv).
  - rewrite H4, H5, H6. intros Ho. destruct (mi_before _ Hinv Ho) as (Hp & Hs1 & Hm1). split; [|by rewrite Hsem, Hmsg].
    eapply on_plan_step; [apply (mi_settle _ Hinv)|done|done|done|done].
  - rewrite H4, H5, H6. intros Ho. destruct (mi_after _ Hinv Ho) as (Hd & [mpid Hm0] & Hrest). split; [|split; [|done]].
    + eapply step_down; [by apply (step_thread i a)|apply (mi_settle _ Hinv)|done].
    + exists mpid. destruct (decide (i = 0%nat)) as [->|Hne]; [|by eapply child_step].
      destruct (master_step _ _ _ _ Hm0 a Hs) as (t' & He & _). discriminate He.
Qed.

(** The behaviour of a thread other than the master becomes undefined. *)
Lemma m_inv_wild i th u :
  threads (m_sys ms) !! i = Some th -> i <> 0%nat -> m_sys ms' = go_wild i (th_pid th) u (m_sys ms) ->
  m_procs ms' = m_procs ms -> m_byhand ms' = m_byhand ms -> m_forked ms' = m_forked ms ->
  m_signalled ms' = m_signalled ms -> m_over ms' = m_over ms -> m_inv ms'.
Proof.
  intros Hi Hne Hs H2 H3 H4 H5 H6. unfold go_wild in Hs. split; rewrite ?Hs, ?H2, ?H3, ?H4, ?H5, ?H6.
  - apply Forall_insert; [apply Hinv|done].
  - cbn. intros j x Hj. apply list_lookup_insert_Some in Hj as [(_ & <- & _)|[_ Hj]]; [done|by apply (mi_children _ Hinv j)].
  - cbn. change (map th_pid (<[i:=mkThread (th_pid th) (Undef u)]> (threads (m_sys ms))))
      with (th_pid <$> (<[i:=mkThread (th_pid th) (Undef u)]> (threads (m_sys ms)))).
    rewrite list_fmap_insert, list_insert_id; [apply (mi_table _ Hinv)|]. by rewrite list_lookup_fmap, Hi.
  - rewrite <- H2. exact Hbroken.
  - intros Ho. destruct (mi_before _ Hinv Ho) as ((mpid & t & st & Hm & Hp) & Hal). split; [|done].
    exists mpid, t, st. cbn. by rewrite list_lookup_insert_ne.
  - intros Ho. destruct (mi_after _ Hinv Ho) as (Hd & [mpid Hm] & Hr). split; [done|]. split; [|done].
    exists mpid. rewrite Hs. cbn. by rewrite list_lookup_insert_ne.
Qed.

(** The threads of [ms'] are those of [s'] and perhaps new ones. *)
Lemma m_inv_grow s' ths :
  m_over ms = false -> m_over ms' = false -> s' = m_sys ms \/ (exists i a, sys_step i a (m_sys ms) = Some s') ->
  m_sys ms' = mkSys (threads s' ++ ths) (s_world s') -> Forall (fun th => settles false (th_prog th)) ths ->
  on_plan (m_forked ms') (m_signalled ms') s' ->
  table_ok (map th_pid (threads (m_sys ms'))) (m_procs ms') (m_byhand ms') (m_forked ms') ->
  m_inv ms'.
Proof.
  intros Ho Ho' Hst Hs Hths Hp Ht. destruct (mi_before _ Hinv Ho) as (_ & Hs1 & Hm1).
  assert (all_settle s' /\ (forall j th, threads s' !! S j = Some th -> settles false (th_prog th)) /\
    w_sem_alive (s_world s') = true /\ w_msg_alive (s_world s') = true) as (Hall & Hch & Hsem & Hmsg).
  { destruct Hst as [->|(i & a & Hst)]; [split; [apply Hinv|by split; [apply Hinv|]]|].
    destruct (m_inv_thread _ _ _ _ Hinv Hst) as (? & ? & -> & ->). done. }
  split; [| |done|done|..]; rewrite ?Hs.
  - unfold all_settle. cbn. apply Forall_app. split; [done|]. eapply List.Forall_impl; [|exact Hths].
    intros th. apply settles_true.
  - cbn. intros j th [Hj|[_ Hj]]%lookup_app_Some; [by eapply Hch|]. exact (Forall_lookup_1 _ _ _ _ Hths Hj).
  - intros _. split; [by apply on_plan_grow|]. done.
  - by rewrite Ho'.
Qed.

(** A call of the master that starts no process. *)
Lemma m_inv_quiet_call t a :
  master_runs ms t -> process_call t = true -> sys_step 0 a (m_sys ms) = Some (m_sys ms') ->
  m_over ms' = m_over ms -> on_plan (m_forked ms') (m_signalled ms') (m_sys ms') ->
  table_ok (map th_pid (threads (m_sys ms))) (m_procs ms') (m_byhand ms') (m_forked ms') -> m_inv ms'.
Proof.
  intros Hm Hc Hst Hov Hp Ht. pose proof (calls_before_end _ _ Hinv Hm Hc) as Ho.
  eapply (m_inv_grow (m_sys ms') []); [done|congruence|by right; eauto| |done|done|].
  - rewrite app_nil_r. by destruct (m_sys ms').
  - by rewrite (sys_step_pids _ _ _ _ Hst).
Qed.

End Preservation.

(** The cases of a step, with the names used below. *)
Ltac own_cases Hst :=
  destruct Hst as [i a th ms s' Hi Hd Hc Ha Hs|path argv k pid junk p ms s' Hm Hf Hl Hs|path argv k pid ms s' Hm Hf Hs
    |path argv k ms s' Hm Hs|k z ms s' Hm Hw Hs|pid sig k ms s' Hm Hs|ms Hm Ho|pid sig p ms Hpe Hpr Hwhy
    |pid sig p ptr seen ms Hpe Hpr Hd Hh Hseen|i th sig p ptr seen ms s' Hi Hd Hw Hpe Hpr Hh Hseen Hs
    |i th sig p ptr u ms Hi Hd Hns Hpe Hpr Hh Hu].

(** Before the end every call of the master follows the plan. *)
Ltac follow_plan :=
  match goal with Hm : master_runs _ _ |- _ => let H0 := fresh in destruct Hm as (? & H0 & _) end;
  eapply on_plan_call; [by apply mi_settle|by apply mi_before|eassumption|];
  let Hm := fresh in let He := fresh in
  intros ? ? ? ? Hm He ?; simplify_eq; cbn in He; repeat case_match; simplify_eq; by naive_solver.

Lemma in_wait_no_call {A} (t : prog A) : in_wait t = true -> process_call t = false.
Proof. by destruct t. Qed.

Lemma own_step_inv ms ms' : own_step ms ms' -> m_inv ms -> m_inv ms'.
Proof.
  intros Hst Hinv. own_cases Hst; try (pose proof (calls_before_end _ _ Hinv Hm eq_refl) as Ho).
  - eapply (m_inv_move ms); [done|apply (mi_broken _ Hinv)|exact Hi|done|exact Hs|done..].
  - destruct Hf as (Hpos & Hf1 & Hf2). pose proof (loaded_not_master _ _ _ _ _ Hl) as Hnm.
    eapply (m_inv_grow ms _ Hinv _ s'); [done|done|right; eauto|reflexivity| | |].
    + constructor; [|constructor]. eapply loaded_settles, Hl.
    + cbn. follow_plan.
    + cbn. rewrite map_app, (sys_step_pids _ _ _ _ Hs). pose proof (mi_table _ Hinv) as Ht. eapply table_new; [done|done|done|by apply table_lost|done|by left|].
      right. exists junk, (path, argv). rewrite elem_of_app. split; [|done]. right. by apply list_elem_of_singleton.
    Unshelve. cbn. intros x Hx. destruct (mi_broken _ Hinv x Hx) as (g & q & b & H1 & H2). exists g, q, b. by rewrite elem_of_app; auto.
  - destruct Hf as (Hpos & Hf1 & Hf2).
    eapply (m_inv_quiet_call ms); [done|apply (mi_broken _ Hinv)|exact Hm|done|exact Hs|done| |by apply table_lost; [apply (mi_table _ Hinv)|]].
    cbn. follow_plan.
  - eapply (m_inv_quiet_call ms); [done|apply (mi_broken _ Hinv)|exact Hm|done|exact Hs|done| |apply (mi_table _ Hinv)]. cbn. follow_plan.
  - eapply (m_inv_quiet_call ms); [done|apply (mi_broken _ Hinv)|exact Hm|done|exact Hs|done| |apply (mi_table _ Hinv)]. cbn. follow_plan.
  - eapply (m_inv_quiet_call ms); [done|apply (mi_broken _ Hinv)|exact Hm|done|exact Hs|done| |apply (mi_table _ Hinv)]. cbn. follow_plan.
  - destruct (mi_before _ Hinv Ho) as ((mpid & t & st & Hm' & Hp & Hr) & _). destruct Hm as (mpid' & Hm & _).
    rewrite Hm in Hm'. simplify_eq. destruct Hp as (H1 & H2 & H3). cbn in H1, H2, H3.
    split; cbn; [apply (mi_settle _ Hinv)|apply (mi_children _ Hinv)|apply (mi_table _ Hinv)|apply (mi_broken _ Hinv)|done|]. intros _. split; [by split; [apply Hr|]|].
    split; [by exists mpid|done].
  - by apply (m_inv_same ms); [|apply (mi_broken _ Hinv)|..].
  - apply (m_inv_same ms); [done| |done..]. cbn. rewrite app_nil_r. intros x Hx.
    destruct (mi_broken _ Hinv x Hx) as (g & q & b & H1 & H2 & H3 & H4). exists g, q, b. by rewrite elem_of_app; auto.
  - eapply (m_inv_move ms); [done| |exact Hi|by apply in_wait_no_call|exact Hs|done..]. cbn.
    intros x [Hx|Hx]%elem_of_app.
    + destruct (mi_broken _ Hinv x Hx) as (g & q & b & H1 & H2 & H3 & H4). exists g, q, b. by rewrite elem_of_app; auto.
    + destruct (in_semop (th_prog th)); [|by apply not_elem_of_nil in Hx]. apply list_elem_of_singleton in Hx as ->.
      exists sig, p, seen. split; [done|]. split; [|split; [done|]].
      * intros ->. apply (master_no_wait ms i th Hinv Hi Hw). eapply master_index; [apply (mi_table _ Hinv)|done|]. by rewrite lookup_map, Hi.
      * rewrite elem_of_app. right. by apply list_elem_of_singleton.
  - assert (p <> PMaster) as Hnm by (by intros ->). eapply (m_inv_wild ms); [done| |exact Hi| |done..].
    + cbn. intros x [Hx|Hx%list_elem_of_singleton]%elem_of_app.
      * destruct (mi_broken _ Hinv x Hx) as (g & q & b & H1 & H2 & H3 & H4). exists g, q, b. by rewrite elem_of_app; auto.
      * subst x. exists sig, p, false. split; [done|]. split; [done|]. split; [done|]. rewrite elem_of_app. right. by apply list_elem_of_singleton.
    + intros ->. destruct (t_master (mi_table _ Hinv)) as (mpid & rest & Heq & _).
      pose proof (t_pids (mi_table _ Hinv)) as Hpids. pose proof (t_nodup (mi_table _ Hinv)) as Hnd. rewrite Heq in Hpids, Hnd, Hpr.
      assert (th_pid th = mpid) as Hmp. { destruct (threads (m_sys ms)); [done|]. cbn in Hi, Hpids. by simplify_eq. }
      rewrite Hmp in Hpr. apply elem_of_cons in Hpr as [Hpr|Hpr]; [by simplify_eq|]. cbn in Hnd. apply list.NoDup_cons in Hnd as [Hnd _]. apply Hnd.
      apply list_elem_of_fmap. by exists (mpid, p).
Qed.

Lemma user_step_inv ms ms' : user_step ms ms' -> m_inv ms -> m_inv ms'.
Proof.
  intros Hst Hinv. pose proof (mi_broken _ Hinv) as Hb.
  destruct Hst as [pid sig ms Hp Hs|path argv pid junk p ms Ho (Hpos & Hf1 & Hf2) Hl]; [by apply (m_inv_same ms)|].
  eapply (m_inv_grow ms _ Hinv _ (m_sys ms)); [done|done|by left|reflexivity| | |].
  - constructor; [|constructor]. eapply loaded_settles, Hl.
  - by apply (mi_before _ Hinv Ho).
  - cbn. rewrite map_app. pose proof (mi_table _ Hinv) as Ht. eapply table_new; [done|done|by eapply loaded_not_master|done|..].
    + intros x Hx. apply elem_of_app. by left.
    + intros x [Hx|Hx%list_elem_of_singleton]%elem_of_app; [by left|by right].
    + left. apply elem_of_app. right. by apply list_elem_of_singleton.
  Unshelve. cbn. intros x Hx. destruct (Hb x Hx) as (g & q & b & H1 & H2). exists g, q, b. by rewrite elem_of_app; auto.
Qed.

Lemma mstep_inv ms ms' : mstep ms ms' -> m_inv ms -> m_inv ms'.
Proof. intros [H|H]; [by apply own_step_inv|by apply user_step_inv]. Qed.

Lemma msteps_inv ms ms' : msteps ms ms' -> m_inv ms -> m_inv ms'.
Proof. induction 1; eauto using mstep_inv. Qed.

Lemma mboot_steps_inv qbytes mpid ms : msteps (mboot qbytes mpid) ms -> m_inv ms.
Proof. intros H. eapply msteps_inv; [exact H|apply mboot_inv]. Qed.

(** ** Refinement of the booted system *)

(** The destructor runs once, and an interrupted [semop] is not forgotten. *)
Lemma mstep_over ms ms' : mstep ms ms' -> m_over ms' = false -> m_over ms = false.
Proof. by intros [[]|[]]. Qed.

Lemma mstep_broken ms ms' : mstep ms ms' -> m_broken ms' = [] -> m_broken ms = [].
Proof. by intros [[]|[]]; cbn; try (intros [? _]%app_nil). Qed.

Lemma msteps_back ms ms' :
  msteps ms ms' -> m_over ms' = false -> m_broken ms' = [] -> m_over ms = false /\ m_broken ms = [].
Proof.
  induction 1 as [|ms1 ms2 ms3 H1 _ IH]; [done|]. intros Ho Hb. destruct (IH Ho Hb) as [Ho2 Hb2].
  split; [by eapply mstep_over|by eapply mstep_broken].
Qed.

(** While the semaphore set exists, a [semop] fails only by a signal. *)
Lemma quiet_calm {A} seen pid a (t t' : prog A) w w' :
  w_sem_alive w = true -> quiet_answer seen t a = true -> estep pid a t w = Some (t', w') -> calm_answer t a = true.
Proof.
  intros Hsem Hq Hst. destruct a as [|e| | | |]; try done. destruct t; try done. cbn in Hst. unfold k_semop in Hst.
  rewrite Hsem in Hst. by destruct e.
Qed.

Lemma wait_calm {A} (t : prog A) e : in_semop t = false -> calm_answer t (AErr e) = true.
Proof. intros H. cbn. by rewrite H. Qed.

Lemma mstep_reachable qbytes ms ms' :
  m_inv ms -> mstep ms ms' -> m_over ms' = false -> m_broken ms' = [] ->
  reachable qbytes (m_procs ms) (m_sys ms) -> reachable qbytes (m_procs ms') (m_sys ms').
Proof.
  intros Hinv Hst Hov Hbr Hr. pose proof (reachable_pids _ _ _ Hr) as Hp. pose proof (mstep_over _ _ Hst Hov) as Ho0.
  destruct (mi_before _ Hinv Ho0) as (_ & Hsem & _). destruct Hst as [Hst|Hst].
  - own_cases Hst; cbn in Hov, Hbr |- *; try done;
      try (destruct Hm as (mpid & Hm & _); eapply (reachable_step _ _ _ _ _ _ _ Hr Hm); [|exact Hs]; done).
    + pose proof Hs as (th' & t' & w' & Hi' & He & _)%sys_step_inv. simplify_eq.
      eapply (reachable_step _ _ _ _ _ _ _ Hr Hi); [by eapply quiet_calm|exact Hs].
    + destruct Hf as (_ & Hf & _). destruct Hm as (mpid & Hm & _).
      apply (reachable_spawn qbytes (m_procs ms) s' (pid, p)); [by apply (reachable_step _ _ _ _ (AInt pid) _ _ Hr Hm)|].
      cbn [fst]. by rewrite <- Hp.
    + apply app_nil in Hbr as [_ Hbr]. eapply (reachable_step _ _ _ _ _ _ _ Hr Hi); [|exact Hs].
      apply wait_calm. by destruct (in_semop (th_prog th)).
    + by apply app_nil in Hbr as [_ Hbr].
  - destruct Hst as [|path argv pid junk p ms _ (_ & Hf & _) _]; [done|].
    apply (reachable_spawn qbytes (m_procs ms) (m_sys ms) (pid, p)); [done|]. cbn [fst]. by rewrite <- Hp.
Qed.

Lemma deployed_reachable qbytes mpid ms :
  msteps (mboot qbytes mpid) ms -> m_over ms = false -> m_broken ms = [] -> reachable qbytes (m_procs ms) (m_sys ms).
Proof.
  revert ms. apply (rtc_ind_r (fun ms => m_over ms = false -> m_broken ms = [] -> reachable qbytes (m_procs ms) (m_sys ms))).
  - intros _ _. split; [|constructor]. cbn. apply NoDup_singleton.
  - intros ms1 ms2 Hpre H1 IH Ho Hb. eapply mstep_reachable; [by eapply mboot_steps_inv|exact H1|done|done|].
    apply IH; [by eapply mstep_over|by eapply mstep_broken].
Qed.

(** A process that a signal has ended stays where it was. *)
Lemma dead_stays ms ms' n x :
  mstep ms ms' -> threads (m_sys ms) !! n = Some x -> th_pid x ∈ m_dead ms ->
  threads (m_sys ms') !! n = Some x /\ th_pid x ∈ m_dead ms'.
Proof.
  assert (forall j a y s', threads (m_sys ms) !! j = Some y -> th_pid y ∉ m_dead ms ->
    sys_step j a (m_sys ms) = Some s' -> threads (m_sys ms) !! n = Some x -> th_pid x ∈ m_dead ms ->
    threads s' !! n = Some x) as Hother.
  { intros j a y s' Hj Hd Hs Hi Hdead. destruct (sys_step_inv _ _ _ _ Hs) as (th0 & t' & w' & _ & _ & ->). cbn.
    rewrite list_lookup_insert_ne; [done|]. intros ->. by simplify_eq. }
  intros [Hst|Hst] Hx Hdx.
  - own_cases Hst; try (destruct Hm as (mpid & Hm & Hd)); cbn; rewrite ?elem_of_app; (split; [|by auto]); try done;
      try (eapply Hother; [first [exact Hi|exact Hm]|exact Hd|exact Hs|done|done]).
    + apply lookup_app_l_Some. eapply Hother; [exact Hm|exact Hd|exact Hs|done|done].
    + rewrite list_lookup_insert_ne; [done|]. intros ->. by simplify_eq.
  - destruct Hst; [done|]. split; [|done]. cbn. by apply lookup_app_l_Some.
Qed.

Lemma dead_stays_steps ms ms' i th :
  msteps ms ms' -> threads (m_sys ms) !! i = Some th -> th_pid th ∈ m_dead ms -> threads (m_sys ms') !! i = Some th.
Proof.
  induction 1 as [|ms1 ms2 ms3 H1 _ IH]; [done|]. intros Hi Hd. destruct (dead_stays _ _ _ _ H1 Hi Hd). auto.
Qed.

(** ** After the end of the master *)

#[global] Instance stopped_prog_dec {A} (t : prog A) : Decision (stopped_prog t).
Proof. destruct t; apply _. Defined.

(** A process that is no more. *)
Definition departed (ms : msys) (th : thread) : Prop := stopped_prog (th_prog th) \/ th_pid th ∈ m_dead ms.

(** Delivering a signal uses it up. *)
Lemma pending_shrinks (ps : gset (Z * Z)) x : x ∈ ps -> (size (ps ∖ {[x]}) < size ps)%nat.
Proof. intros Hx. apply subset_size. set_solver. Qed.

(** Threads move, or signals are delivered. *)
Lemma own_step_after ms ms' :
  m_inv ms -> m_over ms = true -> own_step ms ms' ->
  step (m_sys ms) (m_sys ms') /\ m_pending ms' = m_pending ms \/ (size (m_pending ms') < size (m_pending ms))%nat.
Proof.
  intros Hinv Hend Hst. own_cases Hst; try (by rewrite (calls_before_end _ _ Hinv Hm eq_refl) in Hend).
  - left. split; [by apply (step_thread i a)|done].
  - congruence.
  - right. by apply pending_shrinks.
  - right. by apply pending_shrinks.
  - right. by apply pending_shrinks.
  - right. by apply pending_shrinks.
Qed.

Lemma own_step_over_stays ms ms' : own_step ms ms' -> m_over ms = true -> m_over ms' = true.
Proof. by destruct 1. Qed.

Lemma msteps_over_stays ms ms' : msteps ms ms' -> m_over ms = true -> m_over ms' = true.
Proof. induction 1 as [|x y z [H|H] _ IH]; [done|by eauto using own_step_over_stays|]. intros Hx. apply IH. by destruct H. Qed.

Lemma over_terminates ms : m_inv ms -> m_over ms = true -> sn own_step ms.
Proof.
  remember (size (m_pending ms)) as n eqn:En. revert ms En. induction (lt_wf n) as [n _ IHn]. intros ms En Hinv Ho.
  destruct (mi_after _ Hinv Ho) as (Hd & _). pose proof (down_terminates _ (mi_settle _ Hinv) Hd) as Hsn. clear Hd.
  remember (m_sys ms) as s eqn:Es. revert ms En Es Hinv Ho. induction Hsn as [s _ IH]. intros ms -> -> Hinv Ho.
  constructor. intros ms' Hst. pose proof (own_step_inv _ _ Hst Hinv) as Hinv'.
  pose proof (own_step_over_stays _ _ Hst Ho) as Ho'.
  destruct (own_step_after _ _ Hinv Ho Hst) as [[H1 H2]|H1].
  - eapply IH; [exact H1|by rewrite H2|reflexivity|exact Hinv'|exact Ho'].
  - eapply IHn; [exact H1|reflexivity|exact Hinv'|exact Ho'].
Qed.

(** A process that is still there can go on. *)
Lemma over_progress ms i th :
  m_inv ms -> m_over ms = true -> threads (m_sys ms) !! i = Some th ->
  departed ms th \/ exists ms', own_step ms ms'.
Proof.
  intros Hinv Ho Hi. assert (process_call (th_prog th) = false) as Hc.
  { destruct i as [|i]; [|by eapply settles_no_call, (mi_children _ Hinv)].
    destruct (mi_after _ Hinv Ho) as (_ & [mpid Hm] & _). rewrite Hm in Hi. by simplify_eq. }
  destruct (decide (th_pid th ∈ m_dead ms)) as [Hd|Hd]; [by left; right|].
  destruct (mi_after _ Hinv Ho) as (Hdown & _).
  destruct (settles_moves true (th_pid th) (flagged (th_pid th) ms) (th_prog th) (s_world (m_sys ms))) as [Hs|(a & t' & w' & Ha & Hst)];
    [exact (Forall_lookup_1 _ _ _ _ (mi_settle _ Hinv) Hi)|done|by left; left|].
  right. eexists. eapply (ms_thread i a th); [done|done|done|exact Ha|]. unfold sys_step. by rewrite Hi, Hst.
Qed.

(** Every run that goes on as long as it can ends with everybody departed. *)
Lemma over_runs_out ms :
  m_inv ms -> m_over ms = true ->
  exists ms', rtc own_step ms ms' /\ forall th, th ∈ threads (m_sys ms') -> departed ms' th.
Proof.
  intros Hinv Ho. pose proof (over_terminates ms Hinv Ho) as Hsn. revert Hinv Ho.
  induction Hsn as [ms _ IH]. intros Hinv Ho.
  assert (forall l : list thread, (forall th, th ∈ l -> th ∈ threads (m_sys ms)) ->
    (forall th, th ∈ l -> departed ms th) \/ exists ms', own_step ms ms') as Hall.
  { induction l as [|th l IHl]; intros Hl; [left; by intros th Hth%not_elem_of_nil|].
    destruct (list_elem_of_lookup_1 (threads (m_sys ms)) th) as [i Hi]; [apply Hl; by left|].
    destruct (over_progress ms i th Hinv Ho Hi) as [Hd|?]; [|by right].
    destruct IHl as [Hrest|?]; [intros x Hx; apply Hl; by right| |by right].
    left. intros x [->|Hx]%elem_of_cons; auto. }
  destruct (Hall (threads (m_sys ms))) as [Hd|[ms' Hst]]; [done|by exists ms; split; [constructor|]|].
  destruct (IH ms' Hst) as (ms'' & Hr & Hd); [by eapply own_step_inv|by eapply own_step_over_stays|].
  exists ms''. split; [by eapply rtc_l|done].
Qed.

(** ** Without the end of the master *)

(** The master has called [exit], or a signal has ended it before its
    destructor ran. *)
Definition master_gone (ms : msys) : Prop :=
  m_over ms = false /\ ((exists c, master_at ms (Exit c)) \/ master_dead ms).

Lemma sys_step_stopped ms i a s' c : sys_step i a (m_sys ms) = Some s' -> master_at ms (Exit c) -> i <> 0%nat.
Proof. intros Hs [mpid Hm] ->. destruct (master_step _ _ _ _ Hm a Hs) as (t' & He & _). discriminate He. Qed.

Lemma gone_no_call ms t : master_gone ms -> master_runs ms t -> exists c, t = Exit c.
Proof.
  intros [_ [[c [m Hm]]|(th & Hm & Hd)]] (mpid & Hm' & Hd'); rewrite Hm in Hm'; simplify_eq; [by eexists|done].
Qed.

(** A thread that moves is not the master. *)
Lemma gone_stays ms i a th s' :
  master_gone ms -> threads (m_sys ms) !! i = Some th -> th_pid th ∉ m_dead ms -> sys_step i a (m_sys ms) = Some s' ->
  threads s' !! 0%nat = threads (m_sys ms) !! 0%nat.
Proof.
  intros [_ Hg] Hi Hd Hs. assert (i <> 0%nat) as Hne.
  { destruct Hg as [[c Hc]|(th' & Hm & Hd')]; [by eapply sys_step_stopped|]. intros ->. by simplify_eq. }
  destruct (sys_step_inv _ _ _ _ Hs) as (th0 & t' & w' & _ & _ & ->). cbn. by rewrite list_lookup_insert_ne.
Qed.

Lemma master_gone_same ms ms' :
  master_gone ms -> m_over ms' = false -> threads (m_sys ms') !! 0%nat = threads (m_sys ms) !! 0%nat ->
  (forall pid, pid ∈ m_dead ms -> pid ∈ m_dead ms') -> master_gone ms'.
Proof.
  intros [_ Hg] Ho Ht Hd. split; [done|]. destruct Hg as [[c [m Hm]]|(th & Hm & Hth)]; [left|right].
  - exists c, m. by rewrite Ht.
  - exists th. rewrite Ht. auto.
Qed.

(** Nobody signals the children any more, and nobody removes the resources. *)
Lemma gone_step ms ms' : mstep ms ms' -> master_gone ms -> master_gone ms' /\ m_signalled ms' = m_signalled ms.
Proof.
  intros [Hst|Hst] Hg; pose proof (proj1 Hg) as Hng.
  - own_cases Hst; try (destruct (gone_no_call _ _ Hg Hm) as [c Hc]; discriminate Hc); (split; [|done]).
    + eapply (master_gone_same ms); [done..| |done]. by eapply gone_stays.
    + eapply (master_gone_same ms); [done..|]. intros x Hx. apply elem_of_app. by left.
    + by apply (master_gone_same ms).
    + eapply (master_gone_same ms); [done..| |done]. by eapply gone_stays.
    + eapply (master_gone_same ms); [done..| |done]. cbn. apply list_lookup_insert_ne. intros ->.
      destruct Hg as [_ [[c [m Hm]]|(th' & Hm & Hd')]]; rewrite Hm in Hi; simplify_eq; [by apply Hns|done].
  - split; [|by destruct Hst]. destruct Hst as [|path argv pid junk p ms _ _ _]; [by apply (master_gone_same ms)|].
    apply (master_gone_same ms); [done|done| |done]. cbn. apply lookup_app_l.
    destruct Hg as [_ [[c [m Hm]]|(th & Hm & _)]]; by eapply lookup_lt_Some.
Qed.

Lemma gone_steps ms ms' : msteps ms ms' -> master_gone ms -> master_gone ms' /\ m_signalled ms' = m_signalled ms.
Proof.
  induction 1 as [|ms1 ms2 ms3 H1 _ IH]; [done|]. intros Hg. destruct (gone_step _ _ H1 Hg) as [Hg' <-]. auto.
Qed.

(** The processes of the fleet. *)
Definition fleet_process (p : process) : Prop :=
  p = PDispatcher \/ p = PExpress \/ p = PBelt \/ p = PTruck 1 \/ p = PTruck 2 \/
  exists n junk, 1 <= n <= 3 /\ p = PWorker n junk.

Lemma fleet_images pid junk img p : img ∈ fleet -> load_image pid junk (fst img) (snd img) = Some p -> fleet_process p.
Proof.
  unfold fleet_process. intros Hin Hl.
  repeat (apply elem_of_cons in Hin as [->|Hin]; [vm_compute in Hl; simplify_eq; try (by eauto 10); do 5 right|]).
  - exists 1, junk. by split; [lia|].
  - exists 2, junk. by split; [lia|].
  - exists 3, junk. by split; [lia|].
  - by apply not_elem_of_nil in Hin.
Qed.

(** ** Runs, for examples

    The master runs alone, its children get the process ids 201, 202, ...; or
    the threads of a list move in order, those that are blocked or dead being
    skipped. *)

Definition next_pid (ms : msys) : Z := 201 + Z.of_nat (length (m_forked ms)).

Definition mnext (ms : msys) : option msys :=
  match threads (m_sys ms) !! 0%nat with
  | Some th =>
      if bool_decide (th_pid th ∈ m_dead ms) then None else
      match th_prog th with
      | Fork path argv _ =>
          let pid := next_pid ms in
          if bool_decide (pid ∉ map th_pid (threads (m_sys ms))) && bool_decide (pid ∉ map fst (m_forked ms)) then
            match load_image pid (fun _ => zero_Package) path argv, sys_step 0 (AInt pid) (m_sys ms) with
            | Some p, Some s' => Some (start_child pid p (path, argv) s' ms)
            | _, _ => None
            end
          else None
      | Waitpid _ => s' ← sys_step 0 (AInt 0) (m_sys ms); Some (set_sys s' ms)
      | Kill pid sig _ => s' ← sys_step 0 ANone (m_sys ms); Some (signal_child pid sig s' ms)
      | Ret tt => if m_over ms then None else Some (end_master ms)
      | t => s' ← sys_step 0 (some_answer (flagged (th_pid th) ms) "" t) (m_sys ms); Some (set_sys s' ms)
      end
  | None => None
  end.

Fixpoint mrun (n : nat) (ms : msys) : msys :=
  match n with
  | O => ms
  | S m => match mnext ms with Some ms' => mrun m ms' | None => ms end
  end.

Lemma mnext_own_step ms ms' : mnext ms = Some ms' -> own_step ms ms'.
Proof.
  unfold mnext. destruct (threads (m_sys ms) !! 0%nat) as [[mpid t]|] eqn:Hm; [|done]. cbn [th_prog th_pid].
  case_bool_decide as Hd; [done|]. assert (master_runs ms t) as Hat by (by exists mpid).
  destruct t; intros Hn;
    try (destruct (sys_step _ _ _) as [s'|] eqn:Hs; [|done]; cbn in Hn; simplify_eq;
         eapply (ms_thread 0); [exact Hm|done|done| |exact Hs]; first [done|apply eqb_reflx]).
  - destruct a. destruct (m_over ms) eqn:Ho; [done|]. simplify_eq. by apply ms_exit.
  - case_bool_decide as H1; [|done]. case_bool_decide as H2; [|done]. cbn in Hn.
    destruct (load_image _ _ _ _) as [p|] eqn:Hl; [|done]. destruct (sys_step _ _ _) as [s'|] eqn:Hs; [|done]. simplify_eq.
    eapply ms_fork; [exact Hat| |exact Hl|exact Hs]. split; [unfold next_pid; lia|done].
  - destruct (sys_step _ _ _) as [s'|] eqn:Hs; [|done]. cbn in Hn. simplify_eq.
    eapply ms_waitpid; [exact Hat| |exact Hs]. by right; left.
  - destruct (sys_step _ _ _) as [s'|] eqn:Hs; [|done]. cbn in Hn. simplify_eq. by eapply ms_kill.
Qed.

Lemma mrun_msteps n ms : msteps ms (mrun n ms).
Proof.
  revert ms; induction n as [|n IH]; intros ms; cbn; [constructor|].
  destruct (mnext ms) as [ms'|] eqn:E; [|constructor]. eapply rtc_l; [left; by eapply mnext_own_step|apply IH].
Qed.

Definition mchild (i : nat) (ms : msys) : option msys :=
  th ← threads (m_sys ms) !! i;
  if bool_decide (th_pid th ∈ m_dead ms) || process_call (th_prog th) then None
  else s' ← sys_step i (some_answer (flagged (th_pid th) ms) "" (th_prog th)) (m_sys ms); Some (set_sys s' ms).

Fixpoint mdrives (sched : list nat) (ms : msys) : msys :=
  match sched with
  | [] => ms
  | i :: rest => mdrives rest (match mchild i ms with Some ms' => ms' | None => ms end)
  end.

Lemma mchild_own_step i ms ms' : mchild i ms = Some ms' -> own_step ms ms'.
Proof.
  unfold mchild. destruct (threads (m_sys ms) !! i) as [th|] eqn:Hi; [|done]. cbn [mbind option_bind].
  case_bool_decide as Hd; [done|]. cbn [orb]. destruct (process_call (th_prog th)) eqn:Hc; [done|].
  destruct (sys_step _ _ _) as [s'|] eqn:Hs; [|done]. cbn. intros; simplify_eq. eapply (ms_thread i); try done.
  destruct (th_prog th); try done. apply eqb_reflx.
Qed.

Lemma mdrives_msteps sched ms : msteps ms (mdrives sched ms).
Proof.
  revert ms; induction sched as [|i sched IH]; intros ms; cbn; [constructor|].
  destruct (mchild i ms) as [ms'|] eqn:E; [|apply IH]. eapply rtc_l; [left; by eapply mchild_own_step|apply IH].
Qed.

(** The deployed system with a console started by hand; a user presses Ctrl-C;
    the system after the end of the master. *)
Definition deployed : msys := mrun 60 (mboot 16384 200).
Definition with_console : msys := user_start 300 PTerminal deployed.
Definition interrupted : msys :=
  let ms := user_signal 200 SIGINT with_console in run_handler 200 SIGINT true false (m_sys ms) ms.
Definition after_master : msys := mrun 60 interrupted.

(** A decidable fact about a concrete state. *)
Ltac computed := apply (bool_decide_unpack _); vm_compute; exact I.

Lemma deployed_steps : msteps (mboot 16384 200) deployed.
Proof. unfold deployed. apply mrun_msteps. Qed.

Lemma with_console_steps : msteps (mboot 16384 200) with_console.
Proof.
  eapply rtc_r; [exact deployed_steps|]. right. unfold with_console.
  apply (us_start "./build/terminal" [] 300 (fun _ => zero_Package) PTerminal deployed); [|split; [lia|split]|reflexivity].
  - vm_compute. reflexivity.
  - computed.
  - computed.
Qed.

Lemma after_master_steps : msteps (mboot 16384 200) after_master.
Proof.
  unfold after_master, msteps. etrans; [|apply mrun_msteps].
  apply (rtc_r _ (user_signal 200 SIGINT with_console)); [eapply rtc_r; [exact with_console_steps|]|].
  - right. apply (us_signal 200 SIGINT with_console); [computed|by left].
  - left. apply (ms_handle 200 SIGINT PMaster NoWorker true (user_signal 200 SIGINT with_console)); [computed| |computed|reflexivity|reflexivity].
    apply (list_elem_of_lookup_2 _ 0). vm_compute. reflexivity.
Qed.

(** * The theorems *)

(** C17. The system the master builds is the system of [Safety]: as long as no
    [semop] has been interrupted and no handler has run on a destroyed worker
    object, every state that a deployed system reaches
    before the resources are removed, with children started one after the
    other, failing to start, receiving signals or killed by them at any point,
    and with processes started by hand, is a reachable state of the system
    booted with these processes.  Only a process that has a handler for a
    signal and was sent it can be such a process, and the master is none of
    them. *)
Theorem orchestrated_refines_boot qbytes mpid ms :
  msteps (mboot qbytes mpid) ms ->
  (m_over ms = false -> m_broken ms = [] -> reachable qbytes (m_procs ms) (m_sys ms)) /\
  forall pid, pid ∈ m_broken ms -> exists sig p b,
    (pid, p) ∈ m_procs ms /\ p <> PMaster /\ handles sig p = true /\ (pid, b) ∈ m_caught ms.
Proof.
  intros Hst. split; [by apply (deployed_reachable qbytes mpid)|]. by apply mi_broken, (mboot_steps_inv qbytes mpid).
Qed.

(** C18. Shutdown terminates: once the master has ended, the system makes only
    finitely many steps of its own, whatever state the processes were in and
    whatever signals are on their way, and a process that is still there can
    always make a step, so every run that goes on as long as it can ends with no
    process left, the ones started by hand included (a process whose behaviour
    has become undefined counts as gone). *)
Theorem shutdown_terminates qbytes mpid ms :
  msteps (mboot qbytes mpid) ms -> m_over ms = true ->
  sn own_step ms /\
  (forall ms', msteps ms ms' -> (exists ms'', own_step ms' ms'') \/ forall th, th ∈ threads (m_sys ms') -> departed ms' th) /\
  exists ms', rtc own_step ms ms' /\ forall th, th ∈ threads (m_sys ms') -> departed ms' th.
Proof.
  intros Hst Ho. pose proof (mboot_steps_inv _ _ _ Hst) as Hinv. split; [by apply over_terminates|].
  split; [|by apply over_runs_out]. intros ms' Hst'.
  destruct (over_runs_out ms') as (ms2 & Hr & Hd); [by eapply msteps_inv|by eapply msteps_over_stays|].
  destruct Hr as [ms'|ms' ms1 ms2 H1 _]; [by right|left; eauto].
Qed.

(** C19. An orderly end: when the master has returned, it has forked exactly the
    eight images of the fleet, in order, has sent SIGTERM to each of the eight
    children once and in the same order, the system is stopped and the resources
    are removed; every process but the master is either one of the fleet (the
    dispatcher, the express worker, the belt monitor, trucks 1 and 2, workers 1
    to 3) and was signalled, or was started by hand and was not. *)
Theorem master_shutdown qbytes mpid ms :
  msteps (mboot qbytes mpid) ms -> m_over ms = true ->
  map snd (m_forked ms) = fleet /\ m_signalled ms = map fst (m_forked ms) /\ is_down (s_world (m_sys ms)) /\
  forall pid p, (pid, p) ∈ m_procs ms ->
    p = PMaster \/ (pid ∈ m_byhand ms /\ pid ∉ m_signalled ms) \/ (pid ∈ m_signalled ms /\ fleet_process p).
Proof.
  intros Hst Ho. pose proof (mboot_steps_inv _ _ _ Hst) as Hinv. pose proof (mi_table _ Hinv) as Ht.
  destruct (mi_after _ Hinv Ho) as (Hd & _ & Hf & Hs). split; [done|]. split; [done|]. split; [done|].
  intros pid p Hin. rewrite Hs. destruct (t_images Ht _ _ Hin) as [?|[Hb|(junk & img & Hi & Hl)]]; [by left|right; left|do 2 right].
  - by split; [|apply (t_byhand Ht)].
  - split; [apply list_elem_of_fmap; by exists (pid, img)|]. eapply fleet_images; [|exact Hl]. rewrite <- Hf.
    apply list_elem_of_fmap. by exists (pid, img).
Qed.

(** C20. Without an orderly end everything is left behind: the master's [exit(1)]
    after a failed [fork] comes before any signal to a child, and once it has
    called it, or a signal has ended the master, no destructor runs: whatever
    happens afterwards, nobody else is told to stop and the IPC resources stay. *)
Theorem failed_fork_leaks qbytes mpid ms :
  msteps (mboot qbytes mpid) ms -> master_gone ms ->
  (forall c, master_at ms (Exit c) -> c = 1 /\ m_signalled ms = []) /\
  forall ms', msteps ms ms' ->
    m_over ms' = false /\ m_signalled ms' = m_signalled ms /\
    w_sem_alive (s_world (m_sys ms')) = true /\ w_msg_alive (s_world (m_sys ms')) = true.
Proof.
  intros Hst Hg. pose proof (mboot_steps_inv _ _ _ Hst) as Hinv. split.
  - intros c [m Hm]. destruct (mi_before _ Hinv (proj1 Hg)) as ((m' & t & st & Hm' & Hp & _) & _).
    rewrite Hm in Hm'. by simplify_eq.
  - intros ms' Hst'. destruct (gone_steps _ _ Hst' Hg) as [Hg' Hs]. split; [apply Hg'|]. split; [done|].
    by apply (mi_before _ (msteps_inv _ _ Hst' Hinv)), Hg'.
Qed.

Lemma orchestrated_refines_boot_witness :
  map snd (m_procs with_console) !! 4%nat = Some (PTruck 1) /\ length (m_procs with_console) = 10%nat /\
  reachable 16384 (m_procs with_console) (m_sys with_console).
Proof.
  split; [vm_compute; reflexivity|]. split; [vm_compute; reflexivity|].
  apply (proj1 (orchestrated_refines_boot 16384 200 with_console with_console_steps)); vm_compute; reflexivity.
Defined.

Lemma shutdown_terminates_witness :
  m_over after_master = true /\ sn own_step after_master /\
  exists ms', rtc own_step after_master ms' /\ forall th, th ∈ threads (m_sys ms') -> departed ms' th.
Proof.
  assert (m_over after_master = true) as Ho by (vm_compute; reflexivity). split; [exact Ho|].
  destruct (shutdown_terminates 16384 200 after_master after_master_steps Ho) as (H1 & _ & H2).
  split; [exact H1|exact H2].
Defined.

Lemma master_shutdown_witness :
  m_signalled after_master = [201; 202; 203; 204; 205; 206; 207; 208] /\ map snd (m_forked after_master) = fleet.
Proof.
  split; [vm_compute; reflexivity|].
  exact (proj1 (master_shutdown 16384 200 after_master after_master_steps ltac:(vm_compute; reflexivity))).
Defined.

(** The second [fork] fails. *)
Definition one_child : msys := mrun 3 (mboot 16384 200).

Definition fork_failed : msys :=
  match sys_step 0 (AInt (-1)) (m_sys one_child) with Some s' => mrun 1 (set_sys s' one_child) | None => one_child end.

Lemma fork_failed_steps : msteps (mboot 16384 200) fork_failed.
Proof.
  unfold fork_failed. destruct (sys_step 0 (AInt (-1)) (m_sys one_child)) as [s'|] eqn:E; [|apply mrun_msteps].
  unfold msteps. etrans; [apply (mrun_msteps 3)|]. eapply rtc_l; [|apply mrun_msteps].
  left. eapply ms_fork_fails; [|exact E]. exists 200. split; [vm_compute; reflexivity|computed].
Qed.

Lemma failed_fork_leaks_witness :
  map snd (m_procs fork_failed) = [PMaster; PDispatcher] /\ w_sem_alive (s_world (m_sys fork_failed)) = true /\
  m_signalled fork_failed = [].
Proof.
  assert (master_at fork_failed (Exit 1)) as Hm by (exists 200; vm_compute; reflexivity).
  assert (master_gone fork_failed) as Hg by (split; [vm_compute; reflexivity|left; exists 1; exact Hm]).
  split; [vm_compute; reflexivity|].
  destruct (failed_fork_leaks 16384 200 fork_failed fork_failed_steps Hg) as [H1 H2].
  destruct (H2 fork_failed (rtc_refl _ _)) as (_ & _ & H3 & _). split; [exact H3|exact (proj2 (H1 1 Hm))].
Defined.
