(* ===== verification/Contracts.v ===== *)
(** * Contracts of the components as the manager wires them

    What each operation does when it runs alone on a given world, on every
    branch: the belt with its semaphores, sessions and quotas, loading,
    signals, the console, and the creation of the IPC resources. *)

From S2P Require Import Prelude Double Shared Ipc Belt SessionManager Truck Dispatcher Express Manager Terminal Config.

Section Contracts.
Context (pid : Z).

(** ** Belt and semaphores *)

Lemma manager_push_runs pkg w :
  w_sem_alive w = true -> v_belt (w_sem w) = 1 -> 0 < v_empty (w_sem w) <= SEMVMX -> 0 <= v_full (w_sem w) < SEMVMX ->
  belt_wf (w_shm w) -> current_items_count (w_shm w) < MAX_BELT_CAPACITY_K ->
  0 <= total_packages_created (w_shm w) < INT_MAX ->
  runs pid (push manager_belt pkg) w (set_id (total_packages_created (w_shm w) + 1) pkg)
    (with_sem (mkSemset 1 (v_empty (w_sem w) - 1) (v_full (w_sem w) + 1) (v_dock (w_sem w))) (pushed pkg w)).
Proof.
  intros Ha Hb He Hf Hwf Hroom Ht.
  eapply runs_eq.
  - eapply (push_runs pid manager_belt eq_refl).
    + apply semOperation_runs; [done|cbn; lia].
    + apply semOperation_runs; [done|cbn; rewrite Hb; unfold SEMVMX; lia].
    + exact Hwf.
    + exact Hroom.
    + cbn. unfold in_int, INT_MIN. lia.
    + apply semOperation_runs; [done|cbn; rewrite Hb; unfold SEMVMX; lia].
    + apply semOperation_runs; [done|cbn; lia].
  - done.
  - destruct w as [sh [vb ve vf vd] al ms qb ma lg]. cbn in *. subst. reflexivity.
Qed.

Lemma manager_pop_runs w :
  w_sem_alive w = true -> v_belt (w_sem w) = 1 -> 0 <= v_empty (w_sem w) < SEMVMX -> 0 < v_full (w_sem w) <= SEMVMX ->
  belt_wf (w_shm w) -> 0 < current_items_count (w_shm w) ->
  runs pid (pop manager_belt) w (slot (w_shm w) 0)
    (with_sem (mkSemset 1 (v_empty (w_sem w) + 1) (v_full (w_sem w) - 1) (v_dock (w_sem w))) (popped w)).
Proof.
  intros Ha Hb He Hf Hwf Hitem.
  eapply runs_eq.
  - eapply (pop_runs pid manager_belt eq_refl).
    + apply semOperation_runs; [done|cbn; lia].
    + apply semOperation_runs; [done|cbn; rewrite Hb; unfold SEMVMX; lia].
    + exact Hwf.
    + exact Hitem.
    + apply semOperation_runs; [done|cbn; rewrite Hb; unfold SEMVMX; lia].
    + apply semOperation_runs; [done|cbn; lia].
  - done.
  - destruct w as [sh [vb ve vf vd] al ms qb ma lg]. cbn in *. subst. reflexivity.
Qed.

End Contracts.

(** C22. Pushing a package and popping it on an empty belt gives it back with
    the next number, restores all four semaphores, and leaves the belt empty
    and well formed. *)
Theorem push_pop_roundtrip pid pkg w :
  w_sem_alive w = true -> w_sem w = mkSemset 1 MAX_BELT_CAPACITY_K 0 1 ->
  belt_wf (w_shm w) -> current_items_count (w_shm w) = 0 -> 0 <= total_packages_created (w_shm w) < INT_MAX ->
  exists w', runs pid (push manager_belt pkg ;; pop manager_belt) w
               (set_id (total_packages_created (w_shm w) + 1) pkg) w' /\
    w_sem w' = w_sem w /\ belt_wf (w_shm w') /\ contents (w_shm w') = [] /\
    total_packages_created (w_shm w') = total_packages_created (w_shm w) + 1.
Proof.
  intros Ha Hs Hwf Hc Ht.
  assert (belt_wf (push_effect pkg (w_shm w))) as Hwf1 by (apply push_wf; [done|rewrite Hc; unfold MAX_BELT_CAPACITY_K; lia]).
  assert (contents (push_effect pkg (w_shm w)) = [set_id (total_packages_created (w_shm w) + 1) pkg]) as Hc1.
  { rewrite push_contents by (done || (rewrite Hc; unfold MAX_BELT_CAPACITY_K; lia)). unfold contents at 1. by rewrite Hc. }
  assert (0 < current_items_count (push_effect pkg (w_shm w))) as Hpos by (cbn; lia).
  rewrite (pop_contents _ Hwf1 Hpos) in Hc1. injection Hc1 as Hslot Hrest.
  eexists. split; [|split; [|split; [|split]]].
  - eapply runs_bind.
    + apply manager_push_runs; rewrite ?Hs; cbn; try done; unfold SEMVMX, MAX_BELT_CAPACITY_K in *; try lia.
    + rewrite <- Hslot. apply manager_pop_runs; rewrite ?Hs; cbn; try done; unfold SEMVMX, MAX_BELT_CAPACITY_K in *; try lia.
  - rewrite Hs. reflexivity.
  - cbn. by apply pop_wf.
  - exact Hrest.
  - done.
Qed.

Lemma push_pop_roundtrip_witness :
  exists w', runs 7 (push manager_belt zero_Package ;; pop manager_belt) (initial_world 16384) (set_id 1 zero_Package) w' /\
    contents (w_shm w') = [].
Proof.
  destruct (push_pop_roundtrip 7 zero_Package (initial_world 16384)) as (w' & Hr & _ & _ & Hc & _);
    [reflexivity|reflexivity|apply init_belt_wf|reflexivity|cbn; unfold INT_MAX; lia|].
  exists w'. split; [exact Hr|exact Hc].
Defined.

(** A worker that finds no free slot waits before it touches the belt, and
    a dispatcher that finds no package waits: the call blocks with the world
    unchanged. *)
Theorem belt_blocks_when_unavailable pid pkg w fuel inputs :
  w_sem_alive w = true ->
  (v_empty (w_sem w) = 0 -> exec fuel pid (push manager_belt pkg) w inputs = Blocked w) /\
  (v_full (w_sem w) = 0 -> exec fuel pid (pop manager_belt) w inputs = Blocked w).
Proof.
  intros Ha. split; intros Hz.
  - unfold push. cbn [b_shm manager_belt negb]. rewrite exec_bind, simulateWorkLoad_runs. cbn [o_bind].
    rewrite exec_bind. cbn [wait_empty_fn manager_belt]. unfold waitForEmptySlot.
    rewrite semOperation_blocks; [done|done|]. cbn. rewrite Hz. done.
  - unfold pop. cbn [b_shm manager_belt negb]. rewrite exec_bind. cbn [wait_full_fn manager_belt]. unfold waitForPackage.
    rewrite semOperation_blocks; [done|done|]. cbn. rewrite Hz. done.
Qed.

(** ** Sessions *)

(** The world with another session table, and with one more log line. *)
Definition with_users (us : list UserSession) (w : world) : world := with_shm (set_users us (w_shm w)) w.
Definition logged (m : log_msg) (w : world) : world := with_log (w_log w ++ [m]) w.

Lemma with_users_same w : with_users (users (w_shm w)) w = w.
Proof. destruct w as [[] ? ? ? ? ? ?]. reflexivity. Qed.

Section Sessions.
Context (pid : Z) (w : world) (Ha : w_sem_alive w = true) (Hfree : v_belt (w_sem w) = 1).

(** Inside the critical section. *)
Let w1 : world := with_sem (sem_set (w_sem w) SEM_MUTEX_BELT 0) w.

Lemma lock_runs : runs pid lockBelt w tt w1.
Proof.
  eapply runs_eq; [apply semOperation_runs; [done|cbn; rewrite Hfree; unfold SEMVMX; lia]|done|].
  unfold w1. cbn. by rewrite Hfree.
Qed.

(** Leaving it after the table and the log have changed. *)
Lemma unlock_runs us l :
  runs pid unlockBelt (with_log l (with_users us w1)) tt (with_log l (with_users us w)).
Proof.
  eapply runs_eq; [apply semOperation_runs; [done|cbn; unfold SEMVMX; lia]|done|].
  unfold w1. destruct w as [sh [vb ve vf vd] al ms qb ma lg]. cbn in *. subst. reflexivity.
Qed.

Lemma unlock_log_runs l : runs pid unlockBelt (with_log l w1) tt (with_log l w).
Proof.
  pose proof (unlock_runs (users (w_shm w)) l) as H. rewrite (with_users_same w) in H.
  change (users (w_shm w)) with (users (w_shm w1)) in H. by rewrite (with_users_same w1) in H.
Qed.

Lemma runs_store_user i f us v :
  0 <= i < MAX_USERS_SESSIONS ->
  runs pid (store_user i f) (with_users us v) tt (with_users (alter f (Z.to_nat i) us) v).
Proof. intros Hi. eapply runs_eq; [by apply runs_store_at|done|done]. Qed.

Lemma runs_load_user i u us v :
  0 <= i -> us !! Z.to_nat i = Some u -> runs pid (load_at users i) (with_users us v) u (with_users us v).
Proof. intros Hi Hu. by apply runs_load_at. Qed.

Context (Hlen : length (users (w_shm w)) = Z.to_nat MAX_USERS_SESSIONS).

Lemma find_duplicate_decides name :
  exists d, runs pid (find_duplicate (Z.to_nat MAX_USERS_SESSIONS) 0 name) w1 d w1 /\
    (d = true <-> name_taken (users (w_shm w)) name).
Proof.
  destruct (find_duplicate_runs pid w1 (users (w_shm w)) eq_refl (Z.to_nat MAX_USERS_SESSIONS) 0 name Hlen) as (d & Hr & Hd).
  exists d. split; [exact Hr|]. rewrite Hd. split.
  - intros (j & u & _ & Hu). by exists j, u.
  - intros (j & u & Hu). exists j, u. split; [lia|done].
Qed.

Lemma login_free_runs name r org max_procs i :
  ~ name_taken (users (w_shm w)) name -> first_free (users (w_shm w)) i ->
  runs pid (login manager_sessions name r org max_procs) w (true, set_current_session (Z.of_nat i) manager_sessions)
    (logged (LoggedIn name org r (Z.of_nat i))
       (with_users (<[i := fresh_session name r org max_procs pid]> (users (w_shm w))) w)).
Proof.
  intros Hno Hff. destruct (find_duplicate_decides name) as (d & Hdup & Hd).
  destruct d; [by destruct (Hno (proj1 Hd eq_refl))|].
  destruct (Hff) as [(u & Hu & Hin) Hbefore].
  assert (0 <= Z.of_nat i < MAX_USERS_SESSIONS) as Hi by (apply lookup_lt_Some in Hu; lia).
  destruct (find_free_slot_runs pid w1 (users (w_shm w)) eq_refl (Z.to_nat MAX_USERS_SESSIONS) 0 Hlen)
    as [(j & Hslot & _ & (v & Hv & Hvin) & Hb)|[_ Hall]].
  2:{ exfalso. specialize (Hall i u ltac:(lia) Hu). congruence. }
  assert (j = i) as ->.
  { destruct (decide (j < i)%nat); [by specialize (Hbefore j v ltac:(done) Hv); congruence|].
    destruct (decide (i < j)%nat); [by specialize (Hb i u ltac:(lia) Hu); congruence|lia]. }
  unfold login. cbn [sm_shm manager_sessions new_SessionManager negb sm_lock_fn sm_unlock_fn].
  eapply runs_bind; [apply lock_runs|]. eapply runs_bind; [exact Hdup|]. eapply runs_bind; [exact Hslot|].
  rewrite (proj2 (Z.eqb_neq (Z.of_nat i) (-1))) by lia.
  rewrite <- (with_users_same w1) at 1.
  do 7 (eapply runs_bind; [by apply runs_store_user|]).
  eapply (runs_bind _ _ _ _ pid); [intros fuel inputs; reflexivity|].
  eapply runs_bind; [by apply runs_store_user|]. run_one.
  rewrite Nat2Z.id, !alter_twice, (alter_insert _ _ _ _ Hu).
  eapply runs_bind; [apply unlock_runs|]. apply runs_ret.
Qed.

(** A refused login changes nothing but the log. *)
Lemma login_taken_runs name r org max_procs :
  name_taken (users (w_shm w)) name ->
  runs pid (login manager_sessions name r org max_procs) w (false, manager_sessions) (logged (AlreadyLoggedIn name) w).
Proof.
  intros Ht. destruct (find_duplicate_decides name) as (d & Hdup & Hd). rewrite (proj2 Hd Ht) in Hdup.
  unfold login. cbn [sm_shm manager_sessions new_SessionManager negb sm_lock_fn sm_unlock_fn].
  eapply runs_bind; [apply lock_runs|]. eapply runs_bind; [exact Hdup|]. cbv iota. run_one.
  eapply runs_bind; [apply unlock_log_runs|]. apply runs_ret.
Qed.

Lemma login_full_runs name r org max_procs :
  ~ name_taken (users (w_shm w)) name -> (forall i u, users (w_shm w) !! i = Some u -> active u = true) ->
  runs pid (login manager_sessions name r org max_procs) w (false, manager_sessions) (logged (SessionLimit name) w).
Proof.
  intros Hno Hfull. destruct (find_duplicate_decides name) as (d & Hdup & Hd).
  destruct d; [by destruct (Hno (proj1 Hd eq_refl))|].
  destruct (find_free_slot_runs pid w1 (users (w_shm w)) eq_refl (Z.to_nat MAX_USERS_SESSIONS) 0 Hlen)
    as [(j & _ & _ & (v & Hv & Hvin) & _)|[Hslot _]].
  { rewrite (Hfull j v Hv) in Hvin. done. }
  unfold login. cbn [sm_shm manager_sessions new_SessionManager negb sm_lock_fn sm_unlock_fn].
  eapply runs_bind; [apply lock_runs|]. eapply runs_bind; [exact Hdup|]. eapply runs_bind; [exact Hslot|].
  cbn [Z.eqb Pos.eqb]. run_one.
  eapply runs_bind; [apply unlock_log_runs|]. apply runs_ret.
Qed.

Lemma logout_runs i u :
  users (w_shm w) !! i = Some u ->
  runs pid (logout (set_current_session (Z.of_nat i) manager_sessions)) w manager_sessions
    (logged (LoggingOut (username u)) (with_users (<[i := closed_session u]> (users (w_shm w))) w)).
Proof.
  intros Hu. assert (0 <= Z.of_nat i < MAX_USERS_SESSIONS) as Hi by (apply lookup_lt_Some in Hu; lia).
  unfold logout. cbn [sm_shm manager_sessions new_SessionManager negb sm_lock_fn sm_unlock_fn current_session set_current_session].
  rewrite (proj2 (Z.eqb_neq (Z.of_nat i) (-1))) by lia. cbn [orb].
  eapply runs_bind; [apply lock_runs|]. rewrite <- (with_users_same w1) at 1.
  eapply runs_bind; [apply (runs_load_user (Z.of_nat i) u); [lia|by rewrite Nat2Z.id]|]. run_one.
  change (with_log ?l (with_users ?us w1)) with (with_users us (with_log l w1)).
  do 4 (eapply runs_bind; [by apply runs_store_user|]).
  rewrite Nat2Z.id, !alter_twice, (alter_insert _ _ _ _ Hu).
  change (with_users ?us (with_log ?l w1)) with (with_log l (with_users us w1)).
  eapply runs_bind; [apply unlock_runs|]. apply runs_ret.
Qed.

Lemma spawn_runs i u :
  users (w_shm w) !! i = Some u -> 0 <= current_processes u -> max_processes u <= INT_MAX ->
  runs pid (trySpawnProcess (set_current_session (Z.of_nat i) manager_sessions)) w
    (current_processes u <? max_processes u)
    (if current_processes u <? max_processes u
     then with_users (<[i := set_current_processes (current_processes u + 1) u]> (users (w_shm w))) w else w).
Proof.
  intros Hu H0 Hmax. assert (0 <= Z.of_nat i < MAX_USERS_SESSIONS) as Hi by (apply lookup_lt_Some in Hu; lia).
  assert (users (w_shm w) !! Z.to_nat (Z.of_nat i) = Some u) as Hu' by (by rewrite Nat2Z.id).
  unfold trySpawnProcess. cbn [sm_shm manager_sessions new_SessionManager negb sm_lock_fn sm_unlock_fn current_session set_current_session].
  rewrite (proj2 (Z.eqb_neq (Z.of_nat i) (-1))) by lia. cbn [orb].
  eapply runs_bind; [apply lock_runs|]. rewrite <- (with_users_same w1) at 1.
  do 2 (eapply runs_bind; [apply (runs_load_user _ u); [lia|done]|]). case_if.
  - eapply runs_bind.
    + eapply runs_bind; [apply (runs_load_user _ u); [lia|done]|].
      eapply runs_bind; [apply runs_int_result; unfold in_int, INT_MIN; lia|].
      eapply runs_bind; [by apply runs_store_user|]. apply runs_ret.
    + rewrite Nat2Z.id, (alter_insert _ _ _ _ Hu).
      eapply runs_bind; [apply (unlock_runs _ (w_log w))|]. apply runs_ret.
  - eapply runs_bind; [apply runs_ret|]. eapply runs_bind; [apply (unlock_runs _ (w_log w))|].
    eapply runs_eq; [apply runs_ret|done|]. exact (with_users_same w).
Qed.

Lemma report_runs i u :
  users (w_shm w) !! i = Some u -> 0 < current_processes u <= INT_MAX ->
  runs pid (reportProcessFinished (set_current_session (Z.of_nat i) manager_sessions)) w tt
    (with_users (<[i := set_current_processes (current_processes u - 1) u]> (users (w_shm w))) w).
Proof.
  intros Hu H0. assert (0 <= Z.of_nat i < MAX_USERS_SESSIONS) as Hi by (apply lookup_lt_Some in Hu; lia).
  assert (users (w_shm w) !! Z.to_nat (Z.of_nat i) = Some u) as Hu' by (by rewrite Nat2Z.id).
  unfold reportProcessFinished. cbn [sm_shm manager_sessions new_SessionManager negb sm_lock_fn sm_unlock_fn current_session set_current_session].
  rewrite (proj2 (Z.eqb_neq (Z.of_nat i) (-1))) by lia. cbn [orb].
  eapply runs_bind; [apply lock_runs|]. rewrite <- (with_users_same w1) at 1.
  eapply runs_bind; [apply (runs_load_user _ u); [lia|done]|]. rewrite (proj2 (Z.ltb_lt _ _)) by lia.
  eapply runs_bind.
  - eapply runs_bind; [apply (runs_load_user _ u); [lia|done]|].
    eapply runs_bind; [apply runs_int_result; unfold in_int, INT_MIN; lia|]. by apply runs_store_user.
  - rewrite Nat2Z.id, (alter_insert _ _ _ _ Hu). apply (unlock_runs _ (w_log w)).
Qed.

End Sessions.

(** C24. [login] on every branch, with the belt mutex free: a taken name is
    refused, a full table is refused, and otherwise the first free slot gets
    the new session with the caller's process id and an empty quota; nothing
    else of the segment changes and the mutex is free again. *)
Theorem login_contract pid name r org max_procs w :
  w_sem_alive w = true -> v_belt (w_sem w) = 1 -> length (users (w_shm w)) = Z.to_nat MAX_USERS_SESSIONS ->
  (name_taken (users (w_shm w)) name ->
     runs pid (login manager_sessions name r org max_procs) w (false, manager_sessions) (logged (AlreadyLoggedIn name) w)) /\
  (~ name_taken (users (w_shm w)) name -> (forall i u, users (w_shm w) !! i = Some u -> active u = true) ->
     runs pid (login manager_sessions name r org max_procs) w (false, manager_sessions) (logged (SessionLimit name) w)) /\
  (forall i, ~ name_taken (users (w_shm w)) name -> first_free (users (w_shm w)) i ->
     runs pid (login manager_sessions name r org max_procs) w (true, set_current_session (Z.of_nat i) manager_sessions)
       (logged (LoggedIn name org r (Z.of_nat i))
          (with_users (<[i := fresh_session name r org max_procs pid]> (users (w_shm w))) w))).
Proof.
  intros Ha Hf Hl. split; [|split].
  - by apply login_taken_runs.
  - by apply login_full_runs.
  - intros i. by apply login_free_runs.
Qed.

(** The table of a fresh segment: nobody is logged in and slot 0 is free. *)
Lemma init_no_names name : ~ name_taken (users init_shm) name.
Proof. intros (i & u & Hu & Hact & _). cbn -[replicate] in Hu. apply lookup_replicate in Hu as [-> _]. done. Qed.

Lemma init_first_free : first_free (users init_shm) 0.
Proof. split; [by exists zero_UserSession|]. intros j u Hj. lia. Qed.

Lemma login_contract_witness :
  runs 42 (login manager_sessions "Worker_1" UserRole.Operator 0 10) (initial_world 16384)
    (true, set_current_session 0 manager_sessions)
    (logged (LoggedIn "Worker_1" 0 UserRole.Operator 0)
       (with_users (<[0%nat := fresh_session "Worker_1" UserRole.Operator 0 10 42]> (users init_shm)) (initial_world 16384))).
Proof.
  exact (proj2 (proj2 (login_contract 42 "Worker_1" UserRole.Operator 0 10 (initial_world 16384) eq_refl eq_refl eq_refl))
           0%nat (init_no_names _) init_first_free).
Defined.

(** C25. Logging in and out again: the session object is back without a
    session, its slot is inactive with its role, organisation and process count
    cleared, and every other slot is as before. *)
Theorem login_logout_roundtrip pid name r org max_procs w i :
  w_sem_alive w = true -> v_belt (w_sem w) = 1 -> length (users (w_shm w)) = Z.to_nat MAX_USERS_SESSIONS ->
  ~ name_taken (users (w_shm w)) name -> first_free (users (w_shm w)) i ->
  exists w', runs pid (let* res := login manager_sessions name r org max_procs in logout (snd res)) w manager_sessions w' /\
    w_sem w' = w_sem w /\
    users (w_shm w') = <[i := closed_session (fresh_session name r org max_procs pid)]> (users (w_shm w)) /\
    (forall j, j <> i -> users (w_shm w') !! j = users (w_shm w) !! j).
Proof.
  intros Ha Hf Hl Hno Hff. destruct (Hff) as [(u & Hu & _) _].
  eexists. split; [|split; [|split]].
  - eapply runs_bind; [by apply login_free_runs|]. cbn [snd].
    apply logout_runs; [exact Ha|exact Hf|by cbn; rewrite length_insert|].
    cbn. apply list_lookup_insert_eq. by eapply lookup_lt_Some.
  - done.
  - cbn. by rewrite list_insert_insert_eq.
  - intros j Hj. cbn. by rewrite !list_lookup_insert_ne by done.
Qed.

Lemma login_logout_roundtrip_witness :
  exists w', runs 42 (let* res := login manager_sessions "Truck_1" UserRole.Operator 0 1 in logout (snd res))
               (initial_world 16384) manager_sessions w' /\ w_sem w' = mkSemset 1 10 0 1.
Proof.
  destruct (login_logout_roundtrip 42 "Truck_1" UserRole.Operator 0 1 (initial_world 16384) 0 eq_refl eq_refl eq_refl
              (init_no_names _) init_first_free) as (w' & Hr & Hs & _).
  exists w'. split; [exact Hr|exact Hs].
Defined.

(** C26. The process quota of a session: [trySpawnProcess] succeeds exactly
    below the maximum and counts the process, refuses otherwise without any
    change, and [reportProcessFinished] undoes a successful spawn. *)
Theorem quota_contract pid w i u :
  w_sem_alive w = true -> v_belt (w_sem w) = 1 -> length (users (w_shm w)) = Z.to_nat MAX_USERS_SESSIONS ->
  users (w_shm w) !! i = Some u -> 0 <= current_processes u -> max_processes u <= INT_MAX ->
  let sm := set_current_session (Z.of_nat i) manager_sessions in
  (max_processes u <= current_processes u -> runs pid (trySpawnProcess sm) w false w) /\
  (current_processes u < max_processes u ->
     runs pid (trySpawnProcess sm) w true
       (with_users (<[i := set_current_processes (current_processes u + 1) u]> (users (w_shm w))) w) /\
     runs pid (let* ok := trySpawnProcess sm in reportProcessFinished sm) w tt w).
Proof.
  intros Ha Hf Hl Hu H0 Hmax sm. pose proof (spawn_runs pid w Ha Hf Hl i u Hu H0 Hmax) as Hs.
  split; intros Hc; destruct (Z.ltb_spec (current_processes u) (max_processes u)); try lia; [exact Hs|].
  split; [exact Hs|]. eapply runs_bind; [exact Hs|]. cbv beta.
  eapply runs_eq; [apply (report_runs pid _) with (i := i) (u := set_current_processes (current_processes u + 1) u)|done|].
  - exact Ha.
  - exact Hf.
  - cbn. by rewrite length_insert.
  - cbn. apply list_lookup_insert_eq. by eapply lookup_lt_Some.
  - cbn. lia.
  - cbn [users set_users with_users w_shm with_shm]. rewrite list_insert_insert_eq. cbn.
    replace (current_processes u + 1 - 1) with (current_processes u) by lia.
    replace (set_current_processes (current_processes u) (set_current_processes (current_processes u + 1) u)) with u
      by (by destruct u).
    rewrite list_insert_id by done. exact (with_users_same w).
Qed.

Lemma quota_contract_witness :
  let w := with_users (<[0%nat := fresh_session "Worker_1" UserRole.Operator 0 10 42]> (users init_shm)) (initial_world 16384) in
  runs 42 (let* ok := trySpawnProcess (set_current_session 0 manager_sessions)
           in reportProcessFinished (set_current_session 0 manager_sessions)) w tt w.
Proof.
  intros w.
  refine (proj2 (proj2 (quota_contract 42 w 0 (fresh_session "Worker_1" UserRole.Operator 0 10 42)
                          eq_refl eq_refl eq_refl eq_refl _ _) _)); vm_compute; congruence.
Defined.

(** ** Signals and semaphores *)

(** The receiver gets the last message when no other one is for it. *)
Lemma receive_runs receiver ty ms w :
  w_msg_alive w = true -> 0 < receiver -> msg_take receiver ms = None ->
  w_msgs w = ms ++ [mkCommandMessage receiver (signal_to_int ty)] ->
  runs receiver (receiveSignalBlocking receiver) w ty (with_msgs ms w).
Proof.
  intros Ha Hpos Hnone Hm fuel inputs. cbn. rewrite Ha, Hm, msg_take_app, Hnone by (cbn; lia || done). cbn.
  rewrite signal_roundtrip. done.
Qed.

(** A signal sent is the signal received: when the queue holds no other
    message for the receiver, [receiveSignalBlocking] returns what
    [sendSignal] sent, and the queue is as before. *)
Lemma signal_roundtrip_queue sender receiver ty w :
  w_msg_alive w = true -> msg_room w = true -> 0 < receiver ->
  msg_take receiver (w_msgs w) = None ->
  exists w', runs sender (sendSignal receiver ty) w tt w' /\
    w_msgs w' = w_msgs w ++ [mkCommandMessage receiver (signal_to_int ty)] /\
    exists w'', runs receiver (receiveSignalBlocking receiver) w' ty w'' /\ w_msgs w'' = w_msgs w.
Proof.
  intros Ha Hroom Hpos Hnone. eexists. split; [by apply sendSignal_runs|]. split; [done|].
  eexists. split; [by apply receive_runs with (ms := w_msgs w)|done].
Qed.

(** C28. [semOperation] on every branch: it moves the semaphore when it can; it
    blocks when the value would become negative; a blocked call that is
    interrupted returns as if it had succeeded, the semaphore untouched; after
    the shutdown a removed set is not an error; a removed set while the system
    runs ends the process with the error code. *)
Theorem semOperation_contract pid i op w :
  (w_sem_alive w = true -> 0 <= sem_get (w_sem w) i + op <= SEMVMX ->
     runs pid (semOperation i op) w tt (with_sem (sem_set (w_sem w) i (sem_get (w_sem w) i + op)) w)) /\
  (w_sem_alive w = true -> sem_get (w_sem w) i + op < 0 ->
     (forall fuel inputs, exec fuel pid (semOperation i op) w inputs = Blocked w) /\
     exists t, estep pid (AErr EINTR) (semOperation i op) w = Some (t, w) /\ runs pid t w tt w) /\
  (w_sem_alive w = false -> forall e, e = EIDRM \/ e = EINVAL ->
     exists t, estep pid (AErr e) (semOperation i op) w = Some (t, w) /\
       (running (w_shm w) = false -> runs pid t w tt w) /\
       (running (w_shm w) = true -> forall fuel inputs,
          exec fuel pid t w inputs = Exited (errno_code e) (logged (SemopFailed e) w))).
Proof.
  split; [|split].
  - apply semOperation_runs.
  - intros Ha Hv. split; [intros; by apply semOperation_blocks|by apply semOperation_eintr].
  - intros Ha e He. destruct (running (w_shm w)) eqn:Hrun.
    + destruct He as [-> | ->]; (eexists; split; [cbn; rewrite Ha; reflexivity|]; split; [done|]);
        intros _ fuel inputs; cbn; rewrite Hrun; reflexivity.
    + destruct (semOperation_removed pid i op w e Ha Hrun He) as (t & Ht & Hr). exists t. done.
Qed.

(** ** Loading *)

(** The limit test of the dispatcher, on a truck state. *)
Definition at_limit (t : TruckState) : bool :=
  ((max_load t <=? current_load t) || (max_weight t * d_lit 99 100 <=? current_weight t)%double ||
   (max_volume t * d_lit 99 100 <=? current_volume t)%double)%bool.

(** The truck with the package on board. *)
Definition load_truck (pkg : Package) (t : TruckState) : TruckState :=
  set_current_load (current_load t + 1)
    (set_current_volume (current_volume t + volume pkg)%double
      (set_current_weight (current_weight t + weight pkg)%double t)).

Definition fits (pkg : Package) (t : TruckState) : bool :=
  ((current_weight t + weight pkg <=? max_weight t)%double && (current_volume t + volume pkg <=? max_volume t)%double)%bool.

Lemma limit_reached_runs pid w : runs pid limit_reached w (at_limit (dock_truck (w_shm w))) w.
Proof.
  unfold limit_reached, at_limit. do 2 (eapply runs_bind; [apply runs_load|]). cbv beta. set (t := dock_truck (w_shm w)).
  destruct (max_load t <=? current_load t); [apply runs_ret|]. do 2 (eapply runs_bind; [apply runs_load|]). cbv beta.
  fold t. destruct (max_weight t * d_lit 99 100 <=? current_weight t)%double; [apply runs_ret|].
  do 2 (eapply runs_bind; [apply runs_load|]). apply runs_ret.
Qed.

(** The signal that sends the truck at the dock away. *)
Definition depart_message (t : TruckState) : CommandMessage := mkCommandMessage (truck_id t) (signal_to_int SIGNAL_DEPARTURE).

(** The world with the package on board of the truck, which is sent away if it
    has reached a limit. *)
Definition after_load (pkg : Package) (w : world) : world :=
  let t := dock_truck (w_shm w) in
  let w1 := logged (PkgLoaded (id pkg) (weight pkg) (volume pkg) (truck_id t))
              (with_shm (set_dock_truck (load_truck pkg t) (w_shm w)) w) in
  if at_limit (load_truck pkg t)
  then logged (SignalSent (signal_to_int SIGNAL_DEPARTURE) (truck_id t))
         (with_msgs (w_msgs w ++ [depart_message t]) (logged (TruckFull (truck_id t)) w1))
  else w1.

Section Loading.
Context (pid : Z) (pkg : Package) (w : world).
Context (Ha : w_msg_alive w = true) (Hroom : msg_room w = true) (Ht : 0 < truck_id (dock_truck (w_shm w))).

Lemma try_load_fits_runs :
  fits pkg (dock_truck (w_shm w)) = true -> in_int (current_load (dock_truck (w_shm w)) + 1) = true ->
  runs pid (try_load manager_dispatcher pkg) w true (after_load pkg w).
Proof.
  intros Hf Hint. unfold fits in Hf. apply andb_true_iff in Hf as [Hw Hv]. unfold after_load, depart_message.
  unfold try_load. do 4 (eapply runs_bind; [apply runs_load|]). cbv beta zeta. rewrite Hw, Hv. cbn [andb].
  do 2 (eapply runs_bind; [apply runs_load|]; eapply runs_bind; [apply runs_store|]).
  eapply runs_bind; [apply runs_load|]. eapply runs_bind; [apply runs_int_result; exact Hint|].
  eapply runs_bind; [apply runs_store|]. eapply runs_bind; [apply runs_load|]. eapply runs_bind; [apply runs_log|].
  eapply runs_bind; [apply limit_reached_runs|]. cbv beta.
  match goal with |- context [at_limit ?t] => change t with (load_truck pkg (dock_truck (w_shm w))) end.
  destruct (at_limit (load_truck pkg (dock_truck (w_shm w)))); (eapply runs_bind; [|apply runs_ret]); [|apply runs_ret].
  eapply runs_bind; [apply runs_load|]. eapply runs_bind; [apply runs_log|]. eapply runs_bind; [apply runs_load|].
  by apply sendSignal_runs.
Qed.

Lemma try_load_refuses_runs :
  fits pkg (dock_truck (w_shm w)) = false ->
  exists w', runs pid (try_load manager_dispatcher pkg) w false w' /\
    w_shm w' = w_shm w /\
    w_msgs w' = w_msgs w ++ [mkCommandMessage (truck_id (dock_truck (w_shm w))) (signal_to_int SIGNAL_DEPARTURE)].
Proof.
  intros Hf. unfold fits in Hf. eexists. split; [|split].
  - unfold try_load. do 4 (eapply runs_bind; [apply runs_load|]). cbv beta zeta. rewrite Hf.
    eapply runs_bind; [apply runs_load|]. eapply runs_bind; [apply runs_log|]. eapply runs_bind; [apply runs_load|].
    eapply runs_bind; [by apply sendSignal_runs|]. apply runs_ret.
  - done.
  - done.
Qed.

End Loading.

(** C29. Loading a package on the truck at the dock: if weight and volume fit
    the truck's limits, exactly this truck gains the package and its load
    count, and it is sent away when a limit is (almost) reached; otherwise the
    truck is left as it is, the package stays in hand, and the truck is sent
    away. *)
Theorem try_load_contract pid pkg w :
  w_msg_alive w = true -> msg_room w = true -> 0 < truck_id (dock_truck (w_shm w)) ->
  in_int (current_load (dock_truck (w_shm w)) + 1) = true ->
  let t := dock_truck (w_shm w) in
  let depart := depart_message t in
  exists w', runs pid (try_load manager_dispatcher pkg) w (fits pkg t) w' /\
    w_shm w' = (if fits pkg t then set_dock_truck (load_truck pkg t) (w_shm w) else w_shm w) /\
    w_msgs w' = w_msgs w ++ (if fits pkg t then (if at_limit (load_truck pkg t) then [depart] else []) else [depart]).
Proof.
  intros Ha Hroom Hpos Hint t depart. subst t depart. destruct (fits pkg (dock_truck (w_shm w))) eqn:Hf.
  - exists (after_load pkg w). split; [by apply try_load_fits_runs|]. unfold after_load. split; [by case_match|].
    case_match; cbn; by rewrite ?app_nil_r.
  - by apply try_load_refuses_runs.
Qed.

(** A truck with room for one type A package. *)
Definition small_truck : TruckState := mkTruckState true 101 0 100 d_zero d_zero (d_ofZ 200) (d_ofZ 1).

Lemma try_load_contract_witness :
  let w := with_shm (set_dock_truck small_truck init_shm) (initial_world 16384) in
  fits (mkPackage 1 7 7 PackageType.TypeA PackageStatus.Normal (d_ofZ 5) VOL_A 0 0 [] 0) small_truck = true /\
  exists w', runs 7 (try_load manager_dispatcher (mkPackage 1 7 7 PackageType.TypeA PackageStatus.Normal (d_ofZ 5) VOL_A 0 0 [] 0))
               w true w' /\ current_load (dock_truck (w_shm w')) = 1.
Proof.
  intros w. split; [vm_compute; reflexivity|].
  destruct (try_load_contract 7 (mkPackage 1 7 7 PackageType.TypeA PackageStatus.Normal (d_ofZ 5) VOL_A 0 0 [] 0) w)
    as (w' & Hr & Hs & _); [reflexivity|reflexivity|vm_compute; reflexivity|reflexivity|].
  exists w'. split; [exact Hr|]. rewrite Hs. vm_compute. reflexivity.
Defined.

(** ** Creation and removal of the IPC resources *)

(** The constructor with a kernel that refuses none of the checked calls. *)
Definition granted (refused : ipc_call -> option Z) : Prop :=
  refused ShmGet = None /\ refused ShmAt = None /\ refused SemGet = None /\ refused MsgGet = None.

(** All three resources are there. *)
Definition complete (k : ipc) : Prop := k_shm k <> None /\ k_sem k <> None /\ k_msg k <> None.

(** The messages and the size of the queue that is there, or of a new one. *)
Definition left_over (k : ipc) : list CommandMessage * Z := default ([], k_msgmnb k) (k_msg k).

Lemma owner_ctor refused k l :
  granted refused ->
  Manager_ctor refused true (k, l) =
    (inr tt, (mkIpc (Some init_shm) (Some (mkSemset 1 MAX_BELT_CAPACITY_K 0 1)) (Some (left_over k)) (k_msgmnb k),
              l ++ [IpcInitialized])).
Proof.
  intros (H1 & H2 & H3 & H4). unfold Manager_ctor, remove_old_shm, k_bind, k_modify, checked. rewrite H1, H2, H3, H4.
  destruct k as [[shm|] [sem|] [msg|] mb]; destruct (refused ShmRemove); reflexivity.
Qed.

Lemma client_ctor refused k l :
  Manager_ctor refused false (k, l) = (inr tt, (k, l)) /\ granted refused /\ complete k \/
  exists c call, Manager_ctor refused false (k, l) = (inl c, (k, l ++ [IpcFailed (call_name call) c])) /\
    (call <> ShmRemove /\ refused call = Some c \/ c = ENOENT /\ ~ complete k).
Proof.
  unfold Manager_ctor, k_bind, k_ret, checked, granted, complete.
  destruct (refused ShmGet) as [e|] eqn:E1; [right; exists e, ShmGet; auto|].
  destruct (k_shm k) eqn:K1; [|right; exists ENOENT, ShmGet; unfold get_resource; rewrite K1; split; [done|naive_solver]].
  destruct (refused ShmAt) as [e|] eqn:E2; [right; exists e, ShmAt; unfold get_resource; rewrite K1; auto|].
  destruct (refused SemGet) as [e|] eqn:E3; [right; exists e, SemGet; unfold get_resource; rewrite K1; auto|].
  destruct (k_sem k) eqn:K2; [|right; exists ENOENT, SemGet; unfold get_resource; rewrite K1, K2; split; [done|naive_solver]].
  destruct (refused MsgGet) as [e|] eqn:E4; [right; exists e, MsgGet; unfold get_resource; rewrite K1, K2; auto|].
  unfold get_resource. rewrite K1, K2. destruct (k_msg k) eqn:K3; [left; naive_solver|right; exists ENOENT, MsgGet; split; [done|naive_solver]].
Qed.

(** Without a success on a machine with no resources, one of them is missing. *)
Lemma owner_fails_incomplete refused mb l c k' l' :
  Manager_ctor refused true (mkIpc None None None mb, l) = (inl c, (k', l')) ->
  ~ complete k' /\ exists call, refused call = Some c /\ l' = l ++ [IpcFailed (call_name call) c].
Proof.
  unfold Manager_ctor, remove_old_shm, k_bind, k_modify, k_log, checked, complete.
  destruct (refused ShmRemove); cbn;
    (destruct (refused ShmGet) eqn:E1; cbn; [intros; simplify_eq; split; [naive_solver|by eexists]|];
     destruct (refused ShmAt) eqn:E2; cbn; [intros; simplify_eq; split; [naive_solver|by eexists]|];
     destruct (refused SemGet) eqn:E3; cbn; [intros; simplify_eq; split; [naive_solver|by eexists]|];
     destruct (refused MsgGet) eqn:E4; cbn; [intros; simplify_eq; split; [naive_solver|by eexists]|done]).
Qed.

(** C31. The life of the IPC resources, with a kernel that may refuse any call.
    (1) When the kernel grants the calls, the owner's constructor succeeds on
    whatever an earlier run left, even where the old segment cannot be removed:
    the processes start in the initial world, but with the messages of a queue
    that was left over.
    (2) A client changes nothing; it succeeds exactly when the calls are granted
    and all three resources are there, and otherwise reports the failed call and
    ends with its error code.
    (3) A failed owner on a machine without resources reports the refused call,
    and no client can attach to what it leaves.
    (4) After the owner's destructor no client can attach, and the next owner
    starts in exactly the initial world, with no message of the run before. *)
Theorem manager_lifecycle refused refused' k l :
  (granted refused -> exists k' l', Manager_ctor refused true (k, l) = (inr tt, (k', l')) /\
     ipc_world k' = Some (with_msgs (fst (left_over k)) (initial_world (snd (left_over k))))) /\
  (exists r l', Manager_ctor refused false (k, l) = (r, (k, l')) /\
     (r = inr tt <-> granted refused /\ complete k) /\
     (forall c, r = inl c -> exists call, l' = l ++ [IpcFailed (call_name call) c] /\
        (refused call = Some c \/ c = ENOENT /\ ~ complete k))) /\
  (forall mb c k' l', Manager_ctor refused true (mkIpc None None None mb, l) = (inl c, (k', l')) ->
     (exists call, refused call = Some c /\ l' = l ++ [IpcFailed (call_name call) c]) /\
     forall k2 l2, Manager_ctor refused' false (k', l') <> (inr tt, (k2, l2))) /\
  (exists k1 l1, Manager_dtor true (k, l) = (inr tt, (k1, l1)) /\
     (forall k2 l2, Manager_ctor refused' false (k1, l1) <> (inr tt, (k2, l2))) /\
     (granted refused' -> exists k2 l2, Manager_ctor refused' true (k1, l1) = (inr tt, (k2, l2)) /\
        ipc_world k2 = Some (initial_world (k_msgmnb k)))).
Proof.
  assert (forall x lx, ~ complete x -> forall k2 l2, Manager_ctor refused' false (x, lx) <> (inr tt, (k2, l2))) as Hno.
  { intros x lx Hx k2 l2. destruct (client_ctor refused' x lx) as [(_ & _ & Hc)|(c & call & -> & _)]; [by destruct Hx|done]. }
  split; [|split; [|split]].
  - intros Hg. rewrite owner_ctor by done. do 2 eexists. split; [reflexivity|]. unfold ipc_world. cbn. by destruct (left_over k).
  - destruct (client_ctor refused k l) as [(-> & Hg & Hc)|(c & call & -> & Hw)].
    + exists (inr tt), l. split; [done|]. split; [done|]. by intros c.
    + exists (inl c), (l ++ [IpcFailed (call_name call) c]). split; [done|]. split; [|intros c' [= <-]].
      * split; [done|]. intros [(H1 & H2 & H3 & H4) Hc]. destruct Hw as [[Hne Hw]|[_ Hw]]; [|done]. destruct call; congruence.
      * exists call. split; [done|]. naive_solver.
  - intros mb c k' l' Hc. destruct (owner_fails_incomplete _ _ _ _ _ _ Hc) as [Hi Hcall]. split; [done|]. by apply Hno.
  - do 2 eexists. split; [reflexivity|]. split; [apply Hno; by intros (? & _)|].
    intros Hg. rewrite owner_ctor by done. do 2 eexists. split; reflexivity.
Qed.

(** A restart after a crash: the segment and the semaphores are as new, an old
    message is still there. *)
Lemma manager_lifecycle_witness :
  exists k' l', Manager_ctor (fun _ => None) true
      (mkIpc (Some zero_SharedState) (Some (mkSemset 0 3 7 0)) (Some ([mkCommandMessage 9 1], 16384)) 16384, []) = (inr tt, (k', l')) /\
    ipc_world k' = Some (with_msgs [mkCommandMessage 9 1] (initial_world 16384)).
Proof. exact (proj1 (manager_lifecycle (fun _ => None) (fun _ => None) _ []) (conj eq_refl (conj eq_refl (conj eq_refl eq_refl)))). Defined.

(** ** The console *)

(** The signals of the emergency stop: one to every active session, in slot order. *)
Definition stop_messages (us : list UserSession) : list CommandMessage :=
  map (fun u => mkCommandMessage (session_pid u) (signal_to_int SIGNAL_END_WORK)) (filter (fun u => active u = true) us).

Lemma stop_all_runs pid n i w :
  w_msg_alive w = true -> length (users (w_shm w)) = (i + n)%nat ->
  (forall u, u ∈ users (w_shm w) -> 0 < session_pid u \/ active u = false) ->
  (Z.of_nat (length (w_msgs w)) + Z.of_nat n) * MSG_SIZE <= w_qbytes w ->
  exists w', runs pid (stop_all n (Z.of_nat i)) w tt w' /\ w_shm w' = w_shm w /\
    w_msgs w' = w_msgs w ++ stop_messages (drop i (users (w_shm w))).
Proof.
  revert i w; induction n as [|n IH]; intros i w Ha Hlen Hpos Hroom; cbn [stop_all].
  - exists w. split; [apply runs_ret|]. split; [done|]. rewrite drop_ge by lia. unfold stop_messages. cbn. by rewrite app_nil_r.
  - destruct (lookup_lt_is_Some_2 (users (w_shm w)) i) as [u Hu]; [lia|].
    assert (runs pid (load_at users (Z.of_nat i)) w u w) as Hld.
    { apply runs_load_at; [lia|]. by rewrite Nat2Z.id. }
    rewrite (drop_S _ u i) by done. replace (Z.of_nat i + 1) with (Z.of_nat (S i)) by lia.
    unfold stop_messages. destruct (active u) eqn:Hact.
    + rewrite filter_cons_True by done. cbn [map].
      assert (0 < session_pid u) by (destruct (Hpos u) as [?|?]; [by eapply list_elem_of_lookup_2|done|congruence]).
      destruct (IH (S i) (logged (SignalSent 3 (session_pid u))
                  (with_msgs (w_msgs w ++ [mkCommandMessage (session_pid u) 3]) w))) as (w' & Hr & Hs & Hm).
      * done.
      * cbn. lia.
      * done.
      * cbn. rewrite length_app. cbn. lia.
      * exists w'. split; [|split; [done|]].
        -- eapply runs_bind; [exact Hld|]. cbv beta. rewrite Hact.
           eapply runs_bind; [eapply runs_bind; [exact Hld|]; apply sendSignal_runs; [done|done|]|exact Hr].
           unfold msg_room, MSG_SIZE in *. apply Z.leb_le. lia.
        -- rewrite Hm. cbn. by rewrite <- app_assoc.
    + rewrite filter_cons_False by congruence.
      destruct (IH (S i) w Ha ltac:(lia) Hpos ltac:(unfold MSG_SIZE in *; lia)) as (w' & Hr & Hs & Hm).
      exists w'. split; [|split; [done|exact Hm]].
      eapply runs_bind; [exact Hld|]. cbv beta. rewrite Hact. eapply runs_bind; [apply runs_ret|exact Hr].
Qed.

(** C32. The emergency stop is reserved to system administrators: without the
    role the call changes neither the segment nor the queue and the console
    stays open; with it [running] is cleared, the rest of the segment is
    untouched, and every active session is sent [SIGNAL_END_WORK]. *)
Theorem stop_needs_sysadmin pid r act w :
  (UserRole.hasFlag r UserRole.SysAdmin = false ->
     exists w', runs pid (handleStop r act) w act w' /\ w_shm w' = w_shm w /\ w_msgs w' = w_msgs w) /\
  (UserRole.hasFlag r UserRole.SysAdmin = true ->
     w_msg_alive w = true -> length (users (w_shm w)) = Z.to_nat MAX_USERS_SESSIONS ->
     (forall u, u ∈ users (w_shm w) -> 0 < session_pid u \/ active u = false) ->
     (Z.of_nat (length (w_msgs w)) + MAX_USERS_SESSIONS) * MSG_SIZE <= w_qbytes w ->
     exists w', runs pid (handleStop r act) w false w' /\ w_shm w' = set_running false (w_shm w) /\
       w_msgs w' = w_msgs w ++ stop_messages (users (w_shm w))).
Proof.
  unfold handleStop. split; intros ->.
  - eexists. split; [|split].
    + do 2 (eapply runs_bind; [apply runs_log|]). apply runs_ret.
    + done.
    + done.
  - intros Ha Hlen Hpos Hroom.
    destruct (stop_all_runs pid (Z.to_nat MAX_USERS_SESSIONS) 0
                (with_shm (set_running false (w_shm w)) (logged EmergencyStop w))) as (w' & Hr & Hs & Hm);
      [done|done|done|unfold MAX_USERS_SESSIONS in *; cbn in *; lia|].
    exists (logged HaltCommanded w'). split; [|split; [done|exact Hm]].
    eapply runs_bind; [apply runs_log|]. eapply runs_bind; [apply runs_store|].
    eapply runs_bind; [exact Hr|]. eapply runs_bind; [apply runs_log|]. apply runs_ret.
Qed.

(** The operator commands are reserved to operators and administrators:
    without either role [vip] and [depart] only report the refusal; with one,
    [depart] sends [SIGNAL_DEPARTURE] to the truck at the dock. *)
Theorem operator_commands pid r w :
  (not_operator r = true ->
     runs pid (handleVip r) w tt (logged (AccessDenied "Operator") w) /\
     runs pid (handleDepart r) w tt (logged (AccessDenied "Operator") w)) /\
  (not_operator r = false -> is_present (dock_truck (w_shm w)) = false ->
     runs pid (handleDepart r) w tt (logged NoTruckInDock w)) /\
  (not_operator r = false -> is_present (dock_truck (w_shm w)) = true ->
     w_msg_alive w = true -> 0 < truck_id (dock_truck (w_shm w)) -> msg_room w = true ->
     exists w', runs pid (handleDepart r) w tt w' /\ w_shm w' = w_shm w /\
       w_msgs w' = w_msgs w ++ [mkCommandMessage (truck_id (dock_truck (w_shm w))) (signal_to_int SIGNAL_DEPARTURE)]).
Proof.
  unfold handleVip, handleDepart. split; [|split]; intros ->.
  - split; apply runs_log.
  - intros Hp. eapply runs_bind; [apply runs_load|]. cbv beta. rewrite Hp. apply runs_log.
  - intros Hp Ha Hpos Hroom. eexists. split; [|split].
    + eapply runs_bind; [apply runs_load|]. cbv beta. rewrite Hp. eapply runs_bind; [apply runs_load|]. cbv beta.
      eapply runs_bind; [by apply sendSignal_runs|]. apply runs_log.
    + done.
    + done.
Qed.

(** The console and a worker are logged in. *)
Definition two_sessions : list UserSession :=
  fresh_session "AdminConsole" 3 1 1 104 :: fresh_session "Worker_1" 2 0 10 103 :: replicate 208 zero_UserSession.

Definition staffed : world := with_shm (set_users two_sessions init_shm) (initial_world 16384).

Lemma stop_needs_sysadmin_witness :
  exists w', runs 104 (handleStop (UserRole.or UserRole.Operator UserRole.SysAdmin) true) staffed false w' /\
    w_shm w' = set_running false (w_shm staffed) /\ w_msgs w' = [mkCommandMessage 104 3; mkCommandMessage 103 3].
Proof.
  apply (proj2 (stop_needs_sysadmin 104 (UserRole.or UserRole.Operator UserRole.SysAdmin) true staffed));
    [reflexivity|reflexivity|reflexivity| |vm_compute; congruence].
  intros u Hu. cbn -[replicate fresh_session] in Hu. apply elem_of_cons in Hu as [->|[->|Hu]%elem_of_cons]; [by left|by left|].
  right. by apply elem_of_replicate_inv in Hu as ->.
Defined.

Lemma semOperation_contract_witness :
  exists t, estep 7 (AErr EINTR) (semOperation SEM_FULL_SLOTS (-1)) (initial_world 16384) = Some (t, initial_world 16384) /\
    runs 7 t (initial_world 16384) tt (initial_world 16384).
Proof. exact (proj2 (proj1 (proj2 (semOperation_contract 7 SEM_FULL_SLOTS (-1) (initial_world 16384))) eq_refl eq_refl)). Defined.

(** Lowering a string twice is lowering it once. *)
Lemma tolower_idem c : tolower (tolower c) = tolower c.
Proof. destruct c as [[] [] [] [] [] [] [] []]; reflexivity. Qed.

Lemma str_tolower_idem l : str_tolower (str_tolower l) = str_tolower l.
Proof. induction l as [|c l IH]; cbn; [done|]. by rewrite tolower_idem, IH. Qed.

(** Looking up a key finds a pair of the map, and the first one. *)
Lemma map_find_elem {V} key (m : list (string * V)) v : map_find key m = Some v -> (key, v) ∈ m.
Proof.
  induction m as [|[k x] m IH]; cbn; [done|]. destruct (String.eqb_spec key k) as [->|Hne].
  - intros [= ->]. by left.
  - intros H. right. auto.
Qed.

Lemma elem_map_find {V} key (m : list (string * V)) v :
  NoDup (map fst m) -> (key, v) ∈ m -> map_find key m = Some v.
Proof.
  induction m as [|[k x] m IH]; intros Hnd Hin; [by apply not_elem_of_nil in Hin|]. cbn.
  apply list.NoDup_cons in Hnd as [Hk Hnd]. apply elem_of_cons in Hin as [Heq|Hin].
  - injection Heq as -> ->. by rewrite String.eqb_refl.
  - destruct (String.eqb_spec key k) as [->|Hne]; [|by apply IH].
    exfalso. apply Hk. apply list_elem_of_fmap. by exists (k, v).
Qed.

(** Command names: a line is resolved to a command exactly when its
    lower-case form is one of the six names of the table, whatever the case it
    was typed in; everything else is unknown. *)
Lemma resolve_commands line cmd :
  (cmd <> Unknown -> (resolve (str_tolower line) = cmd <-> (str_tolower line, cmd) ∈ commandMap)) /\
  (resolve (str_tolower line) = Unknown <-> str_tolower line ∉ map fst commandMap) /\
  resolve (str_tolower (str_tolower line)) = resolve (str_tolower line).
Proof.
  assert (NoDup (map fst commandMap)) as Hnd by (by apply (bool_decide_unpack _)).
  assert (forall v, (str_tolower line, v) ∈ commandMap -> v <> Unknown) as Hknown.
  { intros v Hv. repeat (apply elem_of_cons in Hv as [[= _ ->]|Hv]; [done|]). by apply not_elem_of_nil in Hv. }
  unfold resolve. split; [|split].
  - intros Hc. split.
    + destruct (map_find (str_tolower line) commandMap) eqn:E; [|by intros <-]. intros <-. by apply map_find_elem.
    + intros Hin. by rewrite (elem_map_find _ _ _ Hnd Hin).
  - split.
    + destruct (map_find (str_tolower line) commandMap) eqn:E.
      * intros ->. apply map_find_elem in E. by apply Hknown in E.
      * intros _ Hin. apply list_elem_of_fmap in Hin as ([k v] & Hk & Hin). cbn in Hk. subst k.
        by rewrite (elem_map_find _ _ _ Hnd Hin) in E.
    + intros Hno. destruct (map_find (str_tolower line) commandMap) eqn:E; [|done]. exfalso. apply Hno.
      apply map_find_elem in E. apply list_elem_of_fmap. by exists (str_tolower line, c).
  - by rewrite str_tolower_idem.
Qed.

(** The log level is the one the table gives for the lower-case name, and
    [info] for every other name; without any environment both sinks are on. *)
Lemma log_level_dispatch level env :
  (forall l, (str_tolower level, l) ∈ levels -> dispatchLogLevel level = l) /\
  (str_tolower level ∉ map fst levels -> dispatchLogLevel level = lvl_info) /\
  ((forall k, env k = None) -> forall opens name g, opens "logs/simulation_report.txt" = true ->
     let lg := default_logger (fst (setupLogger opens env name g)) in
     logger_sinks lg = [stdout_color_sink; basic_file_sink "logs/simulation_report.txt" false] /\ logger_level lg = lvl_info).
Proof.
  assert (NoDup (map fst levels)) as Hnd by (by apply (bool_decide_unpack _)).
  unfold dispatchLogLevel. split; [|split].
  - intros l Hin. by rewrite (elem_map_find _ _ _ Hnd Hin).
  - intros Hno. destruct (map_find (str_tolower level) levels) eqn:E; [|done]. exfalso. apply Hno.
    apply map_find_elem in E. apply list_elem_of_fmap. by exists (str_tolower level, l).
  - intros He opens name g Ho. unfold setupLogger, getEnv. rewrite !He, Ho. by split.
Qed.

(** * Packages *)

(** The audit trail of a package: any number of [pushAction] calls is
    defined, never writes outside the array of six records, and keeps the
    first six actions in order; later ones are dropped. *)
Lemma history_keeps_first_actions calls p :
  history_wf p ->
  exists q, pushActions calls p = Some q /\ history_wf q /\
    history_count q = Z.min MAX_PACKAGE_HISTORY (history_count p + Z.of_nat (length calls)) /\
    take (Z.to_nat (history_count q)) (history q) =
      take (Z.to_nat MAX_PACKAGE_HISTORY) (take (Z.to_nat (history_count p)) (history p) ++ map action_record calls).
Proof. apply pushActions_spec. Qed.

(** Role masks: a combined role has a flag exactly when one of its parts
    has it, and the result stays within the 16 bits of the enum. *)
Lemma role_mask_flags a b f :
  UserRole.hasFlag (UserRole.or a b) f = (UserRole.hasFlag a f || UserRole.hasFlag b f)%bool /\
  0 <= UserRole.or a b < 2 ^ 16 /\
  (UserRole.hasFlag a f = true <-> exists i, 0 <= i < 16 /\ Z.testbit a i = true /\ Z.testbit f i = true).
Proof.
  split; [|split].
  - by apply mask_hasFlag_or.
  - by apply mask_or_range.
  - by apply mask_hasFlag_true.
Qed.

(** The uninterrupted run is one of the interleavings: when the next
    statement of a thread completes in the run of [exec], the system can take
    the corresponding steps of that thread, so every contract above holds of
    the scheduled system too. *)
Lemma exec_is_a_schedule {A} fuel pid (t : prog A) (c : A -> prog unit) s i inputs a w' rest :
  threads s !! i = Some (mkThread pid (bind t c)) ->
  exec fuel pid t (s_world s) inputs = Done a w' rest ->
  steps s (mkSys (<[i := mkThread pid (c a)]> (threads s)) w').
Proof.
  intros Hth Hex. destruct s as [ths w]. cbn in *. eapply tsteps_steps; [exact Hth|]. by eapply exec_tsteps.
Qed.

(** Unlocking a world whose belt mutex is taken. *)
Lemma unlock_world_runs pid w :
  w_sem_alive w = true -> v_belt (w_sem w) = 0 ->
  runs pid unlockBelt w tt (with_sem (sem_set (w_sem w) SEM_MUTEX_BELT 1) w).
Proof.
  intros Ha Hz. eapply runs_eq; [apply semOperation_runs; [done|cbn; rewrite Hz; unfold SEMVMX; lia]|done|].
  cbn. by rewrite Hz.
Qed.

(** Lock and unlock around a change of segment and log. *)
Lemma relock w sh l :
  v_belt (w_sem w) = 1 ->
  with_sem (sem_set (w_sem (with_log l (with_shm sh (with_sem (sem_set (w_sem w) SEM_MUTEX_BELT 0) w)))) SEM_MUTEX_BELT 1)
    (with_log l (with_shm sh (with_sem (sem_set (w_sem w) SEM_MUTEX_BELT 0) w))) = with_log l (with_shm sh w).
Proof. intros Hb. destruct w as [sh0 [vb ve vf vd] al ms qb ma lg]. cbn in *. by subst. Qed.

Ltac in_int_solve := unfold in_int, INT_MIN, INT_MAX, MAX_WORKERS_PER_BELT in *; cbn -[Z.add Z.sub]; lia.

(** The belt admits at most [MAX_WORKERS_PER_BELT] workers: with the mutex
    free, [registerWorker] counts the worker below the limit and refuses at the
    limit without any change; [unregisterWorker] after a registration restores
    the counter. *)
Lemma registration_contract pid w :
  w_sem_alive w = true -> v_belt (w_sem w) = 1 -> 0 <= current_workers_count (w_shm w) <= MAX_WORKERS_PER_BELT ->
  let n := current_workers_count (w_shm w) in
  let joined := logged (WorkerJoined (n + 1)) (with_shm (set_current_workers_count (n + 1) (w_shm w)) w) in
  (n < MAX_WORKERS_PER_BELT ->
     runs pid (registerWorker manager_belt) w true joined /\
     runs pid (unregisterWorker manager_belt) joined tt
       (logged (WorkerLeft n) (logged (WorkerJoined (n + 1)) (with_shm (set_current_workers_count n (w_shm w)) w)))) /\
  (n = MAX_WORKERS_PER_BELT -> runs pid (registerWorker manager_belt) w false w).
Proof.
  intros Ha Hb Hn n joined. split; intros Hlt; [split|].
  - unfold registerWorker. cbn [b_shm manager_belt negb lock_fn unlock_fn].
    eapply runs_bind; [by apply lock_runs|]. run_one. fold n. rewrite (proj2 (Z.ltb_lt n _)) by lia.
    eapply runs_bind.
    + run_one. eapply runs_bind; [apply runs_int_result; in_int_solve|]. run_one. run_one. run_one. apply runs_ret.
    + eapply runs_bind; [apply unlock_world_runs; [done|reflexivity]|]. eapply runs_eq; [apply runs_ret|done|by apply relock].
  - unfold unregisterWorker. cbn [b_shm manager_belt negb lock_fn unlock_fn].
    eapply runs_bind; [by apply lock_runs|]. run_one. rewrite (proj2 (Z.ltb_lt 0 _)) by (cbn; lia).
    eapply runs_bind.
    + run_one. eapply runs_bind; [apply runs_int_result; in_int_solve|]. run_one. run_one. apply runs_log.
    + eapply runs_eq; [apply unlock_world_runs; [done|reflexivity]|done|].
      etrans; [by apply relock|]. cbn -[Z.add Z.sub]. by replace (n + 1 - 1) with n by lia.
  - unfold registerWorker. cbn [b_shm manager_belt negb lock_fn unlock_fn].
    eapply runs_bind; [by apply lock_runs|]. run_one. fold n. rewrite (proj2 (Z.ltb_ge n _)) by lia.
    eapply runs_bind; [apply runs_ret|].
    eapply runs_bind; [apply unlock_world_runs; [done|reflexivity]|]. eapply runs_eq; [apply runs_ret|done|].
    destruct w as [sh [vb ve vf vd] al ms qb ma lg]. cbn in *. by subst.
Qed.
