(* ===== verification/ExpressContract.v ===== *)
(** * What an express delivery does

    [deliverExpressBatch] draws a batch size, then a weight and a type per
    item, so its contract is relative to the draws; [express_load] is the
    reference: items go on board in order until one does not fit. *)

From S2P Require Import Prelude Double Shared Ipc Belt SessionManager Truck Dispatcher Express Manager.

(** A drawn item: its weight, and the roll for its type. *)
Definition draw : Type := double * Z.

Definition valid_draw (d : draw) : bool :=
  ((d_ofZ 1 <=? fst d)%double && (fst d <? d_ofZ 15)%double && (0 <=? snd d) && (snd d <=? 2))%bool.

Definition draw_inputs (ds : list draw) : list answer := mjoin (map (fun d => [AReal (fst d); AInt (snd d)]) ds).

(** One item on board, if it fits both limits; [current_load] is not touched. *)
Definition express_item (d : draw) (t : TruckState) : option TruckState :=
  let vol := (express_kind (snd d)).1 in
  if ((current_weight t + fst d <=? max_weight t)%double && (current_volume t + vol <=? max_volume t)%double)%bool then
    Some (set_current_volume (current_volume t + vol)%double (set_current_weight (current_weight t + fst d)%double t))
  else None.

(** The truck afterwards, how many items went on board, and whether one was
    refused. *)
Fixpoint express_load (ds : list draw) (t : TruckState) : TruckState * nat * bool :=
  match ds with
  | [] => (t, 0%nat, false)
  | d :: rest =>
      match express_item d t with
      | Some t' => let '(u, n, b) := express_load rest t' in (u, S n, b)
      | None => (t, 0%nat, true)
      end
  end.

(** The draws used: those of the loaded items, and that of the refused one. *)
Definition used_draws (r : TruckState * nat * bool) : nat := let '(_, n, b) := r in (n + if b then 1 else 0)%nat.

(** * Lemmas *)

(** The reference loads the longest prefix that fits. *)
Lemma express_load_bound ds t : (used_draws (express_load ds t) <= length ds)%nat.
Proof.
  revert t; induction ds as [|d ds IH]; intros t; cbn; [done|].
  destruct (express_item d t) as [t'|]; [|cbn; lia]. specialize (IH t').
  destruct (express_load ds t') as [[u n] b]. cbn in *. lia.
Qed.

Lemma express_item_frame d t t' :
  express_item d t = Some t' ->
  truck_id t' = truck_id t /\ is_present t' = is_present t /\ current_load t' = current_load t /\
  max_weight t' = max_weight t /\ max_volume t' = max_volume t.
Proof. unfold express_item. case_match; [|done]. intros. by simplify_eq. Qed.

Lemma express_load_frame ds t :
  current_load (express_load ds t).1.1 = current_load t /\ truck_id (express_load ds t).1.1 = truck_id t.
Proof.
  revert t; induction ds as [|d ds IH]; intros t; cbn; [done|]. destruct (express_item d t) as [t'|] eqn:Hi; [|done].
  destruct (express_item_frame _ _ _ Hi) as (H1 & _ & H2 & _). specialize (IH t').
  destruct (express_load ds t') as [[u n] b]. cbn in *. rewrite <- H1, <- H2. done.
Qed.

(** What the loop changes: the truck, the queue and the log. *)
Record express_effect (ds : list draw) (w w' : world) : Prop := {
  ee_shm : w_shm w' = set_dock_truck (express_load ds (dock_truck (w_shm w))).1.1 (w_shm w);
  ee_msgs : w_msgs w' = w_msgs w ++
    (if (express_load ds (dock_truck (w_shm w))).2
     then [mkCommandMessage (truck_id (dock_truck (w_shm w))) (signal_to_int SIGNAL_DEPARTURE)] else []);
  ee_sem : w_sem w' = w_sem w;
  ee_alive : w_sem_alive w' = w_sem_alive w }.

Lemma set_dock_same s : set_dock_truck (dock_truck s) s = s.
Proof. by destruct s. Qed.

Lemma set_dock_twice t u s : set_dock_truck t (set_dock_truck u s) = set_dock_truck t s.
Proof. done. Qed.

(** One more item in front. *)
Lemma express_effect_cons d ds t' w w1 w' :
  express_item d (dock_truck (w_shm w)) = Some t' ->
  w_shm w1 = set_dock_truck t' (w_shm w) -> w_msgs w1 = w_msgs w -> w_sem w1 = w_sem w -> w_sem_alive w1 = w_sem_alive w ->
  express_effect ds w1 w' -> express_effect (d :: ds) w w'.
Proof.
  intros Hi Hs Hm Hv Ha [H1 H2 H3 H4]. rewrite Hs in H1, H2. rewrite Hm in H2.
  destruct (express_item_frame _ _ _ Hi) as (Hid & _). cbn [dock_truck set_dock_truck] in H1, H2. rewrite Hid in H2.
  split; cbn [express_load]; rewrite ?Hi; try congruence.
  - destruct (express_load ds t') as [[u n] b]. exact H1.
  - destruct (express_load ds t') as [[u n] b]. exact H2.
Qed.

Lemma express_items_exec fuel pid ds i batch rest w :
  Forall (fun d => valid_draw d = true) ds ->
  w_msg_alive w = true -> msg_room w = true -> 0 < truck_id (dock_truck (w_shm w)) ->
  exists w', exec fuel pid (express_items manager_express (length ds) i batch) w (draw_inputs ds ++ rest) =
               Done tt w' (draw_inputs (drop (used_draws (express_load ds (dock_truck (w_shm w)))) ds) ++ rest) /\
             express_effect ds w w'.
Proof.
  revert i w; induction ds as [|d ds IH]; intros i w Hall Ha Hroom Hid; cbn [length express_items].
  - exists w. split; [done|]. split; cbn; rewrite ?set_dock_same, ?app_nil_r; done.
  - apply list.Forall_cons in Hall as [Hd Hall]. unfold valid_draw in Hd.
    apply andb_true_iff in Hd as [Hd H4]. apply andb_true_iff in Hd as [Hd H3]. apply andb_true_iff in Hd as [H1 H2].
    unfold load_dock, store_dock, load, store, log. cbn [bind exec draw_inputs mjoin map app list_join fst snd].
    rewrite H1, H2, H3, H4. cbn [andb]. cbv beta zeta.
    destruct (((current_weight (dock_truck (w_shm w)) + fst d <=? max_weight (dock_truck (w_shm w)))%double &&
      (current_volume (dock_truck (w_shm w)) + (express_kind (snd d)).1 <=? max_volume (dock_truck (w_shm w)))%double)%bool) eqn:Hfit.
    + assert (exists t', express_item d (dock_truck (w_shm w)) = Some t') as [t' Hi] by (unfold express_item; rewrite Hfit; eauto).
      pose proof Hi as Hi'. unfold express_item in Hi'. rewrite Hfit in Hi'. injection Hi' as Ht'.
      cbn [bind exec].
      match goal with |- context [exec fuel pid (express_items _ _ _ _) ?x _] => set (w1 := x) end.
      assert (w_shm w1 = set_dock_truck t' (w_shm w)) as Hs by (by rewrite <- Ht').
      destruct (express_item_frame _ _ _ Hi) as (Hid' & _).
      destruct (IH (i + 1) w1 Hall Ha Hroom) as (w' & Hex & Hef); [rewrite Hs; cbn; by rewrite Hid'|].
      exists w'. split; [|by eapply (express_effect_cons d ds t' w w1)].
      etrans; [exact Hex|]. rewrite Hs. cbn [dock_truck set_dock_truck express_load]. rewrite Hi.
      by destruct (express_load ds t') as [[u n] b].
    + assert (express_item d (dock_truck (w_shm w)) = None) as Hi by (unfold express_item; by rewrite Hfit).
      cbn [bind exec]. cbn [e_send_signal_fn manager_express].
      rewrite (sendSignal_runs pid (truck_id (dock_truck (w_shm w))) SIGNAL_DEPARTURE); [|done|done|done].
      eexists. split; [cbn [express_load]; rewrite Hi; reflexivity|].
      split; cbn; rewrite ?Hi; cbn; rewrite ?set_dock_same; done.
Qed.

(** Lock and unlock of the dock, with changes to the segment, the queue and the
    log in between. *)
Lemma lockDock_runs pid w :
  w_sem_alive w = true -> v_dock (w_sem w) = 1 ->
  runs pid lockDock w tt (with_sem (sem_set (w_sem w) SEM_DOCK_MUTEX 0) w).
Proof.
  intros Ha Hf. eapply runs_eq; [apply semOperation_runs; [done|cbn; rewrite Hf; unfold SEMVMX; lia]|done|].
  cbn. by rewrite Hf.
Qed.

Lemma unlockDock_runs pid w :
  w_sem_alive w = true -> v_dock (w_sem w) = 0 ->
  runs pid unlockDock w tt (with_sem (sem_set (w_sem w) SEM_DOCK_MUTEX 1) w).
Proof.
  intros Ha Hf. eapply runs_eq; [apply semOperation_runs; [done|cbn; rewrite Hf; unfold SEMVMX; lia]|done|].
  cbn. by rewrite Hf.
Qed.

Lemma relock_dock v : v_dock v = 1 -> sem_set (sem_set v SEM_DOCK_MUTEX 0) SEM_DOCK_MUTEX 1 = v.
Proof. destruct v. cbn. by intros ->. Qed.

(** * The contract *)


(** A truck with room for two of three items. *)
Definition light_truck : TruckState := mkTruckState true 101 4 100 d_zero d_zero (d_ofZ 20) (d_ofZ 1).

