(* ===== verification/Console.v ===== *)
(** * What a line typed at the console can do

    One iteration of the console ([runOnce]) for any line, any role and any
    state of the segment: which lines change the segment, send messages or end
    the console. *)

From S2P Require Import Prelude Double Shared Ipc Belt SessionManager Manager Terminal Contracts.

(** ** Programs that only look

    [looks sends t]: [t] reads the segment and writes to the log, takes no
    input, and sends messages only if [sends]. *)

Fixpoint looks (sends : bool) {A} (t : prog A) : Prop :=
  match t with
  | Ret _ | Exit _ | Undef _ => True
  | Load f k => forall s, looks sends (k (f s))
  | Msgsnd _ k => sends = true /\ forall r, looks sends (k r)
  | Getpid k => forall z, looks sends (k z)
  | Sleep _ k | Log _ k => looks sends k
  | _ => False
  end.

Lemma looks_bind sends {A B} (t : prog A) (c : A -> prog B) :
  looks sends t -> (forall a, looks sends (c a)) -> looks sends (bind t c).
Proof. revert B c; induction t; intros B' c Ht Hc; cbn in *; naive_solver. Qed.

(** Such a program changes nothing but the log and perhaps the queue. *)
Lemma looks_exec sends {A} fuel pid (t : prog A) w inputs a w' rest :
  looks sends t -> exec fuel pid t w inputs = Done a w' rest ->
  w_shm w' = w_shm w /\ w_sem w' = w_sem w /\ rest = inputs /\ (sends = false -> w_msgs w' = w_msgs w).
Proof.
  revert w; induction t; intros w Ht He; cbn in Ht, He; try done; try (by simplify_eq);
    try (by eapply H; [|exact He]; auto); try (by eapply IHt in He; [|done]).
  destruct Ht as [-> Ht]. destruct (w_msg_alive w); [|done]. destruct (mtype m <? 1); [by eapply H in He; [|auto]|].
  destruct (msg_room w); [|done]. apply H in He as (? & ? & ? & _); [|auto]. done.
Qed.

Lemma exec_bind_done {A B} fuel pid (t : prog A) (c : A -> prog B) w inputs b w2 rest :
  exec fuel pid (bind t c) w inputs = Done b w2 rest ->
  exists a w1 mid, exec fuel pid t w inputs = Done a w1 mid /\ exec fuel pid (c a) w1 mid = Done b w2 rest.
Proof. rewrite exec_bind. destruct (exec fuel pid t w inputs); cbn; try done. eauto. Qed.

Create HintDb looks discriminated.

(** Follow the control flow. *)
Ltac looks :=
  repeat first
    [ progress intros
    | solve [auto with looks]
    | match goal with
      | |- looks _ (bind _ _) => apply looks_bind
      | |- looks _ (Ret _) => exact I
      | |- looks _ skip => exact I
      | |- looks _ (load _) => exact (fun _ => I)
      | |- looks _ (log _) => exact I
      | |- looks _ (match ?x with _ => _ end) => destruct x
      end ].

Lemma looks_load_at sends {T} (arr : SharedState -> list T) i : looks sends (load_at arr i).
Proof. intros s. cbn. by destruct (if 0 <=? i then arr s !! Z.to_nat i else None). Qed.

Lemma looks_sendSignal target ty : looks true (sendSignal target ty).
Proof. split; [done|]. intros [e|]; done. Qed.

#[export] Hint Resolve looks_load_at looks_sendSignal : looks.

Lemma looks_printHeader sm : looks false (printHeader sm).
Proof. unfold printHeader. looks. Qed.

Lemma looks_printPrompt sm : looks false (printPrompt sm).
Proof. unfold printPrompt. looks. Qed.

Lemma looks_getCurrentRole sm : looks false (getCurrentRole sm).
Proof. unfold getCurrentRole. looks. Qed.

Lemma looks_findProcessByRole n i name : looks true (findProcessByRole n i name).
Proof. revert i; induction n as [|n IH]; intros i; cbn [findProcessByRole]; looks. Qed.

Lemma looks_stop_all n i : looks true (stop_all n i).
Proof. revert i; induction n as [|n IH]; intros i; cbn [stop_all]; looks. Qed.

#[export] Hint Resolve looks_printHeader looks_printPrompt looks_getCurrentRole looks_findProcessByRole looks_stop_all : looks.

Lemma looks_handleVip r : looks (negb (not_operator r)) (handleVip r).
Proof. unfold handleVip. destruct (not_operator r); cbn [negb]; [exact I|]. looks. Qed.

Lemma looks_handleDepart r : looks (negb (not_operator r)) (handleDepart r).
Proof. unfold handleDepart. destruct (not_operator r); cbn [negb]; [exact I|]. looks. Qed.

(** ** The commands *)

(** The role of the session the console works in. *)
Definition role_in (sm : SessionManager) (s : SharedState) : UserRole.t :=
  let i := current_session sm in
  if (i =? -1) || negb (sm_shm sm) then UserRole.None
  else match (if 0 <=? i then users s !! Z.to_nat i else None) with Some u => role u | None => UserRole.None end.

Lemma getCurrentRole_exec fuel pid sm w inputs r w' rest :
  exec fuel pid (getCurrentRole sm) w inputs = Done r w' rest -> r = role_in sm (w_shm w).
Proof.
  unfold getCurrentRole, role_in. destruct ((current_session sm =? -1) || negb (sm_shm sm)); [by intros; simplify_eq/=|].
  cbn. by destruct (if 0 <=? current_session sm then users (w_shm w) !! Z.to_nat (current_session sm) else None); intros; simplify_eq/=.
Qed.

(** A command that stops the system, and one that sends a signal. *)
Definition stops (r : UserRole.t) (cmd : CliCommand) : bool :=
  match cmd with Stop => UserRole.hasFlag r UserRole.SysAdmin | _ => false end.

Definition signals (r : UserRole.t) (cmd : CliCommand) : bool :=
  match cmd with Vip | Depart => negb (not_operator r) | Stop => UserRole.hasFlag r UserRole.SysAdmin | _ => false end.

Definition exits (cmd : CliCommand) : bool := match cmd with ExitCmd => true | _ => false end.

(** What a command may have done. *)
Definition allowed (stop send : bool) (w w' : world) : Prop :=
  w_sem w' = w_sem w /\ w_shm w' = (if stop then set_running false (w_shm w) else w_shm w) /\
  (send = false -> w_msgs w' = w_msgs w).

Lemma looks_allowed sends {A} fuel pid (t : prog A) w inputs a w' rest :
  looks sends t -> exec fuel pid t w inputs = Done a w' rest -> allowed false sends w w' /\ rest = inputs.
Proof. intros Hl He. destruct (looks_exec _ _ _ _ _ _ _ _ _ Hl He) as (H1 & H2 & H3 & H4). by repeat split. Qed.

Lemma allowed_trans stop send w1 w2 w3 : allowed false false w1 w2 -> allowed stop send w2 w3 -> allowed stop send w1 w3.
Proof.
  intros (H1 & H2 & H3) (H4 & H5 & H6). split; [congruence|]. split; [by rewrite H5, H2|].
  intros Hs. rewrite H6, H3; done.
Qed.

Lemma allowed_then stop send w1 w2 w3 : allowed stop send w1 w2 -> allowed false false w2 w3 -> allowed stop send w1 w3.
Proof.
  intros (H1 & H2 & H3) (H4 & H5 & H6). split; [congruence|]. split; [by rewrite H5, H2|].
  intros Hs. rewrite H6, H3; done.
Qed.

Lemma handleStop_exec fuel pid r w inputs act w' rest :
  exec fuel pid (handleStop r true) w inputs = Done act w' rest ->
  allowed (UserRole.hasFlag r UserRole.SysAdmin) (UserRole.hasFlag r UserRole.SysAdmin) w w' /\ rest = inputs /\
  act = negb (UserRole.hasFlag r UserRole.SysAdmin).
Proof.
  unfold handleStop. destruct (UserRole.hasFlag r UserRole.SysAdmin); [|by intros; simplify_eq/=]. intros He.
  cbn [bind log store skip] in He. cbn [exec] in He.
  apply exec_bind_done in He as (a1 & w1 & mid & He1 & He2). apply (looks_exec true) in He1 as (H1 & H2 & -> & _); [|apply looks_stop_all].
  cbn in He2. simplify_eq. cbn in *. by repeat split.
Qed.

Lemma run_command_exec fuel pid sm cmd r w inputs act w' rest :
  exec fuel pid (run_command sm cmd r true) w inputs = Done act w' rest ->
  allowed (stops r cmd) (signals r cmd) w w' /\ rest = inputs /\ act = negb (exits cmd || stops r cmd).
Proof.
  intros He. destruct cmd; cbn [run_command stops signals exits orb negb] in *.
  - by cbn in He; simplify_eq.
  - apply exec_bind_done in He as (a1 & w1 & mid & He1 & He2). cbn in He2. simplify_eq.
    split; [|split; [|done]]; apply (looks_allowed _ _ _ _ _ _ _ _ _ (looks_handleVip r) He1).
  - apply exec_bind_done in He as (a1 & w1 & mid & He1 & He2). cbn in He2. simplify_eq.
    split; [|split; [|done]]; apply (looks_allowed _ _ _ _ _ _ _ _ _ (looks_handleDepart r) He1).
  - by apply handleStop_exec in He.
  - apply exec_bind_done in He as (a1 & w1 & mid & He1 & He2). cbn in He2. simplify_eq.
    split; [|split; [|done]]; apply (looks_allowed _ _ _ _ _ _ _ _ _ (looks_printHeader sm) He1).
  - by cbn in He; simplify_eq.
Qed.

(** The words that end the console at once are commands of the table as well. *)
Lemma exit_words l : String.eqb l "exit" || String.eqb l "quit" = true -> resolve (str_tolower l) = ExitCmd.
Proof. intros [H%String.eqb_eq|H%String.eqb_eq]%orb_true_iff; subst l; reflexivity. Qed.

(** What is printed before the input is looked at. *)
Lemma greeting_exec fuel pid sm tm w inputs u w' rest :
  exec fuel pid (if negb (header_printed tm) then printHeader sm ;; printPrompt sm else skip) w inputs = Done u w' rest ->
  allowed false false w w' /\ rest = inputs.
Proof.
  apply (looks_allowed false). destruct (negb (header_printed tm)); [|exact I]. apply looks_bind; auto with looks.
Qed.

(** C34. What a line typed at the console can do, whatever the line, the role of
    the session and the state of the system: the segment changes only if the
    line is the stop command in any case of letters and the role has SysAdmin,
    and then only [running], which becomes false; messages are sent only by vip
    and depart with the role of an operator or administrator and by that stop;
    the console ends exactly on exit, quit and that stop; the semaphores are
    never touched. *)
Theorem console_authority pid fuel sm tm l inputs w tm' w' rest :
  tm_active tm = true -> keep_running tm = true ->
  exec fuel pid (runOnce sm tm) w (ABool true :: ALine (Some l) :: inputs) = Done tm' w' rest ->
  let cmd := resolve (str_tolower l) in
  let r := role_in sm (w_shm w) in
  w_sem w' = w_sem w /\
  w_shm w' = (if stops r cmd then set_running false (w_shm w) else w_shm w) /\
  (signals r cmd = false -> w_msgs w' = w_msgs w) /\
  keep_running tm' = negb (exits cmd || stops r cmd).
Proof.
  intros Hact Hkr He cmd r. unfold runOnce in He.
  apply exec_bind_done in He as (a1 & w1 & mid & He1 & He). apply greeting_exec in He1 as [Hg ->].
  cbn [bind exec skip negb] in He. destruct (String.eqb l "exit" || String.eqb l "quit") eqn:Hex.
  - unfold cmd. rewrite (exit_words l Hex). cbn in He. simplify_eq. destruct Hg as (H1 & H2 & H3).
    split; [done|]. split; [done|]. split; [by auto|done].
  - destruct (String.eqb l "") eqn:Hemp.
    + apply String.eqb_eq in Hemp. subst l. apply exec_bind_done in He as (a2 & w2 & mid2 & He2 & He). cbn in He. simplify_eq.
      destruct (looks_allowed _ _ _ _ _ _ _ _ _ (looks_printPrompt sm) He2) as [Hp _].
      destruct (allowed_trans _ _ _ _ _ Hg Hp) as (H1 & H2 & H3). split; [done|]. split; [done|]. split; [by auto|done].
    + apply exec_bind_done in He as (r' & w2 & mid2 & He2 & He). pose proof (getCurrentRole_exec _ _ _ _ _ _ _ _ He2) as Hr.
      destruct (looks_allowed _ _ _ _ _ _ _ _ _ (looks_getCurrentRole sm) He2) as [Hp ->].
      pose proof (allowed_trans _ _ _ _ _ Hg Hp) as Hpre. rewrite (proj1 (proj2 Hg)) in Hr. fold r in Hr. subst r'.
      rewrite Hact in He. apply exec_bind_done in He as (act & w3 & mid3 & He3 & He). fold cmd in He3.
      apply run_command_exec in He3 as (Hc & -> & ->). pose proof (allowed_trans _ _ _ _ _ Hpre Hc) as Hdone.
      destruct (exits cmd || stops r cmd); cbn [negb] in He |- *.
      * cbn in He. simplify_eq. by destruct Hdone as (H1 & H2 & H3).
      * unfold keep_running_load in He. rewrite Hkr in He. cbn [bind exec] in He. destruct inputs as [|[] inputs]; try done.
        apply exec_bind_done in He as (a4 & w4 & mid4 & He4 & He). cbn in He. simplify_eq.
        assert (allowed false false w3 w') as Hlast.
        { eapply (looks_allowed false); [|exact He4]. destruct (true && negb b); [apply looks_printPrompt|exact I]. }
        by destruct (allowed_then _ _ _ _ _ Hdone Hlast) as (H1 & H2 & H3).
Qed.

(** The administrator types STOP. *)
Definition admin_world : world :=
  with_users (<[0%nat := fresh_session "AdminConsole" (UserRole.or UserRole.Operator UserRole.SysAdmin) 1 1 104]> (users init_shm))
    (initial_world 16384).

Lemma console_authority_witness :
  match exec 0 104 (runOnce (set_current_session 0 manager_sessions) new_TerminalManager) admin_world [ABool true; ALine (Some "STOP")] with
  | Done tm' w' rest => w_shm w' = set_running false (w_shm admin_world) /\ keep_running tm' = false
  | _ => False
  end.
Proof.
  pose proof (console_authority 104 0 (set_current_session 0 manager_sessions) new_TerminalManager "STOP" [] admin_world) as H.
  destruct (exec 0 104 (runOnce (set_current_session 0 manager_sessions) new_TerminalManager) admin_world
              [ABool true; ALine (Some "STOP")]) as [tm' w' rest| | | | |] eqn:E;
    [|vm_compute in E; discriminate E..].
  destruct (H tm' w' rest eq_refl eq_refl eq_refl) as (_ & H2 & _ & H4). split; [exact H2|exact H4].
Defined.
