(* ===== verification/Delivery.v ===== *)
(** * The way of a package

    How the components work together: the order in which packages reach the
    trucks, and the way of one package from the worker's [push] over the belt
    and the dispatcher to the truck that takes it away. *)

From S2P Require Import Prelude Double Shared Ipc Belt SessionManager Truck Dispatcher Express Manager Worker.
From S2P Require Import Terminal Args Master Processes Logic Rules Invariants BeltProof DockProof ProcessProof Safety Contracts.

(** ** Order *)

Lemma calm_step_log s s' :
  calm_step s s' -> w_log (s_world s') = w_log (s_world s) \/ exists m, w_log (s_world s') = w_log (s_world s) ++ [m].
Proof.
  intros [i a th s1 s2 Hi _ Hst]. unfold sys_step in Hst. rewrite Hi in Hst.
  destruct (estep (th_pid th) a (th_prog th) (s_world s1)) as [[t' w']|] eqn:E; [|done]. simplify_eq. by eapply estep_log.
Qed.

Section Order.
Context (qbytes : Z) (ps : list (Z * process)).

(** Of the packages taken from the belt, at most one per dispatcher is not loaded. *)
Lemma loaded_popped s :
  reachable qbytes ps s ->
  exists q, popped_ids (w_log (s_world s)) = seqZ 1 q /\ 0 <= q <= Z.of_nat (length (loaded_ids (w_log (s_world s)))) + sumZ b2z (carriers ps) /\
    NoDup (loaded_ids (w_log (s_world s))) /\ forall i, i ∈ loaded_ids (w_log (s_world s)) -> 1 <= i <= q.
Proof.
  intros Hr. destruct (reachable_inv _ _ _ Hr) as (os & n & oc & Hinv). pose proof (i_pend Hinv) as Hp.
  destruct (queue_trace _ _ _ Hr) as (p & q & Hq). destruct (queue_run_ids _ _ _ Hq) as (_ & Hpop & Hle & _).
  pose proof (length_pending os (i_hand Hinv)) as Hh. rewrite (i_carriers Hinv) in Hh. rewrite Hpop in Hp. exists q.
  split; [done|]. split.
  - pose proof (Permutation_length Hp) as Hlen. rewrite length_app, length_seqZ in Hlen. lia.
  - split.
    + pose proof (NoDup_seqZ 1 q) as Hnd. rewrite Hp in Hnd. by apply list.NoDup_app in Hnd as [? _].
    + intros i Hi. assert (i ∈ seqZ 1 q) as Hi' by (rewrite Hp; apply elem_of_app; by left). apply elem_of_seqZ in Hi'. lia.
Qed.

(** Nobody is overtaken by more packages than other dispatchers hold. *)
Lemma loaded_in_time s :
  reachable qbytes ps s ->
  forall k i, loaded_ids (w_log (s_world s)) !! k = Some i -> i <= Z.of_nat k + sumZ b2z (carriers ps).
Proof.
  intros [Hnd Hst]. revert s Hst.
  apply (rtc_ind_r (fun s => forall k i, loaded_ids (w_log (s_world s)) !! k = Some i -> i <= Z.of_nat k + sumZ b2z (carriers ps)));
    [done|].
  intros s1 s2 Hpre Hs IH k i Hk. assert (reachable qbytes ps s1) as Hr1 by done.
  assert (reachable qbytes ps s2) as Hr2 by (split; [done|by eapply rtc_r]).
  destruct (calm_step_log _ _ Hs) as [Hl|[m Hl]]; rewrite Hl in Hk; [by eapply IH|].
  unfold loaded_ids in Hk. rewrite omap_app in Hk. apply lookup_app_Some in Hk as [Hk|[Hge Hk]]; [by eapply IH|].
  destruct m; cbn in Hk; try done. apply list_lookup_singleton_Some in Hk as [Hk ->].
  destruct (loaded_popped s1 Hr1) as (q & Hq & Hle & _). destruct (loaded_popped s2 Hr2) as (q2 & Hq2 & _ & _ & Hin).
  assert (q2 = q \/ q2 <= 0 /\ q <= 0) as Hqq.
  { rewrite Hl in Hq2. unfold popped_ids in Hq, Hq2. rewrite omap_app in Hq2. cbn in Hq2. rewrite app_nil_r, Hq in Hq2.
    apply (f_equal length) in Hq2. rewrite !length_seqZ in Hq2. lia. }
  assert (i <= q2) as Hi.
  { apply Hin. rewrite Hl. unfold loaded_ids. rewrite omap_app. apply elem_of_app. right. cbn. by apply list_elem_of_singleton. }
  unfold loaded_ids in Hle. lia.
Qed.

End Order.

(** Distinct positive numbers, none of them later than its place, are 1, 2, ... *)
Lemma in_place l :
  NoDup l -> (forall i, i ∈ l -> 1 <= i) -> (forall k i, l !! k = Some i -> i <= Z.of_nat k + 1) -> l = seqZ 1 (Z.of_nat (length l)).
Proof.
  induction l as [|x l IH] using rev_ind; intros Hnd Hpos Hle; [done|].
  apply list.NoDup_app in Hnd as (Hnd & Hx & _).
  assert (l = seqZ 1 (Z.of_nat (length l))) as Hl.
  { apply IH; [done|..].
    - intros i Hi. apply Hpos, elem_of_app. by left.
    - intros k i Hk. apply Hle. by apply lookup_app_l_Some. }
  assert (x <= Z.of_nat (length l) + 1) by (apply Hle; by apply list_lookup_middle).
  assert (1 <= x) by (apply Hpos, elem_of_app; right; by apply list_elem_of_singleton).
  assert (~ x <= Z.of_nat (length l)).
  { intros Hxl. apply (Hx x); [|by apply list_elem_of_singleton]. rewrite Hl. apply elem_of_seqZ. lia. }
  rewrite length_app. cbn [length]. rewrite Nat2Z.inj_add, seqZ_snoc by lia. rewrite <- Hl. f_equal. f_equal. lia.
Qed.

(** C35. Packages reach the trucks in the order of the belt, as long as no
    [semop] is interrupted: in every reachable state the k-th package loaded carries a number of at most k plus the number
    of dispatchers less one, so none overtakes more packages than other
    dispatchers hold; with a single dispatcher the packages loaded so far are 1,
    2, ..., n in exactly this order, the order in which they were pushed. *)
Theorem loading_order qbytes ps s :
  reachable qbytes ps s ->
  (forall k i, loaded_ids (w_log (s_world s)) !! k = Some i -> 1 <= i <= Z.of_nat k + sumZ b2z (carriers ps)) /\
  (sumZ b2z (carriers ps) <= 1 ->
   exists n, loaded_ids (w_log (s_world s)) = seqZ 1 n /\
     loaded_ids (w_log (s_world s)) `prefix_of` pushed_ids (w_log (s_world s))).
Proof.
  intros Hr. pose proof (loaded_in_time _ _ _ Hr) as Hin. destruct (loaded_popped _ _ _ Hr) as (q & Hq & Hle & Hnd & Hpos).
  split; [intros k i Hk; split; [|by apply Hin]; apply Hpos; by eapply list_elem_of_lookup_2|].
  intros Hone. destruct (queue_trace _ _ _ Hr) as (p & q' & Hrun). destruct (queue_run_ids _ _ _ Hrun) as (Hpush & Hpop & Hqp & _).
  assert (loaded_ids (w_log (s_world s)) = seqZ 1 (Z.of_nat (length (loaded_ids (w_log (s_world s)))))) as Hl.
  { apply in_place; [done|intros i Hi; by apply Hpos|]. intros k i Hk. specialize (Hin k i Hk). lia. }
  eexists. split; [exact Hl|]. rewrite Hl, Hpush. remember (length (loaded_ids (w_log (s_world s)))) as n eqn:En.
  assert (Z.of_nat n <= q') as Hnq.
  { destruct n as [|n]; [lia|]. assert (Z.of_nat (S n) ∈ popped_ids (w_log (s_world s))) as H; [|rewrite Hpop in H; apply elem_of_seqZ in H; lia].
    rewrite Hq. apply elem_of_seqZ. assert (1 <= Z.of_nat (S n) <= q); [|lia]. apply Hpos. rewrite Hl. apply elem_of_seqZ. lia. }
  exists (seqZ (1 + Z.of_nat n) (p - Z.of_nat n)). replace p with (Z.of_nat n + (p - Z.of_nat n)) at 1 by lia. apply seqZ_app; lia.
Qed.

Lemma loading_order_witness :
  loaded_ids (w_log (s_world (demo demo_run))) = [1; 2; 3; 4] /\
  exists n, loaded_ids (w_log (s_world (demo demo_run))) = seqZ 1 n /\
    loaded_ids (w_log (s_world (demo demo_run))) `prefix_of` pushed_ids (w_log (s_world (demo demo_run))).
Proof.
  split; [vm_compute; reflexivity|].
  apply (proj2 (loading_order 16384 demo_ps (demo demo_run) (demo_reachable demo_run))). vm_compute. discriminate.
Defined.

(** ** One package through the dispatcher *)

(** A world in which nobody is inside a critical section. *)
Record at_rest (w : world) : Prop := {
  r_sem : w_sem_alive w = true;
  r_msg : w_msg_alive w = true;
  r_belt : v_belt (w_sem w) = 1;
  r_dock : v_dock (w_sem w) = 1;
  r_wf : belt_wf (w_shm w);
  r_full : v_full (w_sem w) = current_items_count (w_shm w);
  r_empty : v_empty (w_sem w) = MAX_BELT_CAPACITY_K - current_items_count (w_shm w) }.

(** The next package of the belt has been taken. *)
Definition taken (w : world) : world :=
  with_sem (mkSemset 1 (v_empty (w_sem w) + 1) (v_full (w_sem w) - 1) (v_dock (w_sem w))) (popped w).

Lemma taken_at_rest w : at_rest w -> 0 < current_items_count (w_shm w) -> at_rest (taken w).
Proof. intros [] Hc. split; try done; cbn; [by apply pop_wf|lia|lia]. Qed.

Lemma belt_wf_dock t s : belt_wf s -> belt_wf (set_dock_truck t s).
Proof. intros []. by split. Qed.

Lemma loaded_at_rest pkg w : at_rest w -> at_rest (after_load pkg w).
Proof. intros []. unfold after_load. case_match; (split; [done..|by apply belt_wf_dock|done|done]). Qed.

(** A truck is there to be loaded. *)
Record truck_waits (w : world) : Prop := {
  tw_present : is_present (dock_truck (w_shm w)) = true;
  tw_id : 0 < truck_id (dock_truck (w_shm w));
  tw_load : in_int (current_load (dock_truck (w_shm w)) + 1) = true;
  tw_room : msg_room w = true }.

Section Dispatch.
Context (pid : Z) (pkg : Package) (w : world) (Hrest : at_rest w).

(** The dock, locked and unlocked. *)
Let wl : world := with_sem (sem_set (w_sem w) SEM_DOCK_MUTEX 0) w.

Lemma dock_lock_runs : runs pid lockDock w tt wl.
Proof.
  pose proof (r_dock _ Hrest) as Hd. eapply runs_eq; [apply semOperation_runs; [apply Hrest|cbn; rewrite Hd; unfold SEMVMX; lia]|done|].
  unfold wl. cbn. by rewrite Hd.
Qed.

Lemma dock_unlock_runs v : w_sem v = w_sem wl -> w_sem_alive v = true -> runs pid unlockDock v tt (with_sem (w_sem w) v).
Proof.
  intros Hs Ha. eapply runs_eq; [apply semOperation_runs; [done|rewrite Hs; cbn; unfold SEMVMX; lia]|done|].
  rewrite Hs. pose proof (r_dock _ Hrest) as Hd. unfold wl. destruct (w_sem w). cbn in *. by subst.
Qed.

Lemma restore : with_sem (w_sem w) wl = w.
Proof. unfold wl. by destruct w. Qed.

Lemma load_round_loads :
  running (w_shm w) = true -> truck_waits w -> fits pkg (dock_truck (w_shm w)) = true ->
  runs pid (load_round manager_dispatcher pkg) w (inr tt) (after_load pkg w).
Proof.
  intros Hr [Hp Hid Hl Hroom] Hf. unfold load_round.
  eapply runs_bind; [apply runs_load|]. cbv beta. rewrite Hr. cbn [negb d_lock_dock_fn d_unlock_dock_fn manager_dispatcher].
  eapply runs_bind; [apply dock_lock_runs|]. eapply runs_bind; [apply runs_load|]. cbv beta.
  replace (is_present (dock_truck (w_shm wl))) with true by (by rewrite <- Hp).
  eapply runs_bind; [apply (try_load_fits_runs pid pkg wl); [apply (r_msg _ Hrest)|done|done|done|done]|].
  assert (with_sem (w_sem w) (after_load pkg wl) = after_load pkg w) as Hback.
  { unfold after_load, wl. destruct w. cbn. by case_match. }
  eapply runs_bind; [apply dock_unlock_runs|].
  - unfold after_load. by case_match.
  - unfold after_load. case_match; apply (r_sem _ Hrest).
  - rewrite Hback. apply runs_ret.
Qed.

(** Without a truck the round changes nothing and asks for another one. *)
Lemma load_round_waits :
  running (w_shm w) = true -> is_present (dock_truck (w_shm w)) = false ->
  runs pid (load_round manager_dispatcher pkg) w (inl tt) w.
Proof.
  intros Hr Hp. unfold load_round.
  eapply runs_bind; [apply runs_load|]. cbv beta. rewrite Hr. cbn [negb d_lock_dock_fn d_unlock_dock_fn manager_dispatcher].
  eapply runs_bind; [apply dock_lock_runs|]. eapply runs_bind; [apply runs_load|]. cbv beta.
  replace (is_present (dock_truck (w_shm wl))) with false by (by rewrite <- Hp).
  eapply runs_bind; [apply runs_ret|]. eapply runs_bind; [apply dock_unlock_runs; [done|apply (r_sem _ Hrest)]|].
  rewrite restore. intros fuel inputs. reflexivity.
Qed.

Lemma load_round_stops : running (w_shm w) = false -> runs pid (load_round manager_dispatcher pkg) w (inr tt) w.
Proof. intros Hr. unfold load_round. eapply runs_bind; [apply runs_load|]. cbv beta. rewrite Hr. apply runs_ret. Qed.

End Dispatch.

(** The loop around a round that ends it, or that never does. *)
Lemma loop_once pid (body : unit -> prog (unit + unit)) w w' fuel inputs :
  runs pid (body tt) w (inr tt) w' -> exec (S fuel) pid (loop tt body) w inputs = Done tt w' inputs.
Proof. intros H. cbn. by rewrite (H (S fuel) inputs). Qed.

Lemma loop_spins pid (body : unit -> prog (unit + unit)) w fuel inputs :
  runs pid (body tt) w (inl tt) w -> exec fuel pid (loop tt body) w inputs = OutOfFuel.
Proof.
  intros H. cbn. generalize fuel at 2 as n. intros n. induction n as [|n IH]; [done|]. cbn. rewrite H. exact IH.
Qed.

Lemma processNextPackage_exec pid w fuel inputs :
  at_rest w -> 0 < current_items_count (w_shm w) -> id (slot (w_shm w) 0) <> 0 ->
  exec fuel pid (processNextPackage manager_dispatcher) w inputs =
  exec fuel pid (loop tt (fun _ => load_round manager_dispatcher (slot (w_shm w) 0))) (taken w) inputs.
Proof.
  intros Hrest Hc Hid. unfold processNextPackage. rewrite exec_bind. cbn [d_belt manager_dispatcher].
  pose proof (r_full _ Hrest). pose proof (r_empty _ Hrest). pose proof (wf_count _ (r_wf _ Hrest)).
  rewrite (manager_pop_runs pid w); try apply Hrest; try (unfold SEMVMX, MAX_BELT_CAPACITY_K in *; lia).
  cbn [o_bind d_shm negb]. by rewrite (proj2 (Z.eqb_neq _ _) Hid).
Qed.

Lemma dispatch_loads pid w fuel inputs :
  at_rest w -> 0 < current_items_count (w_shm w) -> id (slot (w_shm w) 0) <> 0 ->
  running (w_shm w) = true -> truck_waits w -> fits (slot (w_shm w) 0) (dock_truck (w_shm w)) = true ->
  exec (S fuel) pid (processNextPackage manager_dispatcher) w inputs = Done tt (after_load (slot (w_shm w) 0) (taken w)) inputs.
Proof.
  intros Hrest Hc Hid Hr [H1 H2 H3 H4] Hf. rewrite processNextPackage_exec by done. apply loop_once.
  apply load_round_loads; [by apply taken_at_rest|done|by split|done].
Qed.

(** C27. One turn of the dispatcher with a package on the belt: the head of the
    belt is taken; if a truck is at the dock and the package fits, exactly this
    package is on board afterwards, the truck is sent away if it has reached a
    limit, and no lock is held; without a truck the dispatcher goes on asking
    with nothing changed; once the system has stopped the package is dropped. *)
Theorem dispatch_contract pid w :
  at_rest w -> 0 < current_items_count (w_shm w) -> id (slot (w_shm w) 0) <> 0 ->
  let pkg := slot (w_shm w) 0 in
  contents (w_shm w) = pkg :: contents (w_shm (taken w)) /\
  (running (w_shm w) = true -> truck_waits w -> fits pkg (dock_truck (w_shm w)) = true ->
     (forall fuel inputs, exec (S fuel) pid (processNextPackage manager_dispatcher) w inputs = Done tt (after_load pkg (taken w)) inputs) /\
     at_rest (after_load pkg (taken w)) /\
     dock_truck (w_shm (after_load pkg (taken w))) = load_truck pkg (dock_truck (w_shm w)) /\
     w_msgs (after_load pkg (taken w)) = w_msgs w ++
       (if at_limit (load_truck pkg (dock_truck (w_shm w))) then [depart_message (dock_truck (w_shm w))] else [])) /\
  (running (w_shm w) = true -> is_present (dock_truck (w_shm w)) = false ->
     forall fuel inputs, exec fuel pid (processNextPackage manager_dispatcher) w inputs = OutOfFuel) /\
  (running (w_shm w) = false ->
     forall fuel inputs, exec (S fuel) pid (processNextPackage manager_dispatcher) w inputs = Done tt (taken w) inputs).
Proof.
  intros Hrest Hc Hid pkg. pose proof (taken_at_rest w Hrest Hc) as Hrest1. split; [by apply pop_contents; [apply Hrest|]|].
  split; [|split].
  - intros Hr Ht Hf. split; [|split; [|split]].
    + intros fuel inputs. by apply dispatch_loads.
    + by apply loaded_at_rest.
    + unfold after_load. by case_match.
    + unfold after_load. cbn. case_match; cbn; by rewrite ?app_nil_r.
  - intros Hr Hp fuel inputs. rewrite processNextPackage_exec by done. apply loop_spins. by apply load_round_waits.
  - intros Hr fuel inputs. rewrite processNextPackage_exec by done. apply loop_once. by apply load_round_stops.
Qed.

(** A package of five kilograms on the belt, and a small truck at the dock. *)
Definition parcel : Package := mkPackage 0 7 7 PackageType.TypeA PackageStatus.Normal (d_ofZ 5) VOL_A 0 0 [] 0.
Definition heavy : Package := mkPackage 0 7 7 PackageType.TypeC PackageStatus.Normal (d_ofZ 199) VOL_A 0 0 [] 0.
Definition dock_ready : world := with_shm (set_dock_truck small_truck init_shm) (initial_world 16384).
Definition parcel_waits : world := with_sem (mkSemset 1 9 1 1) (pushed parcel dock_ready).

Lemma dock_ready_at_rest : at_rest dock_ready.
Proof. split; try done. apply belt_wf_dock, init_belt_wf. Qed.

Lemma dock_ready_truck : truck_waits dock_ready.
Proof. by split. Qed.

Lemma dispatch_contract_witness :
  exec 1 7 (processNextPackage manager_dispatcher) parcel_waits [] = Done tt (after_load (set_id 1 parcel) (taken parcel_waits)) [] /\
  current_load (dock_truck (w_shm (after_load (set_id 1 parcel) (taken parcel_waits)))) = 1.
Proof.
  assert (at_rest parcel_waits) as Hrest.
  { split; try reflexivity. apply (push_wf (w_shm dock_ready)); [apply dock_ready_at_rest|reflexivity]. }
  destruct (dispatch_contract 7 parcel_waits Hrest) as (_ & H & _); [reflexivity|vm_compute; discriminate|].
  destruct (H eq_refl) as (H1 & _ & H2 & _); [by split|vm_compute; reflexivity|].
  split; [exact (H1 0%nat [])|]. change (slot (w_shm parcel_waits) 0) with (set_id 1 parcel) in H2. rewrite H2. reflexivity.
Defined.

(** ** The departure of a truck *)

(** The truck has left the dock and is counted. *)
Definition gone_truck (pid : Z) (w : world) : world :=
  let s := w_shm w in
  logged (Departing pid (current_weight (dock_truck s)) (current_volume (dock_truck s)) (trucks_completed s + 1))
    (with_shm (set_dock_truck (set_is_present false (dock_truck s)) (set_trucks_completed (trucks_completed s + 1) s)) w).

Definition route (r : Z) : Z := 3000 + Z.rem r 5000.

Lemma count_departure_runs pid w :
  in_int (trucks_completed (w_shm w) + 1) = true ->
  runs pid count_departure w tt (with_shm (set_trucks_completed (trucks_completed (w_shm w) + 1) (w_shm w)) w).
Proof.
  intros Hint. unfold count_departure. eapply runs_bind; [apply runs_load|]. eapply runs_bind; [by apply runs_int_result|].
  apply runs_store.
Qed.

(** [truck_depart] by the truck at the dock, and by another one. *)
Lemma truck_depart_exec pid w r fuel inputs :
  at_rest w -> in_int (trucks_completed (w_shm w) + 1) = true -> 0 <= r <= RAND_MAX ->
  exec fuel pid (truck_depart (manager_truck pid)) w (AInt r :: inputs) =
  Done tt (logged (OnRoute pid (route r))
    (if truck_id (dock_truck (w_shm w)) =? pid then gone_truck pid w else logged (IdentityTheft pid) w)) inputs.
Proof.
  intros Hrest Hint Hr. unfold truck_depart. cbn [t_lock_dock_fn t_unlock_dock_fn my_pid manager_truck].
  set (wl := with_sem (sem_set (w_sem w) SEM_DOCK_MUTEX 0) w).
  assert (forall v, w_sem v = w_sem wl -> w_sem_alive v = true ->
    exec fuel pid (unlockDock ;; let* r := RandInt 0 RAND_MAX Ret in
      let route_time := 3000 + Z.rem r 5000 in log (OnRoute pid route_time) ;; sleep_ms route_time) v (AInt r :: inputs) =
    Done tt (logged (OnRoute pid (route r)) (with_sem (w_sem w) v)) inputs) as Hend.
  { intros v Hv Ha. rewrite exec_bind, (dock_unlock_runs pid w Hrest v Hv Ha). cbn [o_bind].
    cbn -[RAND_MAX]. rewrite (proj2 (Z.leb_le 0 r)), (proj2 (Z.leb_le r _)) by lia. reflexivity. }
  rewrite exec_bind, (dock_lock_runs pid w Hrest). cbn [o_bind].
  rewrite exec_bind, (runs_load pid (fun s => truck_id (dock_truck s)) wl). cbn [o_bind]. rewrite exec_bind. change (truck_id (dock_truck (w_shm wl))) with (truck_id (dock_truck (w_shm w))).
  destruct (truck_id (dock_truck (w_shm w)) =? pid).
  - assert (runs pid (count_departure ;; store_dock (set_is_present false) ;; let* cw := load_dock current_weight in
      let* cv := load_dock current_volume in let* total := load trucks_completed in log (Departing pid cw cv total)) wl tt (gone_truck pid wl)) as H.
    { eapply runs_bind; [by apply count_departure_runs|]. eapply runs_bind; [apply runs_store|].
      do 3 (eapply runs_bind; [apply runs_load|]). apply runs_log. }
    rewrite H. cbn [o_bind]. rewrite Hend by first [done|apply (r_sem _ Hrest)]. unfold gone_truck, wl. by destruct w.
  - rewrite (runs_log pid). cbn [o_bind]. rewrite Hend by first [done|apply (r_sem _ Hrest)]. unfold wl. by destruct w.
Qed.

Lemma gone_at_rest pid m w : at_rest w -> at_rest (logged m (gone_truck pid w)).
Proof. intros []. split; try done. cbn. apply belt_wf_dock. by destruct r_wf0; split. Qed.

(** Neither loading nor leaving concerns the belt. *)
Lemma contents_dock t s : contents (set_dock_truck t s) = contents s.
Proof. done. Qed.

Lemma gone_contents pid m w : contents (w_shm (logged m (gone_truck pid w))) = contents (w_shm w).
Proof. done. Qed.

(** The belt after a push on an empty one. *)
Definition on_belt (pkg : Package) (w : world) : world :=
  with_sem (mkSemset 1 (v_empty (w_sem w) - 1) (v_full (w_sem w) + 1) (v_dock (w_sem w))) (pushed pkg w).

Section EmptyBelt.
Context (w : world) (Hrest : at_rest w) (Hempty : current_items_count (w_shm w) = 0) (pkg : Package).

Lemma room_on_belt : current_items_count (w_shm w) < MAX_BELT_CAPACITY_K.
Proof. rewrite Hempty. unfold MAX_BELT_CAPACITY_K. lia. Qed.

Lemma on_belt_runs pid :
  0 <= total_packages_created (w_shm w) < INT_MAX ->
  runs pid (push manager_belt pkg) w (set_id (total_packages_created (w_shm w) + 1) pkg) (on_belt pkg w).
Proof.
  intros Ht. pose proof (r_full _ Hrest). pose proof (r_empty _ Hrest).
  apply manager_push_runs; try apply Hrest; try exact Ht; try apply room_on_belt;
    unfold SEMVMX, MAX_BELT_CAPACITY_K in *; lia.
Qed.

Lemma on_belt_at_rest : at_rest (on_belt pkg w).
Proof.
  pose proof (r_full _ Hrest). pose proof (r_empty _ Hrest). pose proof room_on_belt.
  split; try apply Hrest; try done; cbn -[Z.add Z.sub]; [|lia|lia]. apply push_wf; [apply Hrest|done].
Qed.

Lemma on_belt_slot : slot (w_shm (on_belt pkg w)) 0 = set_id (total_packages_created (w_shm w) + 1) pkg /\
  contents (w_shm (taken (on_belt pkg w))) = [].
Proof.
  assert (contents (push_effect pkg (w_shm w)) = [set_id (total_packages_created (w_shm w) + 1) pkg]) as Hc.
  { rewrite push_contents by (apply Hrest || apply room_on_belt). unfold contents at 1. by rewrite Hempty. }
  rewrite pop_contents in Hc; [by injection Hc|apply push_wf; [apply Hrest|apply room_on_belt]|cbn; lia].
Qed.

End EmptyBelt.

(** A package that fills the truck. *)
Lemma after_load_full pkg w :
  at_limit (load_truck pkg (dock_truck (w_shm w))) = true ->
  after_load pkg w =
  logged (SignalSent (signal_to_int SIGNAL_DEPARTURE) (truck_id (dock_truck (w_shm w))))
    (with_msgs (w_msgs w ++ [depart_message (dock_truck (w_shm w))])
      (logged (TruckFull (truck_id (dock_truck (w_shm w))))
        (logged (PkgLoaded (id pkg) (weight pkg) (volume pkg) (truck_id (dock_truck (w_shm w))))
          (with_shm (set_dock_truck (load_truck pkg (dock_truck (w_shm w))) (w_shm w)) w)))).
Proof. intros H. unfold after_load. by rewrite H. Qed.

(** Loaded, called away, and gone. *)
Definition driven_off (pkg : Package) (ms : list CommandMessage) (r : Z) (w : world) : world :=
  let tpid := truck_id (dock_truck (w_shm w)) in
  logged (OnRoute tpid (route r)) (gone_truck tpid (with_msgs ms (after_load pkg w))).

Lemma driven_off_facts pkg ms r w :
  at_limit (load_truck pkg (dock_truck (w_shm w))) = true ->
  let t := dock_truck (w_shm w) in
  let w' := driven_off pkg ms r w in
  w_log w' = w_log w ++ [PkgLoaded (id pkg) (weight pkg) (volume pkg) (truck_id t); TruckFull (truck_id t);
    SignalSent (signal_to_int SIGNAL_DEPARTURE) (truck_id t);
    Departing (truck_id t) (current_weight t + weight pkg)%double (current_volume t + volume pkg)%double (trucks_completed (w_shm w) + 1);
    OnRoute (truck_id t) (route r)] /\
  w_msgs w' = ms /\ contents (w_shm w') = contents (w_shm w) /\ is_present (dock_truck (w_shm w')) = false /\
  trucks_completed (w_shm w') = trucks_completed (w_shm w) + 1.
Proof.
  intros Hlim t w'. unfold w', driven_off. rewrite (after_load_full _ _ Hlim). split; [|done]. cbn. by rewrite <- !app_assoc.
Qed.

Section DriveOff.
Context (pkg : Package) (ms : list CommandMessage) (w : world) (Hrest : at_rest w).
Context (Hlim : at_limit (load_truck pkg (dock_truck (w_shm w))) = true).
Let tpid : Z := truck_id (dock_truck (w_shm w)).

Lemma called_away_at_rest : at_rest (with_msgs ms (after_load pkg w)).
Proof. destruct (loaded_at_rest pkg w Hrest). by split. Qed.

Lemma called_away :
  0 < tpid -> msg_take tpid ms = None -> w_msgs w = ms ->
  runs tpid (receiveSignalBlocking tpid) (after_load pkg w) SIGNAL_DEPARTURE (with_msgs ms (after_load pkg w)).
Proof.
  intros Hid Hnone Hms. apply receive_runs; [apply (r_msg _ (loaded_at_rest pkg w Hrest))|done|done|].
  rewrite (after_load_full _ _ Hlim). cbn. by rewrite Hms.
Qed.

Lemma drives_off r fuel inputs :
  in_int (trucks_completed (w_shm w) + 1) = true -> 0 <= r <= RAND_MAX ->
  exec fuel tpid (truck_depart (manager_truck tpid)) (with_msgs ms (after_load pkg w)) (AInt r :: inputs) =
  Done tt (driven_off pkg ms r w) inputs.
Proof.
  intros Hint Hr. unfold driven_off. fold tpid.
  assert (trucks_completed (w_shm (with_msgs ms (after_load pkg w))) = trucks_completed (w_shm w) /\
    truck_id (dock_truck (w_shm (with_msgs ms (after_load pkg w)))) = tpid) as [H1 H2] by (by rewrite (after_load_full _ _ Hlim)).
  rewrite truck_depart_exec; [|apply called_away_at_rest|by rewrite H1|done]. by rewrite H2, Z.eqb_refl.
Qed.

End DriveOff.

(** What the log says of the way of a package. *)
Definition way_log (pkg : Package) (tpid r : Z) (s : SharedState) : list log_msg :=
  let n := total_packages_created s + 1 in
  let t := dock_truck s in
  [BeltPushed n (tail s) 1 (current_workers_count s); BeltPopped n (head s) 0 (current_workers_count s);
   PkgLoaded n (weight pkg) (volume pkg) tpid; TruckFull tpid; SignalSent (signal_to_int SIGNAL_DEPARTURE) tpid;
   Departing tpid (current_weight t + weight pkg)%double (current_volume t + volume pkg)%double (trucks_completed s + 1);
   OnRoute tpid (route r)].

(** The package has been on the belt and is in the dispatcher's hand. *)
Lemma in_hand_log w pkg :
  at_rest w -> current_items_count (w_shm w) = 0 ->
  w_log (taken (on_belt pkg w)) = w_log w ++
    [BeltPushed (total_packages_created (w_shm w) + 1) (tail (w_shm w)) 1 (current_workers_count (w_shm w));
     BeltPopped (total_packages_created (w_shm w) + 1) (head (w_shm w)) 0 (current_workers_count (w_shm w))].
Proof.
  intros Hrest Hempty. destruct (on_belt_slot w Hrest Hempty pkg) as [Hslot _].
  assert (w_log (taken (on_belt pkg w)) = w_log (on_belt pkg w) ++
    [BeltPopped (id (slot (w_shm (on_belt pkg w)) 0)) (head (w_shm w)) (current_items_count (w_shm w) + 1 - 1)
       (current_workers_count (w_shm w))]) as -> by done.
  rewrite Hslot, Hempty. cbn [on_belt with_sem pushed with_log w_log]. rewrite Hempty, <- app_assoc. done.
Qed.

(** C36. The way of a package: a worker pushes it on the empty belt, the
    dispatcher's next turn puts it on the truck at the dock, which it fills; the
    truck receives the signal to leave, and departs.  The log tells exactly
    this story, with the package's number, weight and volume and the truck's
    process id; afterwards the belt and the dock are empty, the departure is
    counted, the queue is as before and no lock is held. *)
Theorem package_way wpid dpid tpid pkg w :
  at_rest w -> running (w_shm w) = true -> current_items_count (w_shm w) = 0 ->
  0 <= total_packages_created (w_shm w) < INT_MAX -> 0 <= trucks_completed (w_shm w) < INT_MAX ->
  truck_waits w -> truck_id (dock_truck (w_shm w)) = tpid -> fits pkg (dock_truck (w_shm w)) = true ->
  at_limit (load_truck pkg (dock_truck (w_shm w))) = true -> msg_take tpid (w_msgs w) = None ->
  exists w1 w2 w3,
    runs wpid (push manager_belt pkg) w (set_id (total_packages_created (w_shm w) + 1) pkg) w1 /\
    (forall fuel inputs, exec (S fuel) dpid (processNextPackage manager_dispatcher) w1 inputs = Done tt w2 inputs) /\
    runs tpid (receiveSignalBlocking tpid) w2 SIGNAL_DEPARTURE w3 /\
    forall r, 0 <= r <= RAND_MAX -> exists w4,
      (forall fuel inputs, exec fuel tpid (truck_depart (manager_truck tpid)) w3 (AInt r :: inputs) = Done tt w4 inputs) /\
      w_log w4 = w_log w ++ way_log pkg tpid r (w_shm w) /\ w_msgs w4 = w_msgs w /\ at_rest w4 /\
      contents (w_shm w4) = [] /\ is_present (dock_truck (w_shm w4)) = false /\
      trucks_completed (w_shm w4) = trucks_completed (w_shm w) + 1.
Proof.
  intros Hrest Hrun Hempty Htot Hdep [Hp Hid Hl Hroom] <- Hf Hlim Hnone.
  pose proof (on_belt_at_rest w Hrest Hempty pkg) as Hrest1. destruct (on_belt_slot w Hrest Hempty pkg) as [Hslot Hcont].
  pose proof (in_hand_log w pkg Hrest Hempty) as Hlog.
  assert (at_rest (taken (on_belt pkg w))) as Hrest2 by (apply taken_at_rest; [done|cbn; lia]).
  set (p' := set_id (total_packages_created (w_shm w) + 1) pkg) in *.
  exists (on_belt pkg w), (after_load p' (taken (on_belt pkg w))), (with_msgs (w_msgs w) (after_load p' (taken (on_belt pkg w)))).
  split; [by apply on_belt_runs|]. split; [|split].
  - intros fuel inputs. rewrite <- Hslot. apply dispatch_loads; [done|cbn; lia|rewrite Hslot; cbn; lia|done|by split|].
    by rewrite Hslot.
  - exact (called_away p' (w_msgs w) (taken (on_belt pkg w)) Hrest2 Hlim Hid Hnone eq_refl).
  - intros r Hr. exists (driven_off p' (w_msgs w) r (taken (on_belt pkg w))).
    destruct (driven_off_facts p' (w_msgs w) r (taken (on_belt pkg w)) Hlim) as (H1 & H2 & H3 & H4 & H5).
    rewrite H1, H3, Hlog, Hcont, <- app_assoc. split; [|split; [done|split; [done|split; [|done]]]].
    + intros fuel inputs. apply (drives_off p' (w_msgs w) (taken (on_belt pkg w)) Hrest2 Hlim r fuel inputs); [|done].
      cbn. unfold in_int, INT_MIN. lia.
    + apply gone_at_rest, called_away_at_rest. done.
Qed.

Lemma package_way_witness :
  exists w1 w2 w3, runs 7 (push manager_belt heavy) dock_ready (set_id 1 heavy) w1 /\
    (forall fuel inputs, exec (S fuel) 8 (processNextPackage manager_dispatcher) w1 inputs = Done tt w2 inputs) /\
    runs 101 (receiveSignalBlocking 101) w2 SIGNAL_DEPARTURE w3.
Proof.
  destruct (package_way 7 8 101 heavy dock_ready dock_ready_at_rest) as (w1 & w2 & w3 & H1 & H2 & H3 & _);
    [reflexivity|reflexivity|vm_compute; split; congruence|vm_compute; split; congruence|apply dock_ready_truck|reflexivity
    |vm_compute; reflexivity|vm_compute; reflexivity|reflexivity|].
  exists w1, w2, w3. split; [exact H1|]. split; [exact H2|exact H3].
Defined.
