(* ===== verification/StaleSignals.v ===== *)
(** * Stale departure signals

    A package that does not fit makes the dispatcher send the truck away in
    every round of its retry loop, until the truck has left.  Only the first of
    these signals is needed; here the others are followed to their effect. *)

From S2P Require Import Prelude Double Shared Ipc Belt SessionManager Truck Dispatcher Express Manager Worker.
From S2P Require Import Terminal Args Master Processes Contracts Delivery.

(** ** The dispatcher asks again *)

(** [n] rounds of the retry loop. *)
Fixpoint retries (n : nat) (pkg : Package) : prog unit :=
  match n with
  | O => skip
  | S m =>
      let* r := load_round manager_dispatcher pkg in
      match r with inl _ => retries m pkg | inr _ => skip end
  end.

(** The truck has been told to leave because of this package. *)
Definition sent_away (pkg : Package) (w : world) : world :=
  let t := dock_truck (w_shm w) in
  logged (SignalSent (signal_to_int SIGNAL_DEPARTURE) (truck_id t))
    (with_msgs (w_msgs w ++ [depart_message t])
      (logged (DoesNotFit (id pkg) (truck_id t) (current_weight t + weight pkg <=? max_weight t)%double
                 (current_volume t + volume pkg <=? max_volume t)%double) w)).

Lemma sent_away_at_rest pkg w : at_rest w -> at_rest (sent_away pkg w).
Proof. intros []. by split. Qed.

Lemma load_round_refuses pid pkg w :
  at_rest w -> running (w_shm w) = true -> is_present (dock_truck (w_shm w)) = true -> 0 < truck_id (dock_truck (w_shm w)) ->
  msg_room w = true -> fits pkg (dock_truck (w_shm w)) = false ->
  runs pid (load_round manager_dispatcher pkg) w (inl tt) (sent_away pkg w).
Proof.
  intros Hrest Hr Hp Hid Hroom Hf. unfold load_round.
  eapply runs_bind; [apply runs_load|]. cbv beta. rewrite Hr. cbn [negb d_lock_dock_fn d_unlock_dock_fn manager_dispatcher].
  eapply runs_bind; [by apply dock_lock_runs|]. eapply runs_bind; [apply runs_load|]. cbv beta.
  set (wl := with_sem (sem_set (w_sem w) SEM_DOCK_MUTEX 0) w).
  replace (is_present (dock_truck (w_shm wl))) with true by (by rewrite <- Hp).
  assert (runs pid (try_load manager_dispatcher pkg) wl false (sent_away pkg wl)) as Htry.
  { unfold try_load. do 4 (eapply runs_bind; [apply runs_load|]). cbv beta zeta. unfold fits in Hf. cbn [wl with_sem w_shm]. rewrite Hf.
    eapply runs_bind; [apply runs_load|]. eapply runs_bind; [apply runs_log|]. eapply runs_bind; [apply runs_load|].
    eapply runs_bind; [apply sendSignal_runs; [apply (r_msg _ Hrest)|exact Hid|exact Hroom]|]. apply runs_ret. }
  eapply runs_bind; [exact Htry|]. eapply runs_bind; [apply (dock_unlock_runs pid w Hrest); [done|apply (r_sem _ Hrest)]|].
  eapply runs_bind; [apply runs_sleep|]. eapply runs_eq; [apply runs_ret|done|]. unfold sent_away, wl. by destruct w.
Qed.

Lemma retries_runs pid pkg n w :
  at_rest w -> running (w_shm w) = true -> is_present (dock_truck (w_shm w)) = true -> 0 < truck_id (dock_truck (w_shm w)) ->
  (Z.of_nat (length (w_msgs w)) + Z.of_nat n) * MSG_SIZE <= w_qbytes w -> fits pkg (dock_truck (w_shm w)) = false ->
  exists w', runs pid (retries n pkg) w tt w' /\ at_rest w' /\ w_shm w' = w_shm w /\
    w_msgs w' = w_msgs w ++ replicate n (depart_message (dock_truck (w_shm w))).
Proof.
  revert w; induction n as [|n IH]; intros w Hrest Hr Hp Hid Hroom Hf; cbn [retries].
  - exists w. split; [apply runs_ret|]. cbn. by rewrite app_nil_r.
  - destruct (IH (sent_away pkg w)) as (w' & Hrun & Hrest' & Hs & Hm); [by apply sent_away_at_rest|done|done|done| |done|].
    { cbn. rewrite length_app. cbn. unfold MSG_SIZE in *. lia. }
    exists w'. split; [|split; [done|split; [done|]]].
    + eapply runs_bind; [apply load_round_refuses; try done; unfold msg_room, MSG_SIZE in *; apply Z.leb_le; lia|exact Hrun].
    + rewrite Hm. cbn. by rewrite <- app_assoc.
Qed.

(** ** The truck obeys each signal *)

(** What the truck draws in a round: its two limits and the time of its route. *)
Definition draw : Type := double * double * Z.

Definition draw_ok (d : draw) : Prop :=
  ((d_ofZ 200 <=? d.1.1)%double && (d.1.1 <? d_ofZ 600)%double)%bool = true /\
  ((d_ofZ 1 <=? d.1.2)%double && (d.1.2 <? d_ofZ 3)%double)%bool = true /\ 0 <= d.2 <= RAND_MAX.

Definition draw_answers (d : draw) : list answer := [AReal d.1.1; AReal d.1.2; AInt d.2].

(** A truck that has just docked. *)
Definition fresh_truck (pid : Z) (d : draw) : TruckState := mkTruckState true pid 0 100 d_zero d_zero d.1.1 d.1.2.

Definition arrived (pid : Z) (d : draw) (w : world) : world :=
  logged (Docked pid d.1.1 d.1.2) (with_shm (set_dock_truck (fresh_truck pid d) (w_shm w)) w).

Lemma arrived_at_rest pid d w : at_rest w -> at_rest (arrived pid d w).
Proof. intros []. split; try done. by apply belt_wf_dock. Qed.

Lemma randomize_exec pid d w fuel inputs :
  draw_ok d ->
  exec fuel pid (randomizeTruckSpecs (manager_truck pid)) w (AReal d.1.1 :: AReal d.1.2 :: inputs) =
  Done tt (with_shm (set_dock_truck (fresh_truck pid d) (w_shm w)) w) inputs.
Proof.
  intros (H1 & H2 & _). destruct d as [[mw mv] r]. cbn [fst snd] in *. unfold randomizeTruckSpecs. cbn -[d_ofZ].
  rewrite H1, H2. by destruct w as [[] ? ? ? ? ? ?].
Qed.

(** The truck has come, taken the signal that was waiting, and left again. *)
Definition empty_trip (pid : Z) (d : draw) (ms : list CommandMessage) (w : world) : world :=
  logged (OnRoute pid (route d.2)) (gone_truck pid (with_msgs ms (arrived pid d w))).

(** A departure signal that is the first message for the truck. *)
Definition first_message (pid : Z) (ms ms' : list CommandMessage) : Prop :=
  msg_take pid ms = Some (mkCommandMessage pid (signal_to_int SIGNAL_DEPARTURE), ms').

Lemma receive_first pid ms' w :
  w_msg_alive w = true -> first_message pid (w_msgs w) ms' ->
  runs pid (receiveSignalBlocking pid) w SIGNAL_DEPARTURE (with_msgs ms' w).
Proof. intros Ha Hm fuel inputs. cbn. by rewrite Ha, Hm. Qed.

Lemma truck_round_stale pid d ms' w fuel inputs :
  at_rest w -> running (w_shm w) = true -> is_present (dock_truck (w_shm w)) = false ->
  in_int (trucks_completed (w_shm w) + 1) = true -> first_message pid (w_msgs w) ms' -> draw_ok d ->
  exec fuel pid (truck_round (manager_truck pid)) w (draw_answers d ++ inputs) = Done (inl tt) (empty_trip pid d ms' w) inputs.
Proof.
  intros Hrest Hr Hp Hint Hm Hd. unfold truck_round, draw_answers. cbn [app t_lock_dock_fn t_unlock_dock_fn wait_for_signal_fn my_pid manager_truck].
  set (wl := with_sem (sem_set (w_sem w) SEM_DOCK_MUTEX 0) w).
  rewrite exec_bind, (runs_load pid running w). cbn [o_bind]. rewrite Hr. cbn [negb].
  rewrite exec_bind, (dock_lock_runs pid w Hrest). cbn [o_bind]. fold wl.
  rewrite exec_bind, (runs_load pid (fun s => is_present (dock_truck s)) wl). cbn [o_bind].
  change (is_present (dock_truck (w_shm wl))) with (is_present (dock_truck (w_shm w))). rewrite Hp.
  rewrite exec_bind, randomize_exec by done. cbn [o_bind].
  rewrite exec_bind, (runs_load pid (fun s => max_weight (dock_truck s)) _). cbn [o_bind].
  rewrite exec_bind, (runs_load pid (fun s => max_volume (dock_truck s)) _). cbn [o_bind].
  rewrite exec_bind, (runs_log pid). cbn [o_bind].
  rewrite exec_bind, (dock_unlock_runs pid w Hrest) by first [done|apply (r_sem _ Hrest)]. cbn [o_bind].
  match goal with |- exec _ _ _ ?v _ = _ => replace v with (arrived pid d w) by (unfold arrived, wl; by destruct w) end.
  pose proof (arrived_at_rest pid d w Hrest) as Hrest1.
  rewrite exec_bind, (receive_first pid ms' (arrived pid d w)) by first [apply (r_msg _ Hrest1)|done]. cbn [o_bind].
  assert (at_rest (with_msgs ms' (arrived pid d w))) as Hrest2 by (by destruct Hrest1; split).
  rewrite exec_bind, (exec_bind fuel pid (load running)), (runs_load pid running _). cbn [o_bind exec].
  change (running (w_shm (with_msgs ms' (arrived pid d w)))) with (running (w_shm w)). rewrite Hr. cbn [negb].
  rewrite exec_bind, truck_depart_exec; [|done|done|apply Hd]. cbn [o_bind].
  change (truck_id (dock_truck (w_shm (with_msgs ms' (arrived pid d w))))) with pid. by rewrite Z.eqb_refl.
Qed.

(** [n] rounds of the truck. *)
Fixpoint truck_rounds (n : nat) (t : Truck) : prog unit :=
  match n with
  | O => skip
  | S m =>
      let* r := truck_round t in
      match r with inl _ => truck_rounds m t | inr _ => skip end
  end.

(** The lines of trips without cargo, counted from [n] on. *)
Fixpoint empty_trips (pid n : Z) (ds : list draw) : list log_msg :=
  match ds with
  | [] => []
  | d :: rest =>
      [Docked pid d.1.1 d.1.2; Departing pid d_zero d_zero n; OnRoute pid (route d.2)] ++ empty_trips pid (n + 1) rest
  end.

(** Removing the first of the repeated messages. *)
Lemma take_stale pid ms n :
  0 < pid -> msg_take pid ms = None ->
  first_message pid (ms ++ replicate (S n) (mkCommandMessage pid (signal_to_int SIGNAL_DEPARTURE)))
    (ms ++ replicate n (mkCommandMessage pid (signal_to_int SIGNAL_DEPARTURE))).
Proof.
  intros Hpos Hnone. unfold first_message. induction ms as [|m ms IH]; cbn in *.
  - unfold msg_match. cbn. by rewrite (proj2 (Z.eqb_neq pid 0)), Z.eqb_refl by lia.
  - destruct (msg_match pid m); [done|]. destruct (msg_take pid ms) as [[x q]|] eqn:E; [done|]. by rewrite IH.
Qed.

Lemma empty_trip_at_rest pid d ms w : at_rest w -> at_rest (empty_trip pid d ms w).
Proof. intros Hr. apply gone_at_rest. pose proof (arrived_at_rest pid d w Hr) as []. by split. Qed.

Lemma truck_rounds_stale pid ds ms w :
  at_rest w -> running (w_shm w) = true -> is_present (dock_truck (w_shm w)) = false -> 0 < pid -> msg_take pid ms = None ->
  w_msgs w = ms ++ replicate (length ds) (mkCommandMessage pid (signal_to_int SIGNAL_DEPARTURE)) -> Forall draw_ok ds ->
  0 <= trucks_completed (w_shm w) -> trucks_completed (w_shm w) + Z.of_nat (length ds) <= INT_MAX ->
  exists w', (forall fuel inputs,
      exec fuel pid (truck_rounds (length ds) (manager_truck pid)) w (mjoin (map draw_answers ds) ++ inputs) = Done tt w' inputs) /\
    w_log w' = w_log w ++ empty_trips pid (trucks_completed (w_shm w) + 1) ds /\ w_msgs w' = ms /\
    trucks_completed (w_shm w') = trucks_completed (w_shm w) + Z.of_nat (length ds).
Proof.
  revert w; induction ds as [|d ds IH]; intros w Hrest Hr Hp Hpos Hnone Hm Hd H0 Hmax; cbn [length truck_rounds empty_trips map] in *.
  - exists w. split; [done|]. rewrite !app_nil_r in *. split; [done|]. split; [done|]. lia.
  - apply list.Forall_cons in Hd as [Hd Hds]. pose proof (take_stale pid ms (length ds) Hpos Hnone) as Htake. rewrite <- Hm in Htake.
    set (w1 := empty_trip pid d (ms ++ replicate (length ds) (mkCommandMessage pid (signal_to_int SIGNAL_DEPARTURE))) w).
    assert (trucks_completed (w_shm w1) = trucks_completed (w_shm w) + 1) as Hc by done.
    destruct (IH w1) as (w' & Hx & Hl & Hq & Ht); [by apply empty_trip_at_rest|done|done|done|done|done|done|lia|lia|].
    exists w'. split; [|split; [|split; [done|lia]]].
    + intros fuel inputs. cbn [mjoin list_join]. rewrite <- app_assoc, exec_bind, (truck_round_stale pid d _ w) by
        first [done|unfold in_int, INT_MIN, INT_MAX in *; lia]. cbn [o_bind]. apply Hx.
    + rewrite Hl, Hc. unfold w1, empty_trip, gone_truck, arrived, logged. cbn. by rewrite <- !app_assoc.
Qed.

(** * Theorem *)

(** C38. Stale departure signals.  A package that does not fit on the truck at
    the dock makes the dispatcher send the truck a departure signal in each
    round of its retry loop, for as long as the truck has not reacted: after
    [n + 1] rounds [n + 1] signals are in the queue.  The truck leaves at the
    first one; the other [n] stay, and make it leave again without any cargo as
    soon as it has docked, [n] times in a row, although nobody asked for a
    departure since. *)
Theorem stale_signal_sends_empty_truck_away dpid tpid pkg w ds r :
  at_rest w -> running (w_shm w) = true -> is_present (dock_truck (w_shm w)) = true ->
  truck_id (dock_truck (w_shm w)) = tpid -> 0 < tpid -> fits pkg (dock_truck (w_shm w)) = false ->
  msg_take tpid (w_msgs w) = None ->
  (Z.of_nat (length (w_msgs w)) + Z.of_nat (S (length ds))) * MSG_SIZE <= w_qbytes w ->
  0 <= trucks_completed (w_shm w) -> trucks_completed (w_shm w) + 1 + Z.of_nat (length ds) <= INT_MAX ->
  Forall draw_ok ds -> 0 <= r <= RAND_MAX ->
  exists w1 w2 w3 w4,
    runs dpid (retries (S (length ds)) pkg) w tt w1 /\
    w_msgs w1 = w_msgs w ++ replicate (S (length ds)) (mkCommandMessage tpid (signal_to_int SIGNAL_DEPARTURE)) /\
    runs tpid (receiveSignalBlocking tpid) w1 SIGNAL_DEPARTURE w2 /\
    (forall fuel inputs, exec fuel tpid (truck_depart (manager_truck tpid)) w2 (AInt r :: inputs) = Done tt w3 inputs) /\
    (forall fuel inputs, exec fuel tpid (truck_rounds (length ds) (manager_truck tpid)) w3 (mjoin (map draw_answers ds) ++ inputs)
       = Done tt w4 inputs) /\
    w_log w4 = w_log w3 ++ empty_trips tpid (trucks_completed (w_shm w) + 2) ds /\
    w_msgs w4 = w_msgs w /\ trucks_completed (w_shm w4) = trucks_completed (w_shm w) + 1 + Z.of_nat (length ds).
Proof.
  intros Hrest Hr Hp <- Hpos Hf Hnone Hroom H0 Hmax Hds Hrand. set (tpid := truck_id (dock_truck (w_shm w))) in *.
  destruct (retries_runs dpid pkg (S (length ds)) w) as (w1 & Hrun & Hrest1 & Hs1 & Hm1); try done.
  pose proof (take_stale tpid (w_msgs w) (length ds) Hpos Hnone) as Htake.
  set (w2 := with_msgs (w_msgs w ++ replicate (length ds) (mkCommandMessage tpid (signal_to_int SIGNAL_DEPARTURE))) w1).
  assert (at_rest w2) as Hrest2 by (by destruct Hrest1; split).
  assert (in_int (trucks_completed (w_shm w2) + 1) = true) as Hint by (cbn; rewrite Hs1; unfold in_int, INT_MIN, INT_MAX in *; lia).
  set (w3 := logged (OnRoute tpid (route r)) (gone_truck tpid w2)).
  assert (trucks_completed (w_shm w3) = trucks_completed (w_shm w) + 1) as Hc3 by (cbn; by rewrite Hs1).
  destruct (truck_rounds_stale tpid ds (w_msgs w) w3) as (w4 & Hx & Hl & Hq & Ht);
    [by apply gone_at_rest|cbn; by rewrite Hs1|done|done|done|done|done|lia|lia|].
  exists w1, w2, w3, w4. split; [done|]. split; [done|]. split; [|split; [|split; [done|split; [|split; [done|lia]]]]].
  - apply receive_first; [apply (r_msg _ Hrest1)|]. by rewrite Hm1.
  - intros fuel inputs. rewrite (truck_depart_exec tpid w2 r fuel inputs) by done. cbn [w2 with_msgs w_shm]. rewrite Hs1. fold tpid. by rewrite Z.eqb_refl.
  - rewrite Hl, Hc3. by replace (trucks_completed (w_shm w) + 1 + 1) with (trucks_completed (w_shm w) + 2) by lia.
Qed.

(** A package that fits on no truck, and three rounds of the dispatcher: the
    truck leaves twice with nothing on board. *)
Definition oversized : Package := mkPackage 1 7 7 PackageType.TypeC PackageStatus.Normal (d_ofZ 5000) VOL_C 0 0 [] 0.
Definition two_draws : list draw := [(d_ofZ 200, d_ofZ 1, 0); (d_ofZ 300, d_ofZ 2, 7000)].

Lemma stale_signal_sends_empty_truck_away_witness :
  exists w3 w4, w_log w4 = w_log w3 ++
    [Docked 101 (d_ofZ 200) (d_ofZ 1); Departing 101 d_zero d_zero 2; OnRoute 101 3000;
     Docked 101 (d_ofZ 300) (d_ofZ 2); Departing 101 d_zero d_zero 3; OnRoute 101 5000].
Proof.
  destruct (stale_signal_sends_empty_truck_away 8 101 oversized dock_ready two_draws 0 dock_ready_at_rest)
    as (w1 & w2 & w3 & w4 & _ & _ & _ & _ & _ & Hl & _);
    [reflexivity|reflexivity|reflexivity|reflexivity|vm_compute; reflexivity|reflexivity|vm_compute; congruence|vm_compute; congruence
    |vm_compute; congruence| |vm_compute; split; congruence|].
  - constructor; [|constructor; [|constructor]]; (split; [vm_compute; reflexivity|]; split; [vm_compute; reflexivity|]; vm_compute; split; congruence).
  - exists w3, w4. rewrite Hl. reflexivity.
Defined.
