(* ===== verification/Findings.v ===== *)
(** * What the sources do against their documentation or intention

    Each theorem exhibits a run: of one component alone, of the booted system,
    or of the system deployed by the master, evaluated step by step; the last
    one draws the consequence for all later states. *)

From stdpp Require Import gmap.
From S2P Require Import Prelude Double Shared Ipc Belt SessionManager Truck Dispatcher Express Manager Worker.
From S2P Require Import Terminal Args Master Processes Logic Rules Invariants BeltProof DockProof ProcessProof Safety Shutdown.
From S2P Require Import Fairness DockSection Halt Orchestra Deployment.

(** The number of active sessions. *)
Definition active_count (s : SharedState) : Z := sumZ (fun u => b2z (active u)) (users s).

(** The deployed system: the first worker is inside [push], about to count a
    package, and the second waits for the mutex in [login]. *)
Definition second_waits : msys := mdrives (replicate 252 6%nat ++ replicate 50 7%nat) deployed.

(** Somebody presses Ctrl-C: the master gets the signal. *)
Definition told_to_stop : msys := user_signal 200 SIGINT second_waits.
Definition stopping : msys := run_handler 200 SIGINT true false (m_sys told_to_stop) told_to_stop.

(** The master has sent SIGTERM to the second worker, whose wait is interrupted. *)
Definition worker_2 : process := PWorker 2 (fun _ => zero_Package).
Definition signalling : msys := mrun 10 stopping.
Definition interrupted_login : msys :=
  match sys_step 7 (AErr EINTR) (m_sys signalling) with
  | Some s' => run_handler 207 SIGTERM false true s' signalling
  | None => signalling
  end.

(** It is about to activate its slot of the session table. *)
Definition both_writing : msys := mdrives (replicate 214 7%nat) interrupted_login.

Lemma told_to_stop_steps : msteps (mboot 16384 200) told_to_stop.
Proof.
  apply (rtc_r _ second_waits).
  - unfold second_waits. etrans; [apply deployed_steps|apply mdrives_msteps].
  - right. unfold told_to_stop. apply us_signal; [computed|by left].
Qed.

Lemma signalling_steps : msteps (mboot 16384 200) signalling.
Proof.
  unfold signalling, msteps. etrans; [|apply mrun_msteps]. apply (rtc_r _ told_to_stop); [apply told_to_stop_steps|].
  left. unfold stopping. apply (ms_handle _ _ PMaster NoWorker); [computed| |computed|reflexivity|reflexivity].
  apply (list_elem_of_lookup_2 _ 0). vm_compute. reflexivity.
Qed.

(** Recognising a blocked [semop] by evaluation. *)
Definition semop_thread (i : nat) (pid : Z) (ms : msys) : bool :=
  match threads (m_sys ms) !! i with Some th => (th_pid th =? pid) && in_semop (th_prog th) | None => false end.

Lemma semop_thread_true i pid ms :
  semop_thread i pid ms = true -> exists t, threads (m_sys ms) !! i = Some (mkThread pid t) /\ in_semop t = true.
Proof.
  unfold semop_thread. destruct (threads (m_sys ms) !! i) as [[p t]|]; [|done]. cbn. intros [H1 H2]%andb_true_iff.
  zbool. subst. eauto.
Qed.

Lemma interrupted_login_steps : msteps (mboot 16384 200) interrupted_login.
Proof.
  unfold interrupted_login. destruct (sys_step 7 (AErr EINTR) (m_sys signalling)) as [s'|] eqn:Hs; [|apply signalling_steps].
  destruct (semop_thread_true 7 207 signalling) as (t & Hi & Ht); [vm_compute; reflexivity|].
  pose proof (ms_interrupt 7 (mkThread 207 t) SIGTERM worker_2 NoWorker false signalling s' Hi) as Hstep.
  cbn [th_pid th_prog] in Hstep. rewrite Ht in Hstep. apply (rtc_r _ signalling); [apply signalling_steps|]. left.
  apply Hstep; [computed|by destruct t|computed| |reflexivity|reflexivity|exact Hs].
  apply (list_elem_of_lookup_2 _ 7). vm_compute. reflexivity.
Qed.

Lemma writes_belt_users s i : about_to_change active_count s i = true -> writes_belt s i.
Proof.
  intros (pid & g & k & Hth & Hne)%about_to_change_store. exists pid, g, k. split; [done|].
  intros He. apply Hne. unfold bpart in He. cbn in He. unfold active_count. congruence.
Qed.

(** C37. The shutdown breaks mutual exclusion: a [semop] that the master's SIGTERM
    interrupts returns to [semOperation], which treats [EINTR] as success, so
    the caller enters the critical section without the mutex.  After Ctrl-C at
    the master of a deployed system two workers are about to write the belt's
    part of the segment at the same time. *)
Theorem eintr_breaks_mutual_exclusion :
  exists ms, msteps (mboot 16384 200) ms /\ m_byhand ms = [] /\ m_over ms = false /\ m_broken ms = [207] /\
    writes_belt (m_sys ms) 6 /\ writes_belt (m_sys ms) 7.
Proof.
  exists both_writing. split; [unfold both_writing, msteps; etrans; [apply interrupted_login_steps|apply mdrives_msteps]|].
  split; [vm_compute; reflexivity|]. split; [vm_compute; reflexivity|]. split; [vm_compute; reflexivity|]. split.
  - apply writes_belt_total. vm_compute. reflexivity.
  - apply writes_belt_users. vm_compute. reflexivity.
Qed.

(** The mass limit of the belt is not enforced: [push] accepts a package
    that takes the belt beyond [MAX_BELT_WEIGHT_M], although its documentation
    says such a package is rejected. *)
Lemma push_ignores_mass_limit :
  exists pkg r w', exec 0 7 (push manager_belt pkg) (initial_world 16384) [] = Done r w' [] /\
    id r = 1 /\ current_items_count (w_shm w') = 1 /\
    (MAX_BELT_WEIGHT_M <? current_belt_weight (w_shm w'))%double = true.
Proof.
  exists (mkPackage 0 7 7 PackageType.TypeC PackageStatus.Normal (d_ofZ 5000) VOL_C 0 0 [] 0).
  do 2 eexists. split; [vm_compute; reflexivity|]. repeat split; vm_compute; congruence.
Qed.

(** Two packages of 0.1 kg and 0.2 kg. *)
Definition light (num : Z) : Package :=
  mkPackage 0 7 7 PackageType.TypeA PackageStatus.Normal (d_lit num 10) VOL_A 0 0 [] 0.

(** The weight of an empty belt drifts: after two pushes and two pops the
    belt is empty, but [current_belt_weight] is not zero, because the sum is
    kept in floating point and never reset. *)
Lemma empty_belt_weight_drifts :
  exists rs w', exec 0 7 (belt_ops manager_belt [BoundedQueue.Push (light 1); BoundedQueue.Push (light 2);
                                                BoundedQueue.Pop; BoundedQueue.Pop]) (initial_world 16384) [] = Done rs w' [] /\
    contents (w_shm w') = [] /\ current_belt_weight (w_shm w') <> d_zero /\
    (d_zero <? current_belt_weight (w_shm w'))%double = true.
Proof.
  do 2 eexists. split; [vm_compute; reflexivity|]. repeat split; vm_compute; congruence.
Qed.

(** The farewell of the console is two bytes longer than what is written of it:
    the last dot and the end of line are missing. *)
Lemma farewell_is_cut :
  String.length farewell = 53%nat /\ farewell = farewell_written +:+ "." +:+ String (ascii_of_nat 10) EmptyString.
Proof. split; reflexivity. Qed.

(** ** A package in the hand at the stop *)

(** C39. After the stop a package in a dispatcher's hand is lost.  Once [running]
    is false and every dispatcher has come to the test of its loop or of its
    retry loop (or has ended), as long as no [semop] is interrupted: nothing is
    loaded any more, no dispatcher writes a line of the belt or the dock, and
    so a package that was taken from the belt and not loaded stays off every
    truck and off the belt. *)
Theorem package_in_hand_lost_at_stop qbytes ps s s' :
  reachable qbytes ps s -> running (w_shm (s_world s)) = false ->
  (forall i th, dispatches ps i -> threads s !! i = Some th -> at_test th = true) -> calm_steps s s' ->
  loaded_ids (w_log (s_world s')) = loaded_ids (w_log (s_world s)) /\
  (forall i a s2, dispatches ps i -> sys_step i a s' = Some s2 ->
     belt_log (w_log (s_world s2)) = belt_log (w_log (s_world s')) /\ dock_log (w_log (s_world s2)) = dock_log (w_log (s_world s'))) /\
  (forall p, p ∈ popped_ids (w_log (s_world s)) -> p ∉ loaded_ids (w_log (s_world s)) ->
     (p ∉ loaded_ids (w_log (s_world s'))) /\
     (v_belt (w_sem (s_world s')) = 1 -> p ∉ map id (contents (w_shm (s_world s'))))).
Proof.
  intros Hr Hrun Htest Hst. pose proof (at_test_halted _ _ _ Hr Hrun Htest) as Hh.
  destruct (halted_steps _ _ _ Hst Hh) as [[_ Hrun' Hid] Hl]. split; [done|]. split.
  - intros i a s2 Hd (th & t' & w' & Hi & He & ->)%sys_step_inv. by eapply idles_step; [eapply Hid| |].
  - intros p Hp Hnl. rewrite Hl. split; [done|]. apply (popped_off_belt qbytes ps).
    + destruct Hr as [Hnd Hbs]. split; [done|]. unfold calm_steps. by etrans.
    + by eapply popped_grows.
Qed.

(** The worker pushes, the dispatcher takes a package while no truck is there,
    the operator stops the system, and the dispatcher comes to its retry test
    with the package in its hand; then it ends. *)
Definition stopped_in_hand : sys :=
  drives false "stop" (replicate 401 2%nat ++ replicate 261 1%nat ++ replicate 500 3%nat ++ replicate 3 1%nat) (boot 16384 demo_ps).
Definition hand_lost : sys := drives false "stop" (replicate 60 1%nat) stopped_in_hand.

Lemma package_in_hand_lost_at_stop_witness :
  popped_ids (w_log (s_world stopped_in_hand)) = [1] /\
  match threads hand_lost !! 1%nat with Some th => is_finished th | None => false end = true /\
  (1 ∉ loaded_ids (w_log (s_world hand_lost))) /\ 1 ∉ map id (contents (w_shm (s_world hand_lost))).
Proof.
  assert (popped_ids (w_log (s_world stopped_in_hand)) = [1]) as Hp by (vm_compute; reflexivity). split; [exact Hp|].
  split; [vm_compute; reflexivity|].
  assert (reachable 16384 demo_ps stopped_in_hand) as Hr by (split; [by apply (bool_decide_unpack _)|apply drives_calm]).
  destruct (package_in_hand_lost_at_stop 16384 demo_ps stopped_in_hand hand_lost Hr) as (_ & _ & H).
  - vm_compute. reflexivity.
  - intros i th [pid Hd] Hi. destruct i as [|[|[|[|i]]]]; try discriminate Hd.
    assert (match threads stopped_in_hand !! 1%nat with Some x => at_test x | None => false end = true) as Ht by (vm_compute; reflexivity).
    rewrite Hi in Ht. exact Ht.
  - apply drives_calm.
  - destruct (H 1) as [H1 H2]; [rewrite Hp; by left|vm_compute; intros Hin; by apply not_elem_of_nil in Hin|].
    split; [exact H1|]. apply H2. vm_compute. reflexivity.
Defined.

(** ** A process killed in the critical section *)

(** C40. A process that a signal ends inside the dock's critical section keeps the
    dock.  Every successful [lockDock] leads into such a section
    ([in_dock_section]: the next semaphore the process would use is the dock's,
    to give it back); when a signal ends the process at any point of it, the
    mutex stays taken from then on, whatever the others do, as long as the
    resources exist and no [semop] is interrupted.  The dispatcher has no
    handler for the SIGTERM that the master sends it, and can be such a
    process. *)
Theorem killed_holder_keeps_dock qbytes mpid ms i th ms' :
  msteps (mboot qbytes mpid) ms -> threads (m_sys ms) !! i = Some th ->
  msteps ms ms' -> m_over ms' = false -> m_broken ms' = [] ->
  (forall k, th_prog th = Semop SEM_DOCK_MUTEX (-1) k -> in_dock_section (k None)) /\
  (in_dock_section (th_prog th) -> th_pid th ∈ m_dead ms -> v_dock (w_sem (s_world (m_sys ms'))) = 0).
Proof.
  intros Hst Hi Hst' Ho Hb. split.
  - intros k Hk. destruct (msteps_back _ _ Hst' Ho Hb) as [Ho0 Hb0].
    pose proof (reachable_brackets _ _ _ th (deployed_reachable _ _ _ Hst Ho0 Hb0) (list_elem_of_lookup_2 _ _ _ Hi)) as Hbr.
    rewrite Hk in Hbr. by apply Hbr.
  - intros Hin Hd. pose proof (dead_stays_steps _ _ _ _ Hst' Hi Hd) as Hi'.
    eapply section_zero; [|exact Hi'|exact Hin]. eapply deployed_reachable; [|done|done]. unfold msteps. by etrans.
Qed.

(** The dispatcher has taken the dock and is about to write the new weight of
    the truck, seven steps later, when a signal ends it. *)
Definition at_lock : msys := mdrives (replicate 401 6%nat ++ replicate 300 4%nat ++ replicate 250 1%nat) deployed.
Definition has_lock : msys := mdrives [1%nat] at_lock.
Definition loading : msys := mdrives (replicate 6 1%nat) has_lock.
Definition killed_dispatcher : msys := end_process 201 SIGTERM (user_signal 201 SIGTERM loading).

Lemma loading_steps : msteps (mboot 16384 200) at_lock /\ msteps at_lock loading.
Proof.
  split; [unfold at_lock, msteps; etrans; [apply deployed_steps|apply mdrives_msteps]|].
  unfold loading, has_lock, msteps. etrans; apply mdrives_msteps.
Qed.

Lemma killed_dispatcher_steps : msteps (mboot 16384 200) killed_dispatcher.
Proof.
  apply (rtc_r _ (user_signal 201 SIGTERM loading)); [apply (rtc_r _ loading)|].
  - unfold msteps. etrans; apply loading_steps.
  - right. apply us_signal; [computed|by right].
  - left. unfold killed_dispatcher. apply (ms_die 201 SIGTERM PDispatcher); [computed| |by left].
    apply (list_elem_of_lookup_2 _ 1). vm_compute. reflexivity.
Qed.

(** Recognising a thread that asks for the dock, by evaluation. *)
Definition asks_dock (i : nat) (ms : msys) : bool :=
  match threads (m_sys ms) !! i with
  | Some th => match th_prog th with Semop SEM_DOCK_MUTEX op _ => op =? -1 | _ => false end
  | None => false
  end.

Lemma asks_dock_true i ms :
  asks_dock i ms = true -> exists pid k, threads (m_sys ms) !! i = Some (mkThread pid (Semop SEM_DOCK_MUTEX (-1) k)).
Proof.
  unfold asks_dock. destruct (threads (m_sys ms) !! i) as [[pid t]|]; [|done]. cbn.
  destruct t as [| | |[] op k| | | | | | | | | | | | | | | |]; try done. intros H. zbool. subst. eauto.
Qed.

(** The step that takes the dock. *)
Lemma takes_dock_step i pid k ms :
  threads (m_sys ms) !! i = Some (mkThread pid (Semop SEM_DOCK_MUTEX (-1) k)) -> pid ∉ m_dead ms ->
  w_sem_alive (s_world (m_sys ms)) = true -> v_dock (w_sem (s_world (m_sys ms))) = 1 ->
  threads (m_sys (mdrives [i] ms)) !! i = Some (mkThread pid (k None)).
Proof.
  intros Hi Hd Ha Hv. cbn [mdrives]. unfold mchild. rewrite Hi. cbn [mbind option_bind th_pid th_prog process_call some_answer].
  rewrite bool_decide_false by done. cbn [orb]. unfold sys_step. rewrite Hi. cbn. rewrite Ha, Hv. cbn.
  apply list_lookup_insert_eq. by eapply lookup_lt_Some.
Qed.

(** Thread [i] makes [n] steps of a section, by evaluation. *)
Fixpoint walks_inside (n i : nat) (ms : msys) : bool :=
  match n with
  | O => true
  | S m =>
      in_int (trucks_completed (w_shm (s_world (m_sys ms))) + 1) &&
      in_int (current_load (dock_truck (w_shm (s_world (m_sys ms)))) + 1) &&
      match threads (m_sys ms) !! i, mchild i ms with
      | Some th, Some ms' => negb (in_semop (th_prog th)) && walks_inside m i ms'
      | _, _ => false
      end
  end.

Lemma walks_inside_section n i ms :
  walks_inside n i ms = true -> (exists th, threads (m_sys ms) !! i = Some th /\ in_dock_section (th_prog th)) ->
  exists th, threads (m_sys (mdrives (replicate n i) ms)) !! i = Some th /\ in_dock_section (th_prog th).
Proof.
  revert ms; induction n as [|n IH]; intros ms Hw (th & Hi & Hin); cbn in *; [by exists th|]. rewrite Hi in Hw.
  destruct (mchild i ms) as [ms'|] eqn:Hc; [|by rewrite andb_false_r in Hw].
  apply andb_true_iff in Hw as [[H1 H2]%andb_true_iff [H3 H4]%andb_true_iff]. apply (IH ms' H4). unfold mchild in Hc. rewrite Hi in Hc. cbn in Hc.
  destruct (bool_decide _ || process_call (th_prog th)); [done|]. destruct (sys_step _ _ _) as [s'|] eqn:Hs; [|done]. cbn in Hc. simplify_eq.
  apply sys_step_inv in Hs as (th0 & t' & w' & Hi0 & He & ->). rewrite Hi in Hi0. injection Hi0 as <-. cbn. exists (mkThread (th_pid th) t').
  split; [apply list_lookup_insert_eq; by eapply lookup_lt_Some|].
  destruct (section_step _ _ _ _ _ _ Hin (conj H1 H2) He) as [Hsem|?]; [by rewrite Hsem in H3|done].
Qed.

Lemma end_process_sys pid sig ms : m_sys (end_process pid sig (user_signal pid sig ms)) = m_sys ms.
Proof. reflexivity. Qed.

Lemma killed_sys : m_sys killed_dispatcher = m_sys (mdrives (replicate 6 1%nat) has_lock).
Proof. unfold killed_dispatcher. rewrite end_process_sys. unfold loading. reflexivity. Qed.

(** Another truck tries to dock, and cannot. *)
Definition truck_tries : msys := mdrives (replicate 500 5%nat) killed_dispatcher.

Lemma killed_holder_keeps_dock_witness :
  m_dead killed_dispatcher = [201] /\ about_to_change (fun s => b2z (bool_decide (current_weight (dock_truck s) = d_zero))) (m_sys loading) 1 = true /\
  v_dock (w_sem (s_world (m_sys truck_tries))) = 0.
Proof.
  split; [vm_compute; reflexivity|]. split; [vm_compute; reflexivity|].
  destruct (asks_dock_true 1 at_lock) as (pid & k & Hk); [vm_compute; reflexivity|].
  assert (m_over at_lock = false) as Ho by (vm_compute; reflexivity). assert (m_broken at_lock = []) as Hb by (vm_compute; reflexivity).
  assert (in_dock_section (k None)) as Hin
    by exact (proj1 (killed_holder_keeps_dock 16384 200 at_lock 1 _ at_lock (proj1 loading_steps) Hk (rtc_refl _ _) Ho Hb) k eq_refl).
  destruct (walks_inside_section 6 1 has_lock) as (th & Hth & Hsec); [vm_compute; reflexivity| |].
  { exists (mkThread pid (k None)). split; [|exact Hin]. unfold has_lock. apply takes_dock_step; [exact Hk|replace (m_dead at_lock) with (@nil Z) by (vm_compute; reflexivity); apply not_elem_of_nil
    |vm_compute; reflexivity|vm_compute; reflexivity]. }
  rewrite <- killed_sys in Hth. assert (th_pid th = 201) as Hpid.
  { assert (option_map th_pid (threads (m_sys killed_dispatcher) !! 1%nat) = Some 201) as H by (vm_compute; reflexivity).
    rewrite Hth in H. by injection H. }
  refine (proj2 (killed_holder_keeps_dock 16384 200 killed_dispatcher 1 th truck_tries killed_dispatcher_steps Hth _ _ _) Hsec _).
  - apply mdrives_msteps.
  - vm_compute. reflexivity.
  - vm_compute. reflexivity.
  - rewrite Hpid. replace (m_dead killed_dispatcher) with [201] by (vm_compute; reflexivity). by left.
Defined.
