(* ===== verification/Tests.v ===== *)
(** * The unit tests of the repository ([src/test/])

    The tests of the sources as programs of the model, run by [exec]: each is
    written with the fixture's callbacks and yields the list of its
    expectations.  The examples below evaluate them, so the model is checked
    against what the authors of the code expect of it.  A local [Package] whose
    members a test does not set is zero-filled here.  Tests that start threads
    are given as the order in which their calls complete. *)

From S2P Require Import Prelude Double Shared Ipc Belt SessionManager Truck Dispatcher Express Manager Worker Terminal Config Args.

(** ** Running a test *)

Definition test : Type := prog (list bool).

Definition passes_in (w : world) (inputs : list answer) (t : test) : bool :=
  match exec 100 42 t w inputs with Done l _ _ => forallb (fun b => b) l | _ => false end.

(** The fixtures: a segment of zero bytes with callbacks that do nothing, and
    the resources of an owning [Manager]. *)
Definition mock_shared_memory : world := mkWorld zero_SharedState (mkSemset 0 0 0 0) true [] 16384 true [].
Definition owner_world : world := initial_world 16384.

Definition no_op_belt : Belt := mkBelt true skip skip skip skip skip skip.
Definition no_op_sessions : SessionManager := new_SessionManager true skip skip.

Definition weighing (num den : Z) : Package :=
  mkPackage 0 0 0 PackageType.None PackageStatus.Normal (d_lit num den) d_zero 0 0 (history zero_Package) 0.

(** Expectations. *)
Definition EXPECT_EQ (x y : Z) : bool := x =? y.
Definition EXPECT_DOUBLE_EQ (x y : double) : bool := bool_decide (x = y).
Definition belt_at (i : Z) : prog Package := load_at belt i.

(** ** [belt_test.cpp] *)

(** Register [n] workers; after each one the count is one more. *)
Fixpoint register_n (b : Belt) (n : nat) (i : Z) : test :=
  match n with
  | O => Ret []
  | S m =>
      let* ok := registerWorker b in
      let* c := load current_workers_count in
      let* rest := register_n b m (i + 1) in
      Ret ([ok; EXPECT_EQ c (i + 1)] ++ rest)
  end.

Definition WorkerRegistrationLogic : test :=
  let* ok := register_n no_op_belt (Z.to_nat MAX_WORKERS_PER_BELT) 0 in
  let* over := registerWorker no_op_belt in
  let* c := load current_workers_count in
  Ret (ok ++ [negb over; EXPECT_EQ c MAX_WORKERS_PER_BELT]).

Definition WorkerUnregistrationLogic : test :=
  store (set_current_workers_count 2) ;;
  unregisterWorker no_op_belt ;;
  let* c1 := load current_workers_count in
  unregisterWorker no_op_belt ;;
  let* c2 := load current_workers_count in
  unregisterWorker no_op_belt ;;
  let* c3 := load current_workers_count in
  Ret [EXPECT_EQ c1 1; EXPECT_EQ c2 0; EXPECT_EQ c3 0].

Definition StandardFlowWithWorkers : test :=
  registerWorker no_op_belt ;;
  push no_op_belt (weighing 10 1) ;;
  let* n1 := load current_items_count in
  let* b0 := belt_at 0 in
  let* out := pop no_op_belt in
  let* n2 := load current_items_count in
  Ret [EXPECT_EQ n1 1; EXPECT_EQ (id b0) 1; EXPECT_EQ (id out) 1; EXPECT_EQ n2 0].

Definition PushUpdatesStateAndTail : test :=
  push no_op_belt (weighing 105 10) ;;
  let* n := load current_items_count in
  let* wgt := load current_belt_weight in
  let* total := load total_packages_created in
  let* tl := load tail in
  let* hd := load head in
  let* b0 := belt_at 0 in
  Ret [EXPECT_EQ n 1; EXPECT_DOUBLE_EQ wgt (d_lit 105 10); EXPECT_EQ total 1; EXPECT_EQ tl 1; EXPECT_EQ hd 0; EXPECT_EQ (id b0) 1].

Definition PopReturnsCorrectDataAndUpdatesHead : test :=
  store (fun s => set_belt (<[0%nat := set_id 202 (weighing 5 1)]> (belt s)) s) ;;
  store (set_tail 1) ;;
  store (set_current_items_count 1) ;;
  store (set_current_belt_weight (d_ofZ 5)) ;;
  let* out := pop no_op_belt in
  let* n := load current_items_count in
  let* wgt := load current_belt_weight in
  let* hd := load head in
  Ret [EXPECT_EQ (id out) 202; EXPECT_DOUBLE_EQ (weight out) (d_ofZ 5); EXPECT_EQ n 0; EXPECT_DOUBLE_EQ wgt d_zero; EXPECT_EQ hd 1].

Definition CircularLogicWrapAround : test :=
  store (set_tail (MAX_BELT_CAPACITY_K - 1)) ;;
  push no_op_belt zero_Package ;;
  let* last := belt_at (MAX_BELT_CAPACITY_K - 1) in
  let* tl := load tail in
  Ret [EXPECT_EQ (id last) 1; EXPECT_EQ tl 0].

Definition FIFOOrdering : test :=
  push no_op_belt (weighing 10 1) ;;
  push no_op_belt (weighing 20 1) ;;
  let* out1 := pop no_op_belt in
  let* out2 := pop no_op_belt in
  Ret [EXPECT_EQ (id out1) 1; EXPECT_EQ (id out2) 2].

Definition GetCountReturnsCorrectValue : test :=
  store (set_current_items_count 5) ;;
  let* n := getCount no_op_belt in
  Ret [EXPECT_EQ n 5].

Definition SafetyNullCheck : test :=
  let unsafe_belt := mkBelt false skip skip skip skip skip skip in
  push unsafe_belt zero_Package ;;
  let* out := pop unsafe_belt in
  Ret [EXPECT_EQ (id out) 0].

Example belt_tests_pass :
  forallb (passes_in mock_shared_memory [])
    [WorkerRegistrationLogic; WorkerUnregistrationLogic; StandardFlowWithWorkers; PushUpdatesStateAndTail;
     PopReturnsCorrectDataAndUpdatesHead; CircularLogicWrapAround; FIFOOrdering; GetCountReturnsCorrectValue; SafetyNullCheck] = true.
Proof. vm_compute. reflexivity. Qed.

(** ** [shared_test.cpp] *)

Example BitwiseFlagsLogic :
  let mask := PackageType.or PackageType.TypeA PackageType.TypeC in
  [PackageType.hasFlag mask PackageType.TypeA; PackageType.hasFlag mask PackageType.TypeC;
   PackageType.hasFlag mask PackageType.TypeB] = [true; true; false] /\
  PackageType.and mask PackageType.TypeA = PackageType.TypeA.
Proof. vm_compute. split; reflexivity. Qed.

Example ActionTypeComposition :
  let action := ActionType.or ActionType.Created ActionType.ByWorker in
  [ActionType.hasFlag action ActionType.Created; ActionType.hasFlag action ActionType.ByWorker;
   ActionType.hasFlag action ActionType.ByTruck] = [true; true; false].
Proof. vm_compute. reflexivity. Qed.

(** The clock shows [now]. *)
Definition PushActionUpdatesState (now : Z) : bool :=
  match pushAction ActionType.Created 123 now now zero_Package with
  | Some p =>
      match history p !! 0%nat with
      | Some r => EXPECT_EQ (history_count p) 1 && EXPECT_EQ (editor_pid p) 123 && (0 <? updated_at p) &&
                  EXPECT_EQ (ar_actor_pid r) 123 && EXPECT_EQ (ar_type r) ActionType.Created
      | None => false
      end
  | None => false
  end.

Definition PushActionBoundaryCheck (now : Z) : bool :=
  match pushActions (map (fun i => (ActionType.PlacedOnBelt, i, now, now)) (seqZ 0 (MAX_PACKAGE_HISTORY + 2))) zero_Package with
  | Some p =>
      match history p !! Z.to_nat (MAX_PACKAGE_HISTORY - 1) with
      | Some r => EXPECT_EQ (history_count p) MAX_PACKAGE_HISTORY && EXPECT_EQ (ar_actor_pid r) (MAX_PACKAGE_HISTORY - 1)
      | None => false
      end
  | None => false
  end.

Example shared_tests_pass : PushActionUpdatesState 1700000000 && PushActionBoundaryCheck 1700000000 = true.
Proof. vm_compute. reflexivity. Qed.

(** ** [truck_test.cpp]

    The calls of the mutex callbacks are counted through the log; the scenario
    of signals is the message queue. *)

Definition mock_lock : prog unit := log (ProcNote "lock").
Definition mock_unlock : prog unit := log (ProcNote "unlock").
Definition mock_wait (_ : Z) : prog SignalType :=
  Msgrcv 42 true (fun r => match r with inl _ => Ret SIGNAL_END_WORK | inr _ => received r end).

Definition calls_of (name : string) (l : list log_msg) : Z :=
  Z.of_nat (length (filter (fun m => match m with ProcNote x => String.eqb x name | _ => false end = true) l)).

Definition truck_world : world :=
  mkWorld (set_running true zero_SharedState) (mkSemset 0 0 0 0) true
    [mkCommandMessage 42 (signal_to_int SIGNAL_DEPARTURE); mkCommandMessage 42 (signal_to_int SIGNAL_END_WORK)] 16384 true [].

(** The random draws of two dockings and one trip. *)
Definition truck_inputs : list answer :=
  [AReal (d_ofZ 300); AReal (d_ofZ 2); AInt 1234; AReal (d_ofZ 400); AReal (d_ofZ 1)].

Definition FullCycleScenario : bool :=
  match exec 100 42 (truck_run (mkTruck true 42 mock_lock mock_unlock mock_wait)) truck_world truck_inputs with
  | Done _ w _ =>
      EXPECT_EQ (trucks_completed (w_shm w)) 1 && negb (is_present (dock_truck (w_shm w))) &&
      (2 <? calls_of "lock" (w_log w)) && (2 <? calls_of "unlock" (w_log w))
  | _ => false
  end.

Definition InitializesTruckDataInSharedMemory : bool :=
  match exec 100 42 (truck_run (mkTruck true 42 mock_lock mock_unlock mock_wait)) truck_world truck_inputs with
  | Done _ w _ => negb (truck_id (dock_truck (w_shm w)) =? 0) && (0 <? max_load (dock_truck (w_shm w)))
  | _ => false
  end.

Example truck_tests_pass : FullCycleScenario && InitializesTruckDataInSharedMemory = true.
Proof. vm_compute. reflexivity. Qed.

(** ** [dispatcher_test.cpp] *)

Definition put_truck (t : TruckState) : prog unit :=
  lockDock ;;
  store (set_dock_truck t) ;;
  unlockDock.

Definition SuccessfulLoad : test :=
  put_truck (mkTruckState true 101 0 100 d_zero d_zero (d_ofZ 100) (d_ofZ 10)) ;;
  push manager_belt (mkPackage 500 0 0 PackageType.None PackageStatus.Normal (d_lit 105 10) (d_lit 1 10) 0 0 (history zero_Package) 0) ;;
  processNextPackage manager_dispatcher ;;
  lockDock ;;
  let* t := load dock_truck in
  unlockDock ;;
  Ret [EXPECT_EQ (current_load t) 1; EXPECT_DOUBLE_EQ (current_weight t) (d_lit 105 10); EXPECT_DOUBLE_EQ (current_volume t) (d_lit 1 10)].

Example dispatcher_tests_pass : passes_in owner_world [] SuccessfulLoad = true.
Proof. vm_compute. reflexivity. Qed.

(** ** [express_test.cpp]

    The signals that are sent go to the log. *)

Definition mock_signal (p : Z) (s : SignalType) : prog unit := log (SignalSent (signal_to_int s) p).
Definition mock_express : Express := mkExpress true mock_lock skip mock_signal.

Definition signals_sent (l : list log_msg) : list (Z * Z) :=
  omap (fun m => match m with SignalSent s p => Some (s, p) | _ => None end) l.

Definition express_world (present : bool) (max_w : double) : world :=
  mkWorld (set_dock_truck (mkTruckState present 99 0 100 d_zero d_zero max_w (d_ofZ 100)) zero_SharedState)
    (mkSemset 0 0 0 0) true [] 16384 true [].

(** A batch of three: 2.5 kg of type A, 7 kg of type B, 14 kg of type C. *)
Definition batch_inputs : list answer :=
  [AInt 3; AReal (d_lit 25 10); AInt 0; AReal (d_ofZ 7); AInt 1; AReal (d_ofZ 14); AInt 2].

Definition after_batch (w : world) (check : world -> bool) : bool :=
  match exec 100 42 (deliverExpressBatch mock_express) w batch_inputs with Done _ w' _ => check w' | _ => false end.

Definition DeliverExpressBatch_Success : bool :=
  after_batch (express_world true (d_ofZ 1000)) (fun w =>
    (1 <=? calls_of "lock" (w_log w)) && (d_zero <? current_weight (dock_truck (w_shm w)))%double &&
    (d_zero <? current_volume (dock_truck (w_shm w)))%double).

Definition HandleNoTruckGracefully : bool :=
  after_batch (express_world false (d_ofZ 1000)) (fun w =>
    EXPECT_EQ (current_load (dock_truck (w_shm w))) 0 && bool_decide (signals_sent (w_log w) = [])).

Definition TruckFull_TriggersDeparture : bool :=
  after_batch (express_world true (d_lit 1 10)) (fun w =>
    match list.last (signals_sent (w_log w)) with Some (s, _) => EXPECT_EQ s (signal_to_int SIGNAL_DEPARTURE) | None => false end).

Example express_tests_pass : DeliverExpressBatch_Success && HandleNoTruckGracefully && TruckFull_TriggersDeparture = true.
Proof. vm_compute. reflexivity. Qed.

(** ** [session_manager_test.cpp] *)

Definition user_at (i : Z) : prog UserSession := load_at users i.

Definition DefaultStateIsSafe : test :=
  let* ok := trySpawnProcess no_op_sessions in
  Ret [EXPECT_EQ (getSessionIndex no_op_sessions) (-1); negb ok].

Definition LoginSpawnLogoutFlow : test :=
  let* res := login no_op_sessions "Tester" UserRole.Operator 100 2 in
  let sm := snd res in
  let idx := getSessionIndex sm in
  let* u1 := user_at idx in
  let* ok := trySpawnProcess sm in
  let* u2 := user_at idx in
  let* sm' := logout sm in
  let* u3 := user_at idx in
  Ret [fst res; negb (idx =? -1); active u1; String.eqb (std_string (username u1)) "Tester"; EXPECT_EQ (max_processes u1) 2;
       EXPECT_EQ (role u1) UserRole.Operator; EXPECT_EQ (orgId u1) 100; ok; EXPECT_EQ (current_processes u2) 1;
       negb (active u3); EXPECT_EQ (getSessionIndex sm') (-1); EXPECT_EQ (role u3) UserRole.None].

Definition ProcessLimitsEnforcement : test :=
  let* res := login no_op_sessions "LimitUser" UserRole.Viewer 0 2 in
  let sm := snd res in
  let* a := trySpawnProcess sm in
  let* b := trySpawnProcess sm in
  let* c := trySpawnProcess sm in
  reportProcessFinished sm ;;
  let* d := trySpawnProcess sm in
  Ret [a; b; negb c; d].

Definition PreventDuplicateUsernames : test :=
  let* r1 := login no_op_sessions "UniqueUser" UserRole.SysAdmin 0 5 in
  let* r2 := login no_op_sessions "UniqueUser" UserRole.Viewer 0 5 in
  let* r3 := login (snd r2) "OtherUser" UserRole.Viewer 0 5 in
  Ret [fst r1; negb (fst r2); fst r3].

(** Log in users number [i], [i + 1], ... *)
Fixpoint login_n (sm : SessionManager) (n : nat) (i : Z) : test :=
  match n with
  | O => Ret []
  | S m =>
      let* res := login sm ("User" +:+ to_string i) UserRole.Viewer (i * 10) 1 in
      let* rest := login_n sm m (i + 1) in
      Ret (fst res :: rest)
  end.

Definition MaxUsersSaturation : test :=
  let* ok := login_n no_op_sessions (Z.to_nat MAX_USERS_SESSIONS) 0 in
  let* over := login no_op_sessions "OverflowUser" UserRole.Viewer 99 1 in
  Ret (ok ++ [negb (fst over)]).

Definition NullSharedMemorySafety : test :=
  let unsafe_sm := new_SessionManager false skip skip in
  let* res := login unsafe_sm "Ghost" UserRole.Viewer 0 1 in
  let* ok := trySpawnProcess unsafe_sm in
  logout unsafe_sm ;;
  reportProcessFinished unsafe_sm ;;
  Ret [negb (fst res); negb ok].

Definition ProcessCountUnderflow : test :=
  let* res := login no_op_sessions "MathUser" UserRole.Operator 10 5 in
  let sm := snd res in
  reportProcessFinished sm ;;
  let* u1 := user_at (getSessionIndex sm) in
  let* ok := trySpawnProcess sm in
  reportProcessFinished sm ;;
  let* u2 := user_at (getSessionIndex sm) in
  Ret [fst res; EXPECT_EQ (current_processes u1) 0; ok; EXPECT_EQ (current_processes u2) 0].

Definition GetCurrentRoleTest : test :=
  let* r0 := getCurrentRole no_op_sessions in
  let complexRole := UserRole.or UserRole.SysAdmin UserRole.Operator in
  let* res := login no_op_sessions "AdminUser" complexRole 0 5 in
  let* r1 := getCurrentRole (snd res) in
  Ret [EXPECT_EQ r0 UserRole.None; EXPECT_EQ r1 complexRole; UserRole.hasFlag r1 UserRole.SysAdmin; UserRole.hasFlag r1 UserRole.Operator].

Example session_tests_pass :
  forallb (passes_in mock_shared_memory [])
    [DefaultStateIsSafe; LoginSpawnLogoutFlow; ProcessLimitsEnforcement; PreventDuplicateUsernames; MaxUsersSaturation;
     NullSharedMemorySafety; ProcessCountUnderflow; GetCurrentRoleTest] = true.
Proof. vm_compute. reflexivity. Qed.

(** ** [worker_test.cpp]

    The test's thread calls [stop()] after the round: the answers of [SigFlag]
    say whether it has. *)

Definition mock_manager (sm : SessionManager) : Manager :=
  mkManager sm no_op_belt (manager_truck 42) manager_express manager_dispatcher.

Definition worker_world : world := mkWorld (set_running true zero_SharedState) (mkSemset 0 0 0 0) true [] 16384 true [].

Definition go_on : answer := ABool false.
Definition stop_now : answer := ABool true.

Definition WorkerRegistrationLifecycle : bool :=
  match exec 100 42 (worker_run (mock_manager no_op_sessions) 101 (fun _ => zero_Package)) worker_world [go_on; stop_now] with
  | Done _ w _ =>
      existsb (fun m => match m with WorkerJoined n => n =? 1 | _ => false end) (w_log w) &&
      EXPECT_EQ (current_workers_count (w_shm w)) 0
  | _ => false
  end.

(** One package of the given roll and weight. *)
Definition WorkerGeneratesPackages (roll : Z) (wgt : double) : bool :=
  let run :=
    let* res := login no_op_sessions "test_worker" UserRole.Operator 0 10 in
    worker_run (mock_manager (snd res)) 102 (fun _ => zero_Package) in
  match exec 100 42 run worker_world [go_on; AInt roll; AReal wgt; stop_now] with
  | Done _ w _ =>
      let s := w_shm w in
      let tail_idx := if 0 <? tail s then tail s - 1 else MAX_BELT_CAPACITY_K - 1 in
      match belt s !! Z.to_nat tail_idx with
      | Some last_pkg =>
          (0 <? total_packages_created s) && (0 <? current_items_count s) && (d_ofZ 1 <=? weight last_pkg)%double
      | None => false
      end
  | _ => false
  end.

Definition WorkerRespectsFullBelt : bool :=
  let run :=
    store (set_current_items_count MAX_BELT_CAPACITY_K) ;;
    let* res := login no_op_sessions "test_worker" UserRole.Operator 0 10 in
    worker_run (mock_manager (snd res)) 103 (fun _ => zero_Package) in
  match exec 100 42 run worker_world [go_on; AInt 0; AReal (d_ofZ 2); stop_now] with
  | Done _ w _ =>
      EXPECT_EQ (current_items_count (w_shm w)) MAX_BELT_CAPACITY_K && EXPECT_EQ (current_workers_count (w_shm w)) 0
  | _ => false
  end.

Example worker_tests_pass : WorkerRegistrationLifecycle && WorkerGeneratesPackages 1 (d_ofZ 9) && WorkerRespectsFullBelt = true.
Proof. vm_compute. reflexivity. Qed.

(** The test of the weight expects at least 1.0 kg, but a type A package may
    weigh as little as 0.1 kg: the test can fail with correct code. *)
Example WorkerGeneratesPackages_may_fail : WorkerGeneratesPackages 0 (d_lit 5 10) = false.
Proof. vm_compute. reflexivity. Qed.

(** ** [terminal_manager_test.cpp] *)

(** [SetUp] with the truck at the dock and two logins of one session object,
    then the test's own logins, the lines of the operator and what arrives. *)
Definition terminal_setup : prog SessionManager :=
  let* r1 := login manager_sessions "Admin" UserRole.SysAdmin 0 1 in
  put_truck (set_is_present true (set_truck_id 42 zero_TruckState)) ;;
  let* r2 := login (snd r1) "System-Express" UserRole.Operator 0 2 in
  Ret (snd r2).

Definition relogin (sm : SessionManager) (name : string) (r : UserRole.t) : prog SessionManager :=
  let* sm' := logout sm in
  let* res := login sm' name r 0 1 in
  Ret (snd res).

(** [runTestLoop] with [n] lines of input left. *)
Fixpoint runTestLoop (sm : SessionManager) (tm : TerminalManager) (n : nat) : prog TerminalManager :=
  match n with
  | O => Ret tm
  | S m =>
      let* r := load running in
      if negb r then Ret tm else
      let* tm' := runOnce sm tm in
      runTestLoop sm tm' m
  end.

Definition typed (l : string) : list answer := [ABool true; ALine (Some l)].

Definition SendsVipSignal : test :=
  let* sm := terminal_setup in
  runTestLoop sm new_TerminalManager 2 ;;
  let* sig := receiveSignalNonBlocking 42 in
  Ret [EXPECT_EQ (signal_to_int sig) (signal_to_int SIGNAL_EXPRESS_LOAD)].

Definition SendsDepartSignal : test :=
  let* sm := terminal_setup in
  runTestLoop sm new_TerminalManager 2 ;;
  let* sig := receiveSignalNonBlocking 42 in
  Ret [EXPECT_EQ (signal_to_int sig) (signal_to_int SIGNAL_DEPARTURE)].

Definition SendsStopSignal : test :=
  let* sm := terminal_setup in
  let* root := relogin sm "Root" UserRole.SysAdmin in
  runTestLoop root new_TerminalManager 1 ;;
  let* r := load running in
  let* sig := receiveSignalNonBlocking 42 in
  Ret [negb r; EXPECT_EQ (signal_to_int sig) (signal_to_int SIGNAL_END_WORK)].

Definition PermissionDeniedForViewer : test :=
  let* sm := terminal_setup in
  let* viewer := relogin sm "ViewerUser" UserRole.Viewer in
  runTestLoop viewer new_TerminalManager 2 ;;
  let* sig := receiveSignalNonBlocking 42 in
  Ret [EXPECT_EQ (signal_to_int sig) (signal_to_int SIGNAL_NONE)].

Example terminal_tests_pass :
  passes_in owner_world (typed "vip" ++ [go_on] ++ typed "exit") SendsVipSignal &&
  passes_in owner_world (typed "depart" ++ [go_on] ++ typed "exit") SendsDepartSignal &&
  passes_in owner_world (typed "stop") SendsStopSignal &&
  passes_in owner_world (typed "vip" ++ [go_on] ++ typed "exit") PermissionDeniedForViewer = true.
Proof. vm_compute. reflexivity. Qed.

(** ** [manager_test.cpp]

    A second [Manager] of the same process works on the same resources. *)

Definition InitializationAsOwner : bool :=
  match Manager_ctor (fun _ => None) true (mkIpc None None None 16384, []) with
  | (inr _, (k, _)) =>
      match k_shm k with
      | Some s => running s && EXPECT_EQ (trucks_completed s) 0 && EXPECT_EQ (total_packages_created s) 0
      | None => false
      end
  | (inl _, _) => false
  end.

Definition SharedMemorySync : test :=
  store (set_current_belt_weight (d_lit 125 10)) ;;
  store (set_head 5) ;;
  let* wgt := load current_belt_weight in
  let* hd := load head in
  store (set_tail 3) ;;
  let* tl := load tail in
  Ret [EXPECT_DOUBLE_EQ wgt (d_lit 125 10); EXPECT_EQ hd 5; EXPECT_EQ tl 3].

Definition MessageQueueCommunication : test :=
  let* none := receiveSignalNonBlocking 42 in
  sendSignal 42 SIGNAL_DEPARTURE ;;
  let* got := receiveSignalNonBlocking 42 in
  Ret [EXPECT_EQ (signal_to_int none) (signal_to_int SIGNAL_NONE); EXPECT_EQ (signal_to_int got) (signal_to_int SIGNAL_DEPARTURE)].

Definition SemaphoreSanity : test :=
  lockBelt ;;
  let* n := load current_items_count in
  store (set_current_items_count (n + 1)) ;;
  unlockBelt ;;
  lockDock ;;
  unlockDock ;;
  Ret [].

Definition SessionManager_BasicLifecycle : test :=
  let* res := login manager_sessions "TestUser" UserRole.Operator 100 2 in
  let sm := snd res in
  let* a := trySpawnProcess sm in
  let* b := trySpawnProcess sm in
  let* c := trySpawnProcess sm in
  reportProcessFinished sm ;;
  let* d := trySpawnProcess sm in
  Ret [fst res; a; b; negb c; d].

Definition SessionManager_MultiUserIsolation : test :=
  let* admin := login manager_sessions "Admin" UserRole.SysAdmin 0 10 in
  let* guest := login manager_sessions "Guest" UserRole.Viewer 0 1 in
  let* a := trySpawnProcess (snd admin) in
  let* b := trySpawnProcess (snd guest) in
  let* c := trySpawnProcess (snd guest) in
  let* d := trySpawnProcess (snd admin) in
  Ret [fst admin; fst guest; a; b; negb c; d].

Definition SessionManager_PreventDuplicateLogin : test :=
  let* r1 := login manager_sessions "Operator" UserRole.Operator 100 5 in
  let* r2 := login manager_sessions "Operator" UserRole.Operator 100 5 in
  Ret [fst r1; negb (fst r2)].

Definition SessionManager_MaxSessionsLimit : test :=
  let* ok := login_n manager_sessions (Z.to_nat MAX_USERS_SESSIONS) 0 in
  let* over := login manager_sessions "UserOverflow" UserRole.Viewer 99 1 in
  Ret (ok ++ [negb (fst over)]).

Definition Belt_Integration_BasicPushPop : test :=
  push manager_belt (weighing 50 1) ;;
  let* n1 := load current_items_count in
  let* out := pop manager_belt in
  let* n2 := load current_items_count in
  Ret [EXPECT_EQ n1 1; EXPECT_EQ (id out) 1; EXPECT_EQ n2 0].

Definition Dispatcher_FullTruckTriggersDeparture : test :=
  put_truck (mkTruckState true 42 0 1 d_zero d_zero (d_ofZ 100) (d_ofZ 10)) ;;
  push manager_belt (mkPackage 0 0 0 PackageType.None PackageStatus.Normal (d_ofZ 10) (d_lit 5 10) 0 0 (history zero_Package) 0) ;;
  processNextPackage manager_dispatcher ;;
  let* sig := receiveSignalNonBlocking 42 in
  Ret [EXPECT_EQ (signal_to_int sig) (signal_to_int SIGNAL_DEPARTURE)].

(** The tests with a second thread: its call blocks until the first thread has
    made room, and then completes. *)
Definition blocks_until (setup : prog unit) (call : prog unit) (release : prog unit) : bool :=
  match exec 100 42 setup owner_world [] with
  | Done _ w _ =>
      match exec 100 43 call w [] with
      | Blocked w' =>
          match exec 100 42 release w' [] with
          | Done _ w'' _ => match exec 100 43 call w'' [] with Done _ _ _ => true | _ => false end
          | _ => false
          end
      | _ => false
      end
  | _ => false
  end.

Definition SemaphoreBlockingLogic : bool := blocks_until lockBelt (lockBelt ;; unlockBelt) unlockBelt.

Definition Belt_Integration_BlockingConsumer : bool :=
  blocks_until skip (let* _ := pop manager_belt in skip) (let* _ := push manager_belt zero_Package in skip).

(** [push] [n] times. *)
Fixpoint push_n (n : nat) : prog unit :=
  match n with
  | O => skip
  | S m => push manager_belt zero_Package ;; push_n m
  end.

Definition Belt_Integration_BlockingProducer : bool :=
  blocks_until (push_n (Z.to_nat MAX_BELT_CAPACITY_K)) (let* _ := push manager_belt zero_Package in skip)
    (let* _ := pop manager_belt in skip).

Definition BlockingSignalReception : bool :=
  blocks_until skip (let* _ := receiveSignalBlocking 43 in skip) (sendSignal 43 SIGNAL_DEPARTURE).

Example manager_tests_pass :
  InitializationAsOwner &&
  forallb (passes_in owner_world [])
    [SharedMemorySync; MessageQueueCommunication; SemaphoreSanity; SessionManager_BasicLifecycle; SessionManager_MultiUserIsolation;
     SessionManager_PreventDuplicateLogin; SessionManager_MaxSessionsLimit; Belt_Integration_BasicPushPop;
     Dispatcher_FullTruckTriggersDeparture] &&
  SemaphoreBlockingLogic && Belt_Integration_BlockingConsumer && Belt_Integration_BlockingProducer && BlockingSignalReception = true.
Proof. vm_compute. reflexivity. Qed.

(** ** [config_test.cpp] *)

(** The environment with one variable set. *)
Definition env_with (key value : string) : environ := fun k => if String.eqb k key then Some value else None.

Example config_tests_pass :
  getEnv (fun _ => None) "NON_EXISTENT_VAR" "default_value" = "default_value" /\
  getEnv (env_with "TEST_MY_VAR" "12345") "TEST_MY_VAR" "default" = "12345" /\
  map dispatchLogLevel ["debug"; "DEBUG"; "warn"; "err"; "off"] = [lvl_debug; lvl_debug; lvl_warn; lvl_err; lvl_off] /\
  map dispatchLogLevel ["random_string"; ""] = [lvl_info; lvl_info] /\
  getEnv (env_with "LOG_TO_CONSOLE" "true") "LOG_TO_CONSOLE" "" = "true" /\
  getEnv (env_with "LOG_TO_CONSOLE" "false") "LOG_TO_CONSOLE" "" = "false".
Proof. vm_compute. repeat split. Qed.
